(* ===== verification/_CoqProject ===== *)
-Q . S2P
Prelude.v
PyText.v
PyFloat.v
Percentile.v
Rounding.v
Encoder.v
Parser.v
Dict.v
Store.v
StoreSpec.v
Eviction.v
Crc32.v
Rdb.v
AofFile.v
AofLog.v
Config.v
Security.v
Master.v
Commands.v
Server.v
Client.v
Snapshots.v
Recovery.v
Memory.v
Replica.v
Requests.v
ClientView.v
Benchmark.v
Report.v
EndToEnd.v
System.v
Follower.v
Durability.v
Shutdown.v
Deadlines.v
Lifecycle.v
