(* ===== verification/Prelude.v ===== *)
(** * BYO-Redis, verified

    A development about BYO-Redis, a Redis subset written in Python with asyncio
    ([src/byo_redis/]), and its two clients, the benchmark ([src/tools/]) and the
    end-to-end script ([src/docs/]).  It models the program's own logic as executable
    functions and small step relations and proves what makes it correct: what
    the wire protocol means, what the keyspace holds, what survives a crash, a
    restart, a shutdown and a failing disk, and what replicas see.

    ** The program

    A client's bytes are cut into messages by the RESP parser; the server turns a
    message into a command, checks the password, runs the handler of the registry
    on the store, enforces the memory limit, appends the command to the
    append-only file (AOF) and propagates it to the replicas.  Background tasks
    expire keys, save snapshots (RDB), rewrite the AOF and drain replica links.
    At start-up the AOF or the snapshot rebuilds the store.  A replica connects
    to its master, loads a snapshot and applies the command stream.  [cli.py] runs
    the server until a signal and shuts it down.

    ** Files

    - [Prelude], [PyText], [PyFloat]: bytes and text (a Python [str] is its UTF-8
      encoding), exceptions as [result], [int()], [str()], [repr()], UTF-8
      decoding, binary64 floats as far as the program computes with them; the
      tactics, hint databases and generic lemmas.
    - [Encoder], [Parser]: [protocol/encoder.py], [protocol/parser.py].
    - [Dict], [Store], [StoreSpec], [Eviction]: Python dicts in insertion order;
      [storage/store.py], [types.py], [expiry.py]; the finite map of live entries
      that the store implements, and the refinement; the memory limit.
    - [Crc32], [Rdb]: [persistence/rdb.py], the snapshot format byte for byte.
    - [AofFile], [AofLog]: [persistence/aof.py], reading, replaying and rewriting
      the log; the queue, the writer and the fsync task as interleaved steps.
    - [Config], [Security]: [config.py]; [_validate_network_security].
    - [Master]: [replication/master.py], links, full resync and propagation as
      interleaved steps.
    - [Commands]: the server object, the handlers of [commands/*.py] and the
      registry.  [Server]: [_execute_inner], messages, connections, start-up and
      the background tasks of [server.py].
    - [Client]: the read loop of [handle_client] with its timeouts, and the
      connections of a server over its life.
    - [Snapshots]: background and periodic saves, and restarting from a snapshot.
    - [Recovery]: commands as operations of the abstract map, what a session of
      commands leaves in the log, and replaying it.
    - [Memory]: the memory limit over the life of a server.
    - [Replica]: [replication/replica.py], handshake, snapshot transfer, command
      stream, as computations in a state and error monad over one connection.
    - [System]: the server with its clients, tasks and links as one transition
      system; convergence of replicas.
      [Follower]: a replica that serves clients while it follows its master.
    - [Requests]: the client side of a connection in [tools/benchmark.py] and
      [docs/_qa_e2e_verify.py], and the interface [Service] between a client and
      a server.  [ClientView]: the abstract server that clients see (a finite map
      and the time), the class [Answering] of the services that behave like it,
      and the server as an instance.
    - [Percentile], [Rounding], [Benchmark], [Report]: [tools/benchmark.py], the
      percentiles in binary64; the monotonicity of [round]; the workers as
      interleaved round trips, the split of the requests; [run_benchmark] as a whole
      and its report.
    - [EndToEnd]: the sections of [docs/_qa_e2e_verify.py] on commands, snapshots
      and the log, over servers that are started, killed and started again.
    - [Durability], [Shutdown]: restarting on the log in any reachable state, the
      rewritten log, and [stop].
    - [Deadlines]: deadlines and expiries in the log and in the command stream.
    - [Lifecycle]: [start], [serve_forever] and [stop] with the listening socket and
      the background tasks, [start] and [stop] of the replica client, and [_run]
      and [main] of [cli.py].

    ** How the code is modelled

    Pure code is a function; a method that changes an object takes the record of
    its fields and returns a new one; an exception is [Err].  Between two
    [await]s asyncio code is atomic, so the tasks are step functions and their
    interleavings are the step relations [log_step] ([AofLog]), [link_step] and
    [master_step] ([Master]), [conn_step] ([Client]), [meanwhile] and [writing_step]
    ([Snapshots]), [system_step] ([System]) and [bench_step] ([Benchmark]).  Write
    commands, snapshots and rewrites hold the write lock from beginning to end and
    are single steps.  The end of a connection is two steps, since the connection
    is counted until [wait_closed] returns; the thread of a background save takes one
    step per system call on the temporary file that it shares with SAVE; [stop] lets
    the other tasks go on at each of its waits ([late_activity]).  A client of
    [Requests] talks to the server through [ClientView.server_service]: the read loop
    of its connection with both timeouts, on reads that a [Network] decides.  What the outside
    world decides is an argument: clock readings, [random.sample], the outcome
    of every system call, what a read returns and when ([World], [ReadEvent],
    [write_outcome], [rewrite_outcome]).  Integers are unbounded in Python and
    are [Z]; [struct.pack] limits them where the code packs them.

    Fuel: [try_parse] gets one unit per array nesting level that the limit
    allows, [feed] one per buffered byte, [enforce_memory_limit] one per key,
    the readers of the snapshot one per byte.  [feed_terminates],
    [rdb_load_total] and [enforce_memory_limit_spec] show that they never run
    out.  The bound of 32,000,000 bytes in the theorems about reading a log is
    the buffer limit of the parser that [read_commands] creates.  The bound of
    [2 ^ 31] values in [percentile_nearest_rank] and [run_benchmark_reports] leaves room for the rounding of
    the product and the sum in the rank.

    ** What is shown

    - Durability and recovery: [restart_restores] (restart on the log in any
      reachable state, rewrites and evictions included), [signal_shutdown_durable]
      (the whole process from its start to its end by a signal),
      [aof_crash_recovery] (any interleaving, any loss of unsynced bytes),
      [rdb_save_restore], [bgsave_point_in_time], and the detection of damaged or
      cut snapshots.
    - Replication: [replication_stream] (every replica is sent its snapshot and
      then every command, in order, as long as its link is alive), [replicas_converge] (a replica that has
      read what it was sent equals the master) and [replica_reads_prefix] (clients
      of a replica see the history of the master in order, without gaps, and cannot
      write).
    - Clients: [client_refinement] (what any clients see is the abstract server,
      deadlines included), [benchmark_completes] (the benchmark always ends, with
      exactly its requests made), [run_benchmark_reports] (its report is complete
      and in order), [percentile_nearest_rank], and the sections of
      the end-to-end script, which pass for any clock that does not go back when the
      commands arrive within the timeouts ([qa_rdb_crash_pass], [qa_commands_pass],
      [qa_aof_pass]).
    - Keyspace: [store_refinement] against the map of live entries,
      [store_invariant], eviction and the memory limit ([memory_limit_holds]).
    - Protocol: round trips, independence of chunking up to the whole connection
      ([client_stream]), limits, termination.
    - Security and connections: [auth_gate], [auth_lockout], [connections_ok],
      [bind_guard], [config_validated].
    - Defects that modelling showed, each as a theorem about the code as it is:
      [psync_bypasses_auth], [overflow_leaves_stale_replica],
      [replica_loses_commands], [rewrite_breaks_restart],
      [partial_timer_not_reset], [aof_short_write_acknowledged],
      [replay_loses_write], [expiry_not_replicated], [shutdown_waits_for_clients],
      [failed_start_not_stopped], [aof_full_queue_hang] and
      [save_during_bgsave_corrupts].

    The theorems about whole runs ([restart_restores], [replicas_converge],
    [replica_reads_prefix], [signal_shutdown_durable]) are about a master without
    a password whose disk works, commands that the log can hold and logs of at most
    32,000,000 bytes, and replicas that do not get the end of the snapshot and
    commands in one read ([replica_loses_commands]); the ones about clients of the
    server ([client_refinement], [benchmark_completes], [run_benchmark_reports],
    [qa_rdb_crash_pass]) about a master without a password and a memory limit and
    requests that arrive within the timeouts.  Each doc comment lists the
    conditions.  The former are also about commands that set no deadline: the log keeps
    relative seconds and replaying counts them from the time of the replay, so
    with deadlines a restart does not restore the same keyspace
    ([replay_loses_write]).  [client_refinement] covers deadlines.

    ** Not modelled

    [argparse], logging and the registration of signal handlers; the event loop
    and sockets themselves, whose outcomes are arguments; cancellation of tasks
    other than by [stop].  Python's recursion limit, which a configured
    [max_array_depth] of several hundred could reach.  An append to the log is one
    step of the command that makes it ([append_log]; [AofLog] has its parts): a read
    of another connection or an expiry round that runs meanwhile is before or after
    it.  SAVE is one step, between two system calls of the thread of a background
    save.  That reopening the log fails twice in one rewrite, and a rewrite that
    begins while the log is being closed.  [log_step] leaves out rewrites, which
    [Durability] covers, and short writes, which [aof_short_write_acknowledged] is
    about.  The snapshot and the log are two files: a configuration
    that gives both one path, which [config_from_args] accepts
    ([same_file_accepted]), is outside the theorems about them; [data_files_apart]
    says when they are different.  Of the end-to-end script the replication
    section, which polls two processes until a deadline on the clock, and the
    printing of the results; what the section looks for is [replicas_converge] and
    [replica_reads_prefix]. *)
From Stdlib Require Export ZArith Lia Bool.
From Corelib Require Export Init.Byte.
From Stdlib Require Import Strings.Byte Strings.String.
From stdpp Require Export base tactics decidable list gmap.
From stdpp Require Import strings.
Export String.StringSyntax.

(** ** Bytes and text *)

(** Python [bytes] (and [bytearray]) objects. *)
Abbreviation byte := Byte.byte.
Abbreviation bytes := (list Byte.byte).

(** A Python [str] is represented by its UTF-8 encoding, so that
    [s.encode("utf-8")] is the identity and equality, prefix tests and
    concatenation of [str] are those of the encodings. *)
Abbreviation str := (list Byte.byte).

#[global] Instance byte_eq_decision : EqDecision Byte.byte := Byte.byte_eq_dec.

Definition byte_of_N (n : N) : byte :=
  match Byte.of_N n with Some c => c | None => Byte.x00 end.

Lemma byte_of_to_N (c : byte) : byte_of_N (Byte.to_N c) = c.
Proof. unfold byte_of_N. by rewrite Byte.of_to_N. Qed.

#[global] Instance byte_countable : Countable Byte.byte :=
  inj_countable' Byte.to_N byte_of_N byte_of_to_N.

(** ASCII literals: [b "SET"] is Python's [b"SET"], [u "OK"] is ["OK"]. *)
Definition b (s : string) : bytes := String.list_byte_of_string s.
Definition u (s : string) : str := String.list_byte_of_string s.
Arguments b _%_string.
Arguments u _%_string.

(** The value of a byte, and the byte of a value modulo 256. *)
Definition byte_to_Z (c : byte) : Z := Z.of_N (Byte.to_N c).
Definition byte_of_Z (z : Z) : byte := byte_of_N (Z.to_N (z mod 256)).

Lemma byte_to_Z_bound c : (0 <= byte_to_Z c < 256)%Z.
Proof. unfold byte_to_Z. pose proof (Byte.to_N_bounded c). lia. Qed.

Lemma byte_to_N_of_N n : (n < 256)%N -> Byte.to_N (byte_of_N n) = n.
Proof.
  intros Hn. unfold byte_of_N. destruct (Byte.of_N n) as [c|] eqn:E.
  - by apply Byte.to_of_N.
  - apply Byte.of_N_None_iff in E. lia.
Qed.

Lemma byte_to_of_Z z : byte_to_Z (byte_of_Z z) = (z mod 256)%Z.
Proof.
  unfold byte_to_Z, byte_of_Z.
  pose proof (Z.mod_pos_bound z 256 ltac:(lia)).
  rewrite byte_to_N_of_N; lia.
Qed.

Lemma byte_of_to_Z c : byte_of_Z (byte_to_Z c) = c.
Proof.
  unfold byte_of_Z. rewrite Z.mod_small by apply byte_to_Z_bound.
  unfold byte_to_Z. rewrite N2Z.id. apply byte_of_to_N.
Qed.

#[global] Instance byte_to_Z_inj : Inj (=) (=) byte_to_Z.
Proof. intros x y H. by rewrite <- (byte_of_to_Z x), H, byte_of_to_Z. Qed.

(** Boolean equality of bytes and of byte strings. *)
Definition ceqb (x y : byte) : bool := Byte.eqb x y.
Definition beqb (x y : bytes) : bool := bool_decide (x = y).

Lemma ceqb_eq x y : ceqb x y = true <-> x = y.
Proof.
  split; [apply Byte.byte_dec_bl | apply Byte.byte_dec_lb].
Qed.

Lemma ceqb_refl x : ceqb x x = true.
Proof. by apply ceqb_eq. Qed.

Lemma ceqb_neq x y : ceqb x y = false <-> x <> y.
Proof. rewrite <- ceqb_eq. destruct (ceqb x y); naive_solver. Qed.

Lemma beqb_eq x y : beqb x y = true <-> x = y.
Proof. unfold beqb. apply bool_decide_eq_true. Qed.

Lemma beqb_refl x : beqb x x = true.
Proof. by apply beqb_eq. Qed.

Lemma beqb_neq x y : beqb x y = false <-> x <> y.
Proof. unfold beqb. apply bool_decide_eq_false. Qed.

(** [len(x)] *)
Definition zlen {A} (l : list A) : Z := Z.of_nat (length l).

Lemma zlen_nonneg {A} (l : list A) : (0 <= zlen l)%Z.
Proof. unfold zlen. lia. Qed.

Lemma zlen_app {A} (l k : list A) : zlen (l ++ k) = (zlen l + zlen k)%Z.
Proof. unfold zlen. rewrite length_app. lia. Qed.

(** Sums. *)
Definition zsum (l : list Z) : Z := foldr Z.add 0%Z l.

Lemma zsum_app l k : zsum (l ++ k) = (zsum l + zsum k)%Z.
Proof. unfold zsum. induction l as [|x l IH]; simpl; lia. Qed.

Lemma zlen_concat {A} (l : list (list A)) : zlen (concat l) = zsum (map zlen l).
Proof. induction l as [|x l IH]; [done|]. cbn [concat map zsum foldr]. rewrite zlen_app, IH. done. Qed.

#[export] Instance zsum_perm : Proper ((≡ₚ) ==> eq) zsum.
Proof. apply foldr_permutation_proper; [apply _|intros x ? ? ->; reflexivity|]. intros x y a. lia. Qed.

Lemma zlen_cons {A} (x : A) l : zlen (x :: l) = (1 + zlen l)%Z.
Proof. unfold zlen. simpl. lia. Qed.

Lemma zlen_nil {A} : zlen (@nil A) = 0%Z.
Proof. done. Qed.

(** ASCII case mapping: [bytes.upper()] and [bytes.lower()]. *)
Definition byte_upper (c : byte) : byte :=
  let n := Byte.to_N c in
  if (97 <=? n)%N && (n <=? 122)%N then byte_of_N (n - 32) else c.
Definition byte_lower (c : byte) : byte :=
  let n := Byte.to_N c in
  if (65 <=? n)%N && (n <=? 90)%N then byte_of_N (n + 32) else c.
Definition bytes_upper (s : bytes) : bytes := map byte_upper s.
Definition bytes_lower (s : bytes) : bytes := map byte_lower s.

(** ** Exceptions and results *)

(** The exceptions the modelled code raises or catches.  [OSError] carries
    the text of the exception; [ConnectionError] is the subclass raised on
    a closed stream.  [OutOfFuel] is not a Python exception: it marks the
    exhaustion of a recursion budget, and each function with a budget has a
    theorem saying that it is not returned. *)
Inductive exn :=
| WrongTypeError
| MemoryLimitError (msg : str)
| RespError (msg : str)
| ProtocolError (msg : str)
| RdbError (msg : str)
| AofError (msg : str)
| OSError (msg : str)
| ConnectionError (msg : str)
| ValueError (msg : str)
| UnicodeDecodeError
| StructError
| OverflowError
| AssertionError
| TypeError (msg : str)
| RuntimeError (msg : str)
| ZeroDivisionError
| OutOfFuel.

Inductive result (A : Type) :=
| Ok (a : A)
| Err (e : exn).
Arguments Ok {A} a.
Arguments Err {A} e.

Definition rbind {A B} (r : result A) (f : A -> result B) : result B :=
  match r with Ok a => f a | Err e => Err e end.

(** An awaited operation: it returns, or it waits for something that the other
    side of a connection has to do first. *)
Inductive awaited (A : Type) := Returns (x : A) | Waits.
Arguments Returns {A} x.
Arguments Waits {A}.

Definition rmap {A B} (f : A -> B) (r : result A) : result B :=
  match r with Ok a => Ok (f a) | Err e => Err e end.

Declare Scope py_scope.
Delimit Scope py_scope with py.
Notation "'let*' x ':=' r 'in' k" := (rbind r (fun x => k))
  (at level 10, x pattern, r at level 100, k at level 200) : py_scope.
Open Scope py_scope.

Definition is_ok {A} (r : result A) : bool :=
  match r with Ok _ => true | Err _ => false end.

Lemma rbind_ok {A B} (r : result A) (f : A -> result B) x :
  rbind r f = Ok x <-> exists a, r = Ok a /\ f a = Ok x.
Proof. destruct r; simpl; naive_solver. Qed.

Fixpoint rmapM {A B} (f : A -> result B) (l : list A) : result (list B) :=
  match l with
  | [] => Ok []
  | x :: l' => let* y := f x in let* ys := rmapM f l' in Ok (y :: ys)
  end.

Lemma rmapM_ok {A B} (f : A -> result B) l ys :
  rmapM f l = Ok ys <-> Forall2 (fun x y => f x = Ok y) l ys.
Proof.
  revert ys. induction l as [|x l IH]; intros ys; simpl.
  - split; [intros [=<-]; constructor | by inversion 1].
  - rewrite rbind_ok. split.
    + intros (y & Hy & Hr). apply rbind_ok in Hr as (ys' & Hl & Hys). inversion Hys; subst.
      constructor; [done | by apply IH].
    + inversion 1; subst. eexists. split; [done|].
      apply rbind_ok. eexists. split; [by apply IH | done].
Qed.

Lemma rmapM_pure {A B} (f : A -> result B) (g : A -> B) l :
  (forall x, x ∈ l -> f x = Ok (g x)) -> rmapM f l = Ok (map g l).
Proof.
  intros H. apply rmapM_ok. induction l as [|x l IH]; simpl; constructor.
  - apply H. set_solver.
  - apply IH. intros y Hy. apply H. set_solver.
Qed.

(** ** Tactics *)

(** [inv_ok] turns equations between results, options and pairs in the
    context into equations between their components. *)
Ltac inv_ok :=
  repeat match goal with
  | H : rbind _ _ = Ok _ |- _ => apply rbind_ok in H as (? & ? & ?)
  | H : Ok _ = Ok _ |- _ => injection H; clear H; intros; subst
  | H : Err _ = Err _ |- _ => injection H; clear H; intros; subst
  | H : Some _ = Some _ |- _ => injection H; clear H; intros; subst
  | H : (_, _) = (_, _) |- _ => injection H; clear H; intros; subst
  | H : Ok _ = Err _ |- _ => discriminate H
  | H : Err _ = Ok _ |- _ => discriminate H
  | H : Some _ = None |- _ => discriminate H
  | H : None = Some _ |- _ => discriminate H
  end.

(** [breflect] turns boolean tests in the context into propositions. *)
Ltac breflect :=
  repeat match goal with
  | H : andb _ _ = true |- _ => apply andb_true_iff in H as [? ?]
  | H : orb _ _ = false |- _ => apply orb_false_iff in H as [? ?]
  | H : negb _ = true |- _ => apply negb_true_iff in H
  | H : negb _ = false |- _ => apply negb_false_iff in H
  | H : (_ =? _)%Z = true |- _ => apply Z.eqb_eq in H
  | H : (_ =? _)%Z = false |- _ => apply Z.eqb_neq in H
  | H : (_ <=? _)%Z = true |- _ => apply Z.leb_le in H
  | H : (_ <=? _)%Z = false |- _ => apply Z.leb_gt in H
  | H : (_ <? _)%Z = true |- _ => apply Z.ltb_lt in H
  | H : (_ <? _)%Z = false |- _ => apply Z.ltb_ge in H
  | H : (_ =? _)%nat = true |- _ => apply Nat.eqb_eq in H
  | H : (_ =? _)%nat = false |- _ => apply Nat.eqb_neq in H
  | H : (_ <=? _)%nat = true |- _ => apply Nat.leb_le in H
  | H : (_ <=? _)%nat = false |- _ => apply Nat.leb_gt in H
  | H : (_ <? _)%nat = true |- _ => apply Nat.ltb_lt in H
  | H : (_ <? _)%nat = false |- _ => apply Nat.ltb_ge in H
  | H : (_ <? _)%N = true |- _ => apply N.ltb_lt in H
  | H : (_ <? _)%N = false |- _ => apply N.ltb_ge in H
  | H : (_ <=? _)%N = true |- _ => apply N.leb_le in H
  | H : (_ <=? _)%N = false |- _ => apply N.leb_gt in H
  | H : ceqb _ _ = true |- _ => apply ceqb_eq in H
  | H : ceqb _ _ = false |- _ => apply ceqb_neq in H
  | H : beqb _ _ = true |- _ => apply beqb_eq in H
  | H : beqb _ _ = false |- _ => apply beqb_neq in H
  | H : bool_decide _ = true |- _ => apply bool_decide_eq_true in H
  | H : bool_decide _ = false |- _ => apply bool_decide_eq_false in H
  end.

(** [case_if] splits on the first boolean test of the goal. *)
Ltac case_if :=
  match goal with
  | |- context [if ?c then _ else _] => destruct c eqn:?; breflect
  end.

(** ** Shared hints *)

Create HintDb redis discriminated.
Create Rewrite HintDb redis_simpl.
#[export] Hint Resolve zlen_nonneg byte_to_Z_bound : redis.
#[export] Hint Rewrite @zlen_app @zlen_cons @zlen_nil : redis_simpl.
#[export] Hint Rewrite beqb_refl ceqb_refl : redis_simpl.

(** ** Lists *)

Section lists.
Context {A : Type}.
Implicit Types l k : list A.

Lemma drop_app_exact l k n : n = length l -> drop n (l ++ k) = k.
Proof. intros ->. apply drop_app_length. Qed.

Lemma take_app_exact l k n : n = length l -> take n (l ++ k) = l.
Proof. intros ->. apply take_app_length. Qed.

Lemma lookup_app_exact l k n : n = length l -> (l ++ k) !! n = k !! 0%nat.
Proof. intros ->. rewrite lookup_app_r by lia. by rewrite Nat.sub_diag. Qed.

Lemma filter_all (P : A -> Prop) `{forall x, Decision (P x)} l : Forall P l -> filter P l = l.
Proof. induction 1; [done|]. rewrite filter_cons_True by done. by f_equal. Qed.

Lemma filter_none (P : A -> Prop) `{forall x, Decision (P x)} l :
  Forall (fun x => ~ P x) l -> filter P l = [].
Proof. induction 1; [done|]. by rewrite filter_cons_False. Qed.

Lemma sublist_Forall (P : A -> Prop) l k : Forall P l -> k `sublist_of` l -> Forall P k.
Proof. intros HF Hs. induction Hs; inversion HF; subst; auto. Qed.

End lists.
