(* ===== verification/PyText.v ===== *)
(** * Python's conversions between integers and text

    The parts of the language that the protocol, the persistence layer and
    the command handlers use on byte strings: [int(b)], [str(n)] /
    [f"{n:d}"], [repr] of bytes and of a one-character string, and UTF-8
    decoding with [errors="replace"] or in strict mode. *)
From S2P Require Import Prelude.
Local Open Scope Z_scope.

(** ** [int(b)] for a byte string, base 10 *)

(** The default of [sys.int_max_str_digits]. *)
Definition int_max_str_digits : Z := 4300.

(** C [isspace]: tab, line feed, vertical tab, form feed, carriage return, space. *)
Definition is_space (c : byte) : bool :=
  let z := byte_to_Z c in ((9 <=? z) && (z <=? 13)) || (z =? 32).

Definition digit_value (c : byte) : option Z :=
  let z := byte_to_Z c in
  if (48 <=? z) && (z <=? 57) then Some (z - 48) else None.

Fixpoint skip_spaces (l : bytes) : bytes :=
  match l with
  | c :: l' => if is_space c then skip_spaces l' else l
  | [] => []
  end.

(** Digits with single underscores between them; [under] says that the
    previous character was an underscore.  Returns the number of digits,
    the value and the unread rest. *)
Fixpoint scan_digits (l : bytes) (under : bool) (digits acc : Z) : option (Z * Z * bytes) :=
  match l with
  | [] => if under then None else Some (digits, acc, [])
  | c :: l' =>
      match digit_value c with
      | Some d => scan_digits l' false (digits + 1) (acc * 10 + d)
      | None =>
          if under then None
          else if ceqb c "_" then scan_digits l' true digits acc
          else Some (digits, acc, l)
      end
  end.

(** [int(l)]; [None] stands for [ValueError]. *)
Definition int_of_bytes (l : bytes) : option Z :=
  let '(neg, l2) :=
    match skip_spaces l with
    | c :: r => if ceqb c "+" then (false, r)
                else if ceqb c "-" then (true, r) else (false, c :: r)
    | [] => (false, [])
    end in
  match l2 with
  | [] => None
  | c :: _ =>
      if ceqb c "_" then None
      else
        match scan_digits l2 false 0 0 with
        | None => None
        | Some (digits, v, rest) =>
            if (digits =? 0) || (int_max_str_digits <? digits) then None
            else match skip_spaces rest with
                 | [] => Some (if neg then - v else v)
                 | _ :: _ => None
                 end
        end
  end.

(** ** [str(n)] *)

Definition digit (d : Z) : byte := byte_of_Z (48 + d).

Fixpoint dec_digits (fuel : nat) (n : Z) : bytes :=
  match fuel with
  | O => []
  | S f => if n <? 10 then [digit n] else dec_digits f (n / 10) ++ [digit (n mod 10)]
  end.

(** The fuel is the number of bits of [n], at least its number of digits. *)
Definition dec_nonneg (n : Z) : bytes := dec_digits (S (Z.to_nat (Z.log2 n))) n.

Definition str_of_int (n : Z) : str :=
  if n <? 0 then "-"%byte :: dec_nonneg (- n) else dec_nonneg n.

(** ** UTF-8 decoding *)

(** U+FFFD *)
Definition replacement_char : str := [Byte.xef; Byte.xbf; Byte.xbd].

Definition in_range (lo hi : Z) (c : byte) : bool :=
  (lo <=? byte_to_Z c) && (byte_to_Z c <=? hi).

Definition is_cont (c : byte) : bool := in_range 128 191 c.

(** The second bytes that may follow a three- or four-byte lead. *)
Definition second_ok (lead c : byte) : bool :=
  let l := byte_to_Z lead in
  if l =? 224 then in_range 160 191 c
  else if l =? 237 then in_range 128 159 c
  else if l =? 240 then in_range 144 191 c
  else if l =? 244 then in_range 128 143 c
  else is_cont c.

(** [l.decode("utf-8", errors="replace")]: each maximal ill-formed
    subsequence becomes U+FFFD. *)
Fixpoint utf8_replace (l : bytes) : str :=
  match l with
  | [] => []
  | c :: t =>
      if byte_to_Z c <? 128 then c :: utf8_replace t
      else if in_range 194 223 c then
        match t with
        | [] => replacement_char
        | d :: t1 =>
            if is_cont d then c :: d :: utf8_replace t1
            else replacement_char ++ utf8_replace t
        end
      else if in_range 224 239 c then
        match t with
        | [] => replacement_char
        | d :: t1 =>
            if second_ok c d then
              match t1 with
              | [] => replacement_char
              | e :: t2 =>
                  if is_cont e then c :: d :: e :: utf8_replace t2
                  else replacement_char ++ utf8_replace t1
              end
            else replacement_char ++ utf8_replace t
        end
      else if in_range 240 244 c then
        match t with
        | [] => replacement_char
        | d :: t1 =>
            if second_ok c d then
              match t1 with
              | [] => replacement_char
              | e :: t2 =>
                  if is_cont e then
                    match t2 with
                    | [] => replacement_char
                    | g :: t3 =>
                        if is_cont g then c :: d :: e :: g :: utf8_replace t3
                        else replacement_char ++ utf8_replace t2
                    end
                  else replacement_char ++ utf8_replace t1
              end
            else replacement_char ++ utf8_replace t
        end
      else replacement_char ++ utf8_replace t
  end.

(** [l.decode()]: well-formed input only. *)
Definition utf8_strict (l : bytes) : result str :=
  if beqb (utf8_replace l) l then Ok l else Err UnicodeDecodeError.

(** ** [repr] *)

Definition hex_digit (n : Z) : byte :=
  if n <? 10 then byte_of_Z (48 + n) else byte_of_Z (87 + n).

Definition hex_escape (z : Z) : str :=
  ["\"%byte; "x"%byte; hex_digit (z / 16); hex_digit (z mod 16)].

Definition apostrophe : byte := Byte.x27.
Definition dquote : byte := Byte.x22.

(** The escapes common to [repr(bytes)] and [repr(str)]. *)
Definition repr_char (quote c : byte) (printable : bool) (raw : str) : str :=
  let z := byte_to_Z c in
  if ceqb c quote || ceqb c "\" then ["\"%byte; c]
  else if z =? 9 then u "\t"
  else if z =? 10 then u "\n"
  else if z =? 13 then u "\r"
  else if printable then raw
  else hex_escape z.

Definition repr_quote (l : bytes) : byte :=
  if existsb (ceqb apostrophe) l && negb (existsb (ceqb dquote) l) then dquote else apostrophe.

(** [f"{l!r}"] for [bytes] *)
Definition repr_bytes (l : bytes) : str :=
  let q := repr_quote l in
  u "b" ++ [q] ++ concat (map (fun c => repr_char q c (in_range 32 126 c) [c]) l) ++ [q].

(** [f"{chr(c)!r}"] for a byte [c]: code points 0xa1..0xff but 0xad are
    printable and take two bytes in UTF-8. *)
Definition repr_chr (c : byte) : str :=
  let z := byte_to_Z c in
  let q := repr_quote [c] in
  let raw := if z <? 128 then [c] else [byte_of_Z (192 + z / 64); byte_of_Z (128 + z mod 64)] in
  let printable := in_range 32 126 c || (in_range 161 255 c && negb (z =? 173)) in
  [q] ++ repr_char q c printable raw ++ [q].

Example int_ex1 : int_of_bytes (b " -1_0 ") = Some (-10). Proof. reflexivity. Qed.
Example int_ex2 : int_of_bytes (b "1__0") = None. Proof. reflexivity. Qed.
Example int_ex3 : int_of_bytes (b "+007") = Some 7. Proof. reflexivity. Qed.
Example int_ex4 : int_of_bytes (b "- 7") = None. Proof. reflexivity. Qed.
Example str_ex1 : str_of_int (-1050) = b "-1050". Proof. reflexivity. Qed.
Example str_ex2 : str_of_int 0 = b "0". Proof. reflexivity. Qed.
Example repr_ex1 : repr_bytes (b "a'b" ++ [Byte.x00; Byte.xff]) = [Byte.x62; Byte.x22] ++ b "a'b\x00\xff" ++ [Byte.x22]. Proof. reflexivity. Qed.

(** ** Lemmas on decimal text *)

Lemma digit_value_digit d : 0 <= d < 10 -> digit_value (digit d) = Some d.
Proof.
  intros H. unfold digit_value, digit. rewrite byte_to_of_Z, Z.mod_small by lia.
  replace ((48 <=? 48 + d) && (48 + d <=? 57)) with true by lia. f_equal. lia.
Qed.

(** Decimal digits and the sign: the characters of [str(n)]. *)
Definition is_dec_char (c : byte) : Prop := (exists d, digit_value c = Some d) \/ c = "-"%byte.

Lemma digit_value_bound c d : digit_value c = Some d -> 48 <= byte_to_Z c <= 57.
Proof. unfold digit_value. case_if; intros; inv_ok; lia. Qed.

Lemma dec_fuel_step n : 10 <= n -> (Z.to_nat (Z.log2 (n / 10)) < Z.to_nat (Z.log2 n))%nat.
Proof.
  intros Hn. assert (1 <= n / 10) by (apply Z.div_le_lower_bound; lia).
  assert (n / 10 <= n / 2) by (apply Z.div_le_compat_l; lia).
  assert (Z.log2 (n / 10) <= Z.log2 (n / 2)) by (by apply Z.log2_le_mono).
  assert (Z.log2 (n / 2) = Z.log2 n - 1).
  { rewrite <- Z.div2_div, Z.div2_spec, Z.log2_shiftr by lia.
    assert (Z.log2 8 <= Z.log2 n) by (apply Z.log2_le_mono; lia).
    change (Z.log2 8) with 3 in *. lia. }
  pose proof (Z.log2_nonneg (n / 10)). lia.
Qed.

Lemma scan_dec_digits fuel n rest under digits acc :
  0 <= n -> (Z.to_nat (Z.log2 n) < fuel)%nat ->
  exists k, 0 < k /\ 10 ^ (k - 1) <= Z.max n 1 /\ zlen (dec_digits fuel n) = k /\
    scan_digits (dec_digits fuel n ++ rest) under digits acc =
    scan_digits rest false (digits + k) (acc * 10 ^ k + n).
Proof.
  revert n rest under digits acc. induction fuel as [|f IH]; intros n rest under digits acc Hn Hf; [lia|].
  simpl. destruct (n <? 10) eqn:E; breflect.
  - exists 1. simpl. rewrite digit_value_digit by lia.
    replace (10 ^ 1) with 10 by reflexivity. split_and!; [lia | lia | done | f_equal; lia].
  - pose proof (dec_fuel_step n E).
    assert (0 <= n / 10) by (apply Z.div_pos; lia).
    rewrite <- app_assoc.
    destruct (IH (n / 10) ([digit (n mod 10)] ++ rest) under digits acc) as (k & Hk & Hp & Hl & ->); [lia..|].
    exists (k + 1). autorewrite with redis_simpl. rewrite Hl. simpl.
    pose proof (Z.mod_pos_bound n 10 ltac:(lia)). rewrite digit_value_digit by lia.
    rewrite Z.pow_add_r by lia. pose proof (Z.div_mod n 10 ltac:(lia)).
    assert (1 <= n / 10) by (apply Z.div_le_lower_bound; lia).
    split_and!; [lia | | lia | f_equal; lia].
    replace (k + 1 - 1) with (1 + (k - 1)) by lia. rewrite Z.pow_add_r by lia. lia.
Qed.

Lemma dec_nonneg_scan n rest under digits acc :
  0 <= n ->
  exists k, 0 < k /\ 10 ^ (k - 1) <= Z.max n 1 /\ zlen (dec_nonneg n) = k /\
    scan_digits (dec_nonneg n ++ rest) under digits acc =
    scan_digits rest false (digits + k) (acc * 10 ^ k + n).
Proof. intros Hn. apply scan_dec_digits; lia. Qed.

Lemma dec_digits_chars fuel n :
  0 <= n -> Forall (fun c => exists d, digit_value c = Some d) (dec_digits fuel n).
Proof.
  revert n. induction fuel as [|f IH]; intros n Hn; simpl; [constructor|].
  case_if.
  - constructor; [|constructor]. eexists. apply digit_value_digit. lia.
  - apply Forall_app. split; [apply IH, Z.div_pos; lia|].
    constructor; [|constructor]. eexists. apply digit_value_digit.
    apply Z.mod_pos_bound. lia.
Qed.

Lemma dec_nonneg_nonempty n : 0 <= n -> exists c l, dec_nonneg n = c :: l /\ exists d, digit_value c = Some d.
Proof.
  intros Hn. destruct (dec_nonneg n) as [|c l] eqn:E.
  - destruct (dec_nonneg_scan n [] false 0 0 Hn) as (k & Hk & _ & Hl & _).
    rewrite E, zlen_nil in Hl. lia.
  - exists c, l. split; [done|]. pose proof (dec_digits_chars (S (Z.to_nat (Z.log2 n))) n Hn) as H.
    fold (dec_nonneg n) in H. rewrite E in H. by inversion H.
Qed.

Lemma str_of_int_chars n : Forall is_dec_char (str_of_int n).
Proof.
  unfold str_of_int. case_if; [constructor; [by right|]|].
  all: eapply Forall_impl; [apply dec_digits_chars; lia | by left].
Qed.

Lemma digit_not_space c d : digit_value c = Some d -> is_space c = false.
Proof. intros H%digit_value_bound. unfold is_space. lia. Qed.

Lemma digit_not_char c d x : digit_value c = Some d -> digit_value x = None -> ceqb c x = false.
Proof. intros H Hx. apply ceqb_neq. congruence. Qed.

(** Reading back a printed integer of at most 4300 digits. *)
Lemma int_of_str_of_int n : Z.abs n < 10 ^ int_max_str_digits -> int_of_bytes (str_of_int n) = Some n.
Proof.
  intros Hb. unfold int_of_bytes, str_of_int.
  assert (forall m, 0 <= m < 10 ^ int_max_str_digits ->
    exists c l d, dec_nonneg m = c :: l /\ digit_value c = Some d /\
    exists k, (k =? 0) || (int_max_str_digits <? k) = false /\
      scan_digits (c :: l) false 0 0 = Some (k, m, [])) as Hdec.
  { intros m Hm. destruct (dec_nonneg_nonempty m ltac:(lia)) as (c & l & E & d & Hd).
    destruct (dec_nonneg_scan m [] false 0 0 ltac:(lia)) as (k & Hk & Hp & Hl & Hs).
    rewrite app_nil_r, E in Hs. exists c, l, d. do 2 (split; [done|]). exists k. split.
    - apply orb_false_iff. split; [lia|]. apply Z.ltb_ge.
      destruct (Z.le_gt_cases k int_max_str_digits); [done|exfalso].
      assert (10 ^ int_max_str_digits <= 10 ^ (k - 1)) by (apply Z.pow_le_mono_r; lia).
      assert (1 <= 10 ^ (k - 1)) by (pose proof (Z.pow_pos_nonneg 10 (k - 1)); lia).
      assert (1 < int_max_str_digits) by done.
      assert (10 ^ 1 <= 10 ^ (k - 1)) by (apply Z.pow_le_mono_r; lia).
      lia.
    - rewrite Hs. simpl. repeat f_equal. }
  destruct (n <? 0) eqn:E; breflect.
  - destruct (Hdec (- n)) as (c & l & d & -> & Hd & k & Hk & Hs); [lia|].
    cbn -[scan_digits]. rewrite (digit_not_char c d "_") by done. rewrite Hs, Hk. simpl. f_equal. lia.
  - destruct (Hdec n) as (c & l & d & -> & Hd & k & Hk & Hs); [lia|].
    cbn -[scan_digits]. rewrite (digit_not_space c d) by done.
    rewrite (digit_not_char c d "+"), (digit_not_char c d "-"), (digit_not_char c d "_") by done.
    rewrite Hs, Hk. done.
Qed.

(** ** Lemmas on text *)

Lemma utf8_replace_ascii l : Forall (fun c => byte_to_Z c < 128) l -> utf8_replace l = l.
Proof.
  induction 1 as [|c l Hc Hl IH]; simpl; [done|].
  replace (byte_to_Z c <? 128) with true by lia. by rewrite IH.
Qed.

(** A printed number is not longer than the number. *)
Lemma str_of_int_short n : 0 <= n -> zlen (str_of_int n) <= Z.max n 1.
Proof.
  intros Hn. unfold str_of_int. replace (n <? 0) with false by lia. destruct (dec_nonneg_scan n [] false 0 0 Hn) as (k & Hk & Hp & Hl & _).
  rewrite Hl. pose proof (Z.pow_gt_lin_r 10 (k - 1)). lia.
Qed.
