(* ===== verification/PyFloat.v ===== *)
(** * Floats

    Python floats are IEEE 754 binary64 numbers.  The program computes with
    few of them: it divides milliseconds by 1000, subtracts clock readings, and
    compares and prints timeouts. *)
From S2P Require Import Prelude PyText.
Local Open Scope Z_scope.

(** A finite float is [mantissa * 2 ^ exponent]. *)
Inductive pyfloat := FNan | FNegInf | FPosInf | FFinite (mantissa exponent : Z).

#[global] Instance pyfloat_eq_decision : EqDecision pyfloat.
Proof. solve_decision. Defined.

Definition float_of_Z (n : Z) : pyfloat := FFinite n 0.

(** [x <= 0] *)
Definition float_le_0 (x : pyfloat) : bool :=
  match x with FNan | FPosInf => false | FNegInf => true | FFinite m _ => m <=? 0 end.

(** [a / d] rounded to the nearest integer, ties to even. *)
Definition round_div (a d : Z) : Z :=
  let q := a / d in
  let r := a mod d in
  if 2 * r <? d then q else if d <? 2 * r then q + 1 else if Z.even q then q else q + 1.

Lemma round_div_spec a d : 0 < d -> 2 * Z.abs (d * round_div a d - a) <= d.
Proof.
  intros Hd. unfold round_div. pose proof (Z.div_mod a d ltac:(lia)). pose proof (Z.mod_pos_bound a d Hd).
  repeat case_if; nia.
Qed.

(** The float nearest to [m * 2 ^ e]: 53 significant bits, a multiple of
    [2 ^ -1074], and infinity from [2 ^ 1024] on. *)
Definition round_binary64 (m e : Z) : pyfloat :=
  let k := Z.max 0 (Z.max (Z.log2 (Z.abs m) - 52) (- 1074 - e)) in
  let m' := round_div m (2 ^ k) in
  let e' := e + k in
  if (0 <=? e') && (2 ^ 1024 <=? Z.abs m' * 2 ^ e') then if m <? 0 then FNegInf else FPosInf
  else FFinite m' e'.

(** The exact difference of two dyadic numbers. *)
Definition dyadic_sub (m1 e1 m2 e2 : Z) : Z * Z :=
  let e := Z.min e1 e2 in (m1 * 2 ^ (e1 - e) - m2 * 2 ^ (e2 - e), e).

(** [x - y] *)
Definition float_sub (x y : pyfloat) : pyfloat :=
  match x, y with
  | FNan, _ | _, FNan | FPosInf, FPosInf | FNegInf, FNegInf => FNan
  | FPosInf, _ | _, FNegInf => FPosInf
  | FNegInf, _ | _, FPosInf => FNegInf
  | FFinite m1 e1, FFinite m2 e2 => let '(m, e) := dyadic_sub m1 e1 m2 e2 in round_binary64 m e
  end.

(** [x < y] *)
Definition float_lt (x y : pyfloat) : bool :=
  match x, y with
  | FNan, _ | _, FNan | FPosInf, _ | _, FNegInf => false
  | FNegInf, _ | _, FPosInf => true
  | FFinite m1 e1, FFinite m2 e2 => (dyadic_sub m1 e1 m2 e2).1 <? 0
  end.

(** [x + y] and [x * y] *)
Definition float_add (x y : pyfloat) : pyfloat :=
  match y with
  | FNan => FNan
  | FPosInf => float_sub x FNegInf
  | FNegInf => float_sub x FPosInf
  | FFinite m e => float_sub x (FFinite (- m) e)
  end.

Definition float_mul (x y : pyfloat) : pyfloat :=
  match x, y with
  | FNan, _ | _, FNan => FNan
  | FFinite m1 e1, FFinite m2 e2 => round_binary64 (m1 * m2) (e1 + e2)
  | FFinite m _, FPosInf | FPosInf, FFinite m _ => if m =? 0 then FNan else if m <? 0 then FNegInf else FPosInf
  | FFinite m _, FNegInf | FNegInf, FFinite m _ => if m =? 0 then FNan else if m <? 0 then FPosInf else FNegInf
  | FPosInf, FPosInf | FNegInf, FNegInf => FPosInf
  | FPosInf, FNegInf | FNegInf, FPosInf => FNegInf
  end.

(** [min(x, y)] *)
Definition float_min (x y : pyfloat) : pyfloat := if float_lt y x then y else x.

(** [f"{x:.0f}"] *)
Definition format_0f (x : pyfloat) : str :=
  match x with
  | FNan => u "nan"
  | FPosInf => u "inf"
  | FNegInf => u "-inf"
  | FFinite m e =>
      (if m <? 0 then u "-" else []) ++ str_of_int (if 0 <=? e then Z.abs m * 2 ^ e else round_div (Z.abs m) (2 ^ (- e)))
  end.

Example format_ex : map format_0f [FFinite 30 0; FFinite 5 (-1); FFinite 7 (-1); FFinite (-1) (-2); FPosInf] =
  [u "30"; u "2"; u "4"; u "-0"; u "inf"].
Proof. reflexivity. Qed.

(** 0.3 - 0.1 *)
Example sub_ex : float_sub (FFinite 5404319552844595 (-54)) (FFinite 3602879701896397 (-55)) = FFinite 7205759403792793 (-55).
Proof. vm_compute. reflexivity. Qed.

Example min_ex : float_min (FFinite 300 0) (FFinite 59 (-1)) = FFinite 59 (-1) /\ float_min FNan (FFinite 1 0) = FNan.
Proof. split; reflexivity. Qed.

(** ** The difference of clock readings *)

Lemma round_div_sign a d : 0 < d -> a <= 0 -> round_div a d <= 0.
Proof. intros Hd Ha. pose proof (round_div_spec a d Hd). apply Z.nlt_ge. intros Hr. assert (d * 1 <= d * round_div a d) by (apply Z.mul_le_mono_nonneg_l; lia). lia. Qed.

(** Rounding does not cross zero. *)
Lemma round_le_0 m e : m <= 0 -> float_le_0 (round_binary64 m e) = true.
Proof.
  intros Hm. unfold round_binary64. set (k := Z.max 0 _).
  assert (0 <= k) by apply Z.le_max_l. pose proof (round_div_sign m (2 ^ k) ltac:(apply Z.pow_pos_nonneg; lia) Hm).
  destruct (Z.eq_dec m 0) as [->|Hne].
  - assert (round_div 0 (2 ^ k) = 0) as -> by (unfold round_div; rewrite Z.div_0_l, Z.mod_0_l by (apply Z.pow_nonzero; lia); case_match; [done|lia]).
    rewrite Z.abs_0, Z.mul_0_l. replace (2 ^ 1024 <=? 0) with false by done. by rewrite andb_false_r.
  - case_match; [replace (m <? 0) with true by lia; done|]. simpl. lia.
Qed.

Lemma dyadic_sub_opp m1 e1 m2 e2 : (dyadic_sub m1 e1 m2 e2).1 = - (dyadic_sub m2 e2 m1 e1).1.
Proof. unfold dyadic_sub. rewrite (Z.min_comm e2 e1). simpl. lia. Qed.

(** When the elapsed time is not below the timeout, nothing remains of it. *)
Lemma float_elapsed m e x : x <> FNan -> float_lt x (FFinite m e) = false -> float_le_0 (float_sub (FFinite m e) x) = true.
Proof.
  intros Hx Hlt. destruct x as [| | |m' e']; try done. cbn [float_lt float_sub] in *.
  rewrite dyadic_sub_opp in Hlt. destruct (dyadic_sub m e m' e') as [d k]. apply round_le_0. cbn [fst] in Hlt. lia.
Qed.

(** The binary exponent of [a / d]: [2 ^ k <= a / d < 2 ^ (k + 1)]. *)
Definition ratio_log2 (a d : Z) : Z :=
  let k := Z.log2 a - Z.log2 d in
  if d * 2 ^ Z.max 0 k <=? a * 2 ^ Z.max 0 (- k) then k else k - 1.

(** The float nearest to [a / d] for [d > 0], which is what a decimal literal
    and a quotient of integers below [2 ^ 1023] are. *)
Definition float_of_ratio (a d : Z) : pyfloat :=
  if a =? 0 then FFinite 0 0
  else
    let k := Z.max (- 1074) (ratio_log2 (Z.abs a) d - 52) in
    FFinite (round_div (a * 2 ^ Z.max 0 (- k)) (d * 2 ^ Z.max 0 k)) k.

(** [x / y] *)
Definition float_div (x y : pyfloat) : result pyfloat :=
  match x, y with
  | _, FFinite 0 _ => Err ZeroDivisionError
  | FNan, _ | _, FNan | FPosInf, FPosInf | FPosInf, FNegInf | FNegInf, FPosInf | FNegInf, FNegInf => Ok FNan
  | FFinite _ _, (FPosInf | FNegInf) => Ok (FFinite 0 0)
  | FPosInf, FFinite m _ => Ok (if m <? 0 then FNegInf else FPosInf)
  | FNegInf, FFinite m _ => Ok (if m <? 0 then FPosInf else FNegInf)
  | FFinite m1 e1, FFinite m2 e2 =>
      Ok (float_of_ratio (m1 * Z.sgn m2 * 2 ^ Z.max 0 (e1 - e2)) (Z.abs m2 * 2 ^ Z.max 0 (e2 - e1)))
  end.

(** [round(x, n)]: the float nearest to the decimal nearest to [x]. *)
Definition round_digits (n : Z) (x : pyfloat) : pyfloat :=
  match x with
  | FFinite m e => float_of_ratio (if 0 <=? e then m * 2 ^ e * 10 ^ n else round_div (m * 10 ^ n) (2 ^ (- e))) (10 ^ n)
  | _ => x
  end.

(** 0.1, 1/3 and 0.999999 *)
Example ratio_ex : map (fun '(a, d) => float_of_ratio a d) [(1, 10); (1, 3); (999999, 1000000); (5, 1)] =
  [FFinite 7205759403792794 (-56); FFinite 6004799503160661 (-54); FFinite 9007190247541737 (-53); FFinite 5629499534213120 (-50)].
Proof. vm_compute. reflexivity. Qed.

(** [int(x)]: truncation towards zero. *)
Definition int_of_float (x : pyfloat) : result Z :=
  match x with
  | FNan => Err (ValueError (u "cannot convert float NaN to integer"))
  | FNegInf | FPosInf => Err OverflowError
  | FFinite m e => Ok (if 0 <=? e then m * 2 ^ e else Z.quot m (2 ^ (- e)))
  end.
