(* ===== verification/Percentile.v ===== *)
(** * Percentiles ([tools/benchmark.py], [percentile])

    The nearest-rank percentile of a list of latencies.  The rank is computed
    in floating point; for whole percentages and up to [2 ^ 31] values it is the
    exact one. *)
From stdpp Require Import sorting.
From S2P Require Import Prelude PyText PyFloat.
Local Open Scope Z_scope.

(** ** The function *)

(** [not (y < x)], the order by which [sorted] leaves its result ordered. *)
Definition float_le (x y : pyfloat) : Prop := float_lt y x = false.
#[export] Instance float_le_dec x y : Decision (float_le x y).
Proof. unfold float_le. apply _. Defined.

(** [sorted(values)] *)
Definition sorted (values : list pyfloat) : list pyfloat := merge_sort float_le values.

(** The literal 0.999999. *)
Definition almost_one : pyfloat := float_of_ratio 999999 1000000.

(** [int(n * ratio + 0.999999)] *)
Definition rank (n : Z) (ratio : pyfloat) : result Z :=
  int_of_float (float_add (float_mul (round_binary64 n 0) ratio) almost_one).

Definition percentile (values : list pyfloat) (ratio : pyfloat) : result pyfloat :=
  if bool_decide (values = []) then Err (ValueError (u "values must not be empty"))
  else if negb (negb (float_lt ratio (FFinite 0 0)) && bool_decide (ratio <> FNan) && negb (float_lt (FFinite 1 0) ratio)) then
    Err (ValueError (u "ratio must be between 0 and 1"))
  else
    let ordered := sorted values in
    let* r := rank (zlen ordered) ratio in
    let index := Z.min (zlen ordered - 1) (Z.max 0 (r - 1)) in
    match ordered !! Z.to_nat index with
    | Some x => Ok x
    | None => Err OutOfFuel
    end.

Example percentile_ex :
  map (fun p => percentile (map float_of_Z [5; 1; 4; 2; 3; 9; 8; 7; 6; 10]) (float_of_ratio p 100)) [0; 50; 95; 99; 100; 51] =
  map (fun n => Ok (float_of_Z n)) [1; 5; 10; 10; 10; 6].
Proof. vm_compute. reflexivity. Qed.

(** ** Rounding errors *)

(** Rounding moves a number by at most one part in [2 ^ 53].  [E] scales the
    numbers to integers. *)
Lemma round_error m e E :
  - 1074 <= e -> 0 <= e + E -> e + Z.max 0 (Z.log2 (Z.abs m) - 52) < 0 ->
  exists m' e', round_binary64 m e = FFinite m' e' /\ e <= e' < 0 /\
    2 ^ 53 * Z.abs (m' * 2 ^ (e' + E) - m * 2 ^ (e + E)) <= Z.abs m * 2 ^ (e + E).
Proof.
  intros He HE Hneg. unfold round_binary64. replace (Z.max 0 (Z.max _ _)) with (Z.max 0 (Z.log2 (Z.abs m) - 52)) by lia.
  set (k := Z.max 0 (Z.log2 (Z.abs m) - 52)) in *. replace (0 <=? e + k) with false by lia. cbn [andb].
  eexists _, _. split; [reflexivity|]. split; [lia|].
  replace (e + k + E) with (k + (e + E)) by lia. rewrite Z.pow_add_r, Z.mul_assoc by lia. rewrite <- Z.mul_sub_distr_r, Z.abs_mul, (Z.abs_eq (2 ^ (e + E))) by (apply Z.pow_nonneg; lia).
  rewrite Z.mul_assoc. apply Z.mul_le_mono_nonneg_r; [apply Z.pow_nonneg; lia|].
  pose proof (round_div_spec m (2 ^ k) ltac:(apply Z.pow_pos_nonneg; lia)) as Hr. rewrite (Z.mul_comm (2 ^ k)) in Hr.
  destruct (Z.eq_dec k 0) as [Hk|Hk].
  - rewrite Hk in *. change (2 ^ 0) with 1 in *. rewrite Z.mul_1_r in *. lia.
  - assert (2 ^ (k + 52) <= Z.abs m) as Hm.
    { transitivity (2 ^ Z.log2 (Z.abs m)); [apply Z.pow_le_mono_r; lia|]. apply Z.log2_spec.
      destruct (Z.eq_dec m 0) as [->|]; [exfalso; apply Hk; unfold k; done|lia]. }
    rewrite Z.pow_add_r in Hm by lia. change (2 ^ 53) with (2 * 2 ^ 52). lia.
Qed.

(** ** The rank *)

(** The literal of a whole percentage is within half a unit in the 54th place,
    and is at most one. *)
Definition percent_close (p : Z) : bool :=
  match float_of_ratio p 100 with
  | FFinite m e =>
      (-59 <=? e) && (e <=? -52) && (0 <? m) && (m <=? 2 ^ 53) &&
      (Z.abs (100 * (m * 2 ^ (e + 60)) - p * 2 ^ 60) <=? 6400)
  | _ => false
  end.

Lemma percent_cases (P : Z -> bool) p : forallb P (map Z.of_nat (seq 1 100)) = true -> 1 <= p <= 100 -> P p = true.
Proof. rewrite forallb_forall. intros H Hp. apply H, in_map_iff. exists (Z.to_nat p). split; [lia|]. apply in_seq. lia. Qed.

Lemma percents_close p : 1 <= p <= 100 -> percent_close p = true.
Proof. apply percent_cases. vm_compute. reflexivity. Qed.

Definition ratio_ok (ratio : pyfloat) : bool :=
  negb (float_lt ratio (FFinite 0 0)) && bool_decide (ratio <> FNan) && negb (float_lt (FFinite 1 0) ratio).

Lemma percents_ok p : 1 <= p <= 100 -> ratio_ok (float_of_ratio p 100) = true.
Proof. apply (percent_cases (fun p => ratio_ok (float_of_ratio p 100))). vm_compute. reflexivity. Qed.

Lemma round_small n : 0 <= n < 2 ^ 52 -> round_binary64 n 0 = FFinite n 0.
Proof.
  intros Hn. unfold round_binary64. assert (Z.log2 (Z.abs n) <= 52) as Hl.
  { rewrite Z.abs_eq by lia. transitivity (Z.log2 (2 ^ 52)); [apply Z.log2_le_mono; lia|]. by rewrite Z.log2_pow2. }
  replace (Z.max 0 _) with 0 by lia. change (2 ^ 0) with 1. unfold round_div. rewrite Z.div_1_r, Z.mod_1_r.
  change (2 * 0 <? 1) with true. cbv iota. rewrite Z.add_0_l. change (2 ^ 0) with 1. rewrite Z.mul_1_r.
  assert (2 ^ 52 < 2 ^ 1024) by (by apply Z.pow_lt_mono_r). by replace (2 ^ 1024 <=? Z.abs n) with false by lia.
Qed.

Lemma log2_lt_pow m k : 0 <= m < 2 ^ k -> 0 < k -> Z.log2 (Z.abs m) < k.
Proof.
  intros Hm Hk. rewrite Z.abs_eq by lia. destruct (Z.eq_dec m 0) as [->|]; [simpl; lia|]. apply Z.log2_lt_pow2; lia.
Qed.

(** [int(x)] of a number below one unit of [2 ^ E]. *)
Lemma int_of_scaled m e E : e < 0 -> 0 <= e + E -> 0 <= m -> int_of_float (FFinite m e) = Ok (m * 2 ^ (e + E) / 2 ^ E).
Proof.
  intros He HE Hm. unfold int_of_float. replace (0 <=? e) with false by lia. f_equal.
  rewrite Z.quot_div_nonneg by (try apply Z.pow_pos_nonneg; lia).
  replace (2 ^ E) with (2 ^ (- e) * 2 ^ (e + E)) by (rewrite <- Z.pow_add_r by lia; f_equal; lia).
  rewrite Z.div_mul_cancel_r; [done|apply Z.pow_nonzero; lia..].
Qed.

(** The arithmetic behind the constant 0.999999: [X] is [n * p / 100] and [Y] the
    sum, both in units of [2 ^ -60] with their rounding errors. *)
Lemma rank_arith n p R X Y :
  1 <= n <= 2 ^ 31 -> 1 <= p <= 100 -> Z.abs (100 * R - p * 2 ^ 60) <= 6400 ->
  2 ^ 53 * Z.abs (X - n * R) <= n * R ->
  2 ^ 53 * Z.abs (Y - (X + 9007190247541737 * 2 ^ 7)) <= X + 9007190247541737 * 2 ^ 7 ->
  Y / 2 ^ 60 = (n * p + 99) / 100.
Proof.
  intros Hn Hp HR HX HY. assert (Z.abs (100 * (n * R) - n * p * 2 ^ 60) <= 6400 * n) as HnR by nia.
  set (T := n * p) in *. set (P := n * R) in *. assert (0 <= T <= 100 * n) by (unfold T; nia). clearbody T P. clear R HR.
  pose proof (Z.div_mod (T + 99) 100 ltac:(lia)) as Hd. pose proof (Z.mod_pos_bound (T + 99) 100 ltac:(lia)) as Hb.
  set (q := (T + 99) / 100) in *. set (t := (T + 99) mod 100) in *. clearbody q t.
  change (2 ^ 31) with 2147483648 in *. change (2 ^ 53) with 9007199254740992 in *. change (2 ^ 7) with 128 in *.
  change (2 ^ 60) with 1152921504606846976 in *.
  assert (Z.abs (X - P) <= 128 * n + 2) by lia. assert (Z.abs (Y - (X + 9007190247541737 * 128)) <= 128 * n + 200) by lia.
  symmetry. apply (Z.div_unique _ _ _ (Y - 1152921504606846976 * q)); lia.
Qed.

(** For a whole percentage and at most [2 ^ 31] values the rank computed in
    floating point is the exact one, [n * p / 100] rounded up. *)
Lemma rank_exact n p : 1 <= n <= 2 ^ 31 -> 1 <= p <= 100 -> rank n (float_of_ratio p 100) = Ok ((n * p + 99) / 100).
Proof.
  intros Hn Hp. pose proof (percents_close p Hp) as Hc. unfold percent_close in Hc.
  destruct (float_of_ratio p 100) as [| | |mr er]; try done. rewrite !andb_true_iff, !Z.leb_le, Z.ltb_lt in Hc.
  destruct Hc as ((((He1 & He2) & Hm1) & Hm2) & Hr). unfold rank. rewrite round_small by lia. cbn [float_mul]. rewrite Z.add_0_l.
  assert (0 <= n * mr < 2 ^ 85) as Hnm by nia.
  destruct (round_error (n * mr) er 60) as (m1 & e1 & -> & He & Hx); [lia|lia|pose proof (log2_lt_pow (n * mr) 85 Hnm); lia|].
  replace almost_one with (FFinite 9007190247541737 (-53)) by reflexivity. cbn [float_add float_sub dyadic_sub].
  set (e2 := Z.min e1 (-53)). set (m2 := _ - _).
  assert (m2 * 2 ^ (e2 + 60) = m1 * 2 ^ (e1 + 60) + 9007190247541737 * 2 ^ 7) as Hm.
  { unfold m2. rewrite Z.mul_sub_distr_r, !Z.mul_opp_l, Z.sub_opp_r, <- !Z.mul_assoc, <- !Z.pow_add_r by lia. do 3 f_equal; lia. }
  rewrite (Z.abs_eq (n * mr)), <- !(Z.mul_assoc n mr) in Hx by lia.
  set (R := mr * 2 ^ (er + 60)) in *. set (X := m1 * 2 ^ (e1 + 60)) in *.
  assert (0 < R <= 2 ^ 61) as HR. { split; [apply Z.mul_pos_pos; [done|apply Z.pow_pos_nonneg; lia]|lia]. }
  assert (0 <= n * R <= 2 ^ 31 * 2 ^ 61) as HnR. { split; [|apply Z.mul_le_mono_nonneg]; lia. }
  assert (0 <= X <= 2 ^ 93) as HX by lia.
  assert (0 < 2 ^ (e2 + 60)) as He2p by (apply Z.pow_pos_nonneg; lia).
  assert (0 <= m2 < 2 ^ (52 - e2)) as Hm2b.
  { split; [apply (Z.mul_nonneg_cancel_r _ (2 ^ (e2 + 60))); lia|]. apply (Z.mul_lt_mono_pos_r (2 ^ (e2 + 60))); [done|]. rewrite <- Z.pow_add_r by lia.
    replace (52 - e2 + (e2 + 60)) with 112 by lia. lia. }
  destruct (round_error m2 e2 60) as (m3 & e3 & -> & He3 & HY); [lia|lia|pose proof (log2_lt_pow m2 (52 - e2) Hm2b); lia|].
  rewrite (Z.abs_eq m2), Hm in HY by lia. set (Y := m3 * 2 ^ (e3 + 60)) in *.
  assert (0 <= m3) as Hm3. { apply (Z.mul_nonneg_cancel_r _ (2 ^ (e3 + 60))); [apply Z.pow_pos_nonneg|fold Y]; lia. }
  rewrite (int_of_scaled m3 e3 60) by lia. fold Y. f_equal. by apply (rank_arith n p R X Y).
Qed.

(** ** The order of finite floats *)

Definition is_finite (x : pyfloat) : bool := match x with FFinite _ _ => true | _ => false end.

Lemma float_lt_scaled m1 e1 m2 e2 E :
  E <= e1 -> E <= e2 -> float_lt (FFinite m1 e1) (FFinite m2 e2) = (m1 * 2 ^ (e1 - E) <? m2 * 2 ^ (e2 - E)).
Proof.
  intros H1 H2. unfold float_lt, dyadic_sub. cbn [fst]. set (F := Z.min e1 e2).
  assert (0 < 2 ^ (F - E)) as Hp by (apply Z.pow_pos_nonneg; lia).
  assert (forall m e, F <= e -> m * 2 ^ (e - E) = m * 2 ^ (e - F) * 2 ^ (F - E)) as Hs.
  { intros m e He. rewrite <- Z.mul_assoc, <- Z.pow_add_r by lia. do 2 f_equal. lia. }
  rewrite (Hs m1 e1), (Hs m2 e2) by lia. apply eq_true_iff_eq. rewrite !Z.ltb_lt, <- Z.mul_lt_mono_pos_r by done. lia.
Qed.

#[export] Instance float_le_total : Total float_le.
Proof.
  intros [| | |m1 e1] [| | |m2 e2]; unfold float_le; cbn [float_lt]; auto. rewrite (dyadic_sub_opp m1 e1 m2 e2). lia.
Qed.

Lemma float_le_trans x y z : is_finite x = true -> is_finite y = true -> is_finite z = true -> float_le x y -> float_le y z -> float_le x z.
Proof.
  destruct x as [| | |m1 e1], y as [| | |m2 e2], z as [| | |m3 e3]; try done. intros _ _ _. unfold float_le.
  rewrite !(float_lt_scaled _ _ _ _ (Z.min e1 (Z.min e2 e3))) by lia. lia.
Qed.

Definition all_finite (l : list pyfloat) : Prop := Forall (fun x => is_finite x = true) l.

Lemma sorted_strongly l : all_finite l -> Sorted float_le l -> StronglySorted float_le l.
Proof.
  intros Hf Hs. induction Hs as [|x l Hs IH Hd]; [constructor|]. apply Forall_cons in Hf as [Hx Hf]. specialize (IH Hf).
  constructor; [done|]. inversion Hd as [|y l' Hxy]; subst; [done|]. inversion IH as [|? ? IH' Hall]; subst.
  apply Forall_cons in Hf as [Hy Hf]. constructor; [done|].
  rewrite Forall_forall in *. intros z Hz. apply (float_le_trans x y z); auto.
Qed.

#[export] Instance all_finite_perm : Proper ((≡ₚ) ==> iff) all_finite.
Proof. unfold all_finite. by intros l l' ->. Qed.

#[export] Instance zlen_perm : Proper ((≡ₚ) ==> eq) (@zlen pyfloat).
Proof. intros l l' Hl. unfold zlen. by rewrite Hl. Qed.

Lemma sorted_perm l : sorted l ≡ₚ l.
Proof. apply merge_sort_Permutation. Qed.

Lemma sorted_ordered l : all_finite l -> StronglySorted float_le (sorted l).
Proof. intros Hf. apply sorted_strongly; [by rewrite sorted_perm|]. apply Sorted_merge_sort, _. Qed.

(** In an ordered list, the first [i + 1] elements are at most the element at
    [i], and those from [i] on are at least it. *)
Lemma ordered_split l i x :
  all_finite l -> StronglySorted float_le l -> l !! i = Some x ->
  Forall (fun y => float_le y x) (take (S i) l) /\ Forall (fun y => float_le x y) (drop i l).
Proof.
  intros Hf Hs. revert i. induction Hs as [|y l Hs IH Hall]; intros i Hi; [done|]. apply Forall_cons in Hf as [Hy Hf].
  assert (float_le y y) as Hyy by (destruct (total float_le y y); done).
  destruct i as [|i]; simpl in *; [simplify_eq; split; by constructor|]. destruct (IH Hf i Hi) as [H1 H2]. split; [|done].
  constructor; [|done]. rewrite Forall_forall in Hall. apply Hall. by apply (list_elem_of_lookup_2 _ i).
Qed.

(** ** Properties *)

(** How many of the values are at most, and at least, [x]. *)
Definition at_most (l : list pyfloat) (x : pyfloat) : Z := zlen (filter (fun y => float_le y x) l).
Definition at_least (l : list pyfloat) (x : pyfloat) : Z := zlen (filter (fun y => float_le x y) l).

Lemma filter_count (P : pyfloat -> Prop) `{!forall x, Decision (P x)} l l1 l2 :
  l ≡ₚ l1 ++ l2 -> Forall P l1 -> zlen l1 <= zlen (filter P l).
Proof.
  intros Hl Hall. assert (filter P l ≡ₚ filter P l1 ++ filter P l2) as -> by (by rewrite Hl, filter_app).
  rewrite zlen_app, filter_all by done. pose proof (zlen_nonneg (filter P l2)). lia.
Qed.

(** The value at the rank. *)
Lemma percentile_rank values p :
  values <> [] -> zlen values <= 2 ^ 31 -> 1 <= p <= 100 ->
  let r := (zlen values * p + 99) / 100 in
  1 <= r <= zlen values /\ exists x, percentile values (float_of_ratio p 100) = Ok x /\ sorted values !! Z.to_nat (r - 1) = Some x.
Proof.
  intros Hne Hn Hp r. set (n := zlen values) in *. assert (1 <= n) as Hn1 by (unfold n; destruct values; [done|rewrite zlen_cons; pose proof (zlen_nonneg values); lia]).
  unfold percentile. rewrite bool_decide_false by done. fold (ratio_ok (float_of_ratio p 100)). rewrite percents_ok by done. cbn [negb].
  assert (zlen (sorted values) = n) as -> by (by rewrite sorted_perm). rewrite rank_exact by lia. cbn [rbind]. fold r.
  assert (1 <= r < n + 1) as Hr by (unfold r; split; [apply Z.div_le_lower_bound|apply Z.div_lt_upper_bound]; nia). split; [lia|].
  replace (Z.min (n - 1) (Z.max 0 (r - 1))) with (r - 1) by lia.
  destruct (lookup_lt_is_Some_2 (sorted values) (Z.to_nat (r - 1))) as [x Hx].
  { rewrite (Permutation_length (sorted_perm values)). unfold n, zlen in *. lia. }
  rewrite Hx. by exists x.
Qed.

(** C38 Nearest-rank percentile.  For a whole percentage and a non-empty list of
    at most [2 ^ 31] finite values, in any order, [percentile] returns one of
    the values, at least [n * p / 100] of them (rounded up) are at most the result,
    and the others and the result itself are at least it: the rank that
    [int(n * ratio + 0.999999)] computes in floating point is never off. *)
Theorem percentile_nearest_rank values p :
  values <> [] -> zlen values <= 2 ^ 31 -> all_finite values -> 1 <= p <= 100 ->
  let n := zlen values in
  let r := (n * p + 99) / 100 in
  exists x, percentile values (float_of_ratio p 100) = Ok x /\ x ∈ values /\ r <= at_most values x /\ n - r + 1 <= at_least values x.
Proof.
  intros Hne Hn Hf Hp n r. destruct (percentile_rank values p Hne Hn Hp) as (Hr & x & Hpx & Hx). fold n in Hr, Hx. fold r in Hr, Hx.
  exists x. split; [done|]. split; [rewrite <- sorted_perm; by apply (list_elem_of_lookup_2 _ _ _ Hx)|].
  destruct (ordered_split (sorted values) _ x ltac:(by rewrite sorted_perm) (sorted_ordered values Hf) Hx) as [H1 H2]. split.
  - etrans; [|apply (filter_count (fun y => float_le y x) values _ (drop (S (Z.to_nat (r - 1))) (sorted values)) ltac:(by rewrite take_drop, sorted_perm) H1)].
    unfold zlen. rewrite length_take, (Permutation_length (sorted_perm values)). unfold n, zlen in *. lia.
  - etrans; [|apply (filter_count (fun y => float_le x y) values (drop (Z.to_nat (r - 1)) (sorted values)) (take (Z.to_nat (r - 1)) (sorted values))); [|exact H2]].
    + unfold zlen. rewrite length_drop, (Permutation_length (sorted_perm values)). unfold n, zlen in *. lia.
    + by rewrite Permutation_app_comm, take_drop, sorted_perm.
Qed.

Lemma percentile_nearest_rank_witness :
  exists x, percentile (map float_of_Z [30; 10; 20; 40]) (float_of_ratio 50 100) = Ok x /\ x ∈ map float_of_Z [30; 10; 20; 40] /\
    2 <= at_most (map float_of_Z [30; 10; 20; 40]) x.
Proof.
  destruct (percentile_nearest_rank (map float_of_Z [30; 10; 20; 40]) 50) as (x & H1 & H2 & H3 & _).
  - discriminate.
  - apply Z.leb_le. reflexivity.
  - repeat apply Forall_cons_2; try apply Forall_nil_2; reflexivity.
  - lia.
  - exists x. split; [exact H1|]. split; [exact H2|exact H3].
Defined.
