(* ===== verification/Rounding.v ===== *)
(** * Rounding keeps the order

    [round(x, n)] of two floats in order are in order: the quotient rounded to
    even, the float nearest to a ratio and the decimal nearest to a float are all
    monotone. *)
From S2P Require Import Prelude PyText PyFloat Percentile.
Local Open Scope Z_scope.

Lemma pow2_pos k : 0 <= k -> 0 < 2 ^ k.
Proof. intros Hk. by apply Z.pow_pos_nonneg. Qed.

(** ** Quotients *)

(** A tie goes to the even neighbour. *)
Lemma round_div_tie a d : 0 < d -> 2 * Z.abs (d * round_div a d - a) = d -> Z.even (round_div a d) = true.
Proof.
  intros Hd. unfold round_div. pose proof (Z.div_mod a d ltac:(lia)) as Hm. pose proof (Z.mod_pos_bound a d Hd) as Hb.
  set (q := a / d) in *. set (r := a mod d) in *. repeat case_match; intros Ht; try nia; [done|].
  rewrite Z.even_add. by replace (Z.even q) with false by (symmetry; done).
Qed.

Lemma round_div_mono a d a' d' : 0 < d -> 0 < d' -> a * d' <= a' * d -> round_div a d <= round_div a' d'.
Proof.
  intros Hd Hd' Hle. pose proof (round_div_spec a d Hd) as H1. pose proof (round_div_spec a' d' Hd') as H2.
  pose proof (round_div_tie a d Hd) as T1. pose proof (round_div_tie a' d' Hd') as T2.
  set (R := round_div a d) in *. set (R' := round_div a' d') in *. clearbody R R'. apply Z.nlt_ge. intros Hlt.
  assert (2 * (d * R - a) <= d /\ 2 * (a' - d' * R') <= d') as [L1 L2] by lia.
  assert (d' * (2 * (d * R - a)) <= d' * d) as L3 by (by apply Z.mul_le_mono_nonneg_l; [lia|]).
  assert (d * (2 * (a' - d' * R')) <= d * d') as L4 by (by apply Z.mul_le_mono_nonneg_l; [lia|]).
  assert (R = R' + 1) as -> by nia. assert (2 * (d * (R' + 1) - a) = d /\ 2 * (a' - d' * R') = d') as [E1 E2] by (split; nia).
  assert (Z.even (R' + 1) = true) as Ev1 by (apply T1; lia). assert (Z.even R' = true) as Ev2 by (apply T2; lia).
  rewrite Z.even_add, Ev2 in Ev1. done.
Qed.

Lemma round_div_scale a d a' d' : 0 < d -> 0 < d' -> a * d' = a' * d -> round_div a d = round_div a' d'.
Proof. intros Hd Hd' He. apply Z.le_antisymm; apply round_div_mono; try done; lia. Qed.

(** An integer is its own rounding. *)
Lemma round_div_exact n d : 0 < d -> round_div (n * d) d = n.
Proof. intros Hd. unfold round_div. rewrite Z.div_mul, Z.mod_mul by lia. by replace (2 * 0 <? d) with true by lia. Qed.

Lemma round_div_opp a d : 0 < d -> round_div (- a) d = - round_div a d.
Proof.
  intros Hd. pose proof (round_div_spec a d Hd) as H1. pose proof (round_div_tie a d Hd) as T1.
  pose proof (round_div_spec (- a) d Hd) as H2. pose proof (round_div_tie (- a) d Hd) as T2.
  set (R := round_div a d) in *. set (R' := round_div (- a) d) in *. clearbody R R'.
  assert (R' = - R \/ R' = - R + 1 \/ R' = - R - 1) as [He|[He|He]] by nia; [done| |]; exfalso; subst R'.
  - assert (2 * (d * R - a) = d) as E by nia. rewrite Z.even_add, Z.even_opp, T1 in T2 by lia. discriminate T2. lia.
  - assert (2 * (a - d * R) = d) as E by nia. rewrite Z.even_sub, Z.even_opp, T1 in T2 by lia. discriminate T2. lia.
Qed.

(** ** The float nearest to a ratio *)

Lemma log2_bounds a : 0 < a -> 2 ^ Z.log2 a <= a < 2 * 2 ^ Z.log2 a.
Proof. intros Ha. pose proof (Z.log2_spec a Ha) as H. rewrite Z.pow_succ_r in H by apply Z.log2_nonneg. lia. Qed.

(** [2 ^ k <= a / d < 2 ^ (k + 1)], scaled by [2 ^ E]. *)
Lemma ratio_log2_spec a d E :
  0 < a -> 0 < d -> let k := ratio_log2 a d in 0 <= k + E -> 0 <= E -> d * 2 ^ (k + E) <= a * 2 ^ E < d * 2 ^ (k + E + 1).
Proof.
  intros Ha Hd k HE HE0. pose proof (log2_bounds a Ha) as La. pose proof (log2_bounds d Hd) as Ld.
  pose proof (Z.log2_nonneg a). pose proof (Z.log2_nonneg d). set (x := Z.log2 a) in *. set (y := Z.log2 d) in *.
  assert (forall n, 0 <= n + E -> d * 2 ^ Z.max 0 n <= a * 2 ^ Z.max 0 (- n) <-> d * 2 ^ (n + E) <= a * 2 ^ E) as Hs.
  { intros n Hn. set (p := Z.max 0 n). set (q := Z.max 0 (- n)). replace (n + E) with (p + (E - q)) by lia. replace E with (q + (E - q)) at 2 by lia.
    rewrite !Z.pow_add_r, !Z.mul_assoc by lia. rewrite <- Z.mul_le_mono_pos_r; [done|]. apply pow2_pos. lia. }
  unfold k, ratio_log2 in *. fold x y in HE |- *. case_match eqn:Hc.
  - apply Z.leb_le, Hs in Hc; [|done]. split; [done|]. apply (Z.lt_le_trans _ (2 * 2 ^ x * 2 ^ E)); [apply Z.mul_lt_mono_pos_r; [by apply pow2_pos|lia]|].
    apply (Z.le_trans _ (2 ^ y * 2 ^ (x - y + E + 1))); [|apply Z.mul_le_mono_nonneg_r; [apply Z.pow_nonneg; lia|lia]].
    rewrite <- Z.pow_succ_r, <- !Z.pow_add_r by lia. apply Z.pow_le_mono_r; lia.
  - apply Z.leb_gt in Hc. split.
    + apply (Z.le_trans _ (2 * 2 ^ y * 2 ^ (x - y - 1 + E))); [apply Z.mul_le_mono_nonneg_r; [apply Z.pow_nonneg; lia|lia]|].
      apply (Z.le_trans _ (2 ^ x * 2 ^ E)); [|apply Z.mul_le_mono_nonneg_r; [apply Z.pow_nonneg; lia|lia]].
      rewrite <- Z.pow_succ_r, <- !Z.pow_add_r by lia. apply Z.pow_le_mono_r; lia.
    + replace (x - y - 1 + E + 1) with (x - y + E) by lia. apply Z.nle_gt. intros Hle. apply Hs in Hle; [lia|lia].
Qed.

(** The exponent of [float_of_ratio]. *)
Definition ratio_exp (a d : Z) : Z := Z.max (- 1074) (ratio_log2 (Z.abs a) d - 52).

(** The rounding of [a / d] to a multiple of [2 ^ k], in units of [2 ^ -E]. *)
Definition ulp_round (E k a d : Z) : Z := round_div (a * 2 ^ E) (d * 2 ^ (k + E)) * 2 ^ (k + E).

Lemma ratio_scaled a d E :
  0 < d -> 1074 <= E -> let k := ratio_exp a d in
  exists m e, float_of_ratio a d = FFinite m e /\ -1074 <= e /\ m * 2 ^ (e + E) = ulp_round E k a d.
Proof.
  intros Hd HE k. assert (-1074 <= k) as Hk by apply Z.le_max_l. assert (0 < d * 2 ^ (k + E)) as Hp by (apply Z.mul_pos_pos; [done|apply pow2_pos; lia]).
  unfold float_of_ratio, ulp_round. fold (ratio_exp a d). fold k. case_match eqn:E0.
  - apply Z.eqb_eq in E0 as ->. exists 0, 0. split; [done|]. split; [lia|]. 
    pose proof (round_div_exact 0 _ Hp) as H0. by rewrite !Z.mul_0_l in *; rewrite H0.
  - eexists _, k. split; [reflexivity|]. split; [done|]. f_equal. apply round_div_scale; [apply Z.mul_pos_pos; [done|apply pow2_pos; lia]|done|].
    set (p := Z.max 0 k). set (q := Z.max 0 (- k)). replace (k + E) with (p + (E - q)) by lia. replace E with (q + (E - q)) at 2 by lia.
    rewrite !Z.pow_add_r by lia. ring.
Qed.

(** A quotient below, or above, an integer [2 ^ p] rounds to at most, or at
    least, that. *)
Lemma round_div_le a d n : 0 < d -> a <= n * d -> round_div a d <= n.
Proof. intros Hd Ha. rewrite <- (round_div_exact n d Hd). apply round_div_mono; try done. nia. Qed.

Lemma round_div_ge a d n : 0 < d -> n * d <= a -> n <= round_div a d.
Proof. intros Hd Ha. rewrite <- (round_div_exact n d Hd) at 1. apply round_div_mono; try done. nia. Qed.

Lemma ratio_log2_mono a a' d : 0 < d -> 0 < a <= a' -> ratio_log2 a d <= ratio_log2 a' d.
Proof.
  intros Hd Ha. set (k := ratio_log2 a d). set (k' := ratio_log2 a' d). apply Z.nlt_ge. intros Hlt. set (E := Z.max 0 (- k')).
  destruct (ratio_log2_spec a d E ltac:(lia) Hd ltac:(lia) ltac:(lia)) as [H1 _]. destruct (ratio_log2_spec a' d E ltac:(lia) Hd ltac:(lia) ltac:(lia)) as [_ H2].
  fold k k' in H1, H2. assert (d * 2 ^ (k' + E + 1) <= d * 2 ^ (k + E)) by (apply Z.mul_le_mono_nonneg_l; [lia|apply Z.pow_le_mono_r; lia]).
  assert (a * 2 ^ E <= a' * 2 ^ E) by (apply Z.mul_le_mono_nonneg_r; [apply Z.pow_nonneg|]; lia). lia.
Qed.

Lemma ulp_round_mono a a' d E :
  0 < d -> 0 < a <= a' -> Z.max 1074 (- ratio_log2 a d) <= E -> ulp_round E (ratio_exp a d) a d <= ulp_round E (ratio_exp a' d) a' d.
Proof.
  intros Hd Ha HE. pose proof (ratio_log2_mono a a' d Hd Ha) as Hlog. unfold ratio_exp. rewrite !Z.abs_eq by lia.
  destruct (ratio_log2_spec a d E ltac:(lia) Hd ltac:(lia) ltac:(lia)) as [_ H1]. destruct (ratio_log2_spec a' d E ltac:(lia) Hd ltac:(lia) ltac:(lia)) as [H2 _].
  set (l := ratio_log2 a d) in *. set (l' := ratio_log2 a' d) in *. set (k := Z.max (-1074) (l - 52)). set (k' := Z.max (-1074) (l' - 52)). unfold ulp_round.
  assert (0 < 2 ^ (k + E) /\ 0 < 2 ^ (k' + E)) as [Hp Hp'] by (split; apply pow2_pos; lia).
  assert (0 < d * 2 ^ (k + E) /\ 0 < d * 2 ^ (k' + E)) as [Hq Hq'] by (split; by apply Z.mul_pos_pos).
  destruct (Z.eq_dec k k') as [->|Hne].
  - apply Z.mul_le_mono_nonneg_r; [lia|]. apply round_div_mono; [done..|]. apply Z.mul_le_mono_nonneg_r; [lia|].
    apply Z.mul_le_mono_nonneg_r; [apply Z.pow_nonneg|]; lia.
  - apply (Z.le_trans _ (2 ^ 53 * 2 ^ (k + E))); [apply Z.mul_le_mono_nonneg_r; [lia|]; apply round_div_le; [done|]|
      apply (Z.le_trans _ (2 ^ 52 * 2 ^ (k' + E))); [|apply Z.mul_le_mono_nonneg_r; [lia|]; apply round_div_ge; [done|]]].
    + apply (Z.le_trans _ (d * 2 ^ (l + E + 1))); [lia|]. rewrite (Z.mul_comm (2 ^ 53)), <- Z.mul_assoc, <- Z.pow_add_r by lia.
      apply Z.mul_le_mono_nonneg_l; [lia|]. apply Z.pow_le_mono_r; lia.
    + rewrite <- !Z.pow_add_r by lia. apply Z.pow_le_mono_r; lia.
    + etrans; [|exact H2]. rewrite (Z.mul_comm (2 ^ 52)), <- Z.mul_assoc, <- Z.pow_add_r by lia.
      apply Z.mul_le_mono_nonneg_l; [lia|]. apply Z.pow_le_mono_r; lia.
Qed.

Lemma ulp_round_opp E k a d : 0 < d * 2 ^ (k + E) -> ulp_round E k (- a) d = - ulp_round E k a d.
Proof. intros Hp. unfold ulp_round. rewrite Z.mul_opp_l, round_div_opp by done. ring. Qed.

Lemma ulp_round_0 E k d : 0 < d * 2 ^ (k + E) -> ulp_round E k 0 d = 0.
Proof. intros Hp. unfold ulp_round. pose proof (round_div_exact 0 _ Hp) as H0. rewrite !Z.mul_0_l in *. by rewrite H0. Qed.

Lemma ratio_exp_opp a d : ratio_exp (- a) d = ratio_exp a d.
Proof. unfold ratio_exp. by rewrite Z.abs_opp. Qed.

(** Whatever the signs. *)
Lemma ulp_round_le a a' d E :
  0 < d -> a <= a' -> Z.max 1074 (Z.max (- ratio_log2 (Z.abs a) d) (- ratio_log2 (Z.abs a') d)) <= E ->
  ulp_round E (ratio_exp a d) a d <= ulp_round E (ratio_exp a' d) a' d.
Proof.
  intros Hd Ha HE. assert (forall x, 0 < d * 2 ^ (ratio_exp x d + E)) as Hp.
  { intros x. apply Z.mul_pos_pos; [done|]. apply pow2_pos. unfold ratio_exp. lia. }
  assert (forall x, 0 <= x -> 0 <= ulp_round E (ratio_exp x d) x d) as Hnn.
  { intros x Hx. apply Z.mul_nonneg_nonneg; [|apply Z.pow_nonneg; lia]. apply round_div_ge; [done|]. pose proof (Z.pow_nonneg 2 E ltac:(lia)). nia. }
  assert (forall x, ulp_round E (ratio_exp x d) x d = - ulp_round E (ratio_exp (- x) d) (- x) d) as Hopp.
  { intros x. rewrite ratio_exp_opp, ulp_round_opp by done. lia. }
  destruct (decide (0 <= a)) as [H0|H0].
  - destruct (Z.eq_dec a 0) as [->|]; [rewrite ulp_round_0 by done; by apply Hnn|]. rewrite !Z.abs_eq in HE by lia. apply ulp_round_mono; lia.
  - destruct (decide (0 <= a')) as [H1|H1]; [pose proof (Hnn a' H1); pose proof (Hnn (- a) ltac:(lia)); rewrite (Hopp a); lia|].
    rewrite (Hopp a), (Hopp a'). apply -> Z.opp_le_mono. rewrite !Z.abs_neq in HE by lia. apply ulp_round_mono; lia.
Qed.

Lemma float_of_ratio_mono a a' d : 0 < d -> a <= a' -> float_le (float_of_ratio a d) (float_of_ratio a' d).
Proof.
  intros Hd Ha. set (E := Z.max 1074 (Z.max (- ratio_log2 (Z.abs a) d) (- ratio_log2 (Z.abs a') d))).
  destruct (ratio_scaled a d E Hd ltac:(lia)) as (m & e & -> & He & Hm). destruct (ratio_scaled a' d E Hd ltac:(lia)) as (m' & e' & -> & He' & Hm').
  unfold float_le. rewrite (float_lt_scaled _ _ _ _ (- E)) by lia. rewrite !Z.sub_opp_r, Hm, Hm'. apply Z.ltb_ge, (ulp_round_le a a' d E Hd Ha). lia.
Qed.

(** ** [round(x, n)] *)

Lemma decimal_mono n m e m' e' :
  0 <= n -> float_le (FFinite m e) (FFinite m' e') ->
  (if 0 <=? e then m * 2 ^ e * 10 ^ n else round_div (m * 10 ^ n) (2 ^ (- e))) <=
  (if 0 <=? e' then m' * 2 ^ e' * 10 ^ n else round_div (m' * 10 ^ n) (2 ^ (- e'))).
Proof.
  intros Hn Hle. assert (forall m e, (if 0 <=? e then m * 2 ^ e * 10 ^ n else round_div (m * 10 ^ n) (2 ^ (- e))) =
    round_div (m * 2 ^ Z.max 0 e * 10 ^ n) (2 ^ Z.max 0 (- e))) as Hs.
  { intros x y. case_match; [replace (Z.max 0 (- y)) with 0 by lia; replace (Z.max 0 y) with y by lia; rewrite <- (round_div_exact (x * 2 ^ y * 10 ^ n) 1) at 1 by lia; by rewrite Z.mul_1_r|].
    replace (Z.max 0 (- y)) with (- y) by lia. replace (Z.max 0 y) with 0 by lia. by rewrite Z.pow_0_r, Z.mul_1_r. }
  rewrite !Hs. apply round_div_mono; [apply pow2_pos; lia..|]. unfold float_le in Hle. set (E := Z.max 0 (Z.max (- e) (- e'))).
  rewrite (float_lt_scaled _ _ _ _ (- E)), !Z.sub_opp_r in Hle by lia. apply Z.ltb_ge in Hle.
  set (p := Z.max 0 e) in *. set (q := Z.max 0 (- e)). set (p' := Z.max 0 e'). set (q' := Z.max 0 (- e')).
  apply (Z.mul_le_mono_pos_r _ _ (2 ^ (E - q) * 2 ^ (E - q'))); [apply Z.mul_pos_pos; apply pow2_pos; lia|].
  replace (e + E) with (p + (E - q)) in Hle by lia. replace (e' + E) with (p' + (E - q')) in Hle by lia. rewrite !Z.pow_add_r in Hle by lia.
  replace (m * 2 ^ p * 10 ^ n * 2 ^ q' * (2 ^ (E - q) * 2 ^ (E - q'))) with (m * (2 ^ p * 2 ^ (E - q)) * (10 ^ n * (2 ^ q' * 2 ^ (E - q')))) by ring.
  replace (m' * 2 ^ p' * 10 ^ n * 2 ^ q * (2 ^ (E - q) * 2 ^ (E - q'))) with (m' * (2 ^ p' * 2 ^ (E - q')) * (10 ^ n * (2 ^ q * 2 ^ (E - q)))) by ring.
  rewrite <- !(Z.pow_add_r 2 q), <- !(Z.pow_add_r 2 q') by lia. replace (q' + (E - q')) with E by lia. replace (q + (E - q)) with E by lia.
  apply Z.mul_le_mono_nonneg_r; [|done]. apply Z.mul_nonneg_nonneg; apply Z.pow_nonneg; lia.
Qed.

(** Rounding to [n] decimals keeps the order of finite floats. *)
Lemma round_digits_mono n x y :
  0 <= n -> is_finite x = true -> is_finite y = true -> float_le x y -> float_le (round_digits n x) (round_digits n y).
Proof.
  intros Hn Hx Hy Hle. destruct x as [| | |m e], y as [| | |m' e']; try done. cbn [round_digits].
  apply float_of_ratio_mono; [by apply Z.pow_pos_nonneg|]. by apply decimal_mono.
Qed.
