(* ===== verification/Encoder.v ===== *)
(** * RESP2 encoders ([protocol/encoder.py])

    Python objects as the protocol layer sees them, and one definition per
    encoder.  The encoders that can raise return a [result]. *)
From S2P Require Import Prelude PyText.
Local Open Scope Z_scope.

(** ** Objects *)

(** The objects that the parser produces, the handlers return and
    [encode_value] inspects.  [PSimple] and [PRespError] are the two classes
    with a [to_resp] method, [PWithResp] an object with a [resp] attribute,
    [PErrorMsg] a [ProtocolErrorMsg], [PNoClientReply] the sentinel of
    [server.py].  [bytearray]/[memoryview] and [tuple] are not told apart from
    [bytes] and [list]. *)
Inductive pyobj :=
| PNone
| PBool (v : bool)
| PInt (v : Z)
| PBytes (v : bytes)
| PStr (v : str)
| PList (l : list pyobj)
| PSimple (value : str)
| PRespError (message : str)
| PWithResp (resp : bytes)
| PErrorMsg (message : str)
| PNoClientReply.

Fixpoint pyobj_rect' (P : pyobj -> Prop)
    (HNone : P PNone) (HBool : forall v, P (PBool v)) (HInt : forall v, P (PInt v))
    (HBytes : forall v, P (PBytes v)) (HStr : forall v, P (PStr v))
    (HList : forall l, Forall P l -> P (PList l))
    (HSimple : forall v, P (PSimple v)) (HResp : forall v, P (PRespError v))
    (HWith : forall v, P (PWithResp v)) (HMsg : forall v, P (PErrorMsg v))
    (HNo : P PNoClientReply) (o : pyobj) : P o :=
  let rec := pyobj_rect' P HNone HBool HInt HBytes HStr HList HSimple HResp HWith HMsg HNo in
  match o with
  | PNone => HNone
  | PBool v => HBool v
  | PInt v => HInt v
  | PBytes v => HBytes v
  | PStr v => HStr v
  | PList l =>
      HList l ((fix go (l : list pyobj) : Forall P l :=
                  match l with
                  | [] => Forall_nil_2 P
                  | x :: l' => Forall_cons_2 P x l' (rec x) (go l')
                  end) l)
  | PSimple v => HSimple v
  | PRespError v => HResp v
  | PWithResp v => HWith v
  | PErrorMsg v => HMsg v
  | PNoClientReply => HNo
  end.

(** ** Encoders *)

Definition CR : byte := Byte.x0d.
Definition LF : byte := Byte.x0a.
Definition CRLF : bytes := [CR; LF].

(** [b"\r" in value or b"\n" in value] *)
Definition has_crlf_char (l : bytes) : bool :=
  existsb (ceqb CR) l || existsb (ceqb LF) l.

Definition encode_simple_string (value : str) : result bytes :=
  if has_crlf_char value then Err (ValueError (u "simple string cannot contain CR or LF"))
  else Ok (b "+" ++ value ++ CRLF).

(** [s.replace(old, new)] for one-byte [old] and [new] *)
Definition replace_byte (old new : byte) (l : bytes) : bytes :=
  map (fun c => if ceqb c old then new else c) l.

Definition encode_error (message : str) : bytes :=
  b "-" ++ replace_byte LF " "%byte (replace_byte CR " "%byte message) ++ CRLF.

(** The number of decimal digits decides whether the interpreter refuses
    the conversion. *)
Definition format_d (value : Z) : result str :=
  if Z.abs value <? 10 ^ int_max_str_digits then Ok (str_of_int value)
  else Err (ValueError (u "Exceeds the limit (4300 digits) for integer string conversion")).

Definition encode_integer (value : Z) : result bytes :=
  let* d := format_d value in Ok (b ":" ++ d ++ CRLF).

Definition encode_null_bulk : bytes := b "$-1" ++ CRLF.

Definition encode_bulk_string (value : option bytes) : bytes :=
  match value with
  | None => encode_null_bulk
  | Some v => b "$" ++ str_of_int (zlen v) ++ CRLF ++ v ++ CRLF
  end.

Definition array_header (n : Z) : bytes := b "*" ++ str_of_int n ++ CRLF.

Fixpoint encode_value (value : pyobj) : result bytes :=
  match value with
  | PNone => Ok encode_null_bulk
  | PBool v => encode_integer (if v then 1 else 0)
  | PInt v => encode_integer v
  | PBytes v => Ok (encode_bulk_string (Some v))
  | PStr v => Ok (encode_bulk_string (Some v))
  | PList l =>
      let* parts :=
        (fix go (l : list pyobj) : result (list bytes) :=
           match l with
           | [] => Ok []
           | item :: l' => let* p := encode_value item in let* ps := go l' in Ok (p :: ps)
           end) l in
      Ok (array_header (zlen l) ++ concat parts)
  | PSimple v => encode_simple_string v
  | PRespError m => Ok (encode_error m)
  | PWithResp r => Ok r
  | PErrorMsg _ | PNoClientReply => Err (TypeError (u "cannot encode type as RESP"))
  end.

(** [encode_array(items)]: [encode_value] of a list is this with [Some]. *)
Definition encode_array (items : option (list pyobj)) : result bytes :=
  match items with
  | None => Ok (b "*-1" ++ CRLF)
  | Some l =>
      let* parts := rmapM encode_value l in
      Ok (array_header (zlen l) ++ concat parts)
  end.

Definition encode_command (argv : list bytes) : bytes :=
  array_header (zlen argv) ++ concat (map (fun arg => encode_bulk_string (Some arg)) argv).

Arguments encode_command _ : simpl never.
Arguments array_header _ : simpl never.

(** ** Lemmas *)

Lemma encode_value_list l : encode_value (PList l) = encode_array (Some l).
Proof.
  simpl. f_equal. induction l as [|x l IH]; simpl; [done|].
  destruct (encode_value x); simpl; [|done]. by rewrite IH.
Qed.

Lemma encode_command_value argv : encode_value (PList (map PBytes argv)) = Ok (encode_command argv).
Proof.
  rewrite encode_value_list. unfold encode_array, encode_command.
  assert (rmapM encode_value (map PBytes argv) =
          Ok (map (fun arg => encode_bulk_string (Some arg)) argv)) as ->.
  { apply rmapM_ok. induction argv; simpl; constructor; done. }
  simpl. do 3 f_equal. unfold zlen. by rewrite length_map.
Qed.

(** Text without carriage return or line feed. *)
Definition one_line (l : bytes) : Prop := Forall (fun c => c <> CR /\ c <> LF) l.

Lemma has_crlf_char_one_line l : has_crlf_char l = false <-> one_line l.
Proof.
  unfold has_crlf_char, one_line. rewrite orb_false_iff. induction l as [|c l IH]; simpl.
  - split; [constructor | done].
  - rewrite !orb_false_iff, !ceqb_neq, Forall_cons, <- IH. naive_solver.
Qed.

Lemma one_line_app l k : one_line (l ++ k) <-> one_line l /\ one_line k.
Proof. apply Forall_app. Qed.

Lemma is_dec_char_one_line c : is_dec_char c -> c <> CR /\ c <> LF.
Proof.
  intros [[d H%digit_value_bound] | ->]; [|done].
  split; intros ->; unfold byte_to_Z in H; simpl in H; lia.
Qed.

Lemma str_of_int_one_line n : one_line (str_of_int n).
Proof. eapply Forall_impl; [apply str_of_int_chars | apply is_dec_char_one_line]. Qed.

Lemma encode_error_body message :
  exists body, encode_error message = b "-" ++ body ++ CRLF /\ one_line body /\ length body = length message.
Proof.
  eexists. split; [done|]. split.
  - induction message as [|c l IH]; simpl; constructor; [|done].
    destruct (ceqb c CR) eqn:E1; [done|].
    destruct (ceqb c LF) eqn:E2; breflect; [done|]. done.
  - unfold replace_byte. by rewrite !length_map.
Qed.

#[export] Hint Resolve str_of_int_one_line : redis.
