(* ===== verification/Parser.v ===== *)
(** * Incremental RESP2 parser ([protocol/parser.py])

    The parser object with its buffer and limits, one definition per method.
    A method that returns [(value, end)] with [end == 0] for an incomplete
    frame does so here; positions are absolute offsets in the buffer. *)
From S2P Require Import Prelude PyText Encoder.
Local Open Scope Z_scope.

(** ** State *)

Record RespParser := mkParser {
  buf : bytes;
  max_bulk_len : Z;
  max_buffer_bytes : Z;
  max_array_len : Z;
  max_array_depth : Z
}.

(** [RespParser(...)] with its defaults. *)
Definition new_parser (max_bulk_len max_buffer_bytes max_array_len max_array_depth : Z) : RespParser :=
  mkParser [] max_bulk_len max_buffer_bytes max_array_len max_array_depth.

Definition default_parser (max_bulk_len : Z) : RespParser :=
  new_parser max_bulk_len 32000000 1024 64.

Definition with_buf (p : RespParser) (l : bytes) : RespParser :=
  mkParser l (max_bulk_len p) (max_buffer_bytes p) (max_array_len p) (max_array_depth p).

Definition buffered_size (p : RespParser) : Z := zlen (buf p).

Definition reset (p : RespParser) : RespParser := with_buf p [].

(** ** Reading *)

(** [l.find(b"\r\n")], [None] for -1. *)
Fixpoint find_crlf (l : bytes) : option nat :=
  match l with
  | [] => None
  | c :: t =>
      match t with
      | d :: _ => if ceqb c CR && ceqb d LF then Some 0%nat else S <$> find_crlf t
      | [] => None
      end
  end.

(** [_read_line(start)]: the line without CRLF and the absolute end index,
    or [(b"", 0)]. *)
Definition read_line (l : bytes) (start : nat) : bytes * nat :=
  match find_crlf (drop start l) with
  | None => ([], 0%nat)
  | Some i => (take i (drop start l), (start + i + 2)%nat)
  end.

Definition parse_line_value (l : bytes) (start : nat) : result (pyobj * nat) :=
  let '(line, e) := read_line l (start + 1) in
  if (e =? 0)%nat then Ok (PNone, 0%nat)
  else Ok (PStr (utf8_replace line), e).

Definition parse_error_value (l : bytes) (start : nat) : result (pyobj * nat) :=
  let '(line, e) := read_line l (start + 1) in
  if (e =? 0)%nat then Ok (PNone, 0%nat)
  else Ok (PErrorMsg (utf8_replace line), e).

Definition parse_integer_value (l : bytes) (start : nat) : result (pyobj * nat) :=
  let '(line, e) := read_line l (start + 1) in
  if (e =? 0)%nat then Ok (PNone, 0%nat)
  else match int_of_bytes line with
       | Some n => Ok (PInt n, e)
       | None => Err (ProtocolError (u "invalid integer: " ++ repr_bytes line))
       end.

Definition parse_bulk (p : RespParser) (start : nat) : result (pyobj * nat) :=
  let l := buf p in
  let '(line, hdr_end) := read_line l (start + 1) in
  if (hdr_end =? 0)%nat then Ok (PNone, 0%nat)
  else match int_of_bytes line with
       | None => Err (ProtocolError (u "invalid bulk length: " ++ repr_bytes line))
       | Some len =>
           if len =? -1 then Ok (PNone, hdr_end)
           else if len <? -1 then Err (ProtocolError (u "invalid bulk length: " ++ str_of_int len))
           else if max_bulk_len p <? len then
             Err (ProtocolError (u "bulk length " ++ str_of_int len ++ u " exceeds limit"))
           else
             let n := Z.to_nat len in
             let total_needed := (hdr_end + n + 2)%nat in
             if (length l <? total_needed)%nat then Ok (PNone, 0%nat)
             else
               let data := take n (drop hdr_end l) in
               let crlf := take 2 (drop (hdr_end + n) l) in
               if beqb crlf CRLF then Ok (PBytes data, total_needed)
               else Err (ProtocolError (u "bulk string missing CRLF trailer"))
       end.

(** The loop [for _ in range(count)] of [_parse_array]; [rec] is
    [_try_parse] one level deeper. *)
Fixpoint parse_items (rec : nat -> result (pyobj * nat)) (count : nat) (cursor : nat)
    (items : list pyobj) : result (pyobj * nat) :=
  match count with
  | O => Ok (PList items, cursor)
  | S count' =>
      let* (item, e) := rec cursor in
      if (e =? 0)%nat then Ok (PNone, 0%nat)
      else parse_items rec count' e (items ++ [item])
  end.

Definition parse_array (p : RespParser) (rec : nat -> Z -> result (pyobj * nat))
    (start : nat) (depth : Z) : result (pyobj * nat) :=
  if max_array_depth p <=? depth then
    Err (ProtocolError (u "array nesting exceeds limit (" ++ str_of_int (max_array_depth p) ++ u ")"))
  else
    let '(line, hdr_end) := read_line (buf p) (start + 1) in
    if (hdr_end =? 0)%nat then Ok (PNone, 0%nat)
    else match int_of_bytes line with
         | None => Err (ProtocolError (u "invalid array length: " ++ repr_bytes line))
         | Some count =>
             if count =? -1 then Ok (PNone, hdr_end)
             else if count <? -1 then
               Err (ProtocolError (u "invalid array length: " ++ str_of_int count))
             else if max_array_len p <? count then
               Err (ProtocolError (u "array length " ++ str_of_int count ++ u " exceeds limit"))
             else parse_items (fun c => rec c (depth + 1)) (Z.to_nat count) hdr_end []
         end.

(** [_try_parse(start, depth=depth)].  Only arrays recurse, one level
    deeper each time; [fuel] counts the levels left. *)
Fixpoint try_parse (fuel : nat) (p : RespParser) (start : nat) (depth : Z) : result (pyobj * nat) :=
  match buf p !! start with
  | None => Ok (PNone, 0%nat)
  | Some prefix =>
      if ceqb prefix "+" then parse_line_value (buf p) start
      else if ceqb prefix "-" then parse_error_value (buf p) start
      else if ceqb prefix ":" then parse_integer_value (buf p) start
      else if ceqb prefix "$" then parse_bulk p start
      else if ceqb prefix "*" then
        match fuel with
        | O => parse_array p (fun _ _ => Err OutOfFuel) start depth
        | S f => parse_array p (try_parse f p) start depth
        end
      else Err (ProtocolError (u "invalid RESP type prefix: " ++ repr_chr prefix))
  end.

(** Levels of nesting the depth limit allows. *)
Definition depth_fuel (p : RespParser) : nat := Z.to_nat (max_array_depth p).

(** The [while True] loop of [feed]: parses at offset 0, deletes what was
    consumed, until a frame is incomplete.  An exception leaves the buffer
    as the completed iterations left it and loses their messages. *)
Fixpoint feed_loop (fuel : nat) (p : RespParser) (messages : list pyobj) :
    result (list pyobj) * RespParser :=
  match try_parse (depth_fuel p) p 0 0 with
  | Err e => (Err e, p)
  | Ok (value, consumed) =>
      if (consumed =? 0)%nat then (Ok messages, p)
      else match fuel with
           | O => (Err OutOfFuel, p)
           | S f => feed_loop f (with_buf p (drop consumed (buf p))) (messages ++ [value])
           end
  end.

Definition buffer_error (p : RespParser) : exn :=
  ProtocolError (u "input buffer exceeds max_buffer_bytes (" ++ str_of_int (max_buffer_bytes p) ++ u ")").

(** [feed(data)]; every iteration consumes at least one byte, so the length
    of the buffer bounds the iterations. *)
Definition feed (p : RespParser) (data : bytes) : result (list pyobj) * RespParser :=
  match data with
  | [] =>
      if max_buffer_bytes p <? zlen (buf p) then (Err (buffer_error p), p)
      else feed_loop (length (buf p)) p []
  | _ :: _ =>
      if max_buffer_bytes p <? zlen (buf p) + zlen data then (Err (buffer_error p), p)
      else let p' := with_buf p (buf p ++ data) in feed_loop (length (buf p')) p' []
  end.

Definition ex_parser := new_parser 1000 1000 10 4.
Example feed_ex1 : feed ex_parser (b "*1" ++ CRLF ++ b "$4" ++ CRLF ++ b "PING" ++ CRLF ++ b "+O")
  = (Ok [PList [PBytes (b "PING")]], with_buf ex_parser (b "+O")).
Proof. reflexivity. Qed.
Example feed_ex2 : (feed ex_parser (b "$3" ++ CRLF ++ b "abcde")).1 =
  Err (ProtocolError (u "bulk string missing CRLF trailer")).
Proof. reflexivity. Qed.

(** ** Lines *)

Lemma find_crlf_cons2 c d t :
  find_crlf (c :: d :: t) = if ceqb c CR && ceqb d LF then Some 0%nat else S <$> find_crlf (d :: t).
Proof. done. Qed.

Lemma find_crlf_bound l i : find_crlf l = Some i -> (i + 2 <= length l)%nat.
Proof.
  revert i. induction l as [|c [|d t] IH]; intros i; [done..|].
  rewrite find_crlf_cons2. case_if; [intros; inv_ok; simpl; lia|].
  destruct (find_crlf (d :: t)) as [j|]; [|done].
  intros H; inversion H; subst. specialize (IH _ eq_refl). simpl in *. lia.
Qed.

Lemma find_crlf_app l k i : find_crlf l = Some i -> find_crlf (l ++ k) = Some i.
Proof.
  revert i. induction l as [|c [|d t] IH]; intros i; [done..|].
  change ((c :: d :: t) ++ k) with (c :: d :: (t ++ k)). rewrite !find_crlf_cons2. case_if; [done|].
  destruct (find_crlf (d :: t)) as [j|]; [|done].
  intros H; inversion H; subst. change (d :: t ++ k) with ((d :: t) ++ k). by rewrite (IH _ eq_refl).
Qed.

Lemma find_crlf_line l k : one_line l -> find_crlf (l ++ CRLF ++ k) = Some (length l).
Proof.
  induction 1 as [|c l [Hc _] Hl IH]; [done|]. apply ceqb_neq in Hc.
  destruct l as [|d t]; [by rewrite <- app_comm_cons; cbn; rewrite Hc|].
  rewrite <- !app_comm_cons in *. rewrite find_crlf_cons2, Hc, IH. done.
Qed.

Lemma read_line_at pre line post start :
  one_line line -> start = length pre ->
  read_line (pre ++ line ++ CRLF ++ post) start = (line, (start + length line + 2)%nat).
Proof.
  intros Hl ->. unfold read_line. rewrite drop_app_length, find_crlf_line by done.
  by rewrite take_app_length.
Qed.

Lemma read_line_stable l k start line e :
  read_line l start = (line, e) -> e <> 0%nat -> read_line (l ++ k) start = (line, e).
Proof.
  unfold read_line. destruct (find_crlf (drop start l)) as [i|] eqn:E; intros; inv_ok; [|done].
  pose proof (find_crlf_bound _ _ E) as Hi. rewrite length_drop in Hi.
  rewrite drop_app_le by lia. erewrite find_crlf_app by done.
  rewrite take_app_le by (rewrite length_drop; lia). done.
Qed.

Lemma read_line_bound l start line e :
  read_line l start = (line, e) -> e <> 0%nat -> (start + 2 <= e <= length l)%nat.
Proof.
  unfold read_line. destruct (find_crlf (drop start l)) as [i|] eqn:E; intros; inv_ok; [|done].
  apply find_crlf_bound in E. rewrite length_drop in E. lia.
Qed.

(** ** Stability: more input never changes a decided outcome *)

(** A frame that is complete or refused. *)
Definition decided (r : result (pyobj * nat)) : Prop :=
  match r with Ok (_, e) => e <> 0%nat | Err _ => True end.

(** A parser step that reads one line and then only looks at that line. *)
Lemma on_line_stable l k start (f : bytes -> nat -> result (pyobj * nat)) :
  let step l := let '(line, e) := read_line l start in
                if (e =? 0)%nat then Ok (PNone, 0%nat) else f line e in
  decided (step l) -> step (l ++ k) = step l.
Proof.
  simpl. destruct (read_line l start) as [line e] eqn:E.
  destruct (e =? 0)%nat eqn:He; simpl; [done|]. breflect. intros _.
  rewrite (read_line_stable _ k _ _ _ E He). by apply Nat.eqb_neq in He as ->.
Qed.

Lemma parse_line_value_stable l k start :
  decided (parse_line_value l start) -> parse_line_value (l ++ k) start = parse_line_value l start.
Proof. apply (on_line_stable l k (start + 1) (fun line e => Ok (PStr (utf8_replace line), e))). Qed.

Lemma parse_error_value_stable l k start :
  decided (parse_error_value l start) -> parse_error_value (l ++ k) start = parse_error_value l start.
Proof. apply (on_line_stable l k (start + 1) (fun line e => Ok (PErrorMsg (utf8_replace line), e))). Qed.

Lemma parse_integer_value_stable l k start :
  decided (parse_integer_value l start) -> parse_integer_value (l ++ k) start = parse_integer_value l start.
Proof.
  apply (on_line_stable l k (start + 1) (fun line e =>
    match int_of_bytes line with
    | Some n => Ok (PInt n, e)
    | None => Err (ProtocolError (u "invalid integer: " ++ repr_bytes line))
    end)).
Qed.

Lemma parse_bulk_stable p k start :
  decided (parse_bulk p start) -> parse_bulk (with_buf p (buf p ++ k)) start = parse_bulk p start.
Proof.
  unfold parse_bulk. cbn [with_buf buf max_bulk_len].
  destruct (read_line (buf p) (start + 1)) as [line e] eqn:E.
  destruct (e =? 0)%nat eqn:He; simpl; [done|]. breflect.
  rewrite (read_line_stable _ k _ _ _ E He).
  pose proof (read_line_bound _ _ _ _ E He) as Hb.
  apply Nat.eqb_neq in He as ->. destruct (int_of_bytes line) as [len|]; [|done].
  do 3 (case_if; [done|]). rewrite length_app.
  destruct (length (buf p) <? e + Z.to_nat len + 2)%nat eqn:Hn; simpl; [done|]. breflect. intros _.
  replace (length (buf p) + length k <? e + Z.to_nat len + 2)%nat with false
    by (symmetry; apply Nat.ltb_ge; lia).
  rewrite !drop_app_le by lia. rewrite !take_app_le by (rewrite length_drop; lia). done.
Qed.

Lemma parse_items_stable (rec rec' : nat -> result (pyobj * nat)) count cursor items :
  (forall c, decided (rec c) -> rec' c = rec c) ->
  decided (parse_items rec count cursor items) ->
  parse_items rec' count cursor items = parse_items rec count cursor items.
Proof.
  intros Hrec. revert cursor items. induction count as [|n IH]; intros cursor items; simpl; [done|].
  destruct (rec cursor) as [[item e]|x] eqn:E; simpl.
  - destruct (e =? 0)%nat eqn:He; simpl; [done|]. intros Hd. breflect.
    rewrite (Hrec cursor), E by (by rewrite E). simpl.
    apply Nat.eqb_neq in He as ->. by apply IH.
  - intros _. by rewrite (Hrec cursor), E by (by rewrite E).
Qed.

Lemma parse_array_stable p k rec rec' start depth :
  (forall c d, decided (rec c d) -> rec' c d = rec c d) ->
  decided (parse_array p rec start depth) ->
  parse_array (with_buf p (buf p ++ k)) rec' start depth = parse_array p rec start depth.
Proof.
  intros Hrec. unfold parse_array. cbn [with_buf buf max_array_depth max_array_len].
  case_if; [done|].
  destruct (read_line (buf p) (start + 1)) as [line e] eqn:E.
  destruct (e =? 0)%nat eqn:He; simpl; [done|]. breflect.
  rewrite (read_line_stable _ k _ _ _ E He).
  apply Nat.eqb_neq in He as ->. destruct (int_of_bytes line) as [len|]; [|done].
  do 3 (case_if; [done|]). apply parse_items_stable. intros c. apply Hrec.
Qed.

Lemma try_parse_stable fuel p k start depth :
  decided (try_parse fuel p start depth) ->
  try_parse fuel (with_buf p (buf p ++ k)) start depth = try_parse fuel p start depth.
Proof.
  revert start depth. induction fuel as [|f IH]; intros start depth;
    cbn [try_parse]; cbn [with_buf buf];
    (destruct (buf p !! start) as [c|] eqn:E; [|done]);
    rewrite (lookup_app_l_Some _ _ _ _ E);
    (case_if; [apply parse_line_value_stable|]);
    (case_if; [apply parse_error_value_stable|]);
    (case_if; [apply parse_integer_value_stable|]);
    (case_if; [apply parse_bulk_stable|]);
    (case_if; [|done]); apply parse_array_stable; auto.
Qed.

(** ** Bounds: what a parsed frame may contain *)

(** Nested at most [levels] deep, with arrays and strings within the limits. *)
Fixpoint within (p : RespParser) (levels : Z) (v : pyobj) : bool :=
  match v with
  | PBytes s => zlen s <=? max_bulk_len p
  | PList l =>
      (0 <? levels) && (zlen l <=? max_array_len p) && forallb (within p (levels - 1)) l
  | _ => true
  end.

(** The outcome of a complete frame that starts at [start]. *)
Definition good_frame (p : RespParser) (levels : Z) (start : nat) (v : pyobj) (e : nat) : Prop :=
  (start < e <= length (buf p))%nat /\ within p levels v = true.

Lemma on_line_frame p levels start f v e :
  (forall line e', (start < e' <= length (buf p))%nat -> f line e' = Ok (v, e) ->
    e <> 0%nat -> good_frame p levels start v e) ->
  (let '(line, e') := read_line (buf p) (start + 1) in
   if (e' =? 0)%nat then Ok (PNone, 0%nat) else f line e') = Ok (v, e) ->
  e <> 0%nat -> good_frame p levels start v e.
Proof.
  intros Hf. destruct (read_line (buf p) (start + 1)) as [line e'] eqn:E.
  destruct (e' =? 0)%nat eqn:He'; [intros; inv_ok; done|]. breflect.
  apply Hf. pose proof (read_line_bound _ _ _ _ E He'). lia.
Qed.

Lemma parse_bulk_frame p levels start v e :
  parse_bulk p start = Ok (v, e) -> e <> 0%nat -> good_frame p levels start v e.
Proof.
  unfold parse_bulk. apply on_line_frame. intros line e' He'.
  destruct (int_of_bytes line) as [len|]; [|done].
  case_if; [intros; inv_ok; done|]. do 2 (case_if; [done|]).
  case_if; [intros; inv_ok; done|]. case_if; [|done].
  intros; inv_ok. split; [lia|]. simpl. apply Z.leb_le. unfold zlen.
  rewrite length_take, length_drop. lia.
Qed.

Lemma parse_items_frame p levels rec count cursor items v e :
  (forall c v e, rec c = Ok (v, e) -> e <> 0%nat -> good_frame p levels c v e) ->
  parse_items rec count cursor items = Ok (v, e) -> e <> 0%nat ->
  exists items', v = PList (items ++ items') /\ length items' = count /\
    forallb (within p levels) items' = true /\ (cursor <= e)%nat /\
    ((cursor <= length (buf p))%nat -> (e <= length (buf p))%nat).
Proof.
  intros Hrec. revert cursor items. induction count as [|n IH]; intros cursor items; simpl.
  - intros; inv_ok. exists []. rewrite app_nil_r. split_and!; done || lia.
  - destruct (rec cursor) as [[item e']|] eqn:E; simpl; [|done].
    destruct (e' =? 0)%nat eqn:He'; [intros; inv_ok; done|]. breflect. intros Hp He.
    destruct (Hrec _ _ _ E He') as [Hb Hw].
    destruct (IH _ _ Hp He) as (items' & -> & <- & Hf & Hc & Hle).
    exists (item :: items'). rewrite <- app_assoc. simpl. rewrite Hw, Hf.
    split_and!; done || lia.
Qed.

Lemma parse_array_frame p levels rec start depth v e :
  levels = max_array_depth p - depth ->
  (forall c v e, rec c (depth + 1) = Ok (v, e) -> e <> 0%nat -> good_frame p (levels - 1) c v e) ->
  parse_array p rec start depth = Ok (v, e) -> e <> 0%nat -> good_frame p levels start v e.
Proof.
  intros Hlv Hrec. unfold parse_array. case_if; [done|]. apply on_line_frame. intros line e' He'.
  destruct (int_of_bytes line) as [count|]; [|done].
  case_if; [intros; inv_ok; done|]. do 2 (case_if; [done|]). intros Hp He.
  destruct (parse_items_frame p (levels - 1) _ _ _ _ _ _ Hrec Hp He) as (items & -> & Hn & Hf & Hc & Hle).
  split; [lia|]. simpl. rewrite Hf. unfold zlen. lia.
Qed.

Lemma try_parse_frame fuel p start depth v e :
  try_parse fuel p start depth = Ok (v, e) -> e <> 0%nat ->
  good_frame p (max_array_depth p - depth) start v e.
Proof.
  revert start depth v e. induction fuel as [|f IH]; intros start depth v e;
    cbn [try_parse]; (destruct (buf p !! start) as [c|] eqn:E; [|intros; inv_ok; done]);
    (case_if; [apply on_line_frame; intros; inv_ok; done|]);
    (case_if; [apply on_line_frame; intros; inv_ok; done|]);
    (case_if; [apply on_line_frame; intros line e' ?; destruct (int_of_bytes line); intros; inv_ok; done|]);
    (case_if; [apply parse_bulk_frame|]);
    (case_if; [|done]); apply parse_array_frame; try done.
  intros c' v' e' Hr He'. specialize (IH _ _ _ _ Hr He').
  by replace (max_array_depth p - depth - 1) with (max_array_depth p - (depth + 1)) by lia.
Qed.

(** ** The fuel is enough *)

Lemma parse_items_fuel rec count cursor items :
  (forall c, rec c <> Err OutOfFuel) -> parse_items rec count cursor items <> Err OutOfFuel.
Proof.
  intros Hrec. revert cursor items. induction count as [|n IH]; intros cursor items; simpl; [done|].
  pose proof (Hrec cursor). destruct (rec cursor) as [[item e]|]; simpl; [|congruence].
  case_if; [done|]. apply IH.
Qed.

Lemma parse_array_fuel p rec start depth :
  (depth < max_array_depth p -> forall c, rec c (depth + 1) <> Err OutOfFuel) ->
  parse_array p rec start depth <> Err OutOfFuel.
Proof.
  intros Hrec. unfold parse_array. case_if; [done|].
  destruct (read_line _ _) as [line e]. case_if; [done|].
  destruct (int_of_bytes line); [|done]. do 3 (case_if; [done|]).
  apply parse_items_fuel, Hrec. lia.
Qed.

Lemma try_parse_fuel fuel p start depth :
  (Z.to_nat (max_array_depth p - depth) <= fuel)%nat ->
  try_parse fuel p start depth <> Err OutOfFuel.
Proof.
  revert start depth. induction fuel as [|f IH]; intros start depth Hf; cbn [try_parse];
    (destruct (buf p !! start) as [c|]; [|done]);
    (case_if; [unfold parse_line_value; destruct (read_line _ _); case_if; done|]);
    (case_if; [unfold parse_error_value; destruct (read_line _ _); case_if; done|]);
    (case_if; [unfold parse_integer_value; destruct (read_line _ _); case_if; [done|]; by destruct (int_of_bytes _)|]);
    (case_if; [unfold parse_bulk; destruct (read_line _ _); case_if; [done|];
               destruct (int_of_bytes _); [|done]; repeat (case_if; [done|]); done|]);
    (case_if; [|done]); apply parse_array_fuel; intros Hd c'; [lia|].
  apply IH. lia.
Qed.

(** ** Round trip *)

(** What the parser returns for the encoding of [v]. *)
Fixpoint parsed (v : pyobj) : pyobj :=
  match v with
  | PBool x => PInt (if x then 1 else 0)
  | PStr s => PBytes s
  | PList l => PList (map parsed l)
  | PSimple s => PStr (utf8_replace s)
  | PRespError m =>
      PErrorMsg (utf8_replace (replace_byte LF " "%byte (replace_byte CR " "%byte m)))
  | _ => v
  end.

(** Values whose encoding is within the limits of the parser. *)
Fixpoint fits (p : RespParser) (levels : Z) (v : pyobj) : bool :=
  match v with
  | PBytes s | PStr s => zlen s <=? max_bulk_len p
  | PList l => (0 <? levels) && (zlen l <=? max_array_len p) && forallb (fits p (levels - 1)) l
  | PWithResp _ => false
  | _ => true
  end.

(** Limits small enough for their lengths to be printable integers. *)
Definition limits_ok (p : RespParser) : Prop :=
  max_bulk_len p < 10 ^ int_max_str_digits /\ max_array_len p < 10 ^ int_max_str_digits.

Lemma buf_at p pre (c : byte) post start :
  buf p = pre ++ c :: post -> start = length pre -> buf p !! start = Some c.
Proof. intros -> ->. by rewrite lookup_app_exact. Qed.

(** The header line [c <n> CRLF] at [start]. *)
Lemma header_line p pre (c : byte) line post start :
  buf p = pre ++ c :: line ++ CRLF ++ post -> start = length pre -> one_line line ->
  read_line (buf p) (start + 1) = (line, (start + 1 + length line + 2)%nat).
Proof.
  intros -> -> Hl. change (c :: line ++ CRLF ++ post) with ([c] ++ line ++ CRLF ++ post).
  rewrite app_assoc. apply read_line_at; [done|]. rewrite length_app. simpl. lia.
Qed.

Lemma parse_bulk_at p pre s post start :
  limits_ok p -> zlen s <= max_bulk_len p ->
  buf p = pre ++ encode_bulk_string (Some s) ++ post -> start = length pre ->
  parse_bulk p start = Ok (PBytes s, (start + length (encode_bulk_string (Some s)))%nat).
Proof.
  intros [Hlim _] Hs Hbuf ->. cbn [encode_bulk_string] in *. unfold parse_bulk.
  change (b "$") with ["$"%byte] in *. rewrite <- !app_assoc in Hbuf. simpl app in Hbuf.
  rewrite (header_line p pre "$"%byte (str_of_int (zlen s)) (s ++ CRLF ++ post) _ Hbuf eq_refl) by auto with redis.
  rewrite (proj2 (Nat.eqb_neq _ _)) by lia.
  rewrite int_of_str_of_int by (pose proof (zlen_nonneg s); lia).
  pose proof (zlen_nonneg s).
  replace (zlen s =? -1) with false by lia. replace (zlen s <? -1) with false by lia.
  replace (max_bulk_len p <? zlen s) with false by lia.
  set (h := str_of_int (zlen s)) in *.
  replace (Z.to_nat (zlen s)) with (length s) by (unfold zlen; lia). cbv zeta.
  assert (buf p = (pre ++ "$"%byte :: h ++ CRLF) ++ s ++ CRLF ++ post) as Hb2
    by (rewrite Hbuf, <- !app_assoc; simpl; by rewrite <- !app_assoc).
  assert (length (pre ++ "$"%byte :: h ++ CRLF) = length pre + 1 + length h + 2)%nat as Hlen
    by (rewrite length_app; simpl; rewrite length_app; simpl; lia).
  rewrite (proj2 (Nat.ltb_ge _ _)) by (rewrite Hb2, length_app, Hlen, !length_app; simpl; lia).
  rewrite Hb2. rewrite (drop_app_exact _ _ (length pre + 1 + length h + 2)) by lia.
  rewrite take_app_length, (app_assoc _ s).
  rewrite (drop_app_exact _ _ (length pre + 1 + length h + 2 + length s)) by (rewrite length_app; lia).
  rewrite take_app_exact by done. rewrite beqb_refl. do 2 f_equal.
  simpl. rewrite !length_app. simpl. rewrite !length_app. simpl. lia.
Qed.

(** [parse_items] on a concatenation of encodings. *)
Lemma parse_items_at (l : bytes) (rec : nat -> result (pyobj * nat)) (vs : list pyobj) (es : list bytes)
    (f : pyobj -> pyobj) pre post cursor items :
  l = pre ++ concat es ++ post -> cursor = length pre ->
  Forall2 (fun v e => e <> [] /\ forall pre post, l = pre ++ e ++ post ->
    rec (length pre) = Ok (f v, (length pre + length e)%nat)) vs es ->
  parse_items rec (length vs) cursor items =
  Ok (PList (items ++ map f vs), (cursor + length (concat es))%nat).
Proof.
  intros Hl -> HF. revert pre items Hl. induction HF as [|v e vs es [He Hrec] HF IH]; intros pre items Hl; simpl.
  - by rewrite app_nil_r, Nat.add_0_r.
  - simpl in Hl. rewrite <- app_assoc in Hl. rewrite (Hrec _ _ Hl). simpl.
    destruct e as [|c e]; [done|]. rewrite (proj2 (Nat.eqb_neq _ _)) by (simpl; lia).
    rewrite (app_assoc pre) in Hl. rewrite <- length_app. rewrite (IH _ _ Hl).
    rewrite <- app_assoc. do 2 f_equal. rewrite !length_app. lia.
Qed.

Lemma parse_array_at p rec (vs : list pyobj) es pre post start depth f :
  limits_ok p -> zlen vs <= max_array_len p -> depth < max_array_depth p ->
  buf p = pre ++ (array_header (zlen vs) ++ concat es) ++ post -> start = length pre ->
  Forall2 (fun v e => e <> [] /\ forall pre post, buf p = pre ++ e ++ post ->
    rec (length pre) (depth + 1) = Ok (f v, (length pre + length e)%nat)) vs es ->
  parse_array p rec start depth =
  Ok (PList (map f vs), (start + length (array_header (zlen vs) ++ concat es))%nat).
Proof.
  intros [_ Hlim] Hn Hd Hbuf -> HF. unfold parse_array, array_header in *.
  replace (max_array_depth p <=? depth) with false by lia.
  change (b "*") with ["*"%byte] in *. rewrite <- !app_assoc in Hbuf. simpl app in Hbuf.
  rewrite (header_line p pre "*"%byte (str_of_int (zlen vs)) (concat es ++ post) _ Hbuf eq_refl) by auto with redis.
  rewrite (proj2 (Nat.eqb_neq _ _)) by lia.
  rewrite int_of_str_of_int by (pose proof (zlen_nonneg vs); lia).
  pose proof (zlen_nonneg vs).
  replace (zlen vs =? -1) with false by lia. replace (zlen vs <? -1) with false by lia.
  replace (max_array_len p <? zlen vs) with false by lia.
  set (h := str_of_int (zlen vs)) in *. unfold zlen. rewrite Nat2Z.id.
  rewrite (parse_items_at (buf p) _ vs es f (pre ++ "*"%byte :: h ++ CRLF) post); [|..|done].
  - do 2 f_equal. rewrite ?length_app. simpl. rewrite ?length_app. simpl. lia.
  - rewrite Hbuf, <- !app_assoc. simpl. by rewrite <- !app_assoc.
  - rewrite length_app. simpl. rewrite length_app. simpl. lia.
Qed.

Lemma encode_value_nonempty p levels v enc :
  fits p levels v = true -> encode_value v = Ok enc -> enc <> [].
Proof.
  destruct v; simpl; try done; intros _;
    try (unfold encode_integer, format_d; case_if); try (unfold encode_simple_string; case_if);
    intros; by inv_ok.
Qed.

Lemma encode_integer_at p pre n enc post start :
  encode_integer n = Ok enc -> buf p = pre ++ enc ++ post -> start = length pre ->
  buf p !! start = Some ":"%byte /\ parse_integer_value (buf p) start = Ok (PInt n, (start + length enc)%nat).
Proof.
  unfold encode_integer, format_d. case_if; [|done]. cbn [rbind]. intros Henc Hbuf Hs. inv_ok.
  change (b ":") with [":"%byte] in *. simpl app in Hbuf. rewrite <- app_assoc in Hbuf. split.
  - by eapply buf_at.
  - unfold parse_integer_value. erewrite header_line by (done || auto with redis).
    rewrite (proj2 (Nat.eqb_neq _ _)) by lia.
    rewrite int_of_str_of_int by done. do 2 f_equal. rewrite ?length_app. simpl. rewrite ?length_app. simpl. lia.
Qed.

Lemma one_line_value_at (mk : str -> pyobj) p pre (c : byte) line post start :
  one_line line -> buf p = pre ++ (c :: line ++ CRLF) ++ post -> start = length pre ->
  (let '(line, e) := read_line (buf p) (start + 1) in
   if (e =? 0)%nat then Ok (PNone, 0%nat) else Ok (mk (utf8_replace line), e)) =
  Ok (mk (utf8_replace line), (start + length (c :: line ++ CRLF))%nat).
Proof.
  intros Hl Hbuf Hs. simpl app in Hbuf. rewrite <- app_assoc in Hbuf.
  rewrite (header_line _ _ _ _ _ _ Hbuf Hs Hl).
  rewrite (proj2 (Nat.eqb_neq _ _)) by lia. do 2 f_equal. simpl. rewrite length_app. simpl. lia.
Qed.

Lemma encode_array_parts l enc :
  encode_value (PList l) = Ok enc ->
  exists es, Forall2 (fun v e => encode_value v = Ok e) l es /\
    enc = array_header (zlen l) ++ concat es.
Proof.
  rewrite encode_value_list. simpl. intros H. inv_ok.
  match goal with H : rmapM _ _ = Ok _ |- _ => apply rmapM_ok in H end. eauto.
Qed.

Lemma fits_list p levels l :
  fits p levels (PList l) = true <->
  0 < levels /\ zlen l <= max_array_len p /\ Forall (fun v => fits p (levels - 1) v = true) l.
Proof.
  simpl. rewrite !andb_true_iff, forallb_forall, Forall_forall, Z.ltb_lt, Z.leb_le.
  setoid_rewrite list_elem_of_In. naive_solver.
Qed.

(** [_try_parse] by the first byte of the frame. *)
Lemma try_parse_simple fuel p start depth :
  buf p !! start = Some "+"%byte -> try_parse fuel p start depth = parse_line_value (buf p) start.
Proof. intros H. destruct fuel; cbn [try_parse]; by rewrite H. Qed.

Lemma try_parse_error fuel p start depth :
  buf p !! start = Some "-"%byte -> try_parse fuel p start depth = parse_error_value (buf p) start.
Proof. intros H. destruct fuel; cbn [try_parse]; by rewrite H. Qed.

Lemma try_parse_integer fuel p start depth :
  buf p !! start = Some ":"%byte -> try_parse fuel p start depth = parse_integer_value (buf p) start.
Proof. intros H. destruct fuel; cbn [try_parse]; by rewrite H. Qed.

Lemma try_parse_bulk fuel p start depth :
  buf p !! start = Some "$"%byte -> try_parse fuel p start depth = parse_bulk p start.
Proof. intros H. destruct fuel; cbn [try_parse]; by rewrite H. Qed.

Lemma try_parse_array fuel p start depth :
  buf p !! start = Some "*"%byte ->
  try_parse (S fuel) p start depth = parse_array p (try_parse fuel p) start depth.
Proof. intros H. cbn [try_parse]. by rewrite H. Qed.

(** Parsing an encoding, wherever it stands in the buffer, gives back the
    value and stops right after it. *)
Lemma try_parse_at p (Hlim : limits_ok p) v :
  forall levels depth fuel enc pre post start,
  levels = max_array_depth p - depth -> (Z.to_nat levels <= fuel)%nat ->
  fits p levels v = true -> encode_value v = Ok enc ->
  buf p = pre ++ enc ++ post -> start = length pre ->
  try_parse fuel p start depth = Ok (parsed v, (start + length enc)%nat).
Proof.
  induction v as [ | | | | | l IH | | | | | ] using pyobj_rect';
    intros levels depth fuel enc pre post start Hlv Hfuel Hfit Henc Hbuf Hs.
  - (* None *) cbn [encode_value] in Henc. inv_ok.
    rewrite try_parse_bulk by (eapply buf_at; [exact Hbuf | done]).
    unfold parse_bulk. erewrite (header_line p pre "$"%byte (b "-1") post) by (done || by repeat constructor).
    rewrite (proj2 (Nat.eqb_neq _ _)) by lia. simpl. do 2 f_equal. lia.
  - (* bool *) destruct (encode_integer_at _ _ _ _ _ _ Henc Hbuf Hs). by rewrite try_parse_integer.
  - (* int *) destruct (encode_integer_at _ _ _ _ _ _ Henc Hbuf Hs). by rewrite try_parse_integer.
  - (* bytes *) simpl in Hfit. breflect. cbn [encode_value] in Henc. inv_ok.
    rewrite try_parse_bulk by (eapply buf_at; [exact Hbuf | done]). by eapply parse_bulk_at.
  - (* str *) simpl in Hfit. breflect. cbn [encode_value] in Henc. inv_ok.
    rewrite try_parse_bulk by (eapply buf_at; [exact Hbuf | done]). by eapply parse_bulk_at.
  - (* list *) apply fits_list in Hfit as (Hl0 & Hn & Hfit).
    apply encode_array_parts in Henc as (es & Hes & ->).
    destruct fuel as [|f]; [lia|].
    rewrite try_parse_array by (eapply buf_at; [exact Hbuf | done]).
    eapply parse_array_at; [done|done|lia|exact Hbuf|done|].
    clear Hbuf Hn. induction Hes as [|v e l es He Hes IHl]; constructor.
    + apply Forall_cons in IH as [IH _]. apply Forall_cons in Hfit as [Hfit _].
      split; [by eapply encode_value_nonempty|].
      intros pre' post' Hb. eapply IH; [reflexivity|lia| |exact He|exact Hb|done].
      by replace (max_array_depth p - (depth + 1)) with (levels - 1) by lia.
    + apply IHl; [by inversion IH | by inversion Hfit].
  - (* simple *) cbn [encode_value] in Henc. unfold encode_simple_string in Henc.
    destruct (has_crlf_char v) eqn:E; [done|]. apply has_crlf_char_one_line in E. inv_ok.
    rewrite try_parse_simple by (eapply buf_at; [exact Hbuf | done]).
    by eapply (one_line_value_at PStr).
  - (* RespError *) cbn [encode_value] in Henc. inv_ok.
    destruct (encode_error_body v) as (body & Hb & Hone & _).
    assert (body = replace_byte LF " "%byte (replace_byte CR " "%byte v)) as ->.
    { unfold encode_error in Hb. apply app_inv_head, app_inv_tail in Hb. done. }
    rewrite try_parse_error by (eapply buf_at; [exact Hbuf | done]).
    by eapply (one_line_value_at PErrorMsg).
  - done.
  - done.
  - done.
Qed.

(** ** The loop of [feed] *)

(** All complete frames of the buffer. *)
Definition drain (p : RespParser) : result (list pyobj) * RespParser :=
  feed_loop (length (buf p)) p [].

Definition prepend (ms : list pyobj) (x : result (list pyobj) * RespParser) :
    result (list pyobj) * RespParser := (rmap (app ms) x.1, x.2).

Lemma prepend_nil x : prepend [] x = x.
Proof. destruct x as [[|] ?]; done. Qed.

Lemma prepend_app ms ns x : prepend ms (prepend ns x) = prepend (ms ++ ns) x.
Proof. destruct x as [[|] ?]; unfold prepend; simpl; [|done]. by rewrite app_assoc. Qed.

Lemma with_buf_id p : with_buf p (buf p) = p.
Proof. by destruct p. Qed.

Lemma with_buf_buf p l : buf (with_buf p l) = l.
Proof. done. Qed.

Lemma with_buf_twice p l k : with_buf (with_buf p l) k = with_buf p k.
Proof. done. Qed.

Lemma feed_loop_acc fuel p ms : feed_loop fuel p ms = prepend ms (feed_loop fuel p []).
Proof.
  revert p ms. induction fuel as [|f IH]; intros p ms; simpl;
    destruct (try_parse (depth_fuel p) p 0 0) as [[v n]|]; unfold prepend; simpl; try done;
    case_if; simpl; rewrite ?app_nil_r; try done.
  rewrite IH, (IH _ [v]). unfold prepend. simpl.
  destruct (feed_loop f _ []) as [[ns|] p']; simpl; [|done]. by rewrite <- app_assoc.
Qed.

Lemma feed_loop_fuel fuel fuel' p ms :
  (length (buf p) <= fuel)%nat -> (length (buf p) <= fuel')%nat ->
  feed_loop fuel p ms = feed_loop fuel' p ms.
Proof.
  revert fuel' p ms. induction fuel as [|f IH]; intros fuel' p ms H H';
    destruct fuel' as [|f']; simpl;
    destruct (try_parse (depth_fuel p) p 0 0) as [[v n]|] eqn:E; try done;
    destruct (n =? 0)%nat eqn:Hn; try done; breflect;
    destruct (try_parse_frame _ _ _ _ _ _ E Hn) as [Hb _]; [lia..|].
  apply IH; simpl; rewrite length_drop; lia.
Qed.

Lemma drain_stop p v : try_parse (depth_fuel p) p 0 0 = Ok (v, 0%nat) -> drain p = (Ok [], p).
Proof. intros H. unfold drain. destruct (buf p); simpl; by rewrite H. Qed.

Lemma drain_err p e : try_parse (depth_fuel p) p 0 0 = Err e -> drain p = (Err e, p).
Proof. intros H. unfold drain. destruct (length (buf p)); simpl; by rewrite H. Qed.

Lemma drain_step p v n :
  try_parse (depth_fuel p) p 0 0 = Ok (v, n) -> n <> 0%nat ->
  drain p = prepend [v] (drain (with_buf p (drop n (buf p)))).
Proof.
  intros H Hn. destruct (try_parse_frame _ _ _ _ _ _ H Hn) as [Hb _].
  unfold drain at 1. destruct (length (buf p)) as [|f] eqn:E; [lia|]. simpl.
  rewrite H, (proj2 (Nat.eqb_neq _ _) Hn), feed_loop_acc. f_equal.
  unfold drain. apply feed_loop_fuel; simpl; rewrite length_drop; lia.
Qed.

(** Induction following the loop. *)
Lemma drain_ind (P : RespParser -> Prop) :
  (forall p v, try_parse (depth_fuel p) p 0 0 = Ok (v, 0%nat) -> P p) ->
  (forall p e, try_parse (depth_fuel p) p 0 0 = Err e -> P p) ->
  (forall p v n, try_parse (depth_fuel p) p 0 0 = Ok (v, n) -> n <> 0%nat ->
     (0 < n <= length (buf p))%nat -> P (with_buf p (drop n (buf p))) -> P p) ->
  forall p, P p.
Proof.
  intros Hstop Herr Hstep p. remember (length (buf p)) as m eqn:Hm. revert p Hm.
  induction m as [m IH] using lt_wf_ind. intros p ->.
  destruct (try_parse (depth_fuel p) p 0 0) as [[v n]|e] eqn:E; [|by eapply Herr].
  destruct (decide (n = 0%nat)) as [->|Hn]; [by eapply Hstop|].
  destruct (try_parse_frame _ _ _ _ _ _ E Hn) as [Hb _].
  eapply Hstep; [done..|lia|]. eapply IH; [|done]. simpl. rewrite length_drop. lia.
Qed.

Lemma drain_fuel p : (drain p).1 <> Err OutOfFuel.
Proof.
  induction p as [p v H|p e H|p v n H Hn _ IH] using drain_ind.
  - by rewrite (drain_stop _ _ H).
  - rewrite (drain_err _ _ H). simpl. intros Heq.
    apply (try_parse_fuel (depth_fuel p) p 0 0); [unfold depth_fuel; lia|]. rewrite H. by inversion Heq.
  - rewrite (drain_step _ _ _ H Hn). unfold prepend. simpl.
    destruct (drain _) as [[ms|e] p']; simpl in *; [done|]. congruence.
Qed.

(** What is left in the buffer is an incomplete frame, a suffix of the input. *)
Lemma drain_rest p ms p' :
  drain p = (Ok ms, p') ->
  (exists v, try_parse (depth_fuel p') p' 0 0 = Ok (v, 0%nat)) /\
  (exists l, buf p = l ++ buf p') /\ p' = with_buf p (buf p').
Proof.
  revert ms. induction p as [p v H|p e H|p v n H Hn _ IH] using drain_ind; intros ms.
  - rewrite (drain_stop _ _ H). intros; inv_ok. split_and!; [by eexists | by exists [] | by rewrite with_buf_id].
  - by rewrite (drain_err _ _ H).
  - rewrite (drain_step _ _ _ H Hn). unfold prepend.
    destruct (drain (with_buf p _)) as [[ns|e] q] eqn:E; simpl; intros; inv_ok.
    destruct (IH _ eq_refl) as (Hv & (l & Hl) & Hp). split_and!; [done| |done].
    exists (take n (buf p) ++ l). rewrite <- app_assoc, <- Hl. simpl. by rewrite take_drop.
Qed.

Lemma forallb_ext' {A} (f g : A -> bool) l : Forall (fun x => f x = g x) l -> forallb f l = forallb g l.
Proof. induction 1 as [|x l Hx Hl IH]; simpl; [done|]. by rewrite Hx, IH. Qed.

(** The limits do not depend on the contents of the buffer. *)
Lemma within_with_buf p l v levels : within (with_buf p l) levels v = within p levels v.
Proof.
  revert levels. induction v as [ | | | | | vs IH | | | | | ] using pyobj_rect'; intros levels; try done.
  simpl. f_equal. apply forallb_ext'. eapply Forall_impl; [exact IH|]. auto.
Qed.

Lemma fits_with_buf p l v levels : fits (with_buf p l) levels v = fits p levels v.
Proof.
  revert levels. induction v as [ | | | | | vs IH | | | | | ] using pyobj_rect'; intros levels; try done.
  simpl. f_equal. apply forallb_ext'. eapply Forall_impl; [exact IH|]. auto.
Qed.

(** Every message of a drained buffer is within the limits. *)
Lemma drain_within p ms p' :
  drain p = (Ok ms, p') -> Forall (fun v => within p (max_array_depth p) v = true) ms.
Proof.
  revert ms. induction p as [p v H|p e H|p v n H Hn _ IH] using drain_ind; intros ms.
  - rewrite (drain_stop _ _ H). intros; inv_ok. constructor.
  - by rewrite (drain_err _ _ H).
  - rewrite (drain_step _ _ _ H Hn). unfold prepend.
    destruct (drain (with_buf p _)) as [[ns|e] q] eqn:E; simpl; intros; inv_ok.
    destruct (try_parse_frame _ _ _ _ _ _ H Hn) as [_ Hw]. rewrite Z.sub_0_r in Hw.
    constructor; [done|]. eapply Forall_impl; [exact (IH _ eq_refl)|].
    intros x Hx. cbn beta in *. by rewrite within_with_buf in Hx.
Qed.

Lemma drain_shrinks p : zlen (buf (drain p).2) <= zlen (buf p).
Proof.
  induction p as [p v H|p e H|p v n H Hn Hle IH] using drain_ind.
  - by rewrite (drain_stop p v H).
  - by rewrite (drain_err p e H).
  - rewrite (drain_step p v n H Hn). unfold prepend. simpl in *.
    unfold zlen in *. rewrite length_drop in IH. lia.
Qed.

(** The parser raises nothing but [ProtocolError]. *)
Definition protocol_only {A} (r : result A) : Prop :=
  match r with Ok _ => True | Err e => e = OutOfFuel \/ exists msg, e = ProtocolError msg end.

Lemma parse_items_protocol rec count cursor items :
  (forall c, protocol_only (rec c)) -> protocol_only (parse_items rec count cursor items).
Proof.
  intros Hrec. revert cursor items. induction count as [|n IH]; intros cursor items; simpl; [done|].
  pose proof (Hrec cursor). destruct (rec cursor) as [[item e]|]; simpl; [|done]. case_if; [done|]. apply IH.
Qed.

Lemma parse_array_protocol p rec start depth :
  (forall c d, protocol_only (rec c d)) -> protocol_only (parse_array p rec start depth).
Proof.
  intros Hrec. unfold parse_array. case_if; [right; eauto|].
  destruct (read_line _ _) as [line e]. case_if; [done|].
  destruct (int_of_bytes line); [|right; eauto]. case_if; [done|]. do 2 (case_if; [right; eauto|]).
  apply parse_items_protocol. auto.
Qed.

Lemma try_parse_protocol fuel p start depth : protocol_only (try_parse fuel p start depth).
Proof.
  revert start depth. induction fuel as [|f IH]; intros start depth; cbn [try_parse];
    (destruct (buf p !! start) as [c|]; [|done]);
    (case_if; [unfold parse_line_value; destruct (read_line _ _); case_if; done|]);
    (case_if; [unfold parse_error_value; destruct (read_line _ _); case_if; done|]);
    (case_if; [unfold parse_integer_value; destruct (read_line _ _); case_if; [done|];
               destruct (int_of_bytes _); simpl; eauto|]);
    (case_if; [unfold parse_bulk; destruct (read_line _ _); case_if; [done|];
               destruct (int_of_bytes _); simpl; [|eauto]; case_if; [done|];
               do 2 (case_if; [simpl; eauto|]); case_if; [done|]; case_if; simpl; eauto|]);
    (case_if; [|simpl; eauto]); apply parse_array_protocol; simpl; auto.
Qed.

Lemma drain_protocol_error p :
  match (drain p).1 with Ok _ => True | Err e => exists msg, e = ProtocolError msg end.
Proof.
  pose proof (drain_fuel p) as Hf. revert Hf.
  induction p as [p v H|p e H|p v n H Hn _ IH] using drain_ind; intros Hf.
  - by rewrite (drain_stop _ _ H).
  - rewrite (drain_err _ _ H) in *. simpl in *.
    pose proof (try_parse_protocol (depth_fuel p) p 0 0) as Hp. rewrite H in Hp. simpl in Hp.
    destruct Hp as [->|]; [done|done].
  - rewrite (drain_step _ _ _ H Hn) in *. unfold prepend in *. simpl in *.
    destruct (drain _) as [[ms|e] p']; simpl in *; auto.
Qed.

(** Feeding more input after draining is draining the whole input. *)
Lemma drain_app p k :
  drain (with_buf p (buf p ++ k)) =
  match drain p with
  | (Ok ms, p') => prepend ms (drain (with_buf p' (buf p' ++ k)))
  | (Err e, p') => (Err e, with_buf p' (buf p' ++ k))
  end.
Proof.
  induction p as [p v H|p e H|p v n H Hn Hle IH] using drain_ind.
  - by rewrite (drain_stop p v H), prepend_nil.
  - rewrite (drain_err p e H). apply drain_err.
    change (depth_fuel (with_buf p (buf p ++ k))) with (depth_fuel p).
    rewrite try_parse_stable; [done | by rewrite H].
  - rewrite (drain_step p v n H Hn).
    rewrite (drain_step (with_buf p (buf p ++ k)) v n); [|..|done].
    + cbn [buf with_buf]. rewrite drop_app_le by lia.
      change (with_buf (with_buf p (buf p ++ k)) (drop n (buf p) ++ k))
        with (with_buf (with_buf p (drop n (buf p))) (buf (with_buf p (drop n (buf p))) ++ k)).
      rewrite IH. destruct (drain (with_buf p (drop n (buf p)))) as [[ms|e] p']; [|done].
      rewrite prepend_app. done.
    + change (depth_fuel (with_buf p (buf p ++ k))) with (depth_fuel p).
      rewrite try_parse_stable; [done | by rewrite H].
Qed.

(** ** [feed] *)

Lemma feed_drain p data :
  zlen (buf p) + zlen data <= max_buffer_bytes p -> feed p data = drain (with_buf p (buf p ++ data)).
Proof.
  intros H. unfold feed. destruct data as [|c data].
  - rewrite zlen_nil in H. replace (max_buffer_bytes p <? zlen (buf p)) with false by lia.
    by rewrite app_nil_r, with_buf_id.
  - by replace (max_buffer_bytes p <? zlen (buf p) + zlen (c :: data)) with false by lia.
Qed.

Lemma feed_over p data :
  max_buffer_bytes p < zlen (buf p) + zlen data -> feed p data = (Err (buffer_error p), p).
Proof.
  intros H. unfold feed. destruct data as [|c data].
  - rewrite zlen_nil in H. by replace (max_buffer_bytes p <? zlen (buf p)) with true by lia.
  - by replace (max_buffer_bytes p <? zlen (buf p) + zlen (c :: data)) with true by lia.
Qed.

(** A parser that holds no complete frame: a new one, or one that [feed]
    returned from. *)
Definition quiescent (p : RespParser) : Prop := drain p = (Ok [], p).

Lemma quiescent_empty p : buf p = [] -> quiescent p.
Proof.
  intros H. apply (drain_stop _ PNone). destruct (depth_fuel p); cbn [try_parse]; by rewrite H.
Qed.

Lemma drain_quiescent p ms p' : drain p = (Ok ms, p') -> quiescent p'.
Proof. intros H. destruct (drain_rest _ _ _ H) as ((v & Hv) & _). by eapply drain_stop. Qed.

(** The chunks of a connection, fed one after the other until one raises: the
    messages that were delivered, the exception, and the parser. *)
Fixpoint feed_all (p : RespParser) (chunks : list bytes) : list pyobj * option exn * RespParser :=
  match chunks with
  | [] => ([], None, p)
  | c :: cs =>
      match feed p c with
      | (Ok ms, p') => let '(ms', e, q) := feed_all p' cs in (ms ++ ms', e, q)
      | (Err e, p') => ([], Some e, p')
      end
  end.

(** The buffer of [p] begins with the frames of [ms], and [q] is what follows
    them. *)
Inductive frames : RespParser -> list pyobj -> RespParser -> Prop :=
| frames_nil p : frames p [] p
| frames_cons p v n ms q :
    try_parse (depth_fuel p) p 0 0 = Ok (v, n) -> n <> 0%nat -> frames (with_buf p (drop n (buf p))) ms q -> frames p (v :: ms) q.

Lemma frames_app p ms1 q ms2 r : frames p ms1 q -> frames q ms2 r -> frames p (ms1 ++ ms2) r.
Proof. intros H1 H2. induction H1; [done|]. econstructor; eauto. Qed.

(** More input behind them changes nothing. *)
Lemma frames_more p ms q k : frames p ms q -> frames (with_buf p (buf p ++ k)) ms (with_buf q (buf q ++ k)).
Proof.
  intros H. induction H as [p|p v n ms q Hp Hn _ IH]; [constructor|].
  assert (n <= length (buf p))%nat as Hle by (by apply (try_parse_frame _ _ _ _ _ _ Hp Hn)).
  apply (frames_cons _ v n); [|done|].
  - change (depth_fuel (with_buf p (buf p ++ k))) with (depth_fuel p). rewrite try_parse_stable; [done|by rewrite Hp].
  - cbn [buf with_buf] in *. by rewrite drop_app_le.
Qed.

(** [drain] delivers the frames up to an incomplete one, or raises at the first
    that is malformed. *)
Lemma drain_frames p :
  match drain p with
  | (Ok ms, q) => frames p ms q
  | (Err e, q) => exists ms, frames p ms q /\ try_parse (depth_fuel q) q 0 0 = Err e
  end.
Proof.
  induction p as [p v H|p e H|p v n H Hn _ IH] using drain_ind.
  - rewrite (drain_stop p v H). constructor.
  - rewrite (drain_err p e H). exists []. split; [constructor|done].
  - rewrite (drain_step p v n H Hn). unfold prepend. destruct (drain (with_buf p _)) as [[ms|e] q]; simpl.
    + by apply (frames_cons p v n).
    + destruct IH as (ms & Hf & He). exists (v :: ms). split; [by apply (frames_cons p v n)|done].
Qed.

Lemma feed_all_drain p chunks :
  quiescent p -> zlen (buf p) + zlen (concat chunks) <= max_buffer_bytes p ->
  let whole := with_buf p (buf p ++ concat chunks) in
  match drain whole with
  | (Ok ms, q) => feed_all p chunks = (ms, None, q)
  | (Err e, q) => exists ms ms0 q0, feed_all p chunks = (ms, Some e, q0) /\ frames whole ms0 q /\ ms `prefix_of` ms0 /\ buf q0 `prefix_of` buf q
  end.
Proof.
  revert p. induction chunks as [|c cs IH]; intros p Hq Hlen; simpl in *.
  - rewrite app_nil_r, with_buf_id. by rewrite Hq.
  - rewrite zlen_app in Hlen. pose proof (zlen_nonneg (concat cs)).
    rewrite feed_drain by lia. set (p1 := with_buf p (buf p ++ c)).
    rewrite app_assoc. change (with_buf p ((buf p ++ c) ++ concat cs)) with (with_buf p1 (buf p1 ++ concat cs)).
    rewrite (drain_app p1 (concat cs)). pose proof (drain_frames p1) as Hf.
    destruct (drain p1) as [[ms|e] q] eqn:E.
    + destruct (drain_rest _ _ _ E) as (_ & (l & Hl) & Hqe). unfold p1 in Hl. cbn [buf with_buf] in Hl. specialize (IH q).
      apply (frames_more _ _ _ (concat cs)) in Hf. unfold prepend.
      destruct (drain (with_buf q (buf q ++ concat cs))) as [[ns|e] r].
      * rewrite IH; [done|by eapply drain_quiescent|].
        rewrite Hqe. cbn [buf with_buf max_buffer_bytes p1].
        assert (zlen (buf p ++ c) = zlen l + zlen (buf q)) as Hz by (by rewrite Hl, zlen_app).
        rewrite zlen_app in Hz. pose proof (zlen_nonneg l). lia.
      * destruct IH as (ns & ns0 & q0 & Hall & Hfr & Hp & Hb); [by eapply drain_quiescent| |].
        { rewrite Hqe. cbn [buf with_buf max_buffer_bytes p1].
          assert (zlen (buf p ++ c) = zlen l + zlen (buf q)) as Hz by (by rewrite Hl, zlen_app).
          rewrite zlen_app in Hz. pose proof (zlen_nonneg l). lia. }
        exists (ms ++ ns), (ms ++ ns0), q0. simpl. rewrite Hall. split; [done|]. split; [by eapply frames_app|].
        split; [by apply prefix_app|done].
    + destruct Hf as (ms0 & Hf & _). exists [], ms0, q. split; [done|]. split; [by apply frames_more|].
      split; [apply prefix_nil|]. cbn [buf with_buf]. by eexists.
Qed.

(** ** Pipelines of encoded values, complete or cut off *)

(** [es] are the encodings of the values [vs], each within the limits of [p]. *)
Definition encodings (p : RespParser) (vs : list pyobj) (es : list bytes) : Prop :=
  Forall2 (fun v e => fits p (max_array_depth p) v = true /\ encode_value v = Ok e) vs es.

Lemma try_parse_whole p v e post :
  limits_ok p -> fits p (max_array_depth p) v = true -> encode_value v = Ok e ->
  buf p = e ++ post -> try_parse (depth_fuel p) p 0 0 = Ok (parsed v, length e) /\ e <> [].
Proof.
  intros Hlim Hf He Hb. split; [|by eapply encode_value_nonempty].
  rewrite (try_parse_at p Hlim v (max_array_depth p) 0 (depth_fuel p) e [] post 0); try done.
  lia.
Qed.

Lemma drain_encodings p vs es rest :
  limits_ok p -> encodings p vs es -> buf p = concat es ++ rest ->
  drain p = prepend (map parsed vs) (drain (with_buf p rest)).
Proof.
  intros Hlim HF. revert p Hlim HF. induction es as [|e es IH] in vs |- *; intros p Hlim HF Hb.
  - inversion HF; subst. simpl in *. by rewrite prepend_nil, <- Hb, with_buf_id.
  - inversion HF as [|v ? vs' ? [Hf He] HF']; subst. simpl in Hb. rewrite <- app_assoc in Hb.
    destruct (try_parse_whole _ _ _ _ Hlim Hf He Hb) as [Hp Hne].
    rewrite (drain_step p (parsed v) (length e)); [|done|by destruct e].
    rewrite Hb, drop_app_length. simpl.
    rewrite (IH vs' (with_buf p (concat es ++ rest))); [|done| |done].
    + by rewrite prepend_app, with_buf_twice.
    + eapply Forall2_impl; [exact HF'|]. intros v' e' [Hf' He']. by rewrite fits_with_buf.
Qed.

(** A strict prefix of an encoding is an incomplete frame, never an error. *)
Lemma drain_strict_prefix p v e cut rest :
  limits_ok p -> fits p (max_array_depth p) v = true -> encode_value v = Ok e ->
  e = cut ++ rest -> rest <> [] -> buf p = cut -> drain p = (Ok [], p).
Proof.
  intros Hlim Hf He Hsplit Hne Hb.
  destruct (try_parse_whole (with_buf p e) v e []) as [Hp _]; try done.
  { by rewrite fits_with_buf. } { by rewrite app_nil_r. }
  cbn [with_buf max_array_depth] in Hp.
  change (depth_fuel (with_buf p e)) with (depth_fuel p) in Hp.
  assert (decided (try_parse (depth_fuel p) p 0 0) ->
          try_parse (depth_fuel p) p 0 0 = Ok (parsed v, length e)) as Hst.
  { intros Hd. rewrite <- Hp, Hsplit, <- Hb. symmetry. by apply try_parse_stable. }
  destruct (try_parse (depth_fuel p) p 0 0) as [[w n]|x] eqn:E.
  - destruct (decide (n = 0%nat)) as [->|Hn]; [by eapply drain_stop|].
    destruct (try_parse_frame _ _ _ _ _ _ E Hn) as [Hlen _].
    specialize (Hst Hn). injection Hst as -> ->. rewrite Hsplit, length_app, Hb in Hlen.
    destruct rest; [done|]. simpl in Hlen. lia.
  - by specialize (Hst I).
Qed.

(** A command as the parser delivers it. *)
Definition command_obj (argv : list bytes) : pyobj := PList (map PBytes argv).

(** Commands within the limits of the parser. *)
Definition command_fits (p : RespParser) (argv : list bytes) : bool :=
  (zlen argv <=? max_array_len p) && forallb (fun a => zlen a <=? max_bulk_len p) argv.

Definition wire (cmds : list (list bytes)) : bytes := concat (map encode_command cmds).

Lemma parsed_command argv : parsed (command_obj argv) = command_obj argv.
Proof. unfold command_obj. simpl. f_equal. rewrite map_map. by apply map_ext. Qed.

Lemma command_fits_fits p argv :
  0 < max_array_depth p -> command_fits p argv = true ->
  fits p (max_array_depth p) (command_obj argv) = true.
Proof.
  intros Hd H. unfold command_fits in H. breflect. apply fits_list. split_and!; [done| |].
  - unfold zlen in *. by rewrite length_map.
  - apply Forall_map. apply Forall_forall. intros a Ha. simpl.
    match goal with H : forallb _ _ = true |- _ => rewrite forallb_forall in H; apply H end.
    by apply list_elem_of_In.
Qed.

Lemma command_encodings p cmds :
  0 < max_array_depth p -> Forall (fun c => command_fits p c = true) cmds ->
  encodings p (map command_obj cmds) (map encode_command cmds).
Proof.
  intros Hd. induction 1 as [|c cmds Hc _ IH]; simpl; constructor; [|done].
  split; [by apply command_fits_fits | apply encode_command_value].
Qed.

Lemma map_parsed_commands cmds : map parsed (map command_obj cmds) = map command_obj cmds.
Proof. rewrite map_map. apply map_ext. apply parsed_command. Qed.

Lemma encodings_with_buf p l vs es : encodings p vs es -> encodings (with_buf p l) vs es.
Proof.
  intros H. eapply Forall2_impl; [exact H|]. intros v e [Hf He]. by rewrite fits_with_buf.
Qed.

(** A cut in a concatenation falls inside one of its parts. *)
Lemma take_concat (n : nat) (es : list bytes) :
  (n < length (concat es))%nat ->
  exists k e r, es !! k = Some e /\ (r < length e)%nat /\
    take n (concat es) = concat (take k es) ++ take r e.
Proof.
  revert n. induction es as [|e es IH]; intros n Hn; simpl in *; [lia|].
  rewrite length_app in Hn. destruct (decide (n < length e)%nat) as [Hlt|Hge].
  - exists 0%nat, e, n. rewrite take_app_le by lia. done.
  - destruct (IH (n - length e)%nat) as (k & e' & r & Hk & Hr & Ht); [lia|].
    exists (S k), e', r. split_and!; [done..|]. simpl.
    rewrite take_app_ge by lia. by rewrite Ht, app_assoc.
Qed.

(** A pipeline of commands cut anywhere: the complete commands are
    delivered, the rest of the cut command stays in the buffer. *)
Lemma drain_cut p cmds n :
  limits_ok p -> 0 < max_array_depth p -> Forall (fun c => command_fits p c = true) cmds ->
  exists k rest, drain (with_buf p (take n (wire cmds))) =
      (Ok (map command_obj (take k cmds)), with_buf p rest) /\
    take n (wire cmds) = wire (take k cmds) ++ rest /\
    (k < length cmds -> exists c, cmds !! k = Some c /\ (length rest < length (encode_command c))%nat)%nat /\
    (length cmds <= k -> rest = [])%nat.
Proof.
  intros Hlim Hd Hfit. destruct (decide (n < length (wire cmds))%nat) as [Hn|Hn].
  - destruct (take_concat n (map encode_command cmds)) as (k & e & r & Hk & Hr & Ht); [done|].
    rewrite list_lookup_fmap in Hk. destruct (cmds !! k) as [c|] eqn:Ec; [|done]. simpl in Hk. inv_ok.
    rewrite <- fmap_take in Ht. fold (wire cmds) in Ht.
    pose proof (lookup_lt_Some _ _ _ Ec).
    exists k, (take r (encode_command c)). split_and!; [| |intros _; exists c; split; [done|rewrite length_take; lia]|lia].
    + assert (Forall (fun c => command_fits p c = true) (take k cmds)) as Hfk by (by apply Forall_take).
      erewrite (drain_encodings _ (map command_obj (take k cmds)) (map encode_command (take k cmds)));
        [|done|by apply encodings_with_buf, command_encodings|cbn [buf with_buf]; exact Ht].
      rewrite with_buf_twice, map_parsed_commands.
      rewrite (drain_strict_prefix (with_buf p (take r (encode_command c))) (command_obj c)
        (encode_command c) (take r (encode_command c)) (drop r (encode_command c))); [unfold prepend; simpl; by rewrite app_nil_r|done| |apply encode_command_value| | |done].
      * rewrite fits_with_buf. cbn [with_buf max_array_depth]. apply command_fits_fits; [done|].
        rewrite Forall_forall in Hfit. apply Hfit. by eapply list_elem_of_lookup_2.
      * by rewrite take_drop.
      * intros Hdr. apply (f_equal length) in Hdr. rewrite length_drop, length_nil in Hdr. lia.
    + exact Ht.
  - exists (length cmds), []. rewrite !take_ge by lia. rewrite app_nil_r. split_and!; [|done|lia|done].
    erewrite (drain_encodings _ (map command_obj cmds) (map encode_command cmds) []);
      [|done|by apply encodings_with_buf, command_encodings|cbn [buf with_buf]; by rewrite app_nil_r].
    rewrite with_buf_twice, map_parsed_commands, (quiescent_empty (with_buf p [])) by done.
    unfold prepend. simpl. by rewrite app_nil_r.
Qed.

Lemma drain_pipeline p cmds :
  limits_ok p -> 0 < max_array_depth p -> Forall (fun c => command_fits p c = true) cmds ->
  drain (with_buf p (wire cmds)) = (Ok (map command_obj cmds), with_buf p []).
Proof.
  intros Hlim Hd Hfit.
  destruct (drain_cut p cmds (length (wire cmds)) Hlim Hd Hfit) as (k & rest & Hdr & Hw & Hk1 & Hk2).
  rewrite firstn_all in Hdr, Hw. rewrite Hdr.
  assert (length cmds <= k)%nat as Hk.
  { destruct (decide (k < length cmds)%nat) as [Hlt|]; [|lia]. exfalso.
    destruct (Hk1 Hlt) as (c & Hc & Hr).
    rewrite <- (take_drop_middle _ _ _ Hc) in Hw at 1. unfold wire in Hw.
    rewrite map_app, concat_app in Hw. apply app_inv_head in Hw. cbn [map concat] in Hw.
    apply (f_equal length) in Hw. rewrite length_app in Hw. lia. }
  by rewrite take_ge, (Hk2 Hk) by lia.
Qed.

(** ** Properties *)

(** C19: chunking independence.  The network cuts a stream into reads in any
    way; its bytes, with those already in the buffer, are within
    [max_buffer_bytes].  When the whole stream parses, feeding the chunks one by
    one delivers the same messages as feeding it whole, raises nothing and leaves
    the same incomplete frame in the buffer.  When the whole stream raises, so do
    the chunks, with the same exception: the messages delivered before it are
    some of the frames in front of the malformed one, in order from the first, and
    the buffer begins with the malformed frame as it does for the whole stream. *)
Theorem feed_chunks (p : RespParser) (chunks : list bytes) :
  quiescent p -> zlen (buf p) + zlen (concat chunks) <= max_buffer_bytes p ->
  match feed p (concat chunks) with
  | (Ok ms, q) => feed_all p chunks = (ms, None, q)
  | (Err e, q) => exists ms ms0 q0, feed_all p chunks = (ms, Some e, q0) /\
      frames (with_buf p (buf p ++ concat chunks)) ms0 q /\ ms `prefix_of` ms0 /\ buf q0 `prefix_of` buf q
  end.
Proof. intros Hq Hlen. rewrite feed_drain by done. by apply feed_all_drain. Qed.

Definition ex_chunks : list bytes := [b "*1"; [CR]; [LF] ++ b "$4"; CRLF ++ b "PING" ++ [CR]; [LF] ++ b "+O"].
(** A good frame in the first read, a malformed one behind it. *)
Definition ex_bad_chunks : list bytes := [b "+OK" ++ CRLF; b ":x" ++ CRLF].

Lemma feed_chunks_witness :
  (exists q, feed_all ex_parser ex_chunks = ([PList [PBytes (b "PING")]], None, q)) /\
  exists e q ms ms0 q0, feed ex_parser (concat ex_bad_chunks) = (Err e, q) /\
    feed_all ex_parser ex_bad_chunks = (ms, Some e, q0) /\ ms `prefix_of` ms0.
Proof.
  split.
  - pose proof (feed_chunks ex_parser ex_chunks ltac:(by apply quiescent_empty) ltac:(vm_compute; congruence)) as H.
    eexists. exact H.
  - pose proof (feed_chunks ex_parser ex_bad_chunks ltac:(by apply quiescent_empty) ltac:(vm_compute; congruence)) as H.
    destruct H as (ms & ms0 & q0 & H1 & _ & H2 & _). eexists _, _, ms, ms0, q0. split; [reflexivity|]. split; [exact H1|exact H2].
Defined.

(** command round trip.  A pipeline of commands encoded by
    [encode_command] is parsed back to exactly these commands, with nothing
    left in the buffer. *)
Theorem feed_pipeline (p : RespParser) (cmds : list (list bytes)) :
  buf p = [] -> limits_ok p -> 0 < max_array_depth p ->
  Forall (fun c => command_fits p c = true) cmds ->
  zlen (wire cmds) <= max_buffer_bytes p ->
  feed p (wire cmds) = (Ok (map command_obj cmds), p).
Proof.
  intros Hb Hlim Hd Hfit Hlen.
  rewrite feed_drain by (rewrite Hb; rewrite zlen_nil; lia). rewrite Hb. simpl.
  rewrite drain_pipeline by done. by rewrite <- Hb, with_buf_id.
Qed.

Lemma feed_pipeline_witness :
  feed ex_parser (wire [[b "SET"; b "k"; b ""]; [b "GET"; b "k"]]) =
  (Ok [PList [PBytes (b "SET"); PBytes (b "k"); PBytes (b "")]; PList [PBytes (b "GET"); PBytes (b "k")]], ex_parser).
Proof.
  apply (feed_pipeline ex_parser [[b "SET"; b "k"; b ""]; [b "GET"; b "k"]]);
    [reflexivity | split; reflexivity | reflexivity | by repeat constructor | vm_compute; congruence].
Defined.

(** C20: a pipeline cut at any byte (a read that ends mid-frame, a log whose
    tail was lost) is never misread: exactly the complete commands are
    delivered, no error is raised, and the incomplete rest of the next
    command is what stays in the buffer. *)
Theorem feed_truncated (p : RespParser) (cmds : list (list bytes)) (n : nat) :
  buf p = [] -> limits_ok p -> 0 < max_array_depth p ->
  Forall (fun c => command_fits p c = true) cmds ->
  zlen (wire cmds) <= max_buffer_bytes p ->
  exists k rest,
    feed p (take n (wire cmds)) = (Ok (map command_obj (take k cmds)), with_buf p rest) /\
    take n (wire cmds) = wire (take k cmds) ++ rest /\
    (k < length cmds -> exists c, cmds !! k = Some c /\ (length rest < length (encode_command c))%nat)%nat /\
    (length cmds <= k -> rest = [])%nat.
Proof.
  intros Hb Hlim Hd Hfit Hlen.
  destruct (drain_cut p cmds n Hlim Hd Hfit) as (k & rest & Hdr & Hw & Hk1 & Hk2).
  exists k, rest. split_and!; [|done..].
  rewrite feed_drain; [by rewrite Hb|]. rewrite Hb. unfold zlen in *. simpl.
  rewrite length_take. lia.
Qed.

Lemma feed_truncated_witness :
  exists k rest,
    feed ex_parser (take 30 (wire [[b "GET"; b "a"]; [b "GET"; b "b"]])) =
    (Ok (map command_obj (take k [[b "GET"; b "a"]; [b "GET"; b "b"]])), with_buf ex_parser rest).
Proof.
  edestruct (feed_truncated ex_parser [[b "GET"; b "a"]; [b "GET"; b "b"]] 30) as (k & rest & H & _);
    [reflexivity | split; reflexivity | reflexivity | by repeat constructor | vm_compute; congruence |].
  exists k, rest. exact H.
Defined.

(** C27: resource limits.  Whatever bytes arrive, [feed] keeps the buffer
    within [max_buffer_bytes], and every delivered message is nested at most
    [max_array_depth] deep, with arrays of at most [max_array_len] elements
    and bulk strings of at most [max_bulk_len] bytes. *)
Theorem feed_limits (p : RespParser) (data : bytes) :
  zlen (buf p) <= max_buffer_bytes p ->
  zlen (buf (feed p data).2) <= max_buffer_bytes p /\
  (forall ms, (feed p data).1 = Ok ms ->
    Forall (fun v => within p (max_array_depth p) v = true) ms).
Proof.
  intros Hb. destruct (Z.le_gt_cases (zlen (buf p) + zlen data) (max_buffer_bytes p)) as [Hle|Hgt].
  - rewrite feed_drain by done. split.
    + pose proof (drain_shrinks (with_buf p (buf p ++ data))) as Hs. cbn [buf with_buf] in Hs.
      rewrite zlen_app in Hs. lia.
    + intros ms Hms. destruct (drain _) as [r q] eqn:E. simpl in Hms. subst.
      eapply Forall_impl; [exact (drain_within _ _ _ E)|]. intros x Hx. cbn beta in *.
      by rewrite within_with_buf in Hx.
  - rewrite feed_over by lia. split; [done|]. by intros ms.
Qed.

Lemma feed_limits_witness :
  zlen (buf (feed ex_parser (b "*1" ++ CRLF)).2) <= 1000.
Proof. apply (feed_limits ex_parser (b "*1" ++ CRLF)). vm_compute. congruence. Defined.

(** C28: termination.  The recursion budgets of the model (the nesting limit
    for [_try_parse], the buffer length for the loop of [feed]) are never
    exhausted: [feed] always returns messages or raises a protocol error. *)
Theorem feed_terminates (p : RespParser) (data : bytes) :
  match (feed p data).1 with
  | Ok _ => True
  | Err e => exists msg, e = ProtocolError msg
  end.
Proof.
  destruct (Z.le_gt_cases (zlen (buf p) + zlen data) (max_buffer_bytes p)) as [Hle|Hgt].
  - rewrite feed_drain by done. apply drain_protocol_error.
  - rewrite feed_over by lia. simpl. unfold buffer_error. eauto.
Qed.

(** C29: value round trip.  Any reply that [encode_value] accepts and that is
    within the limits is parsed back to the value it stands for, wherever it
    stands in a stream, and parsing stops exactly at its end. *)
Theorem encode_value_roundtrip (p : RespParser) (v : pyobj) (enc post : bytes) :
  limits_ok p -> fits p (max_array_depth p) v = true -> encode_value v = Ok enc ->
  buf p = [] -> zlen (enc ++ post) <= max_buffer_bytes p ->
  feed p (enc ++ post) = prepend [parsed v] (feed p post).
Proof.
  intros Hlim Hf He Hb Hlen. rewrite zlen_app in Hlen. pose proof (zlen_nonneg enc).
  rewrite !feed_drain by (rewrite Hb, ?zlen_app, zlen_nil; lia). rewrite Hb. simpl.
  rewrite (drain_encodings (with_buf p (enc ++ post)) [v] [enc] post); [done|done| |by simpl; rewrite app_nil_r].
  constructor; [|constructor]. by rewrite fits_with_buf.
Qed.

Lemma encode_value_roundtrip_witness :
  feed ex_parser (b "*2" ++ CRLF ++ b ":-7" ++ CRLF ++ b "*1" ++ CRLF ++ b "$-1" ++ CRLF ++ b ":") =
  prepend [PList [PInt (-7); PList [PNone]]] (feed ex_parser (b ":")).
Proof.
  apply (encode_value_roundtrip ex_parser (PList [PInt (-7); PList [PNone]])
    (b "*2" ++ CRLF ++ b ":-7" ++ CRLF ++ b "*1" ++ CRLF ++ b "$-1" ++ CRLF) (b ":"));
  [split; reflexivity | reflexivity | reflexivity | reflexivity | vm_compute; congruence].
Defined.
