(* ===== verification/Dict.v ===== *)
(** * Python dictionaries

    A [dict] keeps its keys in insertion order, and the code observes that
    order (HGETALL, snapshots, RDB dumps, the tie-breaking of [min]).  It is
    modelled by the list of its items in iteration order, and related to a
    finite map by [dict_map]. *)
From S2P Require Import Prelude.

(** The items in iteration order. *)
Abbreviation dict K V := (list (K * V)).

Section dict.
Context {K : Type} `{Countable K} {V : Type}.
Implicit Types (d : dict K V) (k : K) (v : V).

(** [list(d.keys())] *)
Definition dict_keys d : list K := map fst d.

(** [d.get(k)] *)
Fixpoint dict_get d k : option V :=
  match d with
  | [] => None
  | (k', v) :: d' => if bool_decide (k' = k) then Some v else dict_get d' k
  end.

(** [d[k] = v]: in place when the key is present, appended otherwise. *)
Fixpoint dict_set d k v : dict K V :=
  match d with
  | [] => [(k, v)]
  | (k', v') :: d' => if bool_decide (k' = k) then (k', v) :: d' else (k', v') :: dict_set d' k v
  end.

(** [d.pop(k, None)], and [del d[k]] when the key is present. *)
Fixpoint dict_del d k : dict K V :=
  match d with
  | [] => []
  | (k', v') :: d' => if bool_decide (k' = k) then d' else (k', v') :: dict_del d' k
  end.

(** [k in d] *)
Definition dict_has d k : bool :=
  match dict_get d k with Some _ => true | None => false end.

(** The keys of a [dict] are distinct. *)
Definition dict_ok d : Prop := NoDup (dict_keys d).

(** The finite map of the items. *)
Definition dict_map d : gmap K V := list_to_map d.

(** ** Laws *)

Lemma dict_get_map d k : dict_get d k = dict_map d !! k.
Proof.
  unfold dict_map. induction d as [|[k' v] d IH]; simpl; [done|].
  case_bool_decide; subst; by simplify_map_eq.
Qed.

Lemma dict_set_map d k v : dict_map (dict_set d k v) = <[k:=v]> (dict_map d).
Proof.
  unfold dict_map. induction d as [|[k' v'] d IH]; simpl; [done|].
  case_bool_decide as E; simpl.
  - subst. by rewrite insert_insert_eq.
  - rewrite IH. by apply insert_insert_ne.
Qed.

Lemma dict_get_set d k v k' :
  dict_get (dict_set d k v) k' = if bool_decide (k = k') then Some v else dict_get d k'.
Proof.
  rewrite !dict_get_map, dict_set_map. case_bool_decide; subst; by simplify_map_eq.
Qed.

Lemma dict_get_set_eq d k v : dict_get (dict_set d k v) k = Some v.
Proof. rewrite dict_get_set. by rewrite bool_decide_true. Qed.

Lemma dict_get_set_ne d k v k' : k <> k' -> dict_get (dict_set d k v) k' = dict_get d k'.
Proof. intros. rewrite dict_get_set. by rewrite bool_decide_false. Qed.

Lemma dict_get_None d k : dict_get d k = None <-> k ∉ dict_keys d.
Proof.
  rewrite dict_get_map. unfold dict_map, dict_keys.
  split; [apply not_elem_of_list_to_map_2 | apply not_elem_of_list_to_map_1].
Qed.

Lemma dict_get_key d k v : dict_get d k = Some v -> k ∈ dict_keys d.
Proof.
  intros Hg. destruct (decide (k ∈ dict_keys d)) as [|Hn]; [done|].
  apply dict_get_None in Hn. congruence.
Qed.

Lemma dict_has_key d k : dict_has d k = true <-> k ∈ dict_keys d.
Proof.
  unfold dict_has. destruct (dict_get d k) eqn:E.
  - split; [intros _; by eapply dict_get_key | done].
  - apply dict_get_None in E. split; [done | tauto].
Qed.

Lemma dict_get_elem d k v : dict_get d k = Some v -> (k, v) ∈ d.
Proof. rewrite dict_get_map. apply elem_of_list_to_map_2. Qed.

Lemma dict_elem_get d k v : dict_ok d -> (k, v) ∈ d -> dict_get d k = Some v.
Proof. intros Hd Hin. rewrite dict_get_map. by apply elem_of_list_to_map_1. Qed.

Lemma dict_keys_set_present d k v v' :
  dict_get d k = Some v' -> dict_keys (dict_set d k v) = dict_keys d.
Proof.
  induction d as [|[k' w] d IH]; simpl; [done|]. case_bool_decide; simpl; [done|].
  intros Hg. f_equal. by apply IH.
Qed.

Lemma dict_set_absent d k v : dict_get d k = None -> dict_set d k v = d ++ [(k, v)].
Proof.
  induction d as [|[k' w] d IH]; simpl; [done|]. case_bool_decide; simpl; [done|].
  intros Hg. f_equal. by apply IH.
Qed.

Lemma dict_keys_set_absent d k v :
  dict_get d k = None -> dict_keys (dict_set d k v) = dict_keys d ++ [k].
Proof. intros Hg. rewrite dict_set_absent by done. unfold dict_keys. by rewrite map_app. Qed.

Lemma dict_set_ok d k v : dict_ok d -> dict_ok (dict_set d k v).
Proof.
  unfold dict_ok. intros Hd. destruct (dict_get d k) eqn:E.
  - by erewrite dict_keys_set_present.
  - rewrite dict_keys_set_absent by done. apply NoDup_app. split_and!; [done| |apply NoDup_singleton].
    apply dict_get_None in E. set_solver.
Qed.

Lemma dict_set_Forall (P : K * V -> Prop) d k v : P (k, v) -> Forall P d -> Forall P (dict_set d k v).
Proof.
  intros Hk. induction 1 as [|[k' v'] d Hd HF IH]; simpl; [by repeat constructor|].
  case_bool_decide; constructor; try done. congruence.
Qed.

Lemma dict_elem_keys_set d k v k' : k' ∈ dict_keys (dict_set d k v) <-> k' = k \/ k' ∈ dict_keys d.
Proof.
  destruct (dict_get d k) eqn:E.
  - erewrite dict_keys_set_present by done. apply dict_get_key in E. set_solver.
  - rewrite dict_keys_set_absent by done. set_solver.
Qed.

Lemma dict_keys_del d k : dict_ok d -> dict_keys (dict_del d k) = filter (fun k' => k' <> k) (dict_keys d).
Proof.
  unfold dict_ok. induction d as [|[k' w] d IH]; simpl; [done|].
  intros [Hn Hd]%NoDup_cons. case_bool_decide as E; simpl.
  - subst. rewrite filter_cons_False by tauto. rewrite filter_all; [done|].
    apply Forall_forall. intros x Hx ->. done.
  - rewrite filter_cons_True by done. f_equal. by apply IH.
Qed.

Lemma dict_del_ok d k : dict_ok d -> dict_ok (dict_del d k).
Proof. intros Hd. unfold dict_ok. rewrite dict_keys_del by done. by apply NoDup_filter. Qed.

Lemma dict_elem_keys_del d k k' :
  dict_ok d -> k' ∈ dict_keys (dict_del d k) <-> k' <> k /\ k' ∈ dict_keys d.
Proof. intros Hd. rewrite dict_keys_del by done. by rewrite list_elem_of_filter. Qed.

Lemma dict_get_del_eq d k : dict_ok d -> dict_get (dict_del d k) k = None.
Proof. intros Hd. apply dict_get_None. rewrite dict_elem_keys_del by done. tauto. Qed.

Lemma dict_get_del_ne d k k' : k <> k' -> dict_get (dict_del d k) k' = dict_get d k'.
Proof.
  intros Hne. induction d as [|[j w] d IH]; simpl; [done|].
  case_bool_decide; simpl; [|by rewrite IH]. subst. by rewrite bool_decide_false.
Qed.

Lemma dict_del_map d k : dict_ok d -> dict_map (dict_del d k) = delete k (dict_map d).
Proof.
  intros Hd. apply map_eq. intros k'. rewrite <- dict_get_map.
  destruct (decide (k = k')) as [->|Hne].
  - by rewrite dict_get_del_eq, lookup_delete_eq.
  - by rewrite dict_get_del_ne, lookup_delete_ne, dict_get_map.
Qed.

Lemma dict_del_absent d k : dict_get d k = None -> dict_del d k = d.
Proof.
  induction d as [|[k' w] d IH]; simpl; [done|]. case_bool_decide; [done|]. intros Hg. f_equal. by apply IH.
Qed.

Lemma dict_del_sublist d k : sublist (dict_del d k) d.
Proof. induction d as [|[k' w] d IH]; simpl; [done|]. case_bool_decide; by constructor. Qed.

Lemma dict_length_del d k v :
  dict_get d k = Some v -> length d = S (length (dict_del d k)).
Proof.
  induction d as [|[k' w] d IH]; simpl; [done|]. case_bool_decide; simpl; [done|]. intros Hg. by rewrite IH.
Qed.

Lemma dict_size d : dict_ok d -> size (dict_map d) = length d.
Proof.
  unfold dict_map, dict_ok. induction d as [|[k v] d IH]; simpl; [done|].
  intros [Hn Hd]%NoDup_cons. rewrite map_size_insert_None; [by rewrite IH|].
  by apply not_elem_of_list_to_map_1.
Qed.

(** Filtering on items keeps order and distinctness. *)
Lemma dict_filter_ok (P : K * V -> Prop) `{forall x, Decision (P x)} d :
  dict_ok d -> dict_ok (filter P d).
Proof.
  unfold dict_ok, dict_keys. induction d as [|[k v] d IH]; [done|]. rewrite filter_cons.
  intros [Hn Hd]%NoDup_cons. case_decide; [|by apply IH].
  apply NoDup_cons. split; [|by apply IH].
  intros Hin. apply Hn. apply list_elem_of_fmap in Hin as ([k' v'] & -> & Hin).
  apply list_elem_of_filter in Hin as [_ Hin]. apply list_elem_of_fmap. by eexists.
Qed.

Lemma dict_get_filter (P : K * V -> Prop) `{forall x, Decision (P x)} d k :
  dict_ok d -> dict_get (filter P d) k =
  match dict_get d k with Some v => if decide (P (k, v)) then Some v else None | None => None end.
Proof.
  intros Hd. destruct (dict_get d k) as [v|] eqn:E.
  - apply dict_get_elem in E as Hin. case_decide as HP.
    + apply dict_elem_get; [by apply dict_filter_ok|]. by apply list_elem_of_filter.
    + apply dict_get_None. intros Hk. apply list_elem_of_fmap in Hk as ([k' v'] & -> & Hin').
      apply list_elem_of_filter in Hin' as [HP' Hin'].
      apply (dict_elem_get _ _ _ Hd) in Hin'. simpl in *. congruence.
  - apply dict_get_None in E. apply dict_get_None. intros Hk. apply E.
    apply list_elem_of_fmap in Hk as ([k' v'] & -> & Hin').
    apply list_elem_of_filter in Hin' as [_ Hin']. apply list_elem_of_fmap. by eexists.
Qed.

(** Building a [dict] from items one by one. *)
Definition dict_of_items (d : dict K V) (items : list (K * V)) : dict K V :=
  foldl (fun d kv => dict_set d kv.1 kv.2) d items.

Lemma dict_of_items_fresh d items :
  dict_ok (d ++ items) -> dict_of_items d items = d ++ items.
Proof.
  revert d. induction items as [|[k v] items IH]; intros d Hd; simpl; [by rewrite app_nil_r|].
  rewrite dict_set_absent.
  - rewrite IH; rewrite <- app_assoc; done.
  - apply dict_get_None. unfold dict_ok, dict_keys in *. rewrite map_app in Hd. simpl in Hd.
    apply NoDup_app in Hd as (_ & Hd & _). intros Hk. apply (Hd _ Hk). set_solver.
Qed.

Lemma dict_of_items_id items : dict_ok items -> dict_of_items [] items = items.
Proof. apply (dict_of_items_fresh []). Qed.

End dict.

Arguments dict_map {K _ _ V} d.

#[export] Hint Extern 1 (dict_ok (dict_set _ _ _)) => apply dict_set_ok : redis.
#[export] Hint Extern 1 (dict_ok (dict_del _ _)) => apply dict_del_ok : redis.
