(* ===== verification/Store.v ===== *)
(** * The keyspace ([storage/types.py], [storage/expiry.py], [storage/store.py])

    One definition per method of [Store].  The wall clock is an input: each
    call of [now_ms()] that a method makes is an argument of its definition
    ([now], [now'], or a sequence [clk] when the number of calls varies).  A
    method returns its result, or the exception it raises, with the new
    store; an in-place change of an entry object is an update of the entry
    in [entries], which keeps its position. *)
From S2P Require Import Prelude Dict.
Local Open Scope Z_scope.

(** ** Entries *)

Inductive RedisType := STRING | LIST | HASH.

#[global] Instance RedisType_eq_dec : EqDecision RedisType.
Proof. solve_decision. Defined.

(** [bytes | deque[bytes] | dict[bytes, bytes]]; a deque is the list of its
    items from left to right. *)
Inductive RedisValue :=
| VBytes (v : bytes)
| VDeque (l : list bytes)
| VDict (d : dict bytes bytes).

Record KeyEntry := mkEntry {
  type : RedisType;
  value : RedisValue;
  expire_at_ms : option Z
}.

(** [KeyEntry.copy] *)
Definition entry_copy (e : KeyEntry) : KeyEntry :=
  let v := match value e with
           | VDeque l => VDeque l
           | VDict d => VDict d
           | VBytes s => VBytes s
           end in
  mkEntry (type e) v (expire_at_ms e).

Definition with_value (e : KeyEntry) (v : RedisValue) : KeyEntry :=
  mkEntry (type e) v (expire_at_ms e).

Definition with_expire (e : KeyEntry) (t : option Z) : KeyEntry :=
  mkEntry (type e) (value e) t.

(** ** Expiry *)

Definition is_expired (expire_at_ms : option Z) (now : Z) : bool :=
  match expire_at_ms with
  | None => false
  | Some t => t <=? now
  end.

Definition ttl_seconds (expire_at_ms : option Z) (now : Z) : Z :=
  match expire_at_ms with
  | None => -1
  | Some t =>
      let remaining_ms := t - now in
      if remaining_ms <=? 0 then -2
      else let secs := remaining_ms / 1000 in if 0 <? secs then secs else 0
  end.

(** ** The store *)

Inductive MaxmemoryPolicy := noeviction | allkeys_lru | volatile_ttl.

#[global] Instance MaxmemoryPolicy_eq_dec : EqDecision MaxmemoryPolicy.
Proof. solve_decision. Defined.

Record Store := mkStore {
  entries : dict bytes KeyEntry;
  maxmemory_bytes : Z;
  maxmemory_policy : MaxmemoryPolicy;
  access_clock : Z;
  last_access : dict bytes Z;
  evicted_keys : Z
}.

Definition new_store (maxmemory_bytes : Z) (maxmemory_policy : MaxmemoryPolicy) : Store :=
  mkStore [] maxmemory_bytes maxmemory_policy 0 [] 0.

Definition set_entries (st : Store) (es : dict bytes KeyEntry) : Store :=
  mkStore es (maxmemory_bytes st) (maxmemory_policy st) (access_clock st) (last_access st) (evicted_keys st).

(** [_touch_access] *)
Definition touch_access (st : Store) (key : bytes) : Store :=
  let c := access_clock st + 1 in
  mkStore (entries st) (maxmemory_bytes st) (maxmemory_policy st) c
    (dict_set (last_access st) key c) (evicted_keys st).

(** [del self._entries[key]; self._last_access.pop(key, None)] (also
    [self._entries.pop(key, None)]). *)
Definition forget (st : Store) (key : bytes) : Store :=
  mkStore (dict_del (entries st) key) (maxmemory_bytes st) (maxmemory_policy st) (access_clock st)
    (dict_del (last_access st) key) (evicted_keys st).

Definition forget_all (st : Store) (keys : list bytes) : Store := foldl forget st keys.

(** [_touch] *)
Definition touch (now : Z) (st : Store) (key : bytes) : option KeyEntry * Store :=
  match dict_get (entries st) key with
  | None => (None, st)
  | Some e =>
      if is_expired (expire_at_ms e) now then (None, forget st key)
      else (Some e, touch_access st key)
  end.

(** ** Introspection *)

Definition expired_keys (now : Z) (es : dict bytes KeyEntry) : list bytes :=
  map fst (filter (fun ke => is_expired (expire_at_ms ke.2) now = true) es).

(** [_purge_expired_all_lazy_touch] *)
Definition purge_expired (now : Z) (st : Store) : Store :=
  forget_all st (expired_keys now (entries st)).

(** [iter_entries], run to its end: the entries it yields, and the store. *)
Definition iter_entries (now : Z) (st : Store) : dict bytes KeyEntry * Store :=
  (filter (fun ke => is_expired (expire_at_ms ke.2) now = false) (entries st),
   forget_all st (expired_keys now (entries st))).

Definition snapshot (now : Z) (st : Store) : dict bytes KeyEntry * Store :=
  let '(es, st') := iter_entries now st in
  (map (fun ke => (ke.1, entry_copy ke.2)) es, st').

Definition clear (st : Store) : Store :=
  mkStore [] (maxmemory_bytes st) (maxmemory_policy st) (access_clock st) [] (evicted_keys st).

Definition load_entries (st : Store) (es : dict bytes KeyEntry) : Store :=
  let es' := map (fun ke => (ke.1, entry_copy ke.2)) es in
  let la := imap (fun index key => (key, Z.of_nat index)) (dict_keys es') in
  mkStore es' (maxmemory_bytes st) (maxmemory_policy st) (zlen la) la (evicted_keys st).

(** ** Generic key operations *)

Fixpoint delete_ (clk : nat -> Z) (st : Store) (keys : list bytes) : Z * Store :=
  match keys with
  | [] => (0, st)
  | key :: keys' =>
      let clk' := fun i => clk (S i) in
      match dict_get (entries st) key with
      | None => delete_ clk' st keys'
      | Some e =>
          let '(removed, st') := delete_ clk' (forget st key) keys' in
          if is_expired (expire_at_ms e) (clk 0%nat) then (removed, st') else (removed + 1, st')
      end
  end.

Definition exists_ (now : Z) (st : Store) (key : bytes) : bool * Store :=
  let '(e, st') := touch now st key in (match e with Some _ => true | None => false end, st').

Definition get_entry (now : Z) (st : Store) (key : bytes) : option KeyEntry * Store := touch now st key.

Definition set_entry (st : Store) (key : bytes) (e : KeyEntry) : Store :=
  touch_access (set_entries st (dict_set (entries st) key e)) key.

(** An entry object that is already in the store is changed in place. *)
Definition update_entry (st : Store) (key : bytes) (e : KeyEntry) : Store :=
  set_entries st (dict_set (entries st) key e).

Definition expire (now now' : Z) (st : Store) (key : bytes) (seconds : Z) : Z * Store :=
  match touch now st key with
  | (None, st') => (0, st')
  | (Some e, st') =>
      if seconds <=? 0 then (1, forget st' key)
      else (1, update_entry st' key (with_expire e (Some (now' + seconds * 1000))))
  end.

Definition pexpire_at (now : Z) (st : Store) (key : bytes) (t : option Z) : Store :=
  match touch now st key with
  | (None, st') => st'
  | (Some e, st') => update_entry st' key (with_expire e t)
  end.

Definition ttl (now now' : Z) (st : Store) (key : bytes) : Z * Store :=
  match dict_get (entries st) key with
  | None => (-2, st)
  | Some e =>
      if is_expired (expire_at_ms e) now then (-2, forget st key)
      else (ttl_seconds (expire_at_ms e) now', st)
  end.

Definition type_of (now : Z) (st : Store) (key : bytes) : option RedisType * Store :=
  let '(e, st') := touch now st key in (type <$> e, st').

(** ** Strings *)

Definition set_string (now : Z) (st : Store) (key v : bytes) (ex_seconds : option Z) : Store :=
  match ex_seconds with
  | Some s =>
      if s <=? 0 then forget st key
      else set_entry st key (mkEntry STRING (VBytes v) (Some (now + s * 1000)))
  | None => set_entry st key (mkEntry STRING (VBytes v) None)
  end.

Definition get_string (now : Z) (st : Store) (key : bytes) : result (option bytes) * Store :=
  match touch now st key with
  | (None, st') => (Ok None, st')
  | (Some e, st') =>
      match type e with
      | STRING => match value e with
                  | VBytes v => (Ok (Some v), st')
                  | _ => (Err AssertionError, st')
                  end
      | _ => (Err WrongTypeError, st')
      end
  end.

(** ** Lists *)

(** [for el in elements: dq.appendleft(el)] *)
Definition appendleft_all (dq elements : list bytes) : list bytes :=
  foldl (fun dq el => el :: dq) dq elements.

Definition lpush (now : Z) (st : Store) (key : bytes) (elements : list bytes) : result Z * Store :=
  match touch now st key with
  | (None, st') =>
      let entry := mkEntry LIST (VDeque []) None in
      let st'' := set_entry st' key entry in
      let dq := appendleft_all [] elements in
      (Ok (zlen dq), update_entry st'' key (with_value entry (VDeque dq)))
  | (Some e, st') =>
      match type e with
      | LIST => match value e with
                | VDeque l => let dq := appendleft_all l elements in
                              (Ok (zlen dq), update_entry st' key (with_value e (VDeque dq)))
                | _ => (Err AssertionError, st')
                end
      | _ => (Err WrongTypeError, st')
      end
  end.

Definition rpop (now : Z) (st : Store) (key : bytes) : result (option bytes) * Store :=
  match touch now st key with
  | (None, st') => (Ok None, st')
  | (Some e, st') =>
      match type e with
      | LIST =>
          match value e with
          | VDeque l =>
              match last l with
              | None => (Ok None, forget st' key)
              | Some v =>
                  let dq := take (length l - 1) l in
                  let st'' := update_entry st' key (with_value e (VDeque dq)) in
                  (Ok (Some v), match dq with [] => forget st'' key | _ :: _ => st'' end)
              end
          | _ => (Err AssertionError, st')
          end
      | _ => (Err WrongTypeError, st')
      end
  end.

(** ** Hashes *)

(** The loop of [hset]: the number of new fields and the mapping. *)
Fixpoint hset_items (added : Z) (d : dict bytes bytes) (items : list (bytes * bytes)) :
    Z * dict bytes bytes :=
  match items with
  | [] => (added, d)
  | (f, v) :: items' =>
      hset_items (if dict_has d f then added else added + 1) (dict_set d f v) items'
  end.

Definition hset (now : Z) (st : Store) (key : bytes) (items : list (bytes * bytes)) : result Z * Store :=
  match touch now st key with
  | (None, st') =>
      let entry := mkEntry HASH (VDict []) None in
      let st'' := set_entry st' key entry in
      let '(added, d) := hset_items 0 [] items in
      (Ok added, update_entry st'' key (with_value entry (VDict d)))
  | (Some e, st') =>
      match type e with
      | HASH => match value e with
                | VDict m => let '(added, d) := hset_items 0 m items in
                             (Ok added, update_entry st' key (with_value e (VDict d)))
                | _ => (Err AssertionError, st')
                end
      | _ => (Err WrongTypeError, st')
      end
  end.

Definition flatten_items (d : dict bytes bytes) : list bytes :=
  concat (map (fun fv => [fv.1; fv.2]) d).

Definition hgetall (now : Z) (st : Store) (key : bytes) : result (list bytes) * Store :=
  match touch now st key with
  | (None, st') => (Ok [], st')
  | (Some e, st') =>
      match type e with
      | HASH => match value e with
                | VDict d => (Ok (flatten_items d), st')
                | _ => (Err AssertionError, st')
                end
      | _ => (Err WrongTypeError, st')
      end
  end.

(** ** Maintenance *)

(** The loop of [active_expire_cycle] over the sampled keys. *)
Fixpoint expire_sample (now : Z) (st : Store) (sample : list bytes) : Z * Store :=
  match sample with
  | [] => (0, st)
  | key :: sample' =>
      match dict_get (entries st) key with
      | Some e =>
          if is_expired (expire_at_ms e) now then
            let '(deleted, st') := expire_sample now (forget st key) sample' in (deleted + 1, st')
          else expire_sample now st sample'
      | None => expire_sample now st sample'
      end
  end.

(** [random_sample] is [random.sample]. *)
Definition active_expire_cycle (random_sample : list bytes -> Z -> list bytes) (now : Z)
    (st : Store) (sample_size : Z) : Z * Store :=
  match entries st with
  | [] => (0, st)
  | _ :: _ =>
      let keys := dict_keys (entries st) in
      let sample := if zlen keys <=? sample_size then keys else random_sample keys sample_size in
      expire_sample now st sample
  end.

(** [keys]: the whole keyspace is the sample. *)
Definition keys_ (random_sample : list bytes -> Z -> list bytes) (now : Z) (st : Store) :
    list bytes * Store :=
  let n := zlen (entries st) in
  let '(_, st') := active_expire_cycle random_sample now st (if n =? 0 then 1 else n) in
  (dict_keys (entries st'), st').

Definition dbsize (now : Z) (st : Store) : Z * Store :=
  let st' := purge_expired now st in (zlen (entries st'), st').

(** [__len__] *)
Definition store_len (now : Z) (st : Store) : Z * Store := dbsize now st.

Definition sum_list (l : list Z) : Z := foldr Z.add 0 l.

Definition keyspace_stats (now current : Z) (st : Store) : Z * Z * Z * Store :=
  let st' := purge_expired now st in
  let ttl_values := omap (fun ke => (fun t => Z.max 0 (t - current)) <$> expire_at_ms ke.2) (entries st') in
  let avg_ttl := match ttl_values with [] => 0 | _ :: _ => sum_list ttl_values / zlen ttl_values end in
  (zlen (entries st'), zlen ttl_values, avg_ttl, st').

(** The contribution of one item to [memory_usage]; [None] is a failed
    [assert]. *)
Definition entry_size (key : bytes) (e : KeyEntry) : option Z :=
  let base := zlen key + 64 in
  match type e, value e with
  | STRING, VBytes v => Some (base + zlen v)
  | LIST, VDeque l => Some (base + sum_list (map (fun item => zlen item + 16) l))
  | HASH, VDict d => Some (base + sum_list (map (fun fv => zlen fv.1 + zlen fv.2 + 32) d))
  | _, _ => None
  end.

Fixpoint total_size (es : dict bytes KeyEntry) : option Z :=
  match es with
  | [] => Some 0
  | (k, e) :: es' => match entry_size k e, total_size es' with
                     | Some n, Some t => Some (n + t)
                     | _, _ => None
                     end
  end.

Definition memory_usage (now : Z) (st : Store) : result Z * Store :=
  let st' := purge_expired now st in
  (match total_size (entries st') with Some t => Ok t | None => Err AssertionError end, st').

(** [min(l, key=f)]: the first of the minimal elements. *)
Fixpoint min_by {A} (f : A -> Z) (best : A) (l : list A) : A :=
  match l with
  | [] => best
  | x :: l' => if f x <? f best then min_by f x l' else min_by f best l'
  end.

Definition oom_error : exn :=
  MemoryLimitError (u "OOM command not allowed when used memory > maxmemory").

(** The key that the policy evicts, [None] when it must raise. *)
Definition eviction_victim (st : Store) : option bytes :=
  let candidates :=
    filter (fun k => maxmemory_policy st <> volatile_ttl \/
                     (dict_get (entries st) k ≫= expire_at_ms) <> None) (dict_keys (entries st)) in
  match candidates with
  | [] => None
  | c :: cs =>
      match maxmemory_policy st with
      | volatile_ttl => Some (min_by (fun k => default 0 (dict_get (entries st) k ≫= expire_at_ms)) c cs)
      | allkeys_lru => Some (min_by (fun k => default 0 (dict_get (last_access st) k)) c cs)
      | noeviction => None
      end
  end.

Definition evict (st : Store) (key : bytes) : Store :=
  let st' := forget st key in
  mkStore (entries st') (maxmemory_bytes st') (maxmemory_policy st') (access_clock st')
    (last_access st') (evicted_keys st' + 1).

(** The [while] loop of [enforce_memory_limit]; each round evicts a key, so
    the number of keys bounds the rounds. *)
Fixpoint enforce_loop (fuel : nat) (clk : nat -> Z) (st : Store) (evicted : list bytes) :
    result (list bytes) * Store :=
  match memory_usage (clk 0%nat) st with
  | (Err e, st') => (Err e, st')
  | (Ok used, st') =>
      if used <=? maxmemory_bytes st' then (Ok evicted, st')
      else match eviction_victim st' with
           | None => (Err oom_error, st')
           | Some key =>
               match fuel with
               | O => (Err OutOfFuel, st')
               | S f => enforce_loop f (fun i => clk (S i)) (evict st' key) (evicted ++ [key])
               end
           end
  end.

Definition enforce_memory_limit (clk : nat -> Z) (st : Store) : result (list bytes) * Store :=
  if maxmemory_bytes st <=? 0 then (Ok [], st)
  else enforce_loop (length (entries st)) clk st [].

(** ** Invariant *)

(** The tag of an entry is the type of its value. *)
Definition entry_ok (e : KeyEntry) : Prop :=
  match type e, value e with
  | STRING, VBytes _ => True
  | LIST, VDeque _ => True
  | HASH, VDict d => dict_ok d
  | _, _ => False
  end.

Record store_ok (st : Store) : Prop := {
  ok_entries : dict_ok (entries st);
  ok_access : dict_ok (last_access st);
  ok_dom : forall k, k ∈ dict_keys (last_access st) <-> k ∈ dict_keys (entries st);
  ok_types : forall k e, dict_get (entries st) k = Some e -> entry_ok e;
  ok_clock : forall k n, dict_get (last_access st) k = Some n -> n <= access_clock st;
  ok_distinct : forall k k' n, dict_get (last_access st) k = Some n ->
                               dict_get (last_access st) k' = Some n -> k = k'
}.

(** What a client can see at time [now]: the entries that have not expired. *)
Definition live (now : Z) (st : Store) : gmap bytes KeyEntry :=
  filter (fun ke => is_expired (expire_at_ms ke.2) now = false) (dict_map (entries st)).

Lemma live_lookup now st k :
  live now st !! k =
  match dict_get (entries st) k with
  | Some e => if is_expired (expire_at_ms e) now then None else Some e
  | None => None
  end.
Proof.
  unfold live. rewrite map_lookup_filter, <- dict_get_map.
  destruct (dict_get (entries st) k) as [e|]; [|done]. simpl.
  destruct (is_expired (expire_at_ms e) now) eqn:E.
  - rewrite option_guard_False; [done|]. simpl. congruence.
  - by rewrite option_guard_True.
Qed.

Lemma new_store_ok m p : store_ok (new_store m p).
Proof. split; simpl; try done; try constructor. all: by inversion 1. Qed.

Lemma entry_copy_id e : entry_copy e = e.
Proof. destruct e as [t v x]. unfold entry_copy. simpl. by destruct v. Qed.

Lemma copy_items_id (es : dict bytes KeyEntry) : map (fun ke => (ke.1, entry_copy ke.2)) es = es.
Proof.
  induction es as [|[k e] es IH]; [done|]. cbn [map fst snd]. by rewrite IH, entry_copy_id.
Qed.

(** *** The primitive updates *)

Lemma touch_access_ok st k : store_ok st -> k ∈ dict_keys (entries st) -> store_ok (touch_access st k).
Proof.
  intros [He Ha Hd Ht Hc Hu] Hk. split; simpl; auto with redis.
  - intros k'. rewrite dict_elem_keys_set, Hd. naive_solver.
  - intros k' n. rewrite dict_get_set. case_bool_decide; intros; inv_ok; [lia|].
    match goal with H : dict_get _ _ = Some _ |- _ => apply Hc in H end. lia.
  - intros k1 k2 n. rewrite !dict_get_set. repeat case_bool_decide; intros; inv_ok; try done;
      [match goal with H : dict_get _ _ = Some _ |- _ => apply Hc in H; lia end..|by eapply Hu].
Qed.

Lemma forget_ok st k : store_ok st -> store_ok (forget st k).
Proof.
  intros [He Ha Hd Ht Hc Hu].
  assert (forall k' n, dict_get (dict_del (last_access st) k) k' = Some n ->
                       dict_get (last_access st) k' = Some n) as Hla.
  { intros k' n. destruct (decide (k = k')) as [->|]; [by rewrite dict_get_del_eq | by rewrite dict_get_del_ne]. }
  split; simpl; auto with redis.
  - intros k'. rewrite !dict_elem_keys_del, Hd by done. done.
  - intros k' e. destruct (decide (k = k')) as [->|]; [by rewrite dict_get_del_eq|].
    rewrite dict_get_del_ne by done. apply Ht.
  - eauto.
  - intros k1 k2 n H1 H2. eapply Hu; eauto.
Qed.

Lemma update_entry_ok st k e e' :
  store_ok st -> dict_get (entries st) k = Some e' -> entry_ok e -> store_ok (update_entry st k e).
Proof.
  intros [He Ha Hd Ht Hc Hu] Hk Hok. split; simpl; auto with redis.
  - intros k'. by rewrite (dict_keys_set_present _ _ _ _ Hk).
  - intros k' x. rewrite dict_get_set. case_bool_decide; intros; inv_ok; [done|]. by eapply Ht.
Qed.

Lemma set_entry_ok st k e : store_ok st -> entry_ok e -> store_ok (set_entry st k e).
Proof.
  intros [He Ha Hd Ht Hc Hu] Hok. unfold set_entry. split; simpl; auto with redis.
  - intros k'. rewrite !dict_elem_keys_set, Hd. done.
  - intros k' x. rewrite dict_get_set. case_bool_decide; intros; inv_ok; [done|]. by eapply Ht.
  - intros k' n. rewrite dict_get_set. case_bool_decide; intros; inv_ok; [lia|].
    match goal with H : dict_get _ _ = Some _ |- _ => apply Hc in H end. lia.
  - intros k1 k2 n. rewrite !dict_get_set. repeat case_bool_decide; intros; inv_ok; try done;
      [match goal with H : dict_get _ _ = Some _ |- _ => apply Hc in H; lia end..|by eapply Hu].
Qed.

Lemma evict_ok st k : store_ok st -> store_ok (evict st k).
Proof. intros H. destruct (forget_ok st k H). by split. Qed.

#[export] Hint Resolve touch_access_ok forget_ok set_entry_ok evict_ok new_store_ok : redis.

Lemma touch_access_live now st k : live now (touch_access st k) = live now st.
Proof. done. Qed.

Lemma forget_live now st k : store_ok st -> live now (forget st k) = delete k (live now st).
Proof.
  intros H. unfold live. simpl. rewrite dict_del_map by apply H. apply map_filter_delete.
Qed.

Lemma update_entry_live now st k e :
  is_expired (expire_at_ms e) now = false -> live now (update_entry st k e) = <[k:=e]> (live now st).
Proof. intros H. unfold live. simpl. rewrite dict_set_map. by rewrite map_filter_insert_True. Qed.

Lemma set_entry_live now st k e :
  is_expired (expire_at_ms e) now = false -> live now (set_entry st k e) = <[k:=e]> (live now st).
Proof. apply update_entry_live. Qed.

Lemma evict_live now st k : store_ok st -> live now (evict st k) = delete k (live now st).
Proof. apply forget_live. Qed.

(** [_touch] finds exactly the live entry, and changes nothing visible. *)
Lemma touch_spec now st k :
  store_ok st ->
  exists st', touch now st k = (live now st !! k, st') /\ store_ok st' /\ live now st' = live now st /\
    dict_get (entries st') k = live now st !! k /\
    (forall e, live now st !! k = Some e -> entry_ok e /\ is_expired (expire_at_ms e) now = false).
Proof.
  intros Hok. unfold touch. rewrite live_lookup.
  destruct (dict_get (entries st) k) as [e|] eqn:Hk.
  - destruct (is_expired (expire_at_ms e) now) eqn:He; eexists; (split; [done|]).
    + split_and!; [auto with redis| |by apply dict_get_del_eq, Hok|done].
      rewrite forget_live by done. apply delete_id. by rewrite live_lookup, Hk, He.
    + split_and!; [|done|done|].
      * apply touch_access_ok; [done|]. by eapply dict_get_key.
      * intros e' [= <-]. split; [|done]. by eapply Hok.
  - eexists. split; [done|]. split_and!; done.
Qed.
