(* ===== verification/StoreSpec.v ===== *)
(** * What the keyspace promises: an abstract specification and its refinement

    The abstract store is a finite map that holds exactly the entries that
    have not expired: no expired entry, no key order, no access clock.  Each
    operation of [Store] refines the corresponding operation on the map, for
    single operations and for runs of operations under an advancing clock. *)
From S2P Require Import Prelude Dict Store.
Local Open Scope Z_scope.

(** ** Operations and replies *)

Inductive StoreOp :=
| Delete (keys : list bytes)
| Exists (key : bytes)
| Expire (key : bytes) (seconds : Z)
| PexpireAt (key : bytes) (t : option Z)
| Ttl (key : bytes)
| TypeOf (key : bytes)
| SetString (key v : bytes) (ex_seconds : option Z)
| GetString (key : bytes)
| Lpush (key : bytes) (elements : list bytes)
| Rpop (key : bytes)
| Hset (key : bytes) (items : list (bytes * bytes))
| Hgetall (key : bytes)
| Dbsize
| ActiveExpire (sample_size : Z)
| Snapshot.

Inductive reply :=
| RUnit
| RInt (n : Z)
| RBool (v : bool)
| RType (t : option RedisType)
| RBulk (v : option bytes)
| RItems (l : list bytes)
| RRaise (e : exn).

Definition reply_of {A} (f : A -> reply) (r : result A) : reply :=
  match r with Ok a => f a | Err e => RRaise e end.

(** The concrete operation.  [clk] gives the clock readings of the call; the
    result of the active expire cycle and of a snapshot is not a reply. *)
Definition run_op (rnd : list bytes -> Z -> list bytes) (clk : nat -> Z) (st : Store) (op : StoreOp) :
    reply * Store :=
  let now := clk 0%nat in
  let now' := clk 1%nat in
  match op with
  | Delete keys => let '(n, st') := delete_ clk st keys in (RInt n, st')
  | Exists key => let '(v, st') := exists_ now st key in (RBool v, st')
  | Expire key s => let '(n, st') := expire now now' st key s in (RInt n, st')
  | PexpireAt key t => (RUnit, pexpire_at now st key t)
  | Ttl key => let '(n, st') := ttl now now' st key in (RInt n, st')
  | TypeOf key => let '(t, st') := type_of now st key in (RType t, st')
  | SetString key v ex => (RUnit, set_string now st key v ex)
  | GetString key => let '(r, st') := get_string now st key in (reply_of RBulk r, st')
  | Lpush key els => let '(r, st') := lpush now st key els in (reply_of RInt r, st')
  | Rpop key => let '(r, st') := rpop now st key in (reply_of RBulk r, st')
  | Hset key items => let '(r, st') := hset now st key items in (reply_of RInt r, st')
  | Hgetall key => let '(r, st') := hgetall now st key in (reply_of RItems r, st')
  | Dbsize => let '(n, st') := dbsize now st in (RInt n, st')
  | ActiveExpire size => (RUnit, (active_expire_cycle rnd now st size).2)
  | Snapshot => (RUnit, (snapshot now st).2)
  end.

(** ** The specification *)

Definition value_type (v : RedisValue) : RedisType :=
  match v with VBytes _ => STRING | VDeque _ => LIST | VDict _ => HASH end.

Definition fresh (v : RedisValue) (t : option Z) : KeyEntry := mkEntry (value_type v) v t.

(** The entry stored under [key] becomes [e], unless [e] has expired. *)
Definition put (now : Z) (key : bytes) (e : KeyEntry) (m : gmap bytes KeyEntry) : gmap bytes KeyEntry :=
  if is_expired (expire_at_ms e) now then delete key m else <[key:=e]> m.

Fixpoint spec_delete (clk : nat -> Z) (m : gmap bytes KeyEntry) (keys : list bytes) :
    Z * gmap bytes KeyEntry :=
  match keys with
  | [] => (0, m)
  | key :: keys' =>
      let '(n, m') := spec_delete (fun i => clk (S i)) (delete key m) keys' in
      match m !! key with
      | Some e => ((if is_expired (expire_at_ms e) (clk 0%nat) then n else n + 1), m')
      | None => (n, m')
      end
  end.

Definition spec_op (clk : nat -> Z) (m : gmap bytes KeyEntry) (op : StoreOp) :
    reply * gmap bytes KeyEntry :=
  let now := clk 0%nat in
  let now' := clk 1%nat in
  match op with
  | Delete keys => let '(n, m') := spec_delete clk m keys in (RInt n, m')
  | Exists key => (RBool (bool_decide (is_Some (m !! key))), m)
  | Expire key s =>
      match m !! key with
      | None => (RInt 0, m)
      | Some e => (RInt 1, if s <=? 0 then delete key m
                           else <[key:=with_expire e (Some (now' + s * 1000))]> m)
      end
  | PexpireAt key t =>
      (RUnit, match m !! key with None => m | Some e => put now key (with_expire e t) m end)
  | Ttl key =>
      (RInt (match m !! key with None => -2 | Some e => ttl_seconds (expire_at_ms e) now' end), m)
  | TypeOf key => (RType ((fun e => value_type (value e)) <$> m !! key), m)
  | SetString key v ex =>
      (RUnit, match ex with
              | Some s => if s <=? 0 then delete key m
                          else <[key:=fresh (VBytes v) (Some (now + s * 1000))]> m
              | None => <[key:=fresh (VBytes v) None]> m
              end)
  | GetString key =>
      match m !! key with
      | None => (RBulk None, m)
      | Some e => match value e with
                  | VBytes v => (RBulk (Some v), m)
                  | _ => (RRaise WrongTypeError, m)
                  end
      end
  | Lpush key els =>
      match m !! key with
      | None => (RInt (zlen els), <[key:=fresh (VDeque (rev els)) None]> m)
      | Some e => match value e with
                  | VDeque l => (RInt (zlen els + zlen l), <[key:=with_value e (VDeque (rev els ++ l))]> m)
                  | _ => (RRaise WrongTypeError, m)
                  end
      end
  | Rpop key =>
      match m !! key with
      | None => (RBulk None, m)
      | Some e => match value e with
                  | VDeque l =>
                      match rev l with
                      | [] => (RBulk None, delete key m)
                      | [x] => (RBulk (Some x), delete key m)
                      | x :: r => (RBulk (Some x), <[key:=with_value e (VDeque (rev r))]> m)
                      end
                  | _ => (RRaise WrongTypeError, m)
                  end
      end
  | Hset key items =>
      match m !! key with
      | None => let d := dict_of_items [] items in (RInt (zlen d), <[key:=fresh (VDict d) None]> m)
      | Some e => match value e with
                  | VDict d => let d' := dict_of_items d items in
                               (RInt (zlen d' - zlen d), <[key:=with_value e (VDict d')]> m)
                  | _ => (RRaise WrongTypeError, m)
                  end
      end
  | Hgetall key =>
      match m !! key with
      | None => (RItems [], m)
      | Some e => match value e with
                  | VDict d => (RItems (flatten_items d), m)
                  | _ => (RRaise WrongTypeError, m)
                  end
      end
  | Dbsize => (RInt (Z.of_nat (size m)), m)
  | ActiveExpire _ | Snapshot => (RUnit, m)
  end.

(** ** Each operation refines its specification *)

(** The concrete call returns reply [r] and an invariant store whose live
    part is [m]. *)
Definition refines (now : Z) (c : reply * Store) (a : reply * gmap bytes KeyEntry) : Prop :=
  c.1 = a.1 /\ live now c.2 = a.2 /\ store_ok c.2.

Lemma appendleft_all_rev dq els : appendleft_all dq els = rev els ++ dq.
Proof.
  revert dq. induction els as [|x els IH]; intros dq; simpl; [done|].
  unfold appendleft_all in *. simpl. by rewrite IH, <- app_assoc.
Qed.

Lemma hset_items_spec added d items :
  hset_items added d items = (added + zlen (dict_of_items d items) - zlen d, dict_of_items d items).
Proof.
  revert added d. induction items as [|[f v] items IH]; intros added d; simpl.
  - f_equal. lia.
  - rewrite IH. f_equal. unfold dict_has, zlen.
    destruct (dict_get d f) eqn:E.
    + assert (length (dict_set d f v) = length d) as ->; [|lia].
      rewrite <- !(length_map fst). fold (dict_keys (dict_set d f v)).
      by rewrite (dict_keys_set_present d f v _ E).
    + rewrite dict_set_absent, length_app by done. simpl. lia.
Qed.

Lemma dict_of_items_ok {V} (d : dict bytes V) items : dict_ok d -> dict_ok (dict_of_items d items).
Proof.
  revert d. induction items as [|[f v] items IH]; intros d Hd; simpl; [done|]. apply IH. auto with redis.
Qed.

Lemma forget_all_ok st ks : store_ok st -> store_ok (forget_all st ks).
Proof. revert st. induction ks as [|k ks IH]; intros st H; simpl; [done|]. apply IH. auto with redis. Qed.

Lemma forget_all_get st ks k :
  store_ok st -> dict_get (entries (forget_all st ks)) k =
  if bool_decide (k ∈ ks) then None else dict_get (entries st) k.
Proof.
  revert st. induction ks as [|j ks IH]; intros st H; simpl; [done|].
  rewrite IH by auto with redis. simpl.
  destruct (decide (j = k)) as [->|Hne].
  - rewrite (bool_decide_true (k ∈ k :: ks)) by set_solver.
    case_bool_decide; [done|]. apply dict_get_del_eq, H.
  - rewrite dict_get_del_ne by done. by rewrite (bool_decide_ext (k ∈ j :: ks) (k ∈ ks)) by set_solver.
Qed.

(** A step that only removes expired entries is invisible. *)
Lemma live_drop_expired now st st' :
  (forall k, dict_get (entries st') k = dict_get (entries st) k \/
     (dict_get (entries st') k = None /\
      exists e, dict_get (entries st) k = Some e /\ is_expired (expire_at_ms e) now = true)) ->
  live now st' = live now st.
Proof.
  intros H. apply map_eq. intros k. rewrite !live_lookup.
  destruct (H k) as [->|(-> & e & -> & ->)]; done.
Qed.

Lemma expired_keys_spec now st k :
  store_ok st -> k ∈ expired_keys now (entries st) <->
  exists e, dict_get (entries st) k = Some e /\ is_expired (expire_at_ms e) now = true.
Proof.
  intros Hok. unfold expired_keys. rewrite list_elem_of_fmap. split.
  - intros ([k' e] & -> & Hin). apply list_elem_of_filter in Hin as [He Hin]. exists e.
    split; [|done]. by apply dict_elem_get; [apply Hok|].
  - intros (e & Hg & He). exists (k, e). split; [done|]. apply list_elem_of_filter.
    split; [done|]. by apply dict_get_elem.
Qed.

Lemma purge_expired_live now st : store_ok st -> live now (purge_expired now st) = live now st.
Proof.
  intros Hok. apply live_drop_expired. intros k. unfold purge_expired.
  rewrite forget_all_get by done. case_bool_decide as Hk; [|by left].
  right. split; [done|]. by apply expired_keys_spec.
Qed.

Lemma purge_expired_ok now st : store_ok st -> store_ok (purge_expired now st).
Proof. apply forget_all_ok. Qed.

(** After a purge the dictionary is the live map. *)
Lemma purge_expired_map now st :
  store_ok st -> dict_map (entries (purge_expired now st)) = live now st.
Proof.
  intros Hok. apply map_eq. intros k. rewrite <- dict_get_map, live_lookup. unfold purge_expired.
  rewrite forget_all_get by done. case_bool_decide as Hk.
  - apply expired_keys_spec in Hk as (e & -> & ->); done.
  - destruct (dict_get (entries st) k) as [e|] eqn:E; [|done].
    destruct (is_expired (expire_at_ms e) now) eqn:He; [|done].
    exfalso. apply Hk. apply expired_keys_spec; eauto.
Qed.

Lemma expire_sample_live now st sample :
  store_ok st -> live now (expire_sample now st sample).2 = live now st /\ store_ok (expire_sample now st sample).2.
Proof.
  revert st. induction sample as [|k ks IH]; intros st Hok; simpl; [done|].
  destruct (dict_get (entries st) k) as [e|] eqn:Hk; [|by apply IH].
  destruct (is_expired (expire_at_ms e) now) eqn:He; [|by apply IH].
  specialize (IH (forget st k) ltac:(auto with redis)).
  destruct (expire_sample now (forget st k) ks) as [n st'] eqn:E. simpl in *. split; [|apply IH].
  rewrite (proj1 IH), forget_live by done. apply delete_id. by rewrite live_lookup, Hk, He.
Qed.

Section refinement.
Context (rnd : list bytes -> Z -> list bytes) (clk : nat -> Z) (st : Store) (Hok : store_ok st).
Local Abbreviation now := (clk 0%nat).
Local Abbreviation m := (live now st).
Local Abbreviation op_refines op := (refines now (run_op rnd clk st op) (spec_op clk m op)).

(** Case analysis of an operation that starts with [_touch]. *)
Local Ltac touched key :=
  let st' := fresh "st'" in let e := fresh "e" in
  destruct (touch_spec now st key Hok) as (st' & Ht & Hok' & Hlive & Hget & Hent);
  rewrite Ht; clear Ht;
  destruct (m !! key) as [e|] eqn:Hk; [destruct (Hent e eq_refl) as [Htype Hexp]|]; clear Hent.

(** The tag of a well-formed entry is the type of its value. *)
Local Ltac by_value e :=
  let t := fresh "t" in let v := fresh "v" in let x := fresh "x" in
  destruct e as [t v x]; unfold entry_ok in *; simpl in *; destruct t, v; try done; simpl in *.

Lemma reads_refine key :
  op_refines (Exists key) /\ op_refines (TypeOf key) /\ op_refines (GetString key) /\ op_refines (Hgetall key).
Proof.
  unfold refines, run_op, spec_op, exists_, type_of, get_string, hgetall.
  touched key.
  - by_value e; split_and!; try done; by rewrite bool_decide_true by eauto.
  - simpl. split_and!; try done.
Qed.

Lemma ttl_refine key : op_refines (Ttl key).
Proof.
  unfold refines, run_op, spec_op, ttl. rewrite live_lookup.
  destruct (dict_get (entries st) key) as [e|] eqn:Hk; [|done].
  destruct (is_expired (expire_at_ms e) now) eqn:He; [|done].
  simpl. split_and!; [done| |auto with redis]. rewrite forget_live by done.
  apply delete_id. by rewrite live_lookup, Hk, He.
Qed.

Lemma expire_refine key s : now <= clk 1%nat -> op_refines (Expire key s).
Proof.
  intros Hclk. unfold refines, run_op, spec_op, expire. touched key; [|done].
  destruct (s <=? 0) eqn:Hs; breflect; simpl.
  - split_and!; [done| |auto with redis]. by rewrite forget_live, Hlive by done.
  - rewrite update_entry_live by (simpl; lia). rewrite Hlive. split_and!; [done..|].
    eapply update_entry_ok; done.
Qed.

Lemma pexpire_at_refine key t : op_refines (PexpireAt key t).
Proof.
  unfold refines, run_op, spec_op, pexpire_at, put. touched key; [|done].
  destruct (is_expired (expire_at_ms (with_expire e t)) now) eqn:He; simpl.
  - split_and!; [done| |by eapply update_entry_ok].
    rewrite <- Hlive. apply map_eq. intros k. rewrite live_lookup. simpl. rewrite dict_get_set.
    destruct (decide (key = k)) as [->|Hne].
    + rewrite bool_decide_true, lookup_delete_eq by done. by rewrite He.
    + rewrite bool_decide_false, lookup_delete_ne by done. by rewrite live_lookup.
  - rewrite update_entry_live by done. rewrite Hlive. split_and!; [done..|by eapply update_entry_ok].
Qed.

Lemma set_string_refine key v ex : op_refines (SetString key v ex).
Proof.
  unfold refines, run_op, spec_op, set_string. destruct ex as [s|]; [destruct (s <=? 0) eqn:Hs|]; breflect; simpl.
  - split_and!; [done|by apply forget_live|auto with redis].
  - rewrite set_entry_live by (simpl; lia). split_and!; [done..|by apply set_entry_ok].
  - rewrite set_entry_live by done. split_and!; [done..|by apply set_entry_ok].
Qed.

Lemma lpush_refine key els : op_refines (Lpush key els).
Proof.
  unfold refines, run_op, spec_op, lpush. touched key.
  - by_value e. rewrite appendleft_all_rev. simpl. rewrite update_entry_live by done. rewrite Hlive.
    split_and!; [|done|by eapply update_entry_ok]. unfold zlen. rewrite length_app, length_rev. f_equal. lia.
  - rewrite appendleft_all_rev, app_nil_r. simpl.
    rewrite update_entry_live, set_entry_live, insert_insert_eq, Hlive by done.
    split_and!; [unfold zlen; by rewrite length_rev|done|].
    eapply update_entry_ok; [by apply set_entry_ok| |done]. simpl. apply dict_get_set_eq.
Qed.

Lemma rpop_refine key : op_refines (Rpop key).
Proof.
  unfold refines, run_op, spec_op, rpop. touched key; [|done]. by_value e.
  destruct (rev l) as [|y r] eqn:Hr; apply (f_equal (@rev bytes)) in Hr; rewrite rev_involutive in Hr; subst l.
  - simpl. rewrite forget_live by done. rewrite Hlive. split_and!; [done..|auto with redis].
  - simpl. rewrite last_snoc, length_app. simpl.
    replace (length (rev r) + 1 - 1)%nat with (length (rev r)) by lia. rewrite take_app_length.
    assert (store_ok (update_entry st' key (mkEntry LIST (VDeque (rev r)) x))) as Hok2
      by (by eapply update_entry_ok).
    destruct r as [|z r]; simpl.
    + split_and!; [done| |auto with redis]. rewrite forget_live by done.
      rewrite update_entry_live, Hlive by done. apply delete_insert_eq.
    + destruct (rev r ++ [z]) as [|w t] eqn:E; [by destruct (rev r)|]. rewrite <- E. simpl.
      split_and!; [done| |done]. by rewrite update_entry_live, Hlive by done.
Qed.

Lemma hset_refine key items : op_refines (Hset key items).
Proof.
  unfold refines, run_op, spec_op, hset. touched key.
  - by_value e. rewrite hset_items_spec. simpl. rewrite update_entry_live by done. rewrite Hlive.
    split_and!; [f_equal; lia|done|]. eapply update_entry_ok; [done..|]. by apply dict_of_items_ok.
  - rewrite hset_items_spec. simpl.
    rewrite update_entry_live, set_entry_live, insert_insert_eq, Hlive by done.
    split_and!; [f_equal; unfold zlen; simpl; lia|done|].
    eapply update_entry_ok; [apply set_entry_ok; [done|constructor]| |apply dict_of_items_ok; constructor].
    simpl. apply dict_get_set_eq.
Qed.

Lemma maintenance_refine size :
  op_refines Dbsize /\ op_refines (ActiveExpire size) /\ op_refines Snapshot.
Proof.
  unfold refines, run_op, spec_op. split_and!; simpl; try done.
  - f_equal. rewrite <- purge_expired_map by done. by rewrite dict_size by (apply purge_expired_ok, Hok).
  - by apply purge_expired_live.
  - by apply purge_expired_ok.
  - unfold active_expire_cycle. destruct (entries st) eqn:E; [done|]. by apply expire_sample_live.
  - unfold active_expire_cycle. destruct (entries st) eqn:E; [done|]. by apply expire_sample_live.
  - by apply purge_expired_live.
  - by apply purge_expired_ok.
Qed.
End refinement.

Lemma delete_refine clk base st keys :
  store_ok st -> (forall i, base <= clk i) ->
  refines base (let '(n, st') := delete_ clk st keys in (RInt n, st'))
               (let '(n, m') := spec_delete clk (live base st) keys in (RInt n, m')).
Proof.
  intros Hok Hclk. revert clk st Hok Hclk. induction keys as [|k ks IH]; intros clk st Hok Hclk; simpl; [done|].
  rewrite live_lookup. destruct (dict_get (entries st) k) as [e|] eqn:Hk.
  - specialize (IH (fun i => clk (S i)) (forget st k) (forget_ok st k Hok) (fun i => Hclk (S i))).
    rewrite forget_live in IH by done.
    destruct (delete_ _ (forget st k) ks) as [n st']. destruct (spec_delete _ _ ks) as [n' m'].
    destruct IH as (Hn & Hm & Ho). simpl in *. injection Hn as ->.
    destruct (is_expired (expire_at_ms e) base) eqn:Hb.
    + assert (is_expired (expire_at_ms e) (clk 0%nat) = true) as ->; [|done].
      destruct (expire_at_ms e); simpl in *; [|done]. specialize (Hclk 0%nat). breflect. lia.
    + by destruct (is_expired (expire_at_ms e) (clk 0%nat)).
  - specialize (IH (fun i => clk (S i)) st Hok (fun i => Hclk (S i))).
    rewrite delete_id by (by rewrite live_lookup, Hk).
    by destruct (spec_delete _ _ ks).
Qed.

Lemma run_op_refines rnd clk st op :
  store_ok st -> (forall i, clk 0%nat <= clk i) ->
  refines (clk 0%nat) (run_op rnd clk st op) (spec_op clk (live (clk 0%nat) st) op).
Proof.
  intros Hok Hclk. destruct op.
  - by apply delete_refine.
  - by apply reads_refine.
  - by apply expire_refine.
  - by apply pexpire_at_refine.
  - by apply ttl_refine.
  - by apply reads_refine.
  - by apply set_string_refine.
  - by apply reads_refine.
  - by apply lpush_refine.
  - by apply rpop_refine.
  - by apply hset_refine.
  - by apply reads_refine.
  - by apply (maintenance_refine rnd clk st Hok 0).
  - by apply maintenance_refine.
  - by apply (maintenance_refine rnd clk st Hok 0).
Qed.

(** ** Runs *)

(** A run: each operation with the clock readings of its call. *)
Abbreviation run := (list ((nat -> Z) * StoreOp)).

Fixpoint run_ops (rnd : list bytes -> Z -> list bytes) (ops : run) (st : Store) : list reply * Store :=
  match ops with
  | [] => ([], st)
  | (clk, op) :: ops' =>
      let '(r, st') := run_op rnd clk st op in
      let '(rs, st'') := run_ops rnd ops' st' in (r :: rs, st'')
  end.

(** Time passes: what has expired by [now] disappears. *)
Definition prune (now : Z) (m : gmap bytes KeyEntry) : gmap bytes KeyEntry :=
  filter (fun ke => is_expired (expire_at_ms ke.2) now = false) m.

Fixpoint spec_ops (ops : run) (m : gmap bytes KeyEntry) : list reply * gmap bytes KeyEntry :=
  match ops with
  | [] => ([], m)
  | (clk, op) :: ops' =>
      let '(r, m') := spec_op clk (prune (clk 0%nat) m) op in
      let '(rs, m'') := spec_ops ops' m' in (r :: rs, m'')
  end.

(** The clock does not go back: no operation starts before the previous
    one, and no reading within a call precedes its first one. *)
Fixpoint clock_ok (t : Z) (ops : run) : Prop :=
  match ops with
  | [] => True
  | (clk, _) :: ops' => t <= clk 0%nat /\ (forall i, clk 0%nat <= clk i) /\ clock_ok (clk 0%nat) ops'
  end.

Lemma is_expired_mono x t now : t <= now -> is_expired x t = true -> is_expired x now = true.
Proof. destruct x; simpl; [|done]. intros. breflect. lia. Qed.

Lemma prune_live t now st : t <= now -> prune now (live t st) = live now st.
Proof.
  intros Ht. unfold prune, live. apply map_filter_filter_l. intros k e _ Hn. simpl in *.
  destruct (is_expired (expire_at_ms e) t) eqn:E; [|done].
  by rewrite (is_expired_mono _ _ _ Ht E) in Hn.
Qed.

Lemma run_ops_refine rnd ops st t :
  store_ok st -> clock_ok t ops ->
  exists t', (run_ops rnd ops st).1 = (spec_ops ops (live t st)).1 /\
    live t' (run_ops rnd ops st).2 = (spec_ops ops (live t st)).2 /\ store_ok (run_ops rnd ops st).2.
Proof.
  revert st t. induction ops as [|[clk op] ops IH]; intros st t Hok Hc; simpl; [by exists t|].
  destruct Hc as (Ht & Hclk & Hc). rewrite prune_live by done.
  destruct (run_op_refines rnd clk st op Hok Hclk) as (H1 & H2 & H3).
  destruct (run_op rnd clk st op) as [r st'], (spec_op clk (live (clk 0%nat) st) op) as [r' m']. simpl in *. subst.
  destruct (IH st' (clk 0%nat) H3 Hc) as (t' & G1 & G2 & G3). exists t'.
  destruct (run_ops rnd ops st') as [rs st''], (spec_ops ops (live (clk 0%nat) st')) as [rs' m'']. simpl in *. by subst.
Qed.

(** ** The invariant holds in every reachable store *)

Definition entries_ok (es : dict bytes KeyEntry) : Prop :=
  dict_ok es /\ forall k e, dict_get es k = Some e -> entry_ok e.

Lemma imap_keys {A} (l : list A) (f : nat -> Z) : map fst (imap (fun i k => (k, f i)) l) = l.
Proof. revert f. induction l as [|x l IH]; intros f; simpl; [done|]. f_equal. apply (IH (fun i => f (S i))). Qed.

Lemma load_entries_ok st es : entries_ok es -> store_ok (load_entries st es).
Proof.
  intros [Hd Ht]. unfold load_entries. rewrite copy_items_id.
  set (la := imap (fun index key => (key, Z.of_nat index)) (dict_keys es)).
  assert (dict_keys la = dict_keys es) as Hk by apply (imap_keys (dict_keys es) Z.of_nat).
  assert (dict_ok la) as Hla by (unfold dict_ok; by rewrite Hk).
  assert (forall k n, dict_get la k = Some n -> exists i : nat, n = Z.of_nat i /\ dict_keys es !! i = Some k) as Hidx.
  { intros k n Hg. apply dict_get_elem in Hg. apply list_elem_of_lookup in Hg as [i Hi].
    unfold la in Hi. rewrite list_lookup_imap in Hi.
    destruct (dict_keys es !! i) as [k'|] eqn:E; simpl in Hi; [|done]. injection Hi as -> <-. eauto. }
  split; simpl; try done.
  - intros k. by rewrite Hk.
  - intros k n (i & -> & Hi)%Hidx. apply lookup_lt_Some in Hi. unfold zlen.
    rewrite <- (length_map fst la). fold (dict_keys la). rewrite Hk. lia.
  - intros k k' n (i & -> & Hi)%Hidx (j & Hj & Hj')%Hidx. assert (i = j) by lia. congruence.
Qed.

Lemma clear_ok st : store_ok (clear st).
Proof. split; simpl; try done; try constructor. all: by inversion 1. Qed.

Lemma run_op_ok rnd clk st op : store_ok st -> store_ok (run_op rnd clk st op).2.
Proof.
  intros Hok.
  destruct op; try match goal with |- store_ok (run_op _ _ _ ?op).2 =>
    exact (proj2 (proj2 (run_op_refines rnd (fun _ => clk 0%nat) st op Hok (fun _ => Z.le_refl _)))) end.
  - revert clk st Hok. induction keys as [|k ks IH]; intros clk st Hok; simpl; [done|].
    destruct (dict_get (entries st) k) as [e|].
    + specialize (IH (fun i => clk (S i)) (forget st k) (forget_ok st k Hok)). simpl in IH.
      destruct (delete_ _ (forget st k) ks). by destruct (is_expired _ _).
    + apply (IH (fun i => clk (S i)) st Hok).
  - simpl. unfold expire. destruct (touch_spec (clk 0%nat) st key Hok) as (st' & -> & Hok' & _ & Hg & He).
    destruct (live (clk 0%nat) st !! key) as [e|]; [|done]. case_if; simpl; [auto with redis|].
    eapply update_entry_ok; [done..|]. exact (proj1 (He e eq_refl)).
  - simpl. unfold ttl. destruct (dict_get (entries st) key); [|done]. case_if; simpl; auto with redis.
Qed.

Lemma run_ops_ok rnd ops st : store_ok st -> store_ok (run_ops rnd ops st).2.
Proof.
  revert st. induction ops as [|[clk op] ops IH]; intros st Hok; simpl; [done|].
  apply (run_op_ok rnd clk _ op) in Hok. destruct (run_op rnd clk st op) as [r st'].
  specialize (IH st' Hok). by destruct (run_ops rnd ops st').
Qed.

(** ** Properties *)

(** C7: refinement of the keyspace.  Over any run of operations under a
    clock that does not go back, the replies of [Store] are those of the
    finite map that holds exactly the unexpired entries: lazy expiry, the
    active expire cycle, snapshots and the access bookkeeping are invisible. *)
Theorem store_refinement (rnd : list bytes -> Z -> list bytes) (ops : run) (st : Store) (t : Z) :
  store_ok st -> clock_ok t ops ->
  (run_ops rnd ops st).1 = (spec_ops ops (live t st)).1 /\
  exists t', live t' (run_ops rnd ops st).2 = (spec_ops ops (live t st)).2.
Proof.
  intros Hok Hc. destruct (run_ops_refine rnd ops st t Hok Hc) as (t' & H1 & H2 & _). eauto.
Qed.

Definition at_time (t : Z) : nat -> Z := fun _ => t.

Definition ex_run : run :=
  [(at_time 0, SetString (b "k") (b "v") (Some 1)); (at_time 500, GetString (b "k"));
   (at_time 900, Lpush (b "q") [b "a"; b "b"; b "c"]); (at_time 1000, GetString (b "k"));
   (at_time 1001, Rpop (b "q")); (at_time 1002, Dbsize)].

Lemma store_refinement_witness :
  (run_ops (fun l _ => l) ex_run (new_store 0 noeviction)).1 =
    [RUnit; RBulk (Some (b "v")); RInt 3; RBulk None; RBulk (Some (b "a")); RInt 1] /\
  (run_ops (fun l _ => l) ex_run (new_store 0 noeviction)).1 =
    (spec_ops ex_run (live 0 (new_store 0 noeviction))).1.
Proof.
  split; [vm_compute; reflexivity|].
  apply (store_refinement (fun l _ => l) ex_run (new_store 0 noeviction) 0).
  - apply new_store_ok.
  - simpl. unfold at_time. repeat split; lia.
Defined.

(** Popping [n] times at time [t]. *)
Definition pops (t : Z) (key : bytes) (n : nat) : run := replicate n (at_time t, Rpop key).

Lemma pops_clock_ok t key n : clock_ok t (pops t key n).
Proof. induction n as [|n IH]; simpl; [done|]. unfold at_time. split_and!; [lia|intros; lia|exact IH]. Qed.

Lemma spec_ops_cons clk op ops m :
  spec_ops ((clk, op) :: ops) m =
  let '(r, m') := spec_op clk (prune (clk 0%nat) m) op in
  let '(rs, m'') := spec_ops ops m' in (r :: rs, m'').
Proof. done. Qed.

Lemma spec_pops t key x els m :
  prune t m = m -> m !! key = Some (fresh (VDeque (rev (x :: els))) None) ->
  (spec_ops (pops t key (length (x :: els))) m).1 = map (fun y => RBulk (Some y)) (x :: els).
Proof.
  revert x m. induction els as [|y els IH]; intros x m Hp Hk;
    cbn [length pops replicate]; rewrite spec_ops_cons;
    change (at_time t 0%nat) with t; rewrite Hp; cbn [spec_op]; rewrite Hk; cbn [value fresh].
  - done.
  - rewrite rev_involutive. set (m1 := <[key:=_]> m). specialize (IH y m1).
    change ((at_time t, Rpop key) :: replicate (length els) (at_time t, Rpop key)) with (pops t key (length (y :: els))).
    destruct (spec_ops (pops t key (length (y :: els))) m1) as [rs m2]. cbn [fst] in *. rewrite IH; [done| |].
    + unfold m1, prune. rewrite map_filter_insert_True by done. f_equal. exact Hp.
    + unfold m1. by rewrite lookup_insert_eq.
Qed.

(** LPUSH and RPOP make a queue.  Elements pushed on the left of a key
    that does not exist come back, one RPOP each, in the order in which they
    were given. *)
Theorem lpush_rpop_fifo (rnd : list bytes -> Z -> list bytes) (st : Store) (t : Z) (key : bytes) (els : list bytes) :
  store_ok st -> live t st !! key = None ->
  (run_ops rnd ((at_time t, Lpush key els) :: pops t key (length els)) st).1 =
  RInt (zlen els) :: map (fun y => RBulk (Some y)) els.
Proof.
  intros Hok Hk.
  destruct (run_ops_refine rnd ((at_time t, Lpush key els) :: pops t key (length els)) st t) as (_ & -> & _); [done| |].
  { split_and!; [by unfold at_time|by unfold at_time|]. apply pops_clock_ok. }
  cbn [spec_ops]. change (at_time t 0%nat) with t. rewrite prune_live by done. cbn [spec_op]. rewrite Hk.
  destruct els as [|x els]; [done|].
  set (m1 := <[key:=_]> _). pose proof (spec_pops t key x els m1) as H.
  destruct (spec_ops (pops t key (length (x :: els))) m1) as [rs m2]. cbn [fst] in *. rewrite H; [done| |].
  - unfold m1, prune. rewrite map_filter_insert_True by done. f_equal. by apply (prune_live t t).
  - unfold m1. by rewrite lookup_insert_eq.
Qed.

Lemma lpush_rpop_fifo_witness :
  (run_ops (fun l _ => l) ((at_time 5, Lpush (b "q") [b "a"; b "b"]) :: pops 5 (b "q") 2) (new_store 0 noeviction)).1 =
  [RInt 2; RBulk (Some (b "a")); RBulk (Some (b "b"))].
Proof.
  apply (lpush_rpop_fifo (fun l _ => l) (new_store 0 noeviction) 5 (b "q") [b "a"; b "b"]);
    [apply new_store_ok | reflexivity].
Defined.

(** time to live.  On a live key EXPIRE with a positive delay answers
    1, and a later TTL answers the whole seconds that remain, at most the
    delay; from the deadline on the key is gone: TTL answers -2 and reads
    find nothing. *)
Theorem expire_then_ttl (st : Store) (key : bytes) (e : KeyEntry) (s now now' t1 t2 : Z) :
  store_ok st -> live now st !! key = Some e -> 0 < s -> now <= now' -> now' <= t1 -> t1 <= t2 ->
  let '(r, st') := expire now now' st key s in
  let deadline := now' + s * 1000 in
  r = 1 /\
  (t2 < deadline -> (ttl t1 t2 st' key).1 = (deadline - t2) / 1000 /\ 0 <= (ttl t1 t2 st' key).1 <= s) /\
  (deadline <= t1 -> (ttl t1 t2 st' key).1 = -2 /\ (exists_ t1 st' key).1 = false /\
                     (get_string t1 st' key).1 = Ok None).
Proof.
  intros Hok Hk Hs H1 H2 H3. unfold expire.
  destruct (touch_spec now st key Hok) as (st' & -> & Hok' & Hl & Hg & He). rewrite Hk in *.
  replace (s <=? 0) with false by lia. cbv zeta. split; [done|].
  set (e' := with_expire e (Some (now' + s * 1000))). set (st2 := update_entry st' key e').
  assert (store_ok st2) as Hok2 by (eapply update_entry_ok; [done..|exact (proj1 (He e eq_refl))]).
  assert (dict_get (entries st2) key = Some e') as Hg2 by apply dict_get_set_eq.
  split.
  - intros Ht2. unfold ttl. rewrite Hg2. simpl.
    replace (now' + s * 1000 <=? t1) with false by lia. cbn [fst].
    replace (now' + s * 1000 - t2 <=? 0) with false by lia.
    assert (0 <= (now' + s * 1000 - t2) / 1000) by (apply Z.div_pos; lia).
    assert ((now' + s * 1000 - t2) / 1000 <= s) by (apply Z.div_le_upper_bound; lia).
    destruct (0 <? (now' + s * 1000 - t2) / 1000) eqn:E; breflect; lia.
  - intros Ht1. unfold ttl, exists_, get_string, touch. rewrite Hg2. simpl.
    replace (now' + s * 1000 <=? t1) with true by lia. done.
Qed.

Definition ex_store : Store := set_string 0 (new_store 0 noeviction) (b "k") (b "v") None.

Lemma expire_then_ttl_witness :
  (ttl 1000 1500 (expire 1000 1000 ex_store (b "k") 2).2 (b "k")).1 = 1.
Proof.
  apply (expire_then_ttl ex_store (b "k") (mkEntry STRING (VBytes (b "v")) None) 2 1000 1000 1000 1500).
  - apply set_entry_ok; [apply new_store_ok | done].
  - reflexivity.
  - lia.
  - lia.
  - lia.
  - lia.
  - lia.
Defined.
