(* ===== verification/Eviction.v ===== *)
(** * The memory limit ([Store.memory_usage], [Store.enforce_memory_limit])

    Lemmas on the eviction loop of [Store]: it terminates, it ends below the
    limit or raises the out-of-memory error, and it evicts in the order of
    the policy. *)
From S2P Require Import Prelude Dict Store StoreSpec.
Local Open Scope Z_scope.

(** ** [min] *)

Lemma min_by_elem {A} (f : A -> Z) best l : min_by f best l = best \/ min_by f best l ∈ l.
Proof.
  revert best. induction l as [|x l IH]; intros best; simpl; [by left|].
  case_if; [destruct (IH x) | destruct (IH best)]; set_solver.
Qed.

Lemma min_by_le {A} (f : A -> Z) best l x : x ∈ best :: l -> f (min_by f best l) <= f x.
Proof.
  revert best x. induction l as [|y l IH]; intros best x Hx; simpl.
  - apply list_elem_of_singleton in Hx as ->. done.
  - case_if.
    + apply elem_of_cons in Hx as [->|Hx]; [|by apply IH].
      specialize (IH y y ltac:(left)). lia.
    + apply elem_of_cons in Hx as [->|Hx]; [apply IH; left|].
      apply elem_of_cons in Hx as [->|Hx]; [|apply IH; by right].
      specialize (IH best best ltac:(left)). lia.
Qed.

(** ** Sizes *)

Lemma entry_size_ok k e : entry_ok e -> exists n, entry_size k e = Some n /\ 0 <= n.
Proof.
  intros H. unfold entry_ok, entry_size in *. pose proof (zlen_nonneg k).
  assert (forall (A : Type) (f : A -> Z) l, (forall x, 0 <= f x) -> 0 <= sum_list (map f l)) as Hs.
  { intros A f l Hf. induction l as [|x l IH]; simpl; [done|]. specialize (Hf x). lia. }
  destruct (type e), (value e); try done; eexists; (split; [done|]).
  - pose proof (zlen_nonneg v). lia.
  - specialize (Hs _ (fun item => zlen item + 16) l (fun x => ltac:(pose proof (zlen_nonneg x); lia))). lia.
  - specialize (Hs _ (fun fv => zlen fv.1 + zlen fv.2 + 32) d
      (fun x => ltac:(pose proof (zlen_nonneg x.1); pose proof (zlen_nonneg x.2); lia))). lia.
Qed.

Lemma total_size_ok (es : dict bytes KeyEntry) :
  Forall (fun ke => entry_ok ke.2) es -> exists n, total_size es = Some n /\ 0 <= n.
Proof.
  induction 1 as [|[k e] es He _ (n & IH & Hn)]; simpl; [by exists 0|].
  destruct (entry_size_ok k e He) as (s & -> & Hs). rewrite IH. eexists. split; [done|]. lia.
Qed.

Lemma store_ok_entries st : store_ok st -> Forall (fun ke => entry_ok ke.2) (entries st).
Proof.
  intros Hok. apply Forall_forall. intros [k e] Hin. simpl. eapply Hok. by apply dict_elem_get; [apply Hok|].
Qed.

Lemma memory_usage_spec now st :
  store_ok st -> exists used, memory_usage now st = (Ok used, purge_expired now st) /\ 0 <= used /\
    total_size (entries (purge_expired now st)) = Some used.
Proof.
  intros Hok. unfold memory_usage.
  destruct (total_size_ok (entries (purge_expired now st))) as (n & Hn & H0).
  { by apply store_ok_entries, purge_expired_ok. }
  rewrite Hn. eauto.
Qed.

(** ** Purging and forgetting keep the other fields *)

Definition same_limits (st st' : Store) : Prop :=
  maxmemory_bytes st' = maxmemory_bytes st /\ maxmemory_policy st' = maxmemory_policy st.

Lemma forget_all_limits st ks : same_limits st (forget_all st ks).
Proof. revert st. induction ks as [|k ks IH]; intros st; simpl; [done|]. destruct (IH (forget st k)). by split. Qed.

Lemma purge_limits now st : same_limits st (purge_expired now st).
Proof. apply forget_all_limits. Qed.

Lemma forget_all_evicted st ks : evicted_keys (forget_all st ks) = evicted_keys st.
Proof. revert st. induction ks as [|k ks IH]; intros st; simpl; [done|]. apply (IH (forget st k)). Qed.

Lemma purge_evicted now st : evicted_keys (purge_expired now st) = evicted_keys st.
Proof. apply forget_all_evicted. Qed.

Lemma forget_all_access st ks k :
  store_ok st -> dict_get (last_access (forget_all st ks)) k =
  if bool_decide (k ∈ ks) then None else dict_get (last_access st) k.
Proof.
  revert st. induction ks as [|j ks IH]; intros st H; simpl; [done|].
  rewrite IH by auto with redis. simpl.
  destruct (decide (j = k)) as [->|Hne].
  - rewrite (bool_decide_true (k ∈ k :: ks)) by set_solver.
    case_bool_decide; [done|]. apply dict_get_del_eq, H.
  - rewrite dict_get_del_ne by done. by rewrite (bool_decide_ext (k ∈ j :: ks) (k ∈ ks)) by set_solver.
Qed.

(** [st'] holds some of the entries of [st], unchanged, with their access times. *)
Definition shrinks (st st' : Store) : Prop :=
  forall k e, dict_get (entries st') k = Some e ->
    dict_get (entries st) k = Some e /\ dict_get (last_access st') k = dict_get (last_access st) k.

Lemma shrinks_refl st : shrinks st st.
Proof. done. Qed.

Lemma shrinks_trans st1 st2 st3 : shrinks st1 st2 -> shrinks st2 st3 -> shrinks st1 st3.
Proof. intros H12 H23 k e H3. destruct (H23 _ _ H3) as [H2 ->]. by apply H12. Qed.

#[global] Instance shrinks_preorder : PreOrder shrinks.
Proof. split; [intros st; apply shrinks_refl | intros ???; apply shrinks_trans]. Qed.

Lemma forget_all_shrinks st ks : store_ok st -> shrinks st (forget_all st ks).
Proof.
  intros Hok k e. rewrite forget_all_get, forget_all_access by done. by case_bool_decide.
Qed.

Lemma purge_shrinks now st : store_ok st -> shrinks st (purge_expired now st).
Proof. apply forget_all_shrinks. Qed.

Lemma evict_shrinks st k : store_ok st -> shrinks st (evict st k).
Proof. intros Hok. apply (forget_all_shrinks st [k] Hok). Qed.

(** ** The victim *)

Lemma eviction_victim_key st v : eviction_victim st = Some v -> v ∈ dict_keys (entries st).
Proof.
  unfold eviction_victim. destruct (filter _ _) as [|c cs] eqn:E; [done|].
  assert (forall f : bytes -> Z, min_by f c cs ∈ dict_keys (entries st)) as Hmin.
  { intros f. assert (min_by f c cs ∈ c :: cs) as Hin by (destruct (min_by_elem f c cs); set_solver).
    rewrite <- E in Hin. by apply list_elem_of_filter in Hin as [_ ?]. }
  destruct (maxmemory_policy st); [done| |]; intros; inv_ok; apply Hmin.
Qed.

Lemma eviction_victim_lru st v k :
  maxmemory_policy st = allkeys_lru -> eviction_victim st = Some v -> k ∈ dict_keys (entries st) ->
  default 0 (dict_get (last_access st) v) <= default 0 (dict_get (last_access st) k).
Proof.
  unfold eviction_victim. intros -> Hv Hk. rewrite filter_all in Hv.
  - destruct (dict_keys (entries st)) as [|c cs]; [done|]. injection Hv as <-.
    by apply (min_by_le (fun k => default 0 (dict_get (last_access st) k))).
  - apply Forall_forall. intros x _. by left.
Qed.

Lemma eviction_victim_ttl st v :
  maxmemory_policy st = volatile_ttl -> eviction_victim st = Some v ->
  exists ev tv, dict_get (entries st) v = Some ev /\ expire_at_ms ev = Some tv /\
    (forall k e t, dict_get (entries st) k = Some e -> expire_at_ms e = Some t -> tv <= t).
Proof.
  unfold eviction_victim. intros Hp. rewrite Hp.
  set (P := fun k => volatile_ttl <> volatile_ttl \/ (dict_get (entries st) k ≫= expire_at_ms) <> None).
  set (f := fun k => default 0 (dict_get (entries st) k ≫= expire_at_ms)).
  destruct (filter P (dict_keys (entries st))) as [|c cs] eqn:E; [done|]. intros Hv. inv_ok.
  assert (forall k, k ∈ c :: cs <-> P k /\ k ∈ dict_keys (entries st)) as Hc
    by (intros k; rewrite <- E; apply list_elem_of_filter).
  assert (min_by f c cs ∈ c :: cs) as Hin by (destruct (min_by_elem f c cs); set_solver).
  pose proof (fun k (H : k ∈ c :: cs) => min_by_le f c cs k H) as Hle.
  apply Hc in Hin as [[?|Hne] _]; [done|]. set (v := min_by f c cs) in *.
  destruct (dict_get (entries st) v) as [ev|] eqn:Ev; [|done]. simpl in Hne.
  destruct (expire_at_ms ev) as [tv|] eqn:Et; [|done]. exists ev, tv. split_and!; [done..|].
  intros k e t Hk Ht. specialize (Hle k). unfold f in Hle. rewrite Ev, Hk in Hle. simpl in Hle.
  rewrite Et, Ht in Hle. apply Hle, Hc. split; [|by eapply dict_get_key].
  right. by rewrite Hk; simpl; rewrite Ht.
Qed.

Lemma eviction_victim_none st :
  eviction_victim st = None ->
  match maxmemory_policy st with
  | noeviction => True
  | allkeys_lru => entries st = []
  | volatile_ttl => forall k e, dict_get (entries st) k = Some e -> expire_at_ms e = None
  end.
Proof.
  unfold eviction_victim. destruct (maxmemory_policy st) eqn:Hp; [done| |].
  - rewrite filter_all by (apply Forall_forall; intros x _; by left).
    by destruct (entries st).
  - destruct (filter _ _) as [|c cs] eqn:E; [|done]. intros _ k e Hk.
    destruct (expire_at_ms e) as [t|] eqn:Ht; [|done]. exfalso.
    assert (k ∈ ([] : list bytes)) as Hin; [|by inversion Hin]. rewrite <- E. apply list_elem_of_filter.
    split; [right; by rewrite Hk; simpl; rewrite Ht | by eapply dict_get_key].
Qed.

(** ** The loop *)

(** How [enforce_memory_limit] may end: [evicted] keys gone from [st],
    the result [r] and the store [st']. *)
Record enforced (st : Store) (evicted : list bytes) (r : result (list bytes)) (st' : Store) : Prop := {
  enf_ok : store_ok st';
  enf_shrinks : shrinks st st';
  enf_limits : same_limits st st';
  enf_count : evicted_keys st' = evicted_keys st + zlen evicted;
  enf_gone : Forall (fun k => dict_get (entries st') k = None /\ k ∈ dict_keys (entries st)) evicted;
  enf_result :
    match r with
    | Ok ks => ks = evicted /\ exists used, total_size (entries st') = Some used /\ used <= maxmemory_bytes st
    | Err e => e = oom_error /\ (exists used, total_size (entries st') = Some used /\ maxmemory_bytes st < used)
               /\ eviction_victim st' = None
    end
}.

Lemma purge_keys_length now st : store_ok st ->
  (length (entries (purge_expired now st)) <= length (entries st))%nat.
Proof.
  intros Hok. rewrite <- !(dict_size (K := bytes)) by (apply purge_expired_ok || idtac; apply Hok).
  apply map_subseteq_size. apply map_subseteq_spec. intros k e. rewrite <- !dict_get_map.
  apply purge_shrinks. done.
Qed.

Lemma enforce_loop_acc fuel clk st ev :
  enforce_loop fuel clk st ev = (rmap (app ev) (enforce_loop fuel clk st []).1, (enforce_loop fuel clk st []).2).
Proof.
  revert clk st ev. induction fuel as [|f IH]; intros clk st ev; cbn [enforce_loop];
    destruct (memory_usage (clk 0%nat) st) as [[used|e] st1]; try done;
    (case_if; [simpl; by rewrite app_nil_r|]);
    (destruct (eviction_victim st1) as [v|]; [|done]); [done|].
  rewrite IH, (IH _ _ [v]). simpl. f_equal.
  destruct (enforce_loop f _ _ []) as [[l|e] ?]; simpl; [|done]. by rewrite <- app_assoc.
Qed.

Lemma enforce_loop_spec fuel clk st :
  store_ok st -> (length (entries st) <= fuel)%nat ->
  exists evicted, enforced st evicted (enforce_loop fuel clk st []).1 (enforce_loop fuel clk st []).2.
Proof.
  revert clk st. induction fuel as [|f IH]; intros clk st Hok Hf; cbn [enforce_loop];
    destruct (memory_usage_spec (clk 0%nat) st Hok) as (used & -> & H0 & Hu);
    set (st1 := purge_expired (clk 0%nat) st) in *;
    assert (store_ok st1) as Hok1 by (by apply purge_expired_ok);
    assert (shrinks st st1) as Hsh by (by apply purge_shrinks);
    destruct (purge_limits (clk 0%nat) st) as [Hlim1 Hlim2]; fold st1 in Hlim1, Hlim2; rewrite Hlim1;
    assert (evicted_keys st1 = evicted_keys st) as Hev by apply purge_evicted;
    pose proof (purge_keys_length (clk 0%nat) st Hok) as Hlen; fold st1 in Hlen;
    (destruct (used <=? maxmemory_bytes st) eqn:Hle; breflect;
      [exists []; split; simpl; [done..|rewrite zlen_nil; lia|constructor|split; [done|by exists used]]|]);
    (destruct (eviction_victim st1) as [v|] eqn:Hv;
      [|exists []; split; simpl; [done..|rewrite zlen_nil; lia|constructor|split_and!; [done|by exists used|done]]]).
  - apply eviction_victim_key in Hv. destruct (entries st1); [by inversion Hv|simpl in *; lia].
  - apply eviction_victim_key in Hv as Hvk.
    assert (exists e, dict_get (entries st1) v = Some e) as [e He].
    { destruct (dict_get (entries st1) v) eqn:E; [eauto|]. by apply dict_get_None in E. }
    destruct (IH (fun i => clk (S i)) (evict st1 v)) as (ks & [G1 G2 [G3 G3'] G4 G5 G6]); [auto with redis| |].
    { pose proof (dict_length_del _ _ _ He). simpl. lia. }
    rewrite enforce_loop_acc. simpl. exists (v :: ks).
    destruct (enforce_loop f _ (evict st1 v) []) as [r st']. simpl in *.
    assert (shrinks st1 st') as Hs' by (transitivity (evict st1 v); [by apply evict_shrinks|done]).
    split; [done|by transitivity st1|split; congruence|rewrite zlen_cons; lia| |].
    + constructor; [split|].
      * destruct (dict_get (entries st') v) as [e'|] eqn:E; [|done]. apply G2 in E as [E _].
        simpl in E. by rewrite dict_get_del_eq in E by apply Hok1.
      * apply Hsh in He as [He _]. by eapply dict_get_key.
      * eapply Forall_impl; [exact G5|]. intros k [Hk1 Hk2]. split; [done|].
        simpl in Hk2. apply dict_elem_keys_del in Hk2 as [_ Hk2]; [|apply Hok1].
        destruct (dict_get (entries st1) k) as [e'|] eqn:E; [|by apply dict_get_None in E].
        apply Hsh in E as [E _]. by eapply dict_get_key.
    + destruct r as [l|x]; simpl in *; [|by rewrite Hlim1 in G6].
      destruct G6 as [-> G6]. split; [done|]. by rewrite Hlim1 in G6.
Qed.

Lemma enforce_loop_shrinks fuel clk st r st' :
  store_ok st -> (length (entries st) <= fuel)%nat -> enforce_loop fuel clk st [] = (r, st') -> shrinks st st'.
Proof.
  intros Hok Hf E. destruct (enforce_loop_spec fuel clk st Hok Hf) as [ks H].
  rewrite E in H. apply H.
Qed.

Lemma has_access st k e :
  store_ok st -> dict_get (entries st) k = Some e -> exists n, dict_get (last_access st) k = Some n.
Proof.
  intros Hok Hk. apply dict_get_key in Hk. apply (ok_dom st Hok) in Hk.
  destruct (dict_get (last_access st) k) eqn:G; [eauto|]. by apply dict_get_None in G.
Qed.

(** One round of the loop that evicts. *)
Lemma enforce_loop_round fuel clk st ks st' :
  store_ok st -> (length (entries st) <= fuel)%nat -> enforce_loop fuel clk st [] = (Ok ks, st') -> ks <> [] ->
  exists f v ks', fuel = S f /\ ks = v :: ks' /\
    let st1 := purge_expired (clk 0%nat) st in
    eviction_victim st1 = Some v /\ (length (entries (evict st1 v)) <= f)%nat /\
    enforce_loop f (fun i => clk (S i)) (evict st1 v) [] = (Ok ks', st').
Proof.
  intros Hok Hf. pose proof (purge_keys_length (clk 0%nat) st Hok) as Hlen.
  destruct fuel as [|f]; cbn [enforce_loop];
    destruct (memory_usage_spec (clk 0%nat) st Hok) as (used & -> & _ & _);
    (case_if; [intros; inv_ok; done|]);
    (destruct (eviction_victim (purge_expired (clk 0%nat) st)) as [v|] eqn:Hv; [|done]); [done|].
  rewrite enforce_loop_acc.
  destruct (enforce_loop f _ _ []) as [[l|e] ?] eqn:E; simpl; intros; inv_ok.
  exists f, v, l. split_and!; try done.
  apply eviction_victim_key in Hv. destruct (dict_get (entries (purge_expired (clk 0%nat) st)) v) as [e|] eqn:He.
  - pose proof (dict_length_del _ _ _ He). simpl in *. lia.
  - by apply dict_get_None in He.
Qed.

(** Least recently used: a key that is evicted was used before every key that stays. *)
Lemma enforce_loop_lru fuel clk st ks st' :
  store_ok st -> (length (entries st) <= fuel)%nat -> maxmemory_policy st = allkeys_lru ->
  enforce_loop fuel clk st [] = (Ok ks, st') ->
  forall k k' e', k ∈ ks -> dict_get (entries st') k' = Some e' ->
    default 0 (dict_get (last_access st) k) < default 0 (dict_get (last_access st) k').
Proof.
  revert clk st ks. induction fuel as [|f IH]; intros clk st ks Hok Hf Hp E k k' e' Hk Hk'.
  { destruct (enforce_loop_round _ _ _ _ _ Hok Hf E) as (f & v & ks' & ? & _); [by intros ->; inversion Hk|done]. }
  destruct (enforce_loop_round _ _ _ _ _ Hok Hf E) as (f' & v & ks' & [= <-] & -> & Hv & Hf' & E');
    [by intros ->; inversion Hk|].
  set (st1 := purge_expired (clk 0%nat) st) in *.
  assert (store_ok st1) as Hok1 by (by apply purge_expired_ok).
  assert (shrinks st st1) as Hsh by (by apply purge_shrinks).
  destruct (purge_limits (clk 0%nat) st) as [_ Hp1]. fold st1 in Hp1. rewrite Hp in Hp1.
  pose proof (enforce_loop_shrinks _ _ _ _ _ (evict_ok st1 v Hok1) Hf' E') as Hsh'.
  destruct (Hsh' _ _ Hk') as [Hev Hla]. destruct (evict_shrinks st1 v Hok1 _ _ Hev) as [H1 Hla1].
  destruct (Hsh _ _ H1) as [_ Hla2].
  apply elem_of_cons in Hk as [->|Hk].
  - assert (v <> k') as Hne by (intros ->; simpl in Hev; by rewrite dict_get_del_eq in Hev by apply Hok1).
    pose proof (eviction_victim_lru st1 v k' Hp1 Hv (dict_get_key _ _ _ H1)) as Hle.
    assert (exists ev, dict_get (entries st1) v = Some ev) as [ev Hev1].
    { apply eviction_victim_key in Hv. destruct (dict_get (entries st1) v) eqn:G; [eauto|by apply dict_get_None in G]. }
    destruct (Hsh _ _ Hev1) as [_ Hlav].
    rewrite Hla2, Hlav in Hle.
    destruct (has_access st k' e' Hok (proj1 (Hsh _ _ H1))) as (n' & Hn').
    destruct (has_access st v ev Hok (proj1 (Hsh _ _ Hev1))) as (n & Hn).
    rewrite Hn, Hn' in *. simpl in *. destruct (Z.eq_dec n n') as [->|]; [|lia].
    exfalso. apply Hne. by eapply (ok_distinct st Hok).
  - assert (maxmemory_policy (evict st1 v) = allkeys_lru) as Hp2 by done.
    specialize (IH _ _ _ (evict_ok st1 v Hok1) Hf' Hp2 E' k k' e' Hk Hk').
    rewrite Hla1, Hla2 in IH.
    assert (dict_get (last_access (evict st1 v)) k = dict_get (last_access st) k) as Hlk; [|by rewrite <- Hlk].
    destruct (enforce_loop_spec f (fun i => clk (S i)) (evict st1 v) (evict_ok st1 v Hok1) Hf') as [ks2 H2].
    rewrite E' in H2. destruct (enf_result _ _ _ _ H2) as [-> _].
    pose proof (enf_gone _ _ _ _ H2) as Hg. rewrite Forall_forall in Hg. destruct (Hg k Hk) as [_ Hin].
    destruct (dict_get (entries (evict st1 v)) k) as [ek|] eqn:G; [|by apply dict_get_None in G].
    destruct (evict_shrinks st1 v Hok1 _ _ G) as [G1 ->]. by apply Hsh in G1 as [_ ->].
Qed.

Lemma enforce_memory_limit_ok clk st : store_ok st -> store_ok (enforce_memory_limit clk st).2.
Proof.
  intros Hok. unfold enforce_memory_limit. case_if; [done|].
  by destruct (enforce_loop_spec (length (entries st)) clk st Hok) as [ks []].
Qed.

(** ** Reachable stores *)

(** Every way in which the program changes a store. *)
Inductive store_step : Store -> Store -> Prop :=
| step_op rnd clk op st : store_step st (run_op rnd clk st op).2
| step_set_entry key e st : entry_ok e -> store_step st (set_entry st key e)
| step_load es st : entries_ok es -> store_step st (load_entries st es)
| step_clear st : store_step st (clear st)
| step_keys rnd now st : store_step st (keys_ rnd now st).2
| step_stats now now' st : store_step st (keyspace_stats now now' st).2
| step_usage now st : store_step st (memory_usage now st).2
| step_enforce clk st : store_step st (enforce_memory_limit clk st).2.

Lemma store_step_ok st st' : store_step st st' -> store_ok st -> store_ok st'.
Proof.
  destruct 1 as [rnd clk op st|key e st He|es st He|st|rnd now st|now now' st|now st|clk st]; intros Hok.
  - by apply run_op_ok.
  - by apply set_entry_ok.
  - by apply load_entries_ok.
  - apply clear_ok.
  - pose proof (run_op_ok rnd (fun _ => now) st (ActiveExpire (if zlen (entries st) =? 0 then 1 else zlen (entries st))) Hok) as H.
    unfold keys_. simpl in H. by destruct (active_expire_cycle _ _ _ _).
  - by apply purge_expired_ok.
  - by apply purge_expired_ok.
  - by apply enforce_memory_limit_ok.
Qed.

(** ** Properties *)

(** C22: the invariant of the keyspace.  In every store reached from a new
    one by any sequence of calls, with any clock: the keys are distinct, each
    entry's type tag matches its value, the access times cover exactly the
    keys, are pairwise distinct and never exceed the access clock. *)
Theorem store_invariant (maxmemory : Z) (policy : MaxmemoryPolicy) (st : Store) :
  rtc store_step (new_store maxmemory policy) st -> store_ok st.
Proof.
  intros H. apply (rtc_ind_r (fun st => store_ok st) (new_store maxmemory policy)) in H; [done|apply new_store_ok|].
  intros st1 st2 _ Hs Hok. by eapply store_step_ok.
Qed.

Lemma store_invariant_witness :
  store_ok (enforce_memory_limit (fun _ => 0)
    (run_op (fun l _ => l) (fun _ => 0) (new_store 10 allkeys_lru) (SetString (b "k") (b "v") None)).2).2.
Proof.
  apply (store_invariant 10 allkeys_lru).
  eapply rtc_l; [apply (step_op (fun l _ => l) (fun _ => 0) (SetString (b "k") (b "v") None))|].
  apply rtc_once. apply step_enforce.
Defined.

(** C23: the memory limit.  With a limit set, enforcing it always ends:
    either the approximate usage of what is left is within the limit, or the
    out-of-memory error is raised with nothing left that the policy may
    evict.  Surviving entries are unchanged, every reported key is gone, and
    the eviction counter counts exactly the evicted keys. *)
Theorem enforce_memory_limit_spec (clk : nat -> Z) (st : Store) :
  store_ok st -> 0 < maxmemory_bytes st ->
  let '(r, st') := enforce_memory_limit clk st in
  shrinks st st' /\
  exists used, total_size (entries st') = Some used /\
  match r with
  | Ok ks => used <= maxmemory_bytes st /\ evicted_keys st' = evicted_keys st + zlen ks /\
             Forall (fun k => dict_get (entries st') k = None /\ k ∈ dict_keys (entries st)) ks
  | Err e => e = oom_error /\ maxmemory_bytes st < used /\ eviction_victim st' = None
  end.
Proof.
  intros Hok Hm. unfold enforce_memory_limit. replace (maxmemory_bytes st <=? 0) with false by lia.
  destruct (enforce_loop_spec (length (entries st)) clk st Hok (le_n _)) as (ks & [G1 G2 G3 G4 G5 G6]).
  destruct (enforce_loop _ _ _ _) as [[l|e] st']; simpl in *; (split; [done|]).
  - destruct G6 as (-> & used & ? & ?). exists used. done.
  - destruct G6 as (-> & (used & ? & ?) & ?). exists used. done.
Qed.

(** Two keys of 20 bytes each, [old] used before [new], and room for one. *)
Definition ex_lru : Store :=
  (run_ops (fun l _ => l)
    [(at_time 0, SetString (b "old") (replicate 20 "x"%byte) None);
     (at_time 0, SetString (b "new") (replicate 20 "y"%byte) None);
     (at_time 0, GetString (b "new"))] (new_store 140 allkeys_lru)).2.

Lemma ex_lru_ok : store_ok ex_lru.
Proof.
  apply run_ops_ok, new_store_ok.
Qed.

Lemma enforce_memory_limit_spec_witness :
  exists used, total_size (entries (enforce_memory_limit (fun _ => 0) ex_lru).2) = Some used /\ used <= 140.
Proof.
  pose proof (enforce_memory_limit_spec (fun _ => 0) ex_lru ex_lru_ok eq_refl) as H.
  vm_compute in H. destruct H as (_ & used & H1 & H2 & _). exists used. split; [exact H1 | exact H2].
Defined.

(** [allkeys-lru] evicts the least recently used keys first: every
    evicted key was last used strictly before every key that stays.  It
    never fails: with a positive limit there is always a key to evict. *)
Theorem allkeys_lru_order (clk : nat -> Z) (st : Store) :
  store_ok st -> 0 < maxmemory_bytes st -> maxmemory_policy st = allkeys_lru ->
  exists ks st', enforce_memory_limit clk st = (Ok ks, st') /\
  forall k k' e', k ∈ ks -> dict_get (entries st') k' = Some e' ->
    default 0 (dict_get (last_access st) k) < default 0 (dict_get (last_access st) k').
Proof.
  intros Hok Hm Hp. unfold enforce_memory_limit. replace (maxmemory_bytes st <=? 0) with false by lia.
  destruct (enforce_loop (length (entries st)) clk st []) as [[ks|e] st'] eqn:E.
  - exists ks, st'. split; [done|]. by eapply enforce_loop_lru.
  - exfalso. destruct (enforce_loop_spec (length (entries st)) clk st Hok (le_n _)) as (ks & [G1 G2 [_ G3] G4 G5 G6]).
    rewrite E in *. simpl in *. destruct G6 as (_ & (used & Hu & Hlt) & Hv).
    apply eviction_victim_none in Hv. rewrite G3, Hp in Hv. rewrite Hv in Hu. simpl in Hu. inv_ok. lia.
Qed.

Lemma allkeys_lru_order_witness :
  (enforce_memory_limit (fun _ => 0) ex_lru).1 = Ok [b "old"] /\
  exists ks st', enforce_memory_limit (fun _ => 0) ex_lru = (Ok ks, st').
Proof.
  split; [vm_compute; reflexivity|].
  destruct (allkeys_lru_order (fun _ => 0) ex_lru ex_lru_ok eq_refl eq_refl) as (ks & st' & H & _).
  exists ks, st'. exact H.
Defined.

(** [noeviction] never removes data.  Whatever the outcome, every entry
    that is still live is kept and no key is counted as evicted. *)
Theorem noeviction_keeps_data (clk : nat -> Z) (st : Store) :
  store_ok st -> maxmemory_policy st = noeviction ->
  let '(r, st') := enforce_memory_limit clk st in
  evicted_keys st' = evicted_keys st /\
  live (clk 0%nat) st' = live (clk 0%nat) st /\
  (0 < maxmemory_bytes st ->
   match r with
   | Ok ks => ks = []
   | Err e => e = oom_error
   end).
Proof.
  intros Hok Hp. unfold enforce_memory_limit.
  destruct (maxmemory_bytes st <=? 0) eqn:Hm; breflect; [split_and!; [done..|lia]|].
  assert (forall fuel, enforce_loop fuel clk st [] =
    match memory_usage (clk 0%nat) st with
    | (Err e, st') => (Err e, st')
    | (Ok used, st') => if used <=? maxmemory_bytes st' then (Ok [], st') else (Err oom_error, st')
    end) as ->.
  { intros fuel. destruct (memory_usage_spec (clk 0%nat) st Hok) as (used & Hu & _).
    assert (eviction_victim (purge_expired (clk 0%nat) st) = None) as Hv.
    { unfold eviction_victim. destruct (purge_limits (clk 0%nat) st) as [_ ->]. rewrite Hp. by destruct (filter _ _). }
    destruct fuel; cbn [enforce_loop]; rewrite Hu, Hv; done. }
  destruct (memory_usage_spec (clk 0%nat) st Hok) as (used & -> & _).
  case_if; (split_and!; [apply purge_evicted | by apply purge_expired_live | done]).
Qed.

Lemma noeviction_keeps_data_witness :
  live 0 (enforce_memory_limit (fun _ => 0) (set_string 0 (new_store 1 noeviction) (b "k") (b "v") None)).2 =
  live 0 (set_string 0 (new_store 1 noeviction) (b "k") (b "v") None).
Proof.
  pose proof (noeviction_keeps_data (fun _ => 0) (set_string 0 (new_store 1 noeviction) (b "k") (b "v") None)) as H.
  destruct (enforce_memory_limit (fun _ => 0) (set_string 0 (new_store 1 noeviction) (b "k") (b "v") None)).
  apply H; [apply set_entry_ok; [apply new_store_ok | done] | reflexivity].
Defined.
