(* ===== verification/Crc32.v ===== *)
(** * [struct] and [zlib.crc32], as the snapshot format uses them

    Little-endian packing with the range checks of [struct.pack], and the
    CRC-32 of [zlib], bit by bit.  A change of a single byte changes the
    checksum. *)
From S2P Require Import Prelude.
Local Open Scope Z_scope.

(** ** Little-endian integers *)

(** [n] bytes, least significant first. *)
Fixpoint le_split (n : nat) (z : Z) : bytes :=
  match n with
  | O => []
  | S n' => byte_of_Z z :: le_split n' (z / 256)
  end.

Fixpoint le_combine (l : bytes) : Z :=
  match l with
  | [] => 0
  | c :: l' => byte_to_Z c + 256 * le_combine l'
  end.

(** [struct.pack("<B" / "<I" / "<q", z)] and the inverse of ["<q"]. *)
Definition pack_u8 (z : Z) : result bytes :=
  if (0 <=? z) && (z <? 2 ^ 8) then Ok (le_split 1 z) else Err StructError.
Definition pack_u32 (z : Z) : result bytes :=
  if (0 <=? z) && (z <? 2 ^ 32) then Ok (le_split 4 z) else Err StructError.
Definition pack_i64 (z : Z) : result bytes :=
  if (- 2 ^ 63 <=? z) && (z <? 2 ^ 63) then Ok (le_split 8 (z mod 2 ^ 64)) else Err StructError.

Definition unpack_u32 (l : bytes) : Z := le_combine l.
Definition unpack_i64 (l : bytes) : Z :=
  let v := le_combine l in if v <? 2 ^ 63 then v else v - 2 ^ 64.

Lemma length_le_split n z : length (le_split n z) = n.
Proof. revert z. induction n as [|n IH]; intros z; simpl; [done|]. by rewrite IH. Qed.

Lemma le_combine_split n z : 0 <= z < 256 ^ Z.of_nat n -> le_combine (le_split n z) = z.
Proof.
  revert z. induction n as [|n IH]; intros z Hz; simpl.
  - simpl in Hz. lia.
  - rewrite Nat2Z.inj_succ, Z.pow_succ_r in Hz by lia. rewrite byte_to_of_Z, IH.
    + pose proof (Z.div_mod z 256 ltac:(lia)). lia.
    + split; [apply Z.div_pos; lia | apply Z.div_lt_upper_bound; lia].
Qed.

Lemma le_combine_inj l k : length l = length k -> le_combine l = le_combine k -> l = k.
Proof.
  revert k. induction l as [|c l IH]; intros [|d k] Hlen; simpl; intros H; try done.
  pose proof (byte_to_Z_bound c). pose proof (byte_to_Z_bound d).
  f_equal; [apply (inj byte_to_Z); lia | apply IH; [by injection Hlen | lia]].
Qed.

Lemma unpack_pack_u32 z l : pack_u32 z = Ok l -> unpack_u32 l = z /\ length l = 4%nat.
Proof.
  unfold pack_u32. case_if; [|done]. intros Hl.
  assert (l = le_split 4 z) as -> by congruence. split; [|apply length_le_split].
  apply le_combine_split. change (256 ^ Z.of_nat 4) with (2 ^ 32). lia.
Qed.

Lemma unpack_pack_i64 z l : pack_i64 z = Ok l -> unpack_i64 l = z /\ length l = 8%nat.
Proof.
  unfold pack_i64. case_if; [|done]. intros Hl.
  assert (l = le_split 8 (z mod 2 ^ 64)) as -> by congruence. split; [|apply length_le_split].
  unfold unpack_i64. pose proof (Z.mod_pos_bound z (2 ^ 64) ltac:(lia)).
  rewrite le_combine_split by (change (256 ^ Z.of_nat 8) with (2 ^ 64); lia).
  destruct (Z.le_gt_cases 0 z).
  - rewrite Z.mod_small by lia. by replace (z <? 2 ^ 63) with true by lia.
  - assert (z mod 2 ^ 64 = z + 2 ^ 64) as -> by (symmetry; apply Z.mod_unique_pos with (q := -1); lia).
    replace (z + 2 ^ 64 <? 2 ^ 63) with false by lia. lia.
Qed.

(** ** CRC-32 *)

Definition crc_poly : Z := 0xEDB88320.
Definition crc_mask : Z := 0xFFFFFFFF.

(** One bit of the reflected division. *)
Definition crc_step (c : Z) : Z :=
  if Z.testbit c 0 then Z.lxor (Z.shiftr c 1) crc_poly else Z.shiftr c 1.

Definition crc_byte (c : Z) (x : byte) : Z :=
  Nat.iter 8 crc_step (Z.lxor c (byte_to_Z x)).

Definition crc32 (l : bytes) : Z := Z.lxor (foldl crc_byte crc_mask l) crc_mask.

Example crc32_check : crc32 (b "123456789") = 0xCBF43926.
Proof. vm_compute. reflexivity. Qed.

(** The registers are 32-bit. *)
Definition u32 (c : Z) : Prop := 0 <= c < 2 ^ 32.

Lemma u32_bits c : u32 c <-> 0 <= c /\ forall i, 32 <= i -> Z.testbit c i = false.
Proof.
  unfold u32. split.
  - intros H. split; [lia|]. intros i Hi. rewrite <- (Z.mod_small c (2 ^ 32)) by lia.
    by apply Z.mod_pow2_bits_high.
  - intros [H0 Hb]. split; [done|].
    assert (c = c mod 2 ^ 32) as ->; [|apply Z.mod_pos_bound; lia].
    apply Z.bits_inj'. intros i Hi. destruct (Z.lt_ge_cases i 32).
    + by rewrite Z.mod_pow2_bits_low.
    + rewrite Z.mod_pow2_bits_high by lia. by apply Hb.
Qed.

Lemma lxor_u32 x y : u32 x -> u32 y -> u32 (Z.lxor x y).
Proof.
  rewrite !u32_bits. intros [H1 H2] [H3 H4]. split; [by apply Z.lxor_nonneg|].
  intros i Hi. by rewrite Z.lxor_spec, H2, H4.
Qed.

Lemma shiftr_u32 c : u32 c -> 0 <= Z.shiftr c 1 < 2 ^ 31.
Proof. unfold u32. intros H. rewrite Z.shiftr_div_pow2 by lia. change (2 ^ 1) with 2.
  split; [apply Z.div_pos; lia | apply Z.div_lt_upper_bound; lia].
Qed.

Lemma byte_u32 x : u32 (byte_to_Z x).
Proof. pose proof (byte_to_Z_bound x). unfold u32. lia. Qed.

Lemma crc_step_u32 c : u32 c -> u32 (crc_step c).
Proof.
  intros H. pose proof (shiftr_u32 c H). unfold crc_step. case_if.
  - apply lxor_u32; [unfold u32; lia | done].
  - unfold u32. lia.
Qed.

(** Bit 31 of the result tells which branch was taken, and either branch
    can be undone. *)
Lemma crc_step_bit31 c : u32 c -> Z.testbit (crc_step c) 31 = Z.testbit c 0.
Proof.
  intros H. pose proof (shiftr_u32 c H) as Hs. unfold crc_step.
  assert (Z.testbit (Z.shiftr c 1) 31 = false) as Hb.
  { rewrite <- (Z.mod_small (Z.shiftr c 1) (2 ^ 31)) by lia. by apply Z.mod_pow2_bits_high. }
  destruct (Z.testbit c 0); [|done]. by rewrite Z.lxor_spec, Hb.
Qed.

Lemma crc_step_inj c d : u32 c -> u32 d -> crc_step c = crc_step d -> c = d.
Proof.
  intros Hc Hd H.
  assert (Z.testbit c 0 = Z.testbit d 0) as H0 by (rewrite <- !crc_step_bit31 by done; by rewrite H).
  assert (Z.shiftr c 1 = Z.shiftr d 1) as Hs.
  { unfold crc_step in H. rewrite H0 in H. destruct (Z.testbit d 0); [|done].
    apply (f_equal (fun z => Z.lxor z crc_poly)) in H. by rewrite !Z.lxor_assoc, !Z.lxor_nilpotent, !Z.lxor_0_r in H. }
  apply Z.bits_inj'. intros i Hi. destruct (Z.eq_dec i 0) as [->|]; [done|].
  replace i with ((i - 1) + 1) by lia. rewrite <- !Z.shiftr_spec by lia. by rewrite Hs.
Qed.

Lemma iter_u32 n c : u32 c -> u32 (Nat.iter n crc_step c).
Proof. intros H. induction n; simpl; [done|]. by apply crc_step_u32. Qed.

Lemma iter_inj n c d : u32 c -> u32 d -> Nat.iter n crc_step c = Nat.iter n crc_step d -> c = d.
Proof.
  intros Hc Hd. induction n as [|n IH]; simpl; [done|]. intros H. apply IH.
  apply crc_step_inj; [by apply iter_u32..|done].
Qed.

Lemma lxor_cancel_l a x y : Z.lxor a x = Z.lxor a y -> x = y.
Proof.
  intros H. apply (f_equal (Z.lxor a)) in H. by rewrite <- !Z.lxor_assoc, !Z.lxor_nilpotent, !Z.lxor_0_l in H.
Qed.

Lemma lxor_cancel_r a x y : Z.lxor x a = Z.lxor y a -> x = y.
Proof. rewrite !(Z.lxor_comm _ a). apply lxor_cancel_l. Qed.

Lemma crc_byte_u32 c x : u32 c -> u32 (crc_byte c x).
Proof. intros H. apply iter_u32, lxor_u32; [done|apply byte_u32]. Qed.

Lemma crc_byte_inj_reg c d x : u32 c -> u32 d -> crc_byte c x = crc_byte d x -> c = d.
Proof.
  intros Hc Hd H. apply iter_inj in H; [by eapply lxor_cancel_r|apply lxor_u32..]; auto using byte_u32.
Qed.

Lemma crc_byte_inj_byte c x y : u32 c -> crc_byte c x = crc_byte c y -> x = y.
Proof.
  intros Hc H. apply (inj byte_to_Z).
  apply iter_inj in H; [by eapply lxor_cancel_l|apply lxor_u32..]; auto using byte_u32.
Qed.

Lemma crc_fold_u32 l c : u32 c -> u32 (foldl crc_byte c l).
Proof. revert c. induction l as [|x l IH]; intros c H; simpl; [done|]. by apply IH, crc_byte_u32. Qed.

Lemma crc_fold_inj l c d : u32 c -> u32 d -> foldl crc_byte c l = foldl crc_byte d l -> c = d.
Proof.
  revert c d. induction l as [|x l IH]; intros c d Hc Hd H; simpl in *; [done|].
  eapply crc_byte_inj_reg; [done..|]. by apply IH; [apply crc_byte_u32..|].
Qed.

Lemma crc_mask_u32 : u32 crc_mask.
Proof. done. Qed.

(** Replacing one byte changes the checksum. *)
Lemma crc32_one_byte pre x y post : x <> y -> crc32 (pre ++ x :: post) <> crc32 (pre ++ y :: post).
Proof.
  intros Hxy H. unfold crc32 in H. apply lxor_cancel_r in H. rewrite !foldl_app in H. simpl in H.
  pose proof (crc_fold_u32 pre _ crc_mask_u32) as Hp.
  apply crc_fold_inj in H; [|by apply crc_byte_u32..]. apply Hxy. by eapply crc_byte_inj_byte.
Qed.

Lemma crc32_u32 l : u32 (crc32 l).
Proof. apply lxor_u32; [apply crc_fold_u32|]; apply crc_mask_u32. Qed.
