(* ===== verification/Rdb.v ===== *)
(** * Snapshots ([persistence/rdb.py])

    The BYOR format: dumping a keyspace to bytes and loading it back.  Files
    are byte strings; [dump_rdb] acts on the snapshot file and the temporary
    file next to it, [load_rdb_into] on the contents of the snapshot file. *)
From S2P Require Import Prelude PyText Dict Store StoreSpec Crc32.
Local Open Scope Z_scope.

Definition MAGIC : bytes := b "BYOR".
Definition VERSION : Z := 2.
Definition LEGACY_VERSION : Z := 1.
Definition TYPE_STRING : Z := 1.
Definition TYPE_LIST : Z := 2.
Definition TYPE_HASH : Z := 3.
Definition FOOTER : bytes := b "EOF" ++ [Byte.x0a].

(** ** Dumping *)

Definition pack_bytes (data : bytes) : result bytes :=
  let* n := pack_u32 (zlen data) in Ok (n ++ data).

Definition type_id (t : RedisType) : Z :=
  match t with STRING => TYPE_STRING | LIST => TYPE_LIST | HASH => TYPE_HASH end.

(** The type-specific payload; a tag that does not match the value fails an
    [assert]. *)
Definition dump_value (e : KeyEntry) : result bytes :=
  match type e with
  | STRING => match value e with
              | VBytes v => pack_bytes v
              | _ => Err AssertionError
              end
  | LIST => match value e with
            | VDeque items =>
                let* n := pack_u32 (zlen items) in
                let* parts := rmapM pack_bytes items in
                Ok (n ++ concat parts)
            | _ => Err AssertionError
            end
  | HASH => match value e with
            | VDict mapping =>
                let* n := pack_u32 (zlen mapping) in
                let* parts := rmapM (fun fv => let* f := pack_bytes fv.1 in
                                               let* v := pack_bytes fv.2 in Ok (f ++ v)) mapping in
                Ok (n ++ concat parts)
            | _ => Err AssertionError
            end
  end.

Definition dump_record (ke : bytes * KeyEntry) : result bytes :=
  let '(key, e) := ke in
  let* k := pack_bytes key in
  let* t := pack_u8 (type_id (type e)) in
  let* x := pack_i64 (match expire_at_ms e with None => -1 | Some ms => ms end) in
  let* v := dump_value e in
  Ok (k ++ t ++ x ++ v).

Definition dump_rdb_entries (es : dict bytes KeyEntry) : result bytes :=
  let* ver := pack_u32 VERSION in
  let* count := pack_u32 (zlen es) in
  let* records := rmapM dump_record es in
  let body := MAGIC ++ ver ++ count ++ concat records in
  let* checksum := pack_u32 (crc32 body) in
  Ok (body ++ checksum ++ FOOTER).

Definition dump_rdb_bytes (now : Z) (st : Store) : result bytes * Store :=
  let '(es, st') := snapshot now st in (dump_rdb_entries es, st').

(** The snapshot file and [<path>.tmp], when they exist. *)
Record RdbFiles := mkFiles { rdb_final : option bytes; rdb_tmp : option bytes }.

(** The system call of [dump_rdb] that raises [OSError]: [mkdir], [open],
    [write] (after so many bytes), [fsync], or [os.replace]. *)
Inductive save_call := MkdirCall | OpenCall | WriteCall (n : nat) | FsyncCall | ReplaceCall.

(** [dump_rdb(store, path)]; [io] is the call that fails, if any, and the
    message of its exception. *)
Definition dump_rdb (now : Z) (st : Store) (io : option (save_call * str)) (fs : RdbFiles) : result unit * Store * RdbFiles :=
  match io with
  | Some (MkdirCall, m) => (Err (OSError m), st, fs)
  | _ =>
      match dump_rdb_bytes now st with
      | (Err e, st') => (Err e, st', fs)
      | (Ok payload, st') =>
          match io with
          | None => (Ok tt, st', mkFiles (Some payload) None)
          | Some (WriteCall n, m) => (Err (OSError m), st', mkFiles (rdb_final fs) (Some (take n payload)))
          | Some (FsyncCall, m) | Some (ReplaceCall, m) => (Err (OSError m), st', mkFiles (rdb_final fs) (Some payload))
          | Some (_, m) => (Err (OSError m), st', fs)
          end
      end
  end.

(** ** Loading *)

Definition eof_error : exn := RdbError (u "unexpected EOF while reading RDB").

Definition read_exact (buf : bytes) (offset n : Z) : result (bytes * Z) :=
  let e := offset + n in
  if zlen buf <? e then Err eof_error
  else Ok (take (Z.to_nat n) (drop (Z.to_nat offset) buf), e).

Definition read_u32 (buf : bytes) (offset : Z) : result (Z * Z) :=
  let* (raw, offset) := read_exact buf offset 4 in Ok (unpack_u32 raw, offset).

Definition read_i64 (buf : bytes) (offset : Z) : result (Z * Z) :=
  let* (raw, offset) := read_exact buf offset 8 in Ok (unpack_i64 raw, offset).

Definition read_blob (buf : bytes) (offset : Z) : result (bytes * Z) :=
  let* (length, offset) := read_u32 buf offset in read_exact buf offset length.

(** [for _ in range(count)] around a read that advances the offset.  Each
    read consumes at least one byte of the buffer, so the length of the
    buffer bounds the number of reads that succeed. *)
Fixpoint read_many {A} (fuel : nat) (rd : Z -> result (A * Z)) (count offset : Z) (acc : list A) :
    result (list A * Z) :=
  if count <=? 0 then Ok (acc, offset)
  else
    let* (x, offset') := rd offset in
    match fuel with
    | O => Err OutOfFuel
    | S f => read_many f rd (count - 1) offset' (acc ++ [x])
    end.

Definition read_pair (buf : bytes) (offset : Z) : result ((bytes * bytes) * Z) :=
  let* (f, offset) := read_blob buf offset in
  let* (v, offset) := read_blob buf offset in
  Ok ((f, v), offset).

(** The typed value of a record. *)
Definition read_value (buf : bytes) (tid : Z) (expire_at_ms : option Z) (offset : Z) : result (KeyEntry * Z) :=
  if tid =? TYPE_STRING then
    let* (v, offset) := read_blob buf offset in
    Ok (mkEntry STRING (VBytes v) expire_at_ms, offset)
  else if tid =? TYPE_LIST then
    let* (n, offset) := read_u32 buf offset in
    let* (items, offset) := read_many (length buf) (read_blob buf) n offset [] in
    Ok (mkEntry LIST (VDeque items) expire_at_ms, offset)
  else if tid =? TYPE_HASH then
    let* (n, offset) := read_u32 buf offset in
    let* (pairs, offset) := read_many (length buf) (read_pair buf) n offset [] in
    Ok (mkEntry HASH (VDict (dict_of_items [] pairs)) expire_at_ms, offset)
  else Err (RdbError (u "unknown type id " ++ str_of_int tid)).

Definition read_record (buf : bytes) (offset : Z) : result ((bytes * KeyEntry) * Z) :=
  let* (key, offset) := read_blob buf offset in
  let* (type_raw, offset) := read_exact buf offset 1 in
  let tid := le_combine type_raw in
  let* (expire_at, offset) := read_i64 buf offset in
  let expire_at_ms := if expire_at <? 0 then None else Some expire_at in
  let* (e, offset) := read_value buf tid expire_at_ms offset in
  Ok ((key, e), offset).

(** The records that are kept: [if is_expired(...): continue]. *)
Definition keep_live (now : Z) (records : list (bytes * KeyEntry)) : dict bytes KeyEntry :=
  foldl (fun d ke => if is_expired (expire_at_ms ke.2) now then d else dict_set d ke.1 ke.2) [] records.

Definition size_error (size max_file_bytes : Z) : exn :=
  RdbError (u "RDB size " ++ str_of_int size ++ u " exceeds load limit " ++ str_of_int max_file_bytes).

(** Checksum (version 2), footer and end of file. *)
Definition read_trailer (data : bytes) (version offset : Z) : result unit :=
  let* offset :=
    if VERSION <=? version then
      let* (checksum_raw, offset') := read_exact data offset 4 in
      if crc32 (take (Z.to_nat offset) data) =? unpack_u32 checksum_raw then Ok offset'
      else Err (RdbError (u "RDB checksum mismatch"))
    else Ok offset in
  let* (footer, offset) := read_exact data offset (zlen FOOTER) in
  if negb (beqb footer FOOTER) then Err (RdbError (u "missing RDB footer"))
  else if offset =? zlen data then Ok tt
  else Err (RdbError (u "trailing bytes after RDB footer")).

Definition load_rdb_bytes (now : Z) (max_file_bytes : Z) (data : bytes) : result (dict bytes KeyEntry) :=
  if max_file_bytes <? zlen data then Err (size_error (zlen data) max_file_bytes)
  else if zlen data <? 12 then Err (RdbError (u "RDB too short"))
  else
    let* (magic, offset) := read_exact data 0 4 in
    if negb (beqb magic MAGIC) then Err (RdbError (u "bad RDB magic: " ++ repr_bytes magic))
    else
      let* (version, offset) := read_u32 data offset in
      if negb ((version =? LEGACY_VERSION) || (version =? VERSION)) then
        Err (RdbError (u "unsupported RDB version: " ++ str_of_int version))
      else
        let* (count, offset) := read_u32 data offset in
        let* (records, offset) := read_many (length data) (read_record data) count offset [] in
        let* _ := read_trailer data version offset in
        Ok (keep_live now records).

(** [load_rdb(path)] on the contents of the file: the size is checked before
    the file is read, and again by [load_rdb_bytes]. *)
Definition load_rdb (now max_file_bytes : Z) (file : bytes) : result (dict bytes KeyEntry) :=
  if max_file_bytes <? zlen file then Err (size_error (zlen file) max_file_bytes)
  else load_rdb_bytes now max_file_bytes file.

Definition load_rdb_into (now max_file_bytes : Z) (st : Store) (file : bytes) : result Z * Store :=
  match load_rdb now max_file_bytes file with
  | Ok es => (Ok (zlen es), load_entries st es)
  | Err e => (Err e, st)
  end.

(** A keyspace with each type, a TTL, an empty list and an expired entry. *)
Definition ex_entries : dict bytes KeyEntry :=
  [(b "s", mkEntry STRING (VBytes (b "value")) (Some 5000));
   (b "old", mkEntry STRING (VBytes (b "gone")) (Some 10));
   (b "l", mkEntry LIST (VDeque [b "a"; b ""; b "c"]) None);
   (b "h", mkEntry HASH (VDict [(b "f", b "1"); (b "g", b "2")]) None);
   (b "e", mkEntry LIST (VDeque []) None)].

Example rdb_ex : match dump_rdb_entries ex_entries with
                 | Ok data => load_rdb_bytes 100 1000 data
                 | Err e => Err e
                 end = Ok (filter (fun ke => ke.1 <> b "old") ex_entries).
Proof. vm_compute. reflexivity. Qed.

(** ** Readers *)

Definition rdb_error (e : exn) : Prop := match e with RdbError _ => True | _ => False end.

(** What every read function promises: it consumes at least [n] bytes and
    stays in the buffer, it does not look past what it consumes, and the only
    exception it raises is [RdbError] (so its recursion budget is enough). *)
Class Reader {A} (n : Z) (rd : bytes -> Z -> result (A * Z)) : Prop := {
  rd_advance : forall buf off x off', 0 <= off -> rd buf off = Ok (x, off') ->
    off + n <= off' /\ (off <= zlen buf \/ 0 < n -> off' <= zlen buf);
  rd_extend : forall buf ext off r, 0 <= off -> rd buf off = Ok r -> rd (buf ++ ext) off = Ok r;
  rd_error : forall buf off e, 0 <= off -> rd buf off = Err e -> rdb_error e
}.

#[global] Instance read_exact_reader n : 0 <= n -> Reader n (fun buf off => read_exact buf off n).
Proof.
  intros Hn. split; unfold read_exact; intros buf.
  - intros off x off' Ho. case_if; [done|]. intros; inv_ok. lia.
  - intros ext off r Ho. case_if; [done|]. intros; inv_ok.
    rewrite zlen_app. pose proof (zlen_nonneg ext).
    replace (zlen buf + zlen ext <? off + n) with false by lia. unfold zlen in *.
    rewrite drop_app_le by lia. by rewrite take_app_le by (rewrite length_drop; lia).
  - intros off e Ho. case_if; intros; inv_ok. done.
Qed.

Lemma reader_bind {A B} n m (r1 : bytes -> Z -> result (A * Z)) (r2 : A -> bytes -> Z -> result (B * Z)) :
  0 <= n -> Reader n r1 -> (forall buf off x off', r1 buf off = Ok (x, off') -> Reader m (r2 x)) ->
  Reader (n + m) (fun buf off => let* (x, o) := r1 buf off in r2 x buf o).
Proof.
  intros Hn H1 H2. split.
  - intros buf off x off' Ho H. apply rbind_ok in H as ([y o] & Hy & Hx).
    destruct (rd_advance _ _ _ _ Ho Hy) as [Ha Hb]. pose proof (H2 _ _ _ _ Hy) as H3.
    destruct (rd_advance (Reader := H3) _ _ _ _ (ltac:(lia) : 0 <= o) Hx) as [Hc Hd]. lia.
  - intros buf ext off r Ho H. apply rbind_ok in H as ([y o] & Hy & Hx).
    destruct (rd_advance _ _ _ _ Ho Hy) as [Ha _]. pose proof (H2 _ _ _ _ Hy) as H3.
    rewrite (rd_extend _ _ _ _ Ho Hy). simpl. apply (rd_extend (Reader := H3)); [lia|done].
  - intros buf off e Ho. destruct (r1 buf off) as [[y o]|e'] eqn:Hy; simpl.
    + destruct (rd_advance _ _ _ _ Ho Hy) as [Ha _]. apply (rd_error (Reader := H2 _ _ _ _ Hy)). lia.
    + intros [= <-]. by apply (rd_error buf off).
Qed.

Lemma reader_ret {A} (x : A) : Reader 0 (fun _ off => Ok (x, off)).
Proof. split; intros; inv_ok; try done; lia. Qed.

Lemma reader_fail {A} n msg : @Reader A n (fun _ _ => Err (RdbError msg)).
Proof. split; try done. by intros buf off e _ [= <-]. Qed.

Lemma reader_weaken {A} n m (rd : bytes -> Z -> result (A * Z)) : m <= n -> Reader n rd -> Reader m rd.
Proof.
  intros Hm H. split; [|apply rd_extend|apply rd_error].
  intros buf off x off' Ho Hr. destruct (rd_advance _ _ _ _ Ho Hr). lia.
Qed.

Lemma reader_map {A B} n (f : A -> B) (rd : bytes -> Z -> result (A * Z)) :
  0 <= n -> Reader n rd -> Reader n (fun buf off => let* (x, o) := rd buf off in Ok (f x, o)).
Proof.
  intros Hn H. replace n with (n + 0) by lia.
  apply (reader_bind n 0 rd (fun x _ o => Ok (f x, o))); [lia|done|]. intros. apply reader_ret.
Qed.

Lemma le_combine_nonneg l : 0 <= le_combine l.
Proof. induction l as [|c l IH]; simpl; [done|]. pose proof (byte_to_Z_bound c). lia. Qed.

#[global] Instance read_u32_reader : Reader 4 read_u32.
Proof. apply (reader_map 4 unpack_u32 (fun buf off => read_exact buf off 4)); [lia|]. apply read_exact_reader. lia. Qed.

#[global] Instance read_i64_reader : Reader 8 read_i64.
Proof. apply (reader_map 8 unpack_i64 (fun buf off => read_exact buf off 8)); [lia|]. apply read_exact_reader. lia. Qed.

Lemma read_u32_nonneg buf off x off' : read_u32 buf off = Ok (x, off') -> 0 <= x.
Proof.
  intros H. apply rbind_ok in H as ([raw o] & _ & H). inv_ok. apply le_combine_nonneg.
Qed.

#[global] Instance read_blob_reader : Reader 4 read_blob.
Proof.
  apply (reader_bind 4 0 read_u32 (fun n buf off => read_exact buf off n)); [lia|apply read_u32_reader|].
  intros buf off x off' Hx. apply read_u32_nonneg in Hx.
  eapply reader_weaken; [|by apply read_exact_reader]. done.
Qed.

#[global] Instance read_pair_reader : Reader 4 read_pair.
Proof.
  apply (reader_bind 4 0 read_blob (fun f buf off => let* (v, o) := read_blob buf off in Ok ((f, v), o)));
    [lia|apply read_blob_reader|].
  intros _ _ f _ _. eapply (reader_weaken 4); [lia|]. apply (reader_map 4 (fun v => (f, v)) read_blob); [lia|apply read_blob_reader].
Qed.

Lemma read_many_extend {A} n (rd : bytes -> Z -> result (A * Z)) fuel fuel' buf ext count off acc r :
  0 <= n -> Reader n rd -> 0 <= off -> (fuel <= fuel')%nat ->
  read_many fuel (rd buf) count off acc = Ok r -> read_many fuel' (rd (buf ++ ext)) count off acc = Ok r.
Proof.
  intros Hn Hrd. revert fuel' count off acc. induction fuel as [|f IH]; intros fuel' count off acc Ho Hf.
  - destruct fuel'; simpl; case_if; try done; intros H; apply rbind_ok in H as ([x o] & _ & H); done.
  - destruct fuel' as [|f']; [lia|]. simpl. case_if; [done|]. intros H.
    apply rbind_ok in H as ([x o] & Hx & H). destruct (rd_advance _ _ _ _ Ho Hx) as [Ha _].
    rewrite (rd_extend _ ext _ _ Ho Hx). simpl. apply IH; [lia|lia|done].
Qed.

Lemma read_many_advance {A} n (rd : bytes -> Z -> result (A * Z)) fuel buf count off acc x off' :
  0 <= n -> Reader n rd -> 0 <= off -> read_many fuel (rd buf) count off acc = Ok (x, off') ->
  off <= off' /\ (off <= zlen buf -> off' <= zlen buf).
Proof.
  intros Hn Hrd. revert count off acc. induction fuel as [|f IH]; intros count off acc Ho; simpl.
  - case_if; [intros; inv_ok; lia|]. intros H. apply rbind_ok in H as ([y o] & _ & H). done.
  - case_if; [intros; inv_ok; lia|]. intros H. apply rbind_ok in H as ([y o] & Hy & H).
    destruct (rd_advance _ _ _ _ Ho Hy) as [Ha Hb]. specialize (IH (count - 1) o _ ltac:(lia) H). lia.
Qed.

Lemma read_many_error {A} n (rd : bytes -> Z -> result (A * Z)) fuel buf count off acc e :
  1 <= n -> Reader n rd -> 0 <= off -> zlen buf - off <= Z.of_nat fuel ->
  read_many fuel (rd buf) count off acc = Err e -> rdb_error e.
Proof.
  intros Hn Hrd. revert count off acc. induction fuel as [|f IH]; intros count off acc Ho Hf; simpl; (case_if; [done|]).
  all: destruct (rd buf off) as [[y o]|e'] eqn:Hy; simpl;
    [|intros [= <-]; by apply (rd_error buf off)].
  all: destruct (rd_advance _ _ _ _ Ho Hy) as [Ha Hb].
  - lia.
  - apply IH; lia.
Qed.

#[global] Instance read_many_reader {A} n (rd : bytes -> Z -> result (A * Z)) count :
  1 <= n -> Reader n rd -> Reader 0 (fun buf off => read_many (length buf) (rd buf) count off []).
Proof.
  intros Hn Hrd. split.
  - intros buf off x off' Ho H. destruct (read_many_advance n rd _ _ _ _ _ _ _ ltac:(lia) Hrd Ho H). lia.
  - intros buf ext off r Ho H. eapply (read_many_extend n rd); [lia|done|done| |exact H]. rewrite length_app. lia.
  - intros buf off e Ho. apply (read_many_error n rd); [done..|]. unfold zlen. lia.
Qed.

#[global] Instance read_value_reader tid x : Reader 0 (fun buf off => read_value buf tid x off).
Proof.
  unfold read_value. case_if; [|case_if; [|case_if; [|apply reader_fail]]].
  - eapply (reader_weaken 4); [lia|].
    apply (reader_map 4 (fun v => mkEntry STRING (VBytes v) x) read_blob); [lia|apply read_blob_reader].
  - eapply (reader_weaken (4 + 0)); [lia|].
    apply (reader_bind 4 0 read_u32 (fun n buf off =>
      let* (items, o) := read_many (length buf) (read_blob buf) n off [] in Ok (mkEntry LIST (VDeque items) x, o)));
      [lia|apply read_u32_reader|]. intros _ _ n _ _.
    apply (reader_map 0 (fun items => mkEntry LIST (VDeque items) x) (fun buf off => read_many (length buf) (read_blob buf) n off []));
      [lia|]. apply (read_many_reader 4); [lia|apply read_blob_reader].
  - eapply (reader_weaken (4 + 0)); [lia|].
    apply (reader_bind 4 0 read_u32 (fun n buf off =>
      let* (pairs, o) := read_many (length buf) (read_pair buf) n off [] in
      Ok (mkEntry HASH (VDict (dict_of_items [] pairs)) x, o)));
      [lia|apply read_u32_reader|]. intros _ _ n _ _.
    apply (reader_map 0 (fun pairs => mkEntry HASH (VDict (dict_of_items [] pairs)) x)
      (fun buf off => read_many (length buf) (read_pair buf) n off [])); [lia|].
    apply (read_many_reader 4); [lia|apply read_pair_reader].
Qed.

#[global] Instance read_record_reader : Reader 13 read_record.
Proof.
  apply (reader_bind 4 9 read_blob (fun key buf off =>
    let* (type_raw, off) := read_exact buf off 1 in
    let* (expire_at, off) := read_i64 buf off in
    let* (e, off) := read_value buf (le_combine type_raw) (if expire_at <? 0 then None else Some expire_at) off in
    Ok ((key, e), off))); [lia|apply read_blob_reader|]. intros _ _ key _ _.
  apply (reader_bind 1 8 (fun buf off => read_exact buf off 1) (fun type_raw buf off =>
    let* (expire_at, off) := read_i64 buf off in
    let* (e, off) := read_value buf (le_combine type_raw) (if expire_at <? 0 then None else Some expire_at) off in
    Ok ((key, e), off))); [lia|apply read_exact_reader; lia|]. intros _ _ type_raw _ _.
  apply (reader_bind 8 0 read_i64 (fun expire_at buf off =>
    let* (e, off) := read_value buf (le_combine type_raw) (if expire_at <? 0 then None else Some expire_at) off in
    Ok ((key, e), off))); [lia|apply read_i64_reader|]. intros _ _ expire_at _ _.
  apply (reader_map 0 (fun e => (key, e)) (fun buf off => read_value buf _ _ off)); [lia|]. apply read_value_reader.
Qed.

(** ** Encodings read back *)

(** [enc], wherever it stands in a buffer, is read as [v] and consumed whole. *)
Definition decodes {A} (rd : bytes -> Z -> result (A * Z)) (enc : bytes) (v : A) : Prop :=
  forall pre post, rd (pre ++ enc ++ post) (zlen pre) = Ok (v, zlen (pre ++ enc)).

Lemma decodes_exact x : decodes (fun buf off => read_exact buf off (zlen x)) x x.
Proof.
  intros pre post. unfold read_exact. rewrite !zlen_app. pose proof (zlen_nonneg post).
  replace (zlen pre + (zlen x + zlen post) <? zlen pre + zlen x) with false by lia.
  unfold zlen. by rewrite !Nat2Z.id, drop_app_length, take_app_length.
Qed.

Lemma decodes_bind {A B} (r1 : bytes -> Z -> result (A * Z)) (r2 : A -> bytes -> Z -> result (B * Z)) e1 e2 x y :
  decodes r1 e1 x -> decodes (r2 x) e2 y ->
  decodes (fun buf off => let* (x, o) := r1 buf off in r2 x buf o) (e1 ++ e2) y.
Proof.
  intros H1 H2 pre post. rewrite <- app_assoc, H1. simpl. rewrite (app_assoc pre), H2.
  by rewrite <- app_assoc.
Qed.

Lemma decodes_map {A B} (f : A -> B) (rd : bytes -> Z -> result (A * Z)) e x :
  decodes rd e x -> decodes (fun buf off => let* (x, o) := rd buf off in Ok (f x, o)) e (f x).
Proof. intros H pre post. by rewrite H. Qed.

Lemma decodes_u32 z l : pack_u32 z = Ok l -> decodes read_u32 l z.
Proof.
  intros [Hz Hl]%unpack_pack_u32. rewrite <- Hz.
  apply (decodes_map unpack_u32 (fun buf off => read_exact buf off 4)).
  replace 4 with (zlen l) by (unfold zlen; lia). apply decodes_exact.
Qed.

Lemma decodes_i64 z l : pack_i64 z = Ok l -> decodes read_i64 l z.
Proof.
  intros [Hz Hl]%unpack_pack_i64. rewrite <- Hz.
  apply (decodes_map unpack_i64 (fun buf off => read_exact buf off 8)).
  replace 8 with (zlen l) by (unfold zlen; lia). apply decodes_exact.
Qed.

Lemma decodes_blob d l : pack_bytes d = Ok l -> decodes read_blob l d.
Proof.
  intros H. apply rbind_ok in H as (n & Hn & H). inv_ok.
  apply (decodes_bind read_u32 (fun n buf off => read_exact buf off n) n d (zlen d)).
  - by apply decodes_u32.
  - apply decodes_exact.
Qed.

Lemma decodes_many {A} (rd : bytes -> Z -> result (A * Z)) (es : list bytes) (vs : list A) fuel pre post acc :
  Forall2 (fun v e => decodes rd e v) vs es -> (length vs <= fuel)%nat ->
  read_many fuel (rd (pre ++ concat es ++ post)) (zlen vs) (zlen pre) acc =
  Ok (acc ++ vs, zlen (pre ++ concat es)).
Proof.
  intros HF. revert fuel pre acc. induction HF as [|v e vs es Hd HF IH]; intros fuel pre acc Hf.
  - destruct fuel; simpl; by rewrite !app_nil_r.
  - destruct fuel as [|f]; simpl in Hf; [lia|]. cbn [read_many concat].
    pose proof (zlen_nonneg vs). rewrite zlen_cons.
    replace (1 + zlen vs <=? 0) with false by lia.
    rewrite <- (app_assoc e), (Hd pre). cbn [rbind].
    replace (1 + zlen vs - 1) with (zlen vs) by lia.
    specialize (IH f (pre ++ e) (acc ++ [v]) ltac:(lia)).
    rewrite <- !app_assoc in IH. by rewrite IH.
Qed.

Lemma Forall2_length_concat {A} (P : A -> bytes -> Prop) vs es :
  Forall2 P vs es -> Forall (fun e => e <> []) es -> (length vs <= length (concat es))%nat.
Proof.
  induction 1 as [|v e vs es Hp HF IH]; intros Hne; simpl; [lia|]. inversion Hne; subst.
  rewrite length_app. specialize (IH ltac:(done)). destruct e; [done|]. simpl. lia.
Qed.

Lemma decodes_many_whole {A} (rd : bytes -> Z -> result (A * Z)) (es : list bytes) (vs : list A) :
  Forall2 (fun v e => decodes rd e v) vs es -> Forall (fun e => e <> []) es ->
  decodes (fun buf off => read_many (length buf) (rd buf) (zlen vs) off []) (concat es) vs.
Proof.
  intros HF Hne pre post. apply (decodes_many rd es vs _ pre post []); [done|].
  pose proof (Forall2_length_concat _ _ _ HF Hne). rewrite !length_app. lia.
Qed.

Lemma pack_bytes_nonempty d l : pack_bytes d = Ok l -> l <> [].
Proof.
  intros H. apply rbind_ok in H as (n & Hn & H). inv_ok. apply unpack_pack_u32 in Hn as [_ Hn].
  by destruct n.
Qed.

Lemma rmapM_decodes {A} (f : A -> result bytes) (rd : bytes -> Z -> result (A * Z)) l es :
  (forall x e, x ∈ l -> f x = Ok e -> decodes rd e x /\ e <> []) -> rmapM f l = Ok es ->
  decodes (fun buf off => read_many (length buf) (rd buf) (zlen l) off []) (concat es) l.
Proof.
  intros Hf HM. apply rmapM_ok in HM. apply decodes_many_whole.
  - induction HM as [|x e l es Hx HM IH]; constructor; [apply Hf; [left|done]|].
    apply IH. intros y e' Hy. apply Hf. by right.
  - induction HM as [|x e l es Hx HM IH]; constructor; [apply (Hf x); [left|done]|].
    apply IH. intros y e' Hy. apply Hf. by right.
Qed.

(** Entries that the format represents faithfully: the tag matches, a hash
    has distinct fields, and a deadline is not negative (negative ones stand
    for "no expiry"). *)
Definition dumpable (e : KeyEntry) : Prop :=
  entry_ok e /\ match expire_at_ms e with Some t => 0 <= t | None => True end.

Lemma decodes_value e l :
  entry_ok e -> dump_value e = Ok l ->
  decodes (fun buf off => read_value buf (type_id (type e)) (expire_at_ms e) off) l e.
Proof.
  destruct e as [t v x]. unfold entry_ok, dump_value, read_value. simpl.
  destruct t, v; try done; intros Hok Hd; simpl.
  - apply (decodes_map (fun v => mkEntry STRING (VBytes v) x)). by apply decodes_blob.
  - apply rbind_ok in Hd as (n & Hn & Hd). apply rbind_ok in Hd as (parts & Hp & Hd). inv_ok.
    eapply (decodes_bind read_u32); [by apply decodes_u32|].
    apply (decodes_map (fun items => mkEntry LIST (VDeque items) x)).
    eapply rmapM_decodes; [|exact Hp]. intros y e _ Hy. split; [by apply decodes_blob | by eapply pack_bytes_nonempty].
  - apply rbind_ok in Hd as (n & Hn & Hd). apply rbind_ok in Hd as (parts & Hp & Hd). inv_ok.
    eapply (decodes_bind read_u32); [by apply decodes_u32|].
    replace (VDict d) with (VDict (dict_of_items [] d)) by (by rewrite dict_of_items_id).
    apply (decodes_map (fun pairs => mkEntry HASH (VDict (dict_of_items [] pairs)) x)).
    eapply rmapM_decodes; [|exact Hp]. intros [f v] e _ He.
    apply rbind_ok in He as (ef & Hf & He). apply rbind_ok in He as (ev & Hv & He). inv_ok. split.
    + eapply (decodes_bind read_blob); [by apply decodes_blob|].
      apply (decodes_map (fun v => (f, v))). by apply decodes_blob.
    + apply pack_bytes_nonempty in Hf. by destruct ef.
Qed.

Lemma decodes_record ke l : dumpable ke.2 -> dump_record ke = Ok l -> decodes read_record l ke /\ l <> [].
Proof.
  destruct ke as [key e]. intros [Hok Hx] H. simpl in *.
  apply rbind_ok in H as (k & Hk & H). apply rbind_ok in H as (t & Ht & H).
  apply rbind_ok in H as (x & Hxp & H). apply rbind_ok in H as (v & Hv & H). inv_ok.
  split; [|apply pack_bytes_nonempty in Hk; by destruct k].
  eapply (decodes_bind read_blob); [by apply decodes_blob|].
  assert (zlen t = 1 /\ le_combine t = type_id (type e)) as [Ht1 Ht2].
  { destruct (type e); vm_compute in Ht; injection Ht as <-; done. }
  eapply (decodes_bind (fun buf off => read_exact buf off 1)); [rewrite <- Ht1; apply decodes_exact|].
  eapply (decodes_bind read_i64); [by apply decodes_i64|].
  apply (decodes_map (fun e => (key, e))). rewrite Ht2.
  assert ((if match expire_at_ms e with Some ms => ms | None => -1 end <? 0 then None
           else Some match expire_at_ms e with Some ms => ms | None => -1 end) = expire_at_ms e) as ->.
  { destruct (expire_at_ms e) as [ms|]; [|done]. by replace (ms <? 0) with false by lia. }
  by apply decodes_value.
Qed.

(** ** Whole files *)

(** The parts of a dump. *)
Lemma dump_shape es data :
  dump_rdb_entries es = Ok data ->
  exists ver count recs crc,
    pack_u32 VERSION = Ok ver /\ pack_u32 (zlen es) = Ok count /\ rmapM dump_record es = Ok recs /\
    let body := MAGIC ++ ver ++ count ++ concat recs in
    pack_u32 (crc32 body) = Ok crc /\ data = body ++ crc ++ FOOTER.
Proof.
  intros H. unfold dump_rdb_entries in H.
  apply rbind_ok in H as (ver & Hv & H). apply rbind_ok in H as (count & Hc & H).
  apply rbind_ok in H as (recs & Hr & H). apply rbind_ok in H as (crc & Hx & H).
  exists ver, count, recs, crc. split_and!; [done..|]. cbv zeta. split; [done|congruence].
Qed.

Lemma read_exact_inv buf off n x off' :
  0 <= off -> 0 <= n -> read_exact buf off n = Ok (x, off') ->
  off' = off + n /\ zlen x = n /\ exists pre post, buf = pre ++ x ++ post /\ zlen pre = off.
Proof.
  intros Ho Hn. unfold read_exact. case_if; [done|]. intros H; inv_ok. split; [done|]. unfold zlen in *.
  split; [rewrite length_take, length_drop; lia|].
  exists (take (Z.to_nat off) buf), (drop (Z.to_nat n) (drop (Z.to_nat off) buf)).
  rewrite take_drop, take_drop. split; [done|]. rewrite length_take. lia.
Qed.

Lemma read_exact_end buf off n x off' : read_exact buf off n = Ok (x, off') -> off' = off + n.
Proof. unfold read_exact. case_if; [done|]. by intros; inv_ok. Qed.

Lemma read_u32_end buf off x off' : read_u32 buf off = Ok (x, off') -> off' = off + 4.
Proof. intros H. apply rbind_ok in H as ([raw o] & H1 & H). inv_ok. by eapply read_exact_end. Qed.

(** The header of any file that is loaded. *)
Lemma load_inv now max data d :
  load_rdb_bytes now max data = Ok d ->
  exists version count records off,
    zlen data <= max /\ read_exact data 0 4 = Ok (MAGIC, 4) /\ read_u32 data 4 = Ok (version, 8) /\
    (version = LEGACY_VERSION \/ version = VERSION) /\ read_u32 data 8 = Ok (count, 12) /\
    read_many (length data) (read_record data) count 12 [] = Ok (records, off) /\
    read_trailer data version off = Ok tt /\ d = keep_live now records.
Proof.
  unfold load_rdb_bytes. do 2 (case_if; [done|]). intros H.
  apply rbind_ok in H as ([magic o1] & H1 & H).
  assert (o1 = 4) as -> by (by apply read_exact_end in H1).
  destruct (beqb magic MAGIC) eqn:Em; [|done]. breflect. subst magic. simpl in H.
  apply rbind_ok in H as ([version o2] & H2 & H).
  assert (o2 = 8) as -> by (by apply read_u32_end in H2).
  destruct ((version =? LEGACY_VERSION) || (version =? VERSION)) eqn:Ev; [|done]. simpl in H.
  apply rbind_ok in H as ([count o3] & H3 & H).
  assert (o3 = 12) as -> by (by apply read_u32_end in H3).
  apply rbind_ok in H as ([records off] & H4 & H). apply rbind_ok in H as ([] & H5 & H).
  exists version, count, records, off. split_and!; try done; [|congruence].
  apply orb_true_iff in Ev as [?|?]; breflect; auto.
Qed.

(** A trailer that is accepted ends exactly at the end of the file. *)
Lemma trailer_inv data version off :
  0 <= off -> read_trailer data version off = Ok tt ->
  exists body crc, data = body ++ crc ++ FOOTER /\ zlen body = off /\
    (if VERSION <=? version then zlen crc = 4 /\ unpack_u32 crc = crc32 body else crc = []).
Proof.
  intros Ho H. unfold read_trailer in H. apply rbind_ok in H as (o & H1 & H).
  apply rbind_ok in H as ([footer o2] & H2 & H).
  destruct (beqb footer FOOTER) eqn:Ef; [|done]. breflect. subst footer. simpl in H.
  destruct (o2 =? zlen data) eqn:Eo; [|done]. breflect. subst o2. clear H.
  assert (off <= o) as Hle.
  { destruct (VERSION <=? version); [|inv_ok; lia]. apply rbind_ok in H1 as ([raw o'] & Hr & H1).
    apply read_exact_end in Hr as ->. destruct (crc32 _ =? _); inv_ok. lia. }
  apply read_exact_inv in H2 as (Hend & _ & pre & post & Hd & Hpre); [|lia|apply zlen_nonneg].
  assert (post = []) as ->.
  { rewrite Hd, !zlen_app in Hend. apply (nil_length_inv post). unfold zlen in *. lia. }
  rewrite app_nil_r in Hd. destruct (VERSION <=? version).
  - apply rbind_ok in H1 as ([raw o'] & Hr & H1). apply read_exact_inv in Hr as (-> & Hraw & p & q & Hdr & Hp); [|lia..].
    destruct (crc32 (take (Z.to_nat off) data) =? unpack_u32 raw) eqn:Ec; [|done]. breflect. injection H1 as <-.
    assert (pre = p ++ raw) as ->.
    { rewrite Hd, app_assoc in Hdr. apply app_inj_1 in Hdr as [? _]; [done|].
      rewrite length_app. unfold zlen in *. lia. }
    exists p, raw. split; [by rewrite app_assoc|]. split; [done|]. split; [done|].
    rewrite <- Ec, Hd, <- app_assoc. by rewrite take_app_exact by (unfold zlen in *; lia).
  - inv_ok. by exists pre, [].
Qed.

(** The records of a dump, behind any header of 12 bytes. *)
Lemma dump_records_read es recs hdr post fuel :
  rmapM dump_record es = Ok recs -> Forall (fun ke => dumpable ke.2) es -> zlen hdr = 12 ->
  (length (hdr ++ concat recs ++ post) <= fuel)%nat ->
  read_many fuel (read_record (hdr ++ concat recs ++ post)) (zlen es) 12 [] = Ok (es, zlen (hdr ++ concat recs)).
Proof.
  intros Hr Hd Hh Hf. apply rmapM_ok in Hr. rewrite <- Hh.
  assert (Forall2 (fun ke e => decodes read_record e ke) es recs /\ Forall (fun e => e <> []) recs) as [HF Hne].
  { induction Hr as [|ke e es recs He Hr IH]; [done|]. inversion Hd; subst.
    destruct (decodes_record ke e ltac:(done) He). destruct IH; [done| |].
    - rewrite !length_app in *. simpl in *. rewrite length_app in *. lia.
    - split; by constructor. }
  rewrite (decodes_many read_record recs es fuel hdr post []); [done|done|].
  pose proof (Forall2_length_concat _ _ _ HF Hne). rewrite !length_app in Hf. lia.
Qed.

Lemma keep_live_filter now es :
  dict_ok es -> keep_live now es = filter (fun ke => is_expired (expire_at_ms ke.2) now = false) es.
Proof.
  intros Hd. rewrite <- (dict_of_items_id (filter _ es)) by (by apply dict_filter_ok).
  unfold keep_live, dict_of_items. generalize (@nil (bytes * KeyEntry)) as d0. clear Hd.
  induction es as [|[k e] es IH]; intros d0; [done|]. rewrite filter_cons. simpl.
  destruct (is_expired (expire_at_ms e) now) eqn:E; rewrite IH.
  - by rewrite decide_False.
  - by rewrite decide_True.
Qed.

Lemma version_bytes ver : pack_u32 VERSION = Ok ver -> ver = [Byte.x02; Byte.x00; Byte.x00; Byte.x00].
Proof. intros H. vm_compute in H. by injection H as <-. Qed.

Lemma load_unfold now max data version count :
  zlen data <= max -> 12 <= zlen data -> read_exact data 0 4 = Ok (MAGIC, 4) ->
  read_u32 data 4 = Ok (version, 8) -> version = LEGACY_VERSION \/ version = VERSION ->
  read_u32 data 8 = Ok (count, 12) ->
  load_rdb_bytes now max data =
  let* (records, off) := read_many (length data) (read_record data) count 12 [] in
  let* _ := read_trailer data version off in Ok (keep_live now records).
Proof.
  intros Hmax H12 H1 H2 Hv H3. unfold load_rdb_bytes.
  replace (max <? zlen data) with false by lia. replace (zlen data <? 12) with false by lia.
  rewrite H1. cbn [rbind]. rewrite beqb_refl. cbn [negb]. rewrite H2. cbn [rbind].
  assert ((version =? LEGACY_VERSION) || (version =? VERSION) = true) as -> by (by destruct Hv as [-> | ->]).
  cbn [negb]. by rewrite H3.
Qed.

Lemma dump_header_read ver count z rest :
  pack_u32 VERSION = Ok ver -> pack_u32 z = Ok count ->
  let data := MAGIC ++ ver ++ count ++ rest in
  12 <= zlen data /\ zlen (MAGIC ++ ver ++ count) = 12 /\ read_exact data 0 4 = Ok (MAGIC, 4) /\
  read_u32 data 4 = Ok (VERSION, 8) /\ read_u32 data 8 = Ok (z, 12).
Proof.
  intros Hv Hc. apply decodes_u32 in Hv as Dv. apply decodes_u32 in Hc as Dc.
  apply unpack_pack_u32 in Hv as [_ Lv]. apply unpack_pack_u32 in Hc as [_ Lc].
  assert (zlen MAGIC = 4 /\ zlen ver = 4 /\ zlen count = 4) as (Zm & Zv & Zc) by (unfold zlen; simpl; lia).
  pose proof (zlen_nonneg rest). cbv zeta. rewrite !zlen_app. split_and!; [lia|lia|..].
  - rewrite <- Zm at 1. apply (decodes_exact MAGIC []).
  - rewrite <- Zm at 1. rewrite (Dv MAGIC). by rewrite zlen_app, Zm, Zv.
  - rewrite (app_assoc MAGIC). replace 8 with (zlen (MAGIC ++ ver)) by (rewrite zlen_app; lia).
    rewrite Dc. by rewrite !zlen_app, Zm, Zv, Zc.
Qed.

Lemma dump_trailer_read_more body crc extra :
  pack_u32 (crc32 body) = Ok crc ->
  read_trailer (body ++ crc ++ FOOTER ++ extra) VERSION (zlen body) =
  match extra with [] => Ok tt | _ => Err (RdbError (u "trailing bytes after RDB footer")) end.
Proof.
  intros Hx. apply unpack_pack_u32 in Hx as [Ex Lx]. assert (zlen crc = 4) as Zx by (unfold zlen; lia).
  unfold read_trailer. change (VERSION <=? VERSION) with true. cbv iota.
  pose proof (decodes_exact crc body (FOOTER ++ extra)) as Hcrc. cbv beta in Hcrc. rewrite Zx in Hcrc.
  rewrite Hcrc. cbn [rbind]. rewrite take_app_exact by (unfold zlen; lia).
  rewrite Ex, Z.eqb_refl. cbn [rbind].
  pose proof (decodes_exact FOOTER (body ++ crc) extra) as Hf. cbv beta in Hf.
  rewrite <- !app_assoc in Hf. rewrite Hf. cbn [rbind]. rewrite beqb_refl. cbn [negb].
  rewrite !zlen_app. pose proof (zlen_nonneg extra). destruct extra as [|x extra]; [by rewrite zlen_nil, Z.add_0_r, Z.eqb_refl|].
  rewrite zlen_cons in *. pose proof (zlen_nonneg extra). by replace (_ =? _) with false by lia.
Qed.

Lemma dump_trailer_read body crc :
  pack_u32 (crc32 body) = Ok crc -> read_trailer (body ++ crc ++ FOOTER) VERSION (zlen body) = Ok tt.
Proof. intros Hx%(dump_trailer_read_more body crc []). by rewrite app_nil_r in Hx. Qed.

(** Loading a dump gives back its entries, less those that have expired. *)
Lemma load_dump now max es data :
  dict_ok es -> Forall (fun ke => dumpable ke.2) es ->
  dump_rdb_entries es = Ok data -> zlen data <= max ->
  load_rdb_bytes now max data = Ok (filter (fun ke => is_expired (expire_at_ms ke.2) now = false) es).
Proof.
  intros Hok Hd H Hmax. apply dump_shape in H as (ver & count & recs & crc & Hv & Hc & Hr & Hx & ->).
  rewrite <- !app_assoc in *.
  destruct (dump_header_read ver count (zlen es) (concat recs ++ crc ++ FOOTER) Hv Hc) as (H12 & Hh & R1 & R2 & R3).
  rewrite (load_unfold now max _ VERSION (zlen es)) by (done || by right).
  replace (MAGIC ++ ver ++ count ++ concat recs ++ crc ++ FOOTER)
    with ((MAGIC ++ ver ++ count) ++ concat recs ++ crc ++ FOOTER) by (by rewrite <- !app_assoc).
  rewrite dump_records_read by done. cbn [rbind].
  replace ((MAGIC ++ ver ++ count) ++ concat recs ++ crc ++ FOOTER)
    with (((MAGIC ++ ver ++ count) ++ concat recs) ++ crc ++ FOOTER) by (by rewrite <- !app_assoc).
  rewrite dump_trailer_read by (by rewrite <- !app_assoc). cbn [rbind]. f_equal. by apply keep_live_filter.
Qed.

(** A dump with more bytes behind it is refused. *)
Lemma load_dump_trailing now max es data extra :
  Forall (fun ke => dumpable ke.2) es -> dump_rdb_entries es = Ok data -> extra <> [] -> exists m, load_rdb now max (data ++ extra) = Err (RdbError m).
Proof.
  intros Hd H Hne. unfold load_rdb. destruct (max <? zlen (data ++ extra)) eqn:Hmax; [by eexists|]. apply Z.ltb_ge in Hmax.
  apply dump_shape in H as (ver & count & recs & crc & Hv & Hc & Hr & Hx & ->).
  rewrite <- !app_assoc in *.
  destruct (dump_header_read ver count (zlen es) (concat recs ++ crc ++ FOOTER ++ extra) Hv Hc) as (H12 & Hh & R1 & R2 & R3).
  rewrite (load_unfold now max _ VERSION (zlen es)) by (done || by right).
  replace (MAGIC ++ ver ++ count ++ concat recs ++ crc ++ FOOTER ++ extra)
    with ((MAGIC ++ ver ++ count) ++ concat recs ++ crc ++ FOOTER ++ extra) by (by rewrite <- !app_assoc).
  rewrite dump_records_read by done. cbn [rbind].
  replace ((MAGIC ++ ver ++ count) ++ concat recs ++ crc ++ FOOTER ++ extra)
    with (((MAGIC ++ ver ++ count) ++ concat recs) ++ crc ++ FOOTER ++ extra) by (by rewrite <- !app_assoc).
  rewrite dump_trailer_read_more by (by rewrite <- !app_assoc). destruct extra; [done|]. by eexists.
Qed.

(** ** The loader is total *)

Lemma read_trailer_error data version off e : 0 <= off -> read_trailer data version off = Err e -> rdb_error e.
Proof.
  intros Ho. unfold read_trailer. intros H.
  assert (forall o, read_exact data o (zlen FOOTER) = Err e -> rdb_error e) as Hfoot.
  { intros o. unfold read_exact. case_if; [|done]. by intros [= <-]. }
  destruct (VERSION <=? version); simpl in H.
  - destruct (read_exact data off 4) as [[raw o]|e'] eqn:Hr; simpl in H.
    + destruct (crc32 _ =? _); simpl in H; [|by injection H as <-].
      destruct (read_exact data o (zlen FOOTER)) as [[f o2]|e'] eqn:Hf; simpl in H; [|injection H as <-; eauto].
      revert H. case_if; [by intros [= <-]|]. case_if; [done|]. by intros [= <-].
    + injection H as <-. by apply (rd_error (Reader := read_exact_reader 4 ltac:(lia)) data off).
  - destruct (read_exact data off (zlen FOOTER)) as [[f o2]|e'] eqn:Hf; simpl in H; [|injection H as <-; eauto].
    revert H. case_if; [by intros [= <-]|]. case_if; [done|]. by intros [= <-].
Qed.

Lemma load_error now max data e : load_rdb_bytes now max data = Err e -> rdb_error e.
Proof.
  unfold load_rdb_bytes. do 2 (case_if; [by intros [= <-]|]).
  destruct (read_exact data 0 4) as [[magic o1]|e1] eqn:H1; simpl;
    [|intros [= <-]; by apply (rd_error (Reader := read_exact_reader 4 ltac:(lia)) data 0)].
  apply read_exact_end in H1 as ->. case_if; [by intros [= <-]|].
  destruct (read_u32 data _) as [[version o2]|e2] eqn:H2; simpl;
    [|intros [= <-]; by apply (rd_error (Reader := read_u32_reader) data (0 + 4))].
  apply read_u32_end in H2 as ->. case_if; [by intros [= <-]|].
  destruct (read_u32 data _) as [[count o3]|e3] eqn:H3; simpl;
    [|intros [= <-]; by apply (rd_error (Reader := read_u32_reader) data (0 + 4 + 4))].
  apply read_u32_end in H3 as ->.
  pose proof (read_many_reader 13 read_record count ltac:(lia) read_record_reader) as HR.
  destruct (read_many (length data) (read_record data) count _ []) as [[records off]|e4] eqn:H4; simpl;
    [|intros [= <-]; by apply (rd_error (Reader := HR) data (0 + 4 + 4 + 4))].
  destruct (read_trailer data version off) as [[]|e5] eqn:H5; simpl; [done|]. intros [= <-].
  eapply read_trailer_error; [|exact H5].
  destruct (rd_advance (Reader := HR) data (0 + 4 + 4 + 4) records off ltac:(lia) H4). lia.
Qed.

Lemma read_many_forall {A} (P : A -> Prop) fuel (rd : Z -> result (A * Z)) count off acc l off' :
  (forall o x o', rd o = Ok (x, o') -> P x) -> Forall P acc ->
  read_many fuel rd count off acc = Ok (l, off') -> Forall P l.
Proof.
  intros HP. revert count off acc. induction fuel as [|f IH]; intros count off acc Ha; simpl;
    (case_if; [intros; inv_ok; done|]); intros H; apply rbind_ok in H as ([x o] & Hx & H); [done|].
  eapply IH; [|exact H]. apply Forall_app. split; [done|]. constructor; [by eapply HP|done].
Qed.

Lemma read_record_entry_ok data off ke off' : read_record data off = Ok (ke, off') -> entry_ok ke.2.
Proof.
  intros H. unfold read_record in H. apply rbind_ok in H as ([key o1] & _ & H).
  apply rbind_ok in H as ([t o2] & _ & H). apply rbind_ok in H as ([x o3] & _ & H).
  apply rbind_ok in H as ([e o4] & Hv & H). inv_ok. simpl. clear - Hv. unfold read_value in Hv.
  revert Hv. case_if; [|case_if; [|case_if; [|done]]]; intros H.
  - apply rbind_ok in H as ([v o] & _ & H). by inv_ok.
  - apply rbind_ok in H as ([n o] & _ & H). apply rbind_ok in H as ([l o'] & _ & H). by inv_ok.
  - apply rbind_ok in H as ([n o] & _ & H). apply rbind_ok in H as ([l o'] & _ & H). inv_ok.
    unfold entry_ok. simpl. apply dict_of_items_ok. constructor.
Qed.

Lemma keep_live_ok now records : Forall (fun ke => entry_ok ke.2) records -> entries_ok (keep_live now records).
Proof.
  unfold keep_live. assert (entries_ok []) as H0 by (split; [constructor|done]). revert H0.
  generalize (@nil (bytes * KeyEntry)) as d. induction records as [|[k e] r IH]; intros d Hd HF; [done|].
  inversion HF as [|? ? He HF']; subst. simpl in *. apply IH; [|done]. case_if; [done|].
  destruct Hd as [Hd Ht]. split; [by apply dict_set_ok|]. intros k' e'. rewrite dict_get_set.
  case_bool_decide; [by intros [= <-] | apply Ht].
Qed.

Lemma keep_live_live now records :
  Forall (fun ke => is_expired (expire_at_ms ke.2) now = false) (keep_live now records).
Proof.
  unfold keep_live. generalize (Forall_nil_2 (fun ke : bytes * KeyEntry => is_expired (expire_at_ms ke.2) now = false)).
  generalize (@nil (bytes * KeyEntry)) as d. induction records as [|[k e] r IH]; intros d Hd; [done|].
  simpl. apply IH. case_if; [done|]. by apply dict_set_Forall.
Qed.

Lemma load_entries_well_formed now max data d : load_rdb_bytes now max data = Ok d -> entries_ok d.
Proof.
  intros H. apply load_inv in H as (version & count & records & off & _ & _ & _ & _ & _ & H & _ & ->).
  apply keep_live_ok. eapply read_many_forall; [|constructor|exact H]. intros o ke o'. apply read_record_entry_ok.
Qed.

(** ** Damage *)

(** [data'] is [data] with the byte at one position replaced by another. *)
Inductive changed : bytes -> bytes -> Prop :=
  | changed_here x y l : x <> y -> changed (x :: l) (y :: l)
  | changed_next x l l' : changed l l' -> changed (x :: l) (x :: l').

Lemma changed_length l l' : changed l l' -> length l = length l'.
Proof. induction 1; simpl; congruence. Qed.

Lemma changed_irrefl l : ~ changed l l.
Proof. induction l; inversion 1; subst; done. Qed.

Lemma changed_app a a' c c' :
  changed (a ++ c) (a' ++ c') -> length a = length a' -> (changed a a' /\ c = c') \/ (a = a' /\ changed c c').
Proof.
  revert a'. induction a as [|x a IH]; intros [|x' a'] H Hl; try done; [by right|].
  injection Hl as Hl. inversion H as [? ? ? Hne E1 E2 | ? ? ? H' E1 E2]; subst; simpl in *.
  - match goal with E : a ++ c = a' ++ c' |- _ => apply app_inj_1 in E as [-> ->]; [|done] end.
    left. split; [by constructor|done].
  - destruct (IH _ H' Hl) as [[? ->]|[-> ?]]; [left|right]; split; try done. by constructor.
Qed.

Lemma crc32_changed l l' : changed l l' -> crc32 l <> crc32 l'.
Proof.
  intros H. enough (exists pre x y post, x <> y /\ l = pre ++ x :: post /\ l' = pre ++ y :: post)
    as (pre & x & y & post & Hne & -> & ->) by (by apply crc32_one_byte).
  induction H as [x y l Hne | x l l' H (pre & a & c & post & Hne & -> & ->)].
  - by exists [], x, y, l.
  - by exists (x :: pre), a, c, post.
Qed.

(** A change cannot be hidden from the version 2 trailer. *)
Lemma changed_trailer body crc data' :
  pack_u32 (crc32 body) = Ok crc -> changed (body ++ crc ++ FOOTER) data' ->
  forall body' crc', data' = body' ++ crc' ++ FOOTER -> zlen crc' = 4 -> unpack_u32 crc' <> crc32 body'.
Proof.
  intros Hx Hch body' crc' -> Hl Hcrc. apply unpack_pack_u32 in Hx as [Ex Lx].
  pose proof (changed_length _ _ Hch) as Hlen. rewrite !length_app in Hlen. unfold zlen in Hl.
  apply changed_app in Hch as [[Hb E]|[-> Hch]]; [| |lia].
  - apply app_inj_2 in E as [-> _]; [|done]. apply (crc32_changed _ _ Hb). congruence.
  - apply changed_app in Hch as [[Hc _]|[_ Hf]]; [|by apply changed_irrefl in Hf|lia].
    assert (crc = crc') as -> by (apply le_combine_inj; [lia | unfold unpack_u32 in *; congruence]).
    by apply changed_irrefl in Hc.
Qed.

(** A one-byte change that turns a version 2 header into a version 1 header
    leaves the rest of the header and the records alone. *)
Lemma changed_version ver rest data' raw off :
  pack_u32 VERSION = Ok ver -> changed (MAGIC ++ ver ++ rest) data' ->
  read_exact data' 0 4 = Ok (MAGIC, 4) -> read_exact data' 4 4 = Ok (raw, off) ->
  unpack_u32 raw = LEGACY_VERSION -> data' = MAGIC ++ raw ++ rest /\ length raw = 4%nat.
Proof.
  intros Hv Hch H1 H2 Hraw. apply read_exact_inv in H1 as (_ & _ & p1 & q1 & Hd1 & Hp1); [|lia..].
  apply read_exact_inv in H2 as (_ & Hl & p2 & q2 & Hd2 & Hp2); [|lia..].
  assert (p1 = []) as -> by (apply nil_length_inv; unfold zlen in Hp1; lia).
  rewrite Hd1, app_nil_l in Hd2. apply app_inj_1 in Hd2 as [<- ->]; [|unfold zlen in *; simpl in *; lia].
  subst data'. rewrite app_nil_l in *. apply unpack_pack_u32 in Hv as [Ev Lv]. unfold zlen in Hl.
  apply changed_app in Hch as [[Hm _]|[_ Hch]]; [by apply changed_irrefl in Hm| |done].
  apply changed_app in Hch as [[Hc ->]|[-> _]]; [split; [done|lia]| |lia].
  rewrite Ev in Hraw. done.
Qed.

(** The records of a dump are followed by exactly eight bytes. *)
Lemma dump_tail es data :
  Forall (fun ke => dumpable ke.2) es -> dump_rdb_entries es = Ok data ->
  read_many (length data) (read_record data) (zlen es) 12 [] = Ok (es, zlen data - 8).
Proof.
  intros Hd H. apply dump_shape in H as (ver & count & recs & crc & Hv & Hc & Hr & Hx & ->).
  rewrite <- !app_assoc. destruct (dump_header_read ver count _ [] Hv Hc) as (_ & Hh & _).
  apply unpack_pack_u32 in Hx as [_ Lx].
  replace (MAGIC ++ ver ++ count ++ concat recs ++ crc ++ FOOTER)
    with ((MAGIC ++ ver ++ count) ++ concat recs ++ crc ++ FOOTER) by (by rewrite <- !app_assoc).
  rewrite dump_records_read by done. do 2 f_equal. rewrite !zlen_app.
  assert (zlen crc = 4 /\ zlen FOOTER = 4) as [-> ->] by (unfold zlen; simpl; lia). lia.
Qed.

(** A change of the version to 1 is caught by the length of the trailer. *)
Lemma changed_to_legacy es data data' raw off count records off2 :
  Forall (fun ke => dumpable ke.2) es -> dump_rdb_entries es = Ok data -> changed data data' ->
  read_exact data' 0 4 = Ok (MAGIC, 4) -> read_exact data' 4 4 = Ok (raw, off) -> unpack_u32 raw = LEGACY_VERSION ->
  read_u32 data' 8 = Ok (count, 12) ->
  read_many (length data') (read_record data') count 12 [] = Ok (records, off2) ->
  read_trailer data' LEGACY_VERSION off2 <> Ok tt.
Proof.
  intros Hd H Hch H1 H2 Hraw H3 Hrec Htr. pose proof (changed_length _ _ Hch) as Hlen.
  apply dump_shape in H as (ver & cnt & recs & crc & Hv & Hc & Hr & Hx & ->).
  rewrite <- !app_assoc in Hch.
  destruct (changed_version ver _ data' raw off Hv Hch H1 H2 Hraw) as [-> Lraw].
  apply decodes_u32 in Hc as Dc. apply unpack_pack_u32 in Hc as [_ Lc]. apply unpack_pack_u32 in Hx as [_ Lx].
  apply unpack_pack_u32 in Hv as [_ Lv].
  specialize (Dc (MAGIC ++ raw) (concat recs ++ crc ++ FOOTER)). rewrite <- !app_assoc in Dc.
  replace (zlen (MAGIC ++ raw)) with 8 in Dc by (unfold zlen; rewrite length_app, Lraw; done).
  rewrite Dc in H3. injection H3 as <- _.
  replace (MAGIC ++ raw ++ cnt ++ concat recs ++ crc ++ FOOTER)
    with ((MAGIC ++ raw ++ cnt) ++ concat recs ++ crc ++ FOOTER) in * by (by rewrite <- !app_assoc).
  rewrite dump_records_read in Hrec; [|done|done| |done].
  - injection Hrec as <- <-. apply trailer_inv in Htr as (body & c & Hdata & Hbody & ->); [|apply zlen_nonneg].
    apply (f_equal length) in Hdata. unfold zlen in *. simpl in *. rewrite !length_app in *. simpl in *. lia.
  - unfold zlen. rewrite !length_app, Lraw, Lc. done.
Qed.

Lemma ex_dumpable : Forall (fun ke => dumpable ke.2) ex_entries.
Proof. repeat apply Forall_cons_2; try done. split; [|done]. apply (bool_decide_unpack _). vm_compute. exact I. Qed.

Definition ex_dump : bytes :=
  Eval vm_compute in match dump_rdb_entries ex_entries with Ok d => d | Err _ => [] end.

Lemma ex_dump_eq : dump_rdb_entries ex_entries = Ok ex_dump.
Proof. vm_compute. reflexivity. Qed.

Lemma ex_entries_ok : entries_ok ex_entries.
Proof.
  split; [apply (bool_decide_unpack _); vm_compute; exact I|]. intros k e Hk%dict_get_elem.
  pose proof ex_dumpable as HF. rewrite Forall_forall in HF. apply (HF _ Hk).
Qed.

(** ** Which keyspaces can be dumped *)

Definition fits_u32 (n : Z) : bool := n <? 2 ^ 32.

(** Every length fits 32 bits and the deadline fits a signed 64-bit field. *)
Definition representable (ke : bytes * KeyEntry) : bool :=
  fits_u32 (zlen ke.1) &&
  match expire_at_ms ke.2 with None => true | Some t => (- 2 ^ 63 <=? t) && (t <? 2 ^ 63) end &&
  match value ke.2 with
  | VBytes v => fits_u32 (zlen v)
  | VDeque items => fits_u32 (zlen items) && forallb (fun x => fits_u32 (zlen x)) items
  | VDict d => fits_u32 (zlen d) && forallb (fun fv => fits_u32 (zlen fv.1) && fits_u32 (zlen fv.2)) d
  end.

(** [r] succeeds when [c] holds, and is a [struct.error] otherwise. *)
Definition packs {A} (r : result A) (c : bool) : Prop :=
  match r with Ok _ => c = true | Err e => e = StructError /\ c = false end.

Lemma packs_bind {A B} (r : result A) (k : A -> result B) c c' :
  packs r c -> (forall x, packs (k x) c') -> packs (let* x := r in k x) (c && c').
Proof. destruct r as [x|e]; simpl; intros H Hk; [subst c; apply Hk | by destruct H as [-> ->]]. Qed.

Lemma packs_ret {A} (r : result A) (f : A -> bytes) c : packs r c -> packs (let* x := r in Ok (f x)) c.
Proof. intros H. rewrite <- (andb_true_r c). by apply packs_bind. Qed.

Lemma packs_rmapM {A B} (f : A -> result B) (g : A -> bool) l :
  (forall x, packs (f x) (g x)) -> packs (rmapM f l) (forallb g l).
Proof.
  intros H. induction l as [|x l IH]; simpl; [done|]. apply packs_bind; [done|]. intros y.
  destruct (rmapM f l); [done|]. exact IH.
Qed.

Lemma packs_u32 z : 0 <= z -> packs (pack_u32 z) (fits_u32 z).
Proof. intros Hz. unfold pack_u32, fits_u32. case_if; simpl; [lia|]. split; [done|lia]. Qed.

Lemma packs_bytes d : packs (pack_bytes d) (fits_u32 (zlen d)).
Proof. apply (packs_ret _ (fun n => n ++ d)), packs_u32, zlen_nonneg. Qed.

Lemma packs_record ke : entry_ok ke.2 -> packs (dump_record ke) (representable ke).
Proof.
  destruct ke as [key [t v x]]. unfold entry_ok, dump_record, representable. simpl. intros Hok.
  rewrite <- andb_assoc. apply packs_bind; [apply packs_bytes|]. intros k.
  rewrite <- (andb_true_l (_ && _)). apply packs_bind; [by destruct t|]. intros tb.
  apply packs_bind.
  { destruct x as [ms|]; [|done]. unfold pack_i64. case_if; simpl; [lia|]. split; [done|lia]. }
  intros xb. apply (packs_ret _ (fun v => k ++ tb ++ xb ++ v)).
  unfold dump_value. simpl. destruct t, v; try done.
  - apply packs_bytes.
  - apply packs_bind; [apply packs_u32, zlen_nonneg|]. intros n.
    apply (packs_ret _ (fun parts => n ++ concat parts)). apply packs_rmapM, packs_bytes.
  - apply packs_bind; [apply packs_u32, zlen_nonneg|]. intros n.
    apply (packs_ret _ (fun parts => n ++ concat parts)). apply packs_rmapM. intros [f v]. simpl.
    apply packs_bind; [apply packs_bytes|]. intros fb. apply (packs_ret _ (fun v => fb ++ v)), packs_bytes.
Qed.

Lemma packs_entries es : Forall (fun ke => entry_ok ke.2) es -> packs (dump_rdb_entries es) (fits_u32 (zlen es) && forallb representable es).
Proof.
  intros HF. unfold dump_rdb_entries. rewrite <- (andb_true_l (_ && _)). apply packs_bind; [done|]. intros ver.
  apply packs_bind; [apply packs_u32, zlen_nonneg|]. intros n. rewrite <- (andb_true_r (forallb _ _)).
  apply packs_bind.
  - induction HF as [|ke es He HF IH]; [done|]. cbn [rmapM forallb]. apply packs_bind; [by apply packs_record|].
    intros y. destruct (rmapM dump_record es); [done|]. exact IH.
  - intros recs. rewrite <- (andb_true_r true). apply packs_bind; [|done].
    pose proof (crc32_u32 (MAGIC ++ ver ++ n ++ concat recs)) as Hc. unfold u32 in Hc.
    pose proof (packs_u32 _ (proj1 Hc)) as Hu. unfold fits_u32 in Hu.
    by replace (crc32 (MAGIC ++ ver ++ n ++ concat recs) <? 2 ^ 32) with true in Hu by lia.
Qed.

Lemma snapshot_entries_ok now st : store_ok st -> Forall (fun ke => entry_ok ke.2) (snapshot now st).1.
Proof.
  intros Hok. unfold snapshot. simpl. rewrite copy_items_id. apply Forall_forall. intros [k e] [_ He]%list_elem_of_filter.
  eapply Hok. apply dict_elem_get; [apply Hok|exact He].
Qed.

(** ** The size of a snapshot *)

Definition blob_size (x : bytes) : Z := 4 + zlen x.

Definition record_size (ke : bytes * KeyEntry) : Z :=
  blob_size ke.1 + 9 +
  match value ke.2 with
  | VBytes v => blob_size v
  | VDeque items => 4 + zsum (map blob_size items)
  | VDict d => 4 + zsum (map (fun fv => blob_size fv.1 + blob_size fv.2) d)
  end.

Lemma pack_bytes_size d l : pack_bytes d = Ok l -> zlen l = blob_size d.
Proof.
  unfold pack_bytes, blob_size. intros (n & Hn & H)%rbind_ok. injection H as <-. apply unpack_pack_u32 in Hn as [_ Hn].
  rewrite zlen_app. unfold zlen at 1. by rewrite Hn.
Qed.

Lemma rmapM_size {A} (f : A -> result bytes) (g : A -> Z) l parts :
  (forall x y, f x = Ok y -> zlen y = g x) -> rmapM f l = Ok parts -> zlen (concat parts) = zsum (map g l).
Proof.
  intros Hf. revert parts. induction l as [|x l IH]; intros parts H; cbn [rmapM] in H; [injection H as <-; done|].
  apply rbind_ok in H as (y & Hy & H). apply rbind_ok in H as (ys & Hys & H). injection H as <-.
  cbn [concat map]. rewrite zlen_app, (Hf _ _ Hy), (IH _ Hys). done.
Qed.

Lemma dump_record_size ke l : dump_record ke = Ok l -> zlen l = record_size ke.
Proof.
  destruct ke as [key [t v x]]. unfold dump_record, record_size. cbn [fst snd type value expire_at_ms].
  intros (k & Hk%pack_bytes_size & H)%rbind_ok. apply rbind_ok in H as (tb & Ht & H). apply rbind_ok in H as (xb & Hx & H).
  apply rbind_ok in H as (vb & Hv & H). injection H as <-. rewrite !zlen_app, Hk.
  assert (zlen tb = 1) as -> by (destruct t; injection Ht as <-; done).
  assert (zlen xb = 8) as ->.
  { unfold pack_i64 in Hx. match type of Hx with (if ?c then _ else _) = _ => destruct c; [|done] end. assert (xb = le_split 8 ((match x with None => -1 | Some ms => ms end) mod 2 ^ 64)) as -> by congruence.
    unfold zlen. by rewrite length_le_split. }
  enough (zlen vb = match v with VBytes v => blob_size v | VDeque items => 4 + zsum (map blob_size items)
    | VDict d => 4 + zsum (map (fun fv => blob_size fv.1 + blob_size fv.2) d) end) by lia.
  unfold dump_value in Hv. cbn [type value] in Hv. destruct t, v; try done; [by apply pack_bytes_size| |].
  all: apply rbind_ok in Hv as (n & Hn & Hv); apply rbind_ok in Hv as (parts & Hp & Hv); injection Hv as <-.
  all: apply unpack_pack_u32 in Hn as [_ Hn]; rewrite zlen_app; unfold zlen at 1; rewrite Hn; f_equal.
  - eapply rmapM_size, Hp. apply pack_bytes_size.
  - eapply rmapM_size, Hp. intros [f w] y. cbn [fst snd]. intros (fb & Hf%pack_bytes_size & H)%rbind_ok.
    apply rbind_ok in H as (wb & Hw%pack_bytes_size & H). injection H as <-. by rewrite zlen_app, Hf, Hw.
Qed.

Lemma dump_size es data : dump_rdb_entries es = Ok data -> zlen data = 20 + zsum (map record_size es).
Proof.
  intros (ver & count & recs & crc & Hv & Hc & Hr & Hx & ->)%dump_shape.
  apply unpack_pack_u32 in Hv as [_ Hv]. apply unpack_pack_u32 in Hc as [_ Hc]. apply unpack_pack_u32 in Hx as [_ Hx].
  rewrite !zlen_app, (rmapM_size _ _ _ _ dump_record_size Hr). unfold zlen. rewrite Hv, Hc, Hx. cbn. lia.
Qed.

(** A keyspace whose entries can be written is written; the order of its keys
    does not change the size. *)
Lemma dump_live now st :
  store_ok st -> fits_u32 (zlen (map_to_list (live now st))) = true -> map_Forall (fun k e => representable (k, e) = true) (live now st) ->
  exists data, dump_rdb_entries (snapshot now st).1 = Ok data /\ zlen data = 20 + zsum (map record_size (map_to_list (live now st))).
Proof.
  intros Hok Hn Hrep. assert ((snapshot now st).1 ≡ₚ map_to_list (live now st)) as Hperm.
  { unfold snapshot, iter_entries. simpl. rewrite copy_items_id. set (es := filter _ _). assert (dict_ok es) as Hes by (apply dict_filter_ok, Hok).
    rewrite <- (map_to_list_to_map es) by exact Hes. f_equiv. apply map_eq. intros k. rewrite live_lookup.
    change (list_to_map es) with (dict_map es). rewrite <- dict_get_map. unfold es. rewrite dict_get_filter by apply Hok. destruct (dict_get (entries st) k) as [e|]; [|done]. cbn. by destruct (is_expired _ _). }
  pose proof (packs_entries _ (snapshot_entries_ok now st Hok)) as Hp.
  assert (fits_u32 (zlen (snapshot now st).1) && forallb representable (snapshot now st).1 = true) as Hc.
  { apply andb_true_iff. split; [unfold zlen in *; by rewrite Hperm|]. apply forallb_forall. intros [k e] Hin%list_elem_of_In.
    rewrite Hperm in Hin. apply elem_of_map_to_list in Hin. by apply Hrep. }
  rewrite Hc in Hp. destruct (dump_rdb_entries (snapshot now st).1) as [data|e] eqn:E; [|by destruct Hp].
  exists data. split; [done|]. rewrite (dump_size _ _ E). by rewrite Hperm.
Qed.

Lemma snapshot_dumpable now st : store_ok st -> 0 <= now -> Forall (fun ke => dumpable ke.2) (snapshot now st).1.
Proof.
  intros Hok Hnow. unfold snapshot, iter_entries. simpl. rewrite copy_items_id.
  apply Forall_forall. intros [k e] [Hl He]%list_elem_of_filter. simpl in *. split.
  - eapply Hok. apply dict_elem_get; [apply Hok|exact He].
  - destruct (expire_at_ms e) as [t|]; [|done]. simpl in Hl. lia.
Qed.

(** A snapshot, dumped and loaded at a later time. *)
Lemma snapshot_restores now now' max st st0 data :
  store_ok st -> 0 <= now <= now' -> dump_rdb_entries (snapshot now st).1 = Ok data -> zlen data <= max ->
  exists st2, load_rdb_into now' max st0 data = (Ok (zlen (entries st2)), st2) /\
    store_ok st2 /\ live now' st2 = live now' st /\ dict_map (entries st2) = live now' st.
Proof.
  intros Hok Hnow Hdump Hmax. unfold snapshot, iter_entries in Hdump. simpl in Hdump.
  rewrite copy_items_id in Hdump.
  pose proof (snapshot_dumpable now st Hok ltac:(lia)) as Hd. unfold snapshot, iter_entries in Hd. simpl in Hd. rewrite copy_items_id in Hd.
  set (es := filter (fun ke => is_expired (expire_at_ms ke.2) now = false) (entries st)) in *.
  assert (dict_ok es) as Hes by (by apply dict_filter_ok, Hok).
  pose proof (load_dump now' max es data Hes Hd Hdump Hmax) as Hload.
  unfold load_rdb_into, load_rdb. replace (max <? zlen data) with false by lia. rewrite Hload.
  set (d := filter _ es) in *. exists (load_entries st0 d).
  assert (entries (load_entries st0 d) = d) as He by apply copy_items_id.
  assert (dict_map d = live now' st) as Hm.
  { apply map_eq. intros k. rewrite <- dict_get_map, live_lookup. unfold d, es.
    rewrite dict_get_filter by done. rewrite dict_get_filter by apply Hok.
    destruct (dict_get (entries st) k) as [e|]; [|done]. simpl.
    destruct (is_expired (expire_at_ms e) now) eqn:E1; simpl.
    - by rewrite (is_expired_mono _ now now') by (done || lia).
    - by destruct (is_expired (expire_at_ms e) now'). }
  split_and!.
  - by rewrite He.
  - apply load_entries_ok. by eapply load_entries_well_formed.
  - unfold live at 1. rewrite He, Hm. apply map_filter_id. intros k e. rewrite live_lookup.
    destruct (dict_get (entries st) k) as [e'|]; [|done]. simpl.
    destruct (is_expired (expire_at_ms e') now') eqn:E; [done|]. by intros [= <-].
  - by rewrite He.
Qed.

(** ** Properties *)

(** C8 A saved snapshot restores the keyspace: whatever a store holds when
    [dump_rdb_bytes] succeeds on it, loading the bytes at any later time into
    any store (within the size limit) succeeds, reports the number of entries
    installed, keeps the invariant, and shows exactly the entries of the
    original store that are still alive at that time. *)
Theorem rdb_save_restore now now' max st st' st0 data :
  store_ok st -> 0 <= now <= now' -> dump_rdb_bytes now st = (Ok data, st') -> zlen data <= max ->
  exists st2, load_rdb_into now' max st0 data = (Ok (zlen (entries st2)), st2) /\
    store_ok st2 /\ live now' st2 = live now' st /\ dict_map (entries st2) = live now' st.
Proof.
  intros Hok Hnow Hdump Hmax. apply (snapshot_restores now); try done. unfold dump_rdb_bytes in Hdump.
  destruct (snapshot now st) as [es st1]. by injection Hdump.
Qed.

Lemma rdb_save_restore_witness :
  exists st2, load_rdb_into 9000 1000 (new_store 0 noeviction)
      match dump_rdb_bytes 100 (load_entries (new_store 0 noeviction) ex_entries) with (Ok d, _) => d | _ => [] end
    = (Ok 3, st2) /\ live 9000 st2 = live 9000 (load_entries (new_store 0 noeviction) ex_entries).
Proof.
  destruct (rdb_save_restore 100 9000 1000 (load_entries (new_store 0 noeviction) ex_entries)
    (dump_rdb_bytes 100 (load_entries (new_store 0 noeviction) ex_entries)).2 (new_store 0 noeviction)
    match dump_rdb_bytes 100 (load_entries (new_store 0 noeviction) ex_entries) with (Ok d, _) => d | _ => [] end)
    as (st2 & H & _ & Hlive & _).
  - apply load_entries_ok, ex_entries_ok.
  - lia.
  - vm_compute. reflexivity.
  - vm_compute. discriminate.
  - exists st2. split; [|exact Hlive]. rewrite H. do 2 f_equal.
    assert (load_rdb_into 9000 1000 (new_store 0 noeviction)
      match dump_rdb_bytes 100 (load_entries (new_store 0 noeviction) ex_entries) with (Ok d, _) => d | _ => [] end
      = (Ok (zlen (entries st2)), st2)) as H' by exact H.
    vm_compute in H'. injection H' as E _. symmetry. exact E.
Defined.

(** C21 A snapshot with one damaged byte is never loaded: replace any single
    byte of a dump (in the magic, the version, the records, the checksum or
    the footer) by a different one and [load_rdb_bytes] raises. *)
Theorem rdb_corruption_detected now max es data data' :
  Forall (fun ke => dumpable ke.2) es -> dump_rdb_entries es = Ok data -> changed data data' ->
  exists msg, load_rdb_bytes now max data' = Err (RdbError msg).
Proof.
  intros Hd H Hch. destruct (load_rdb_bytes now max data') as [d|e] eqn:Hload.
  - exfalso. apply load_inv in Hload as (version & count & records & off & _ & H1 & H2 & Hv & H3 & H4 & H5 & _).
    destruct Hv as [-> | ->].
    + apply rbind_ok in H2 as ([raw o] & H2 & Hraw). injection Hraw as Hraw _.
      by eapply (changed_to_legacy es).
    + destruct (rd_advance (Reader := read_many_reader 13 read_record count ltac:(lia) read_record_reader)
        data' 12 records off ltac:(lia) H4) as [Hoff _].
      apply trailer_inv in H5 as (body' & crc' & Hdata' & _ & Hl & Hcrc); [|lia].
      apply dump_shape in H as (ver & cnt & recs & crc & _ & _ & _ & Hx & ->).
      by eapply changed_trailer.
  - apply load_error in Hload. destruct e; try done. eauto.
Qed.

Lemma rdb_corruption_detected_witness :
  changed ex_dump (b "BYOS" ++ drop 4 ex_dump) /\
    exists msg, load_rdb_bytes 100 1000 (b "BYOS" ++ drop 4 ex_dump) = Err (RdbError msg).
Proof.
  assert (changed ex_dump (b "BYOS" ++ drop 4 ex_dump)) as Hc by (do 3 apply changed_next; by apply changed_here).
  split; [exact Hc|]. apply (rdb_corruption_detected 100 1000 ex_entries ex_dump).
  - apply ex_dumpable.
  - apply ex_dump_eq.
  - exact Hc.
Defined.

(** A truncated snapshot is never loaded: every strict prefix of a dump
    is refused with [RdbError]. *)
Theorem rdb_truncation_detected now max es cut rest :
  Forall (fun ke => dumpable ke.2) es -> dump_rdb_entries es = Ok (cut ++ rest) -> rest <> [] ->
  exists msg, load_rdb_bytes now max cut = Err (RdbError msg).
Proof.
  intros Hd H Hne. destruct (load_rdb_bytes now max cut) as [d|e] eqn:Hload.
  - exfalso. apply load_inv in Hload as (version & count & records & off & _ & _ & H2 & _ & H3 & H4 & H5 & _).
    pose proof (dump_tail _ _ Hd H) as Htail.
    assert (read_u32 (cut ++ rest) 4 = Ok (version, 8)) as H2' by (apply rd_extend; [lia|done]).
    assert (read_u32 (cut ++ rest) 8 = Ok (count, 12)) as H3' by (apply rd_extend; [lia|done]).
    apply dump_shape in H as (ver & cnt & recs & crc & Hv & Hc & _ & _ & Hdata).
    rewrite <- !app_assoc in Hdata. rewrite Hdata in H2', H3'.
    destruct (dump_header_read ver cnt _ (concat recs ++ crc ++ FOOTER) Hv Hc) as (_ & _ & _ & R2 & R3).
    rewrite R2 in H2'. rewrite R3 in H3'. injection H2' as <-. injection H3' as <-.
    pose proof (read_many_reader 13 read_record (zlen es) ltac:(lia) read_record_reader) as HR.
    apply (rd_extend (Reader := HR) _ rest 12) in H4 as H4'; [|lia]. rewrite Htail in H4'. injection H4' as <- Hoff.
    destruct (rd_advance (Reader := HR) _ _ _ _ (ltac:(lia) : 0 <= 12) H4) as [Hge _].
    apply trailer_inv in H5 as (body & c & Hcut & Hbody & Hl & _); [|lia].
    apply Hne, nil_length_inv. apply (f_equal zlen) in Hcut. rewrite !zlen_app in *.
    change (zlen FOOTER) with 4 in *. unfold zlen in *. lia.
  - apply load_error in Hload. destruct e; try done. eauto.
Qed.

Lemma rdb_truncation_detected_witness :
  drop 90 ex_dump <> [] /\ exists msg, load_rdb_bytes 100 1000 (take 90 ex_dump) = Err (RdbError msg).
Proof.
  assert (drop 90 ex_dump <> []) as Hne by discriminate. split; [exact Hne|].
  apply (rdb_truncation_detected 100 1000 ex_entries _ (drop 90 ex_dump)).
  - apply ex_dumpable.
  - rewrite take_drop. apply ex_dump_eq.
  - exact Hne.
Defined.

(** C24 Loading is total and safe on arbitrary bytes: [load_rdb_bytes]
    terminates on every input, the only exception it raises is [RdbError],
    the dictionary it returns has distinct keys and well-typed values none of
    which has expired, and [load_rdb_into] leaves the store untouched unless
    it installs such a dictionary. *)
Theorem rdb_load_total now max st data :
  match load_rdb_bytes now max data with
  | Ok d => zlen data <= max /\ entries_ok d /\ Forall (fun ke => is_expired (expire_at_ms ke.2) now = false) d /\
            load_rdb_into now max st data = (Ok (zlen d), load_entries st d) /\
            store_ok (load_entries st d)
  | Err e => rdb_error e /\ exists e', rdb_error e' /\ load_rdb_into now max st data = (Err e', st)
  end.
Proof.
  unfold load_rdb_into, load_rdb. destruct (load_rdb_bytes now max data) as [d|e] eqn:H.
  - apply load_entries_well_formed in H as Hok.
    apply load_inv in H as (? & ? & records & ? & Hmax & _ & _ & _ & _ & _ & _ & ->).
    replace (max <? zlen data) with false by lia.
    pose proof (keep_live_live now records). pose proof (load_entries_ok st _ Hok). auto 6.
  - apply load_error in H. split; [done|]. case_if; eexists; (split; [|reflexivity]); done.
Qed.

(** C30 When a snapshot can be written: dumping a well-typed keyspace succeeds
    exactly when no system call fails, the number of keys and every length in it
    fits 32 bits and every deadline fits a signed 64-bit integer; then the file
    holds the dump.  Otherwise it raises [struct.error], or the [OSError] of the
    call that failed, and in every case the previous snapshot file is as it was. *)
Theorem rdb_dump_succeeds_iff now st io fs :
  store_ok st ->
  let es := (snapshot now st).1 in
  match dump_rdb now st io fs with
  | (Ok _, st', fs') => io = None /\ fits_u32 (zlen es) = true /\ forallb representable es = true /\
                        exists data, dump_rdb_entries es = Ok data /\ fs' = mkFiles (Some data) None
  | (Err e, st', fs') => rdb_final fs' = rdb_final fs /\
                         ((exists call m, io = Some (call, m) /\ e = OSError m) \/
                          (e = StructError /\ fits_u32 (zlen es) && forallb representable es = false))
  end.
Proof.
  intros Hok. unfold dump_rdb, dump_rdb_bytes. pose proof (packs_entries _ (snapshot_entries_ok now st Hok)) as Hp.
  destruct (snapshot now st) as [es st']. simpl in *.
  destruct (dump_rdb_entries es) as [data|e] eqn:E; simpl in Hp.
  - apply andb_true_iff in Hp as [H1 H2]. destruct io as [[[] m]|]; try (split; [done|left; by eexists _, _]). split_and!; try done. by exists data.
  - destruct Hp as [-> Hp]. destruct io as [[[] m]|]; (split; [done|]); try (right; done). left. by eexists _, _.
Qed.

(** A string whose deadline is [2 ^ 63]. *)
Definition ex_far : Store :=
  set_entry (new_store 0 noeviction) (b "k") (mkEntry STRING (VBytes (b "v")) (Some (2 ^ 63))).

Lemma ex_far_ok : store_ok ex_far.
Proof. apply set_entry_ok; [apply new_store_ok|exact I]. Qed.

Lemma rdb_dump_succeeds_iff_witness :
  let fs := mkFiles (Some (b "old")) None in
  (exists st' fs', dump_rdb 0 ex_far None fs = (Err StructError, st', fs') /\ rdb_final fs' = Some (b "old")) /\
  exists st' fs', dump_rdb 0 (new_store 0 noeviction) (Some (WriteCall 3, u "No space left on device")) fs =
    (Err (OSError (u "No space left on device")), st', fs') /\ rdb_final fs' = Some (b "old").
Proof.
  intros fs. split.
  - pose proof (rdb_dump_succeeds_iff 0 ex_far None fs ex_far_ok) as H. cbv zeta in H.
    destruct (dump_rdb 0 ex_far None fs) as [[[x|e] st'] fs'].
    + destruct H as (_ & _ & Hr & _). exfalso. vm_compute in Hr. discriminate Hr.
    + destruct H as (Hf & [(? & ? & Hc & _)|(-> & _)]); [discriminate Hc|]. exists st', fs'. split; [reflexivity|exact Hf].
  - pose proof (rdb_dump_succeeds_iff 0 (new_store 0 noeviction) (Some (WriteCall 3, u "No space left on device")) fs (new_store_ok 0 noeviction)) as H.
    cbv zeta in H. destruct (dump_rdb 0 (new_store 0 noeviction) _ fs) as [[[x|e] st'] fs'].
    + destruct H as (Hc & _). discriminate Hc.
    + destruct H as (Hf & [(call & m & [= <- <-] & ->)|(_ & Hr)]); [|vm_compute in Hr; discriminate Hr]. exists st', fs'. split; [reflexivity|exact Hf].
Defined.
