(* ===== verification/AofFile.v ===== *)
(** * The append-only file ([persistence/aof.py], reading and rewriting)

    [AOFLog.read_commands] and [replay_aof] on the contents of the file, and
    [_build_rewrite_payload] with the float division it uses. *)
From S2P Require Import Prelude PyText PyFloat Encoder Parser Dict Store StoreSpec.
Local Open Scope Z_scope.

(** ** Reading the log *)

Definition is_bytes_or_none (x : pyobj) : bool :=
  match x with PBytes _ | PNone => true | _ => false end.

(** [b"" if x is None else bytes(x)] *)
Definition bytes_or_empty (x : pyobj) : bytes := match x with PBytes v => v | _ => [] end.

(** An element of a mixed array: [None] aborts the command. *)
Definition text_arg (x : pyobj) : option bytes :=
  match x with PBytes v | PStr v => Some v | _ => None end.

(** The command of one parsed message; [None] is a [continue]. *)
Definition aof_argv (msg : pyobj) : option (list bytes) :=
  match msg with
  | PList (x :: l) =>
      if forallb is_bytes_or_none (x :: l) then Some (map bytes_or_empty (x :: l))
      else mapM text_arg (x :: l)
  | _ => None
  end.

(** [file] is [None] when the path does not exist. *)
Definition read_commands (max_bulk_len max_file_bytes : Z) (file : option bytes) : result (list (list bytes)) :=
  match file with
  | None | Some [] => Ok []
  | Some data =>
      if max_file_bytes <? zlen data then
        Err (AofError (u "AOF size " ++ str_of_int (zlen data) ++ u " exceeds load limit " ++ str_of_int max_file_bytes))
      else match (feed (default_parser max_bulk_len) data).1 with
           | Err (ProtocolError m) => Err (AofError (u "AOF protocol error: " ++ m))
           | Err e => Err e
           | Ok messages => Ok (omap aof_argv messages)
           end
  end.

(** The loop of [replay_aof]: an exception of [apply] ends it. *)
Fixpoint apply_all {S} (apply : S -> list bytes -> result unit * S) (s : S) (cmds : list (list bytes)) :
    result unit * S :=
  match cmds with
  | [] => (Ok tt, s)
  | argv :: cmds' =>
      match apply s argv with
      | (Ok _, s') => apply_all apply s' cmds'
      | (Err e, s') => (Err e, s')
      end
  end.

Definition replay_aof {S} (apply : S -> list bytes -> result unit * S) (s : S)
    (max_bulk_len max_file_bytes : Z) (file : option bytes) : result Z * S :=
  match read_commands max_bulk_len max_file_bytes file with
  | Err e => (Err e, s)
  | Ok cmds => match apply_all apply s cmds with
               | (Ok _, s') => (Ok (zlen cmds), s')
               | (Err e, s') => (Err e, s')
               end
  end.

(** ** Rewriting the log *)

(** [math.ceil(n / 1000)] for [n > 0]: the quotient of two integers is
    rounded once, to 53 significant bits; it overflows at [2 ^ 1024]. *)
Definition float_ceil_div_1000 (n : Z) : result Z :=
  let k0 := 62 - Z.log2 n in
  let scaled k := if 0 <=? k then (n * 2 ^ k, 1000) else (n, 1000 * 2 ^ (- k)) in
  let big k := let '(a, d) := scaled k in d * 2 ^ 53 <=? a in
  let k := if big k0 then k0 - 1 else k0 in
  let '(a, d) := scaled k in
  let m := round_div a d in
  if 0 <=? k then Ok (- ((- m) / 2 ^ k))
  else if m * 2 ^ (- k) <? 2 ^ 1024 then Ok (m * 2 ^ (- k)) else Err OverflowError.

(** The commands that recreate one entry. *)
Definition rewrite_entry (current_ms : Z) (ke : bytes * KeyEntry) : result (list (list bytes)) :=
  let '(key, e) := ke in
  let* body :=
    match type e with
    | STRING => match value e with
                | VBytes v => Ok [[b "SET"; key; v]]
                | _ => Err AssertionError
                end
    | LIST => match value e with
              | VDeque dq =>
                  let values := rev dq in
                  Ok (match values with [] => [] | _ :: _ => [b "LPUSH" :: key :: values] end)
              | _ => Err AssertionError
              end
    | HASH => match value e with
              | VDict d =>
                  let pairs := flatten_items d in
                  Ok (match pairs with [] => [] | _ :: _ => [b "HSET" :: key :: pairs] end)
              | _ => Err AssertionError
              end
    end in
  match expire_at_ms e with
  | None => Ok body
  | Some t =>
      let remaining_ms := t - current_ms in
      if 0 <? remaining_ms then
        let* c := float_ceil_div_1000 remaining_ms in
        let seconds := Z.max 1 c in
        let* d := format_d seconds in
        Ok (body ++ [[b "EXPIRE"; key; d]])
      else Ok body
  end.

Definition rewrite_commands (current_ms : Z) (es : dict bytes KeyEntry) : result (list (list bytes)) :=
  rmap (@concat _) (rmapM (rewrite_entry current_ms) es).

(** [_build_rewrite_payload] *)
Definition build_rewrite_payload (current_ms : Z) (es : dict bytes KeyEntry) : result bytes :=
  rmap wire (rewrite_commands current_ms es).

Example ceil_ex : map float_ceil_div_1000 [1; 999; 1000; 1001; 2 ^ 53 - 1; 2 ^ 70 + 1] =
  map Ok [1; 1; 1; 2; 9007199254741; 1180591620717411328].
Proof. vm_compute. reflexivity. Qed.

(** ** Float division *)

(** Up to [2 ^ 53] milliseconds the float division does not disturb the
    ceiling. *)
Lemma float_ceil_exact n : 0 < n < 2 ^ 53 -> float_ceil_div_1000 n = Ok ((n + 999) / 1000).
Proof.
  intros [Hn Hlt]. unfold float_ceil_div_1000. pose proof (Z.log2_nonneg n).
  assert (Z.log2 n <= 52) as Hlog by (assert (Z.log2 n < 53) by (apply Z.log2_lt_pow2; lia); lia).
  set (k0 := 62 - Z.log2 n). set (k := if _ : bool then k0 - 1 else k0).
  assert (9 <= k) as Hk by (unfold k, k0; case_if; lia). clearbody k. clear k0 Hlog Hlt.
  replace (0 <=? k) with true by lia. f_equal.
  pose proof (round_div_spec (n * 2 ^ k) 1000 ltac:(lia)) as Hr. set (m := round_div _ _) in *.
  assert (512 <= 2 ^ k) as Hp by (change 512 with (2 ^ 9); apply Z.pow_le_mono_r; lia).
  set (w := 2 ^ k) in *. set (c := (n + 999) / 1000).
  assert (1000 * c <= n + 999 < 1000 * c + 1000) as Hc.
  { pose proof (Z.div_mod (n + 999) 1000 ltac:(lia)). pose proof (Z.mod_pos_bound (n + 999) 1000 ltac:(lia)).
    lia. }
  assert (- m / w = - c) as ->; [|lia].
  symmetry. apply (Z.div_unique_pos _ _ _ (c * w - m)); [|lia].
  split; [nia|]. assert ((c - 1) * w < m); [|lia]. nia.
Qed.

(** ** The log read back *)

Lemma aof_argv_command argv : argv <> [] -> aof_argv (command_obj argv) = Some argv.
Proof.
  intros Hne. unfold aof_argv, command_obj. destruct argv as [|a l]; [done|]. cbn [map].
  assert (forall l, forallb is_bytes_or_none (map PBytes l) = true) as Hall by (by intros l'; induction l').
  change (PBytes a :: map PBytes l) with (map PBytes (a :: l)). rewrite Hall, map_map. f_equal.
  simpl. f_equal. apply map_id.
Qed.

Lemma omap_aof_argv cmds : Forall (fun c => c <> []) cmds -> omap aof_argv (map command_obj cmds) = cmds.
Proof.
  induction 1 as [|c cmds Hc _ IH]; [done|]. cbn [map].
  change (omap aof_argv (command_obj c :: map command_obj cmds))
    with (match aof_argv (command_obj c) with Some y => y :: omap aof_argv (map command_obj cmds)
          | None => omap aof_argv (map command_obj cmds) end).
  by rewrite aof_argv_command, IH.
Qed.

(** Commands the log can hold and give back. *)
Definition loggable (max_bulk_len : Z) (argv : list bytes) : Prop :=
  argv <> [] /\ command_fits (default_parser max_bulk_len) argv = true.

(** What replay makes of a log cut at any byte. *)
Lemma read_commands_cut mbl maxf cmds n :
  0 <= mbl < 10 ^ int_max_str_digits -> Forall (loggable mbl) cmds -> zlen (wire cmds) <= Z.min 32000000 maxf ->
  exists k rest, read_commands mbl maxf (Some (take n (wire cmds))) = Ok (take k cmds) /\
    take n (wire cmds) = wire (take k cmds) ++ rest /\
    (k < length cmds -> exists c, cmds !! k = Some c /\ (length rest < length (encode_command c))%nat)%nat /\
    (length cmds <= k -> rest = [])%nat.
Proof.
  intros Hmbl Hl Hlen.
  assert (Forall (fun c => command_fits (default_parser mbl) c = true) cmds) as Hfit.
  { eapply Forall_impl; [exact Hl|]. by intros c [_ ?]. }
  destruct (drain_cut (default_parser mbl) cmds n) as (k & rest & Hd & Ht & H1 & H2); [|done|done|].
  { split; [apply Hmbl | vm_compute; reflexivity]. }
  exists k, rest. split_and!; try done. unfold read_commands.
  assert (omap aof_argv (map command_obj (take k cmds)) = take k cmds) as Ho.
  { apply omap_aof_argv, Forall_take. eapply Forall_impl; [exact Hl|]. by intros c [? _]. }
  assert (zlen (take n (wire cmds)) <= zlen (wire cmds)) as Hle by (unfold zlen; rewrite length_take; lia).
  destruct (take n (wire cmds)) as [|x l] eqn:E.
  - pose proof (quiescent_empty (with_buf (default_parser mbl) []) eq_refl) as Hq. unfold quiescent in Hq.
    rewrite Hq in Hd. injection Hd as Hd _. rewrite <- Ho, <- Hd. done.
  - replace (maxf <? zlen (x :: l)) with false by lia. rewrite feed_drain by (cbn [default_parser new_parser buf max_buffer_bytes]; rewrite zlen_nil; lia).
    cbn [default_parser new_parser buf app]. cbn [default_parser new_parser] in Hd. rewrite Hd. simpl. by rewrite Ho.
Qed.
