(* ===== verification/AofLog.v ===== *)
(** * The log writer ([persistence/aof.py], [AOFLog])

    The object with its queue, its writer and fsync tasks and the file behind
    it.  The coroutines are cut at their [await]s: each definition is what
    runs between two of them, and the outcome of a system call is an
    argument.  [Synced] bytes of the file are known to be on disk. *)
From stdpp Require Import sorting.
From S2P Require Import Prelude PyText PyFloat Encoder Parser Dict Store AofFile.
Local Open Scope Z_scope.

Inductive AofFsync := always | everysec | no.

#[global] Instance AofFsync_eq_dec : EqDecision AofFsync.
Proof. solve_decision. Defined.

(** The future of an [_AofItem]. *)
Inductive future := Waiting | Completed | Raised (e : exn).

(** [_AofItem]: the payload and the future, by its number. *)
Record AofItem := mkItem { payload : bytes; completed : nat }.

#[global] Instance AofItem_eq_dec : EqDecision AofItem.
Proof. solve_decision. Defined.

(** The writer task: not created, waiting for the queue, in [_write_sync],
    in [_fsync_sync], finished. *)
Inductive WriterTask :=
| WriterNone
| WriterIdle
| WriterWrite (item : AofItem)
| WriterSync (item : AofItem)
| WriterDone.

(** [queue] is [None] before [open] and after [close]; [None] in it is the
    sentinel of [close].  [putters] wait for a free place, in order; [woken] were
    told of one and have not run since.
    [calls] lists the calls of [append] that
    were given a future, in order, with what became of them. *)
Record AOFLog := mkLog {
  fsync_policy : AofFsync;
  enabled : bool;
  queue_max_commands : Z;
  fh : bool;
  file : bytes;
  synced : nat;
  dirty : bool;
  queue : option (list (option AofItem));
  woken : list (option AofItem);
  putters : list (option AofItem);
  writer_task : WriterTask;
  fsync_task : bool;
  closed : bool;
  failure : option exn;
  calls : list (list bytes * future)
}.

(** [AOFLog(path, ...)], with what the file already holds. *)
Definition new_log (policy : AofFsync) (enabled : bool) (queue_max : Z) (contents : bytes) : AOFLog :=
  mkLog policy enabled queue_max false contents (length contents) false None [] [] WriterNone false false None [].

Definition with_file (l : AOFLog) (f : bytes) (s : nat) (d : bool) : AOFLog :=
  mkLog (fsync_policy l) (enabled l) (queue_max_commands l) (fh l) f s d (queue l) (woken l) (putters l)
    (writer_task l) (fsync_task l) (closed l) (failure l) (calls l).

Definition with_queue (l : AOFLog) (q : option (list (option AofItem))) (wk ps : list (option AofItem)) : AOFLog :=
  mkLog (fsync_policy l) (enabled l) (queue_max_commands l) (fh l) (file l) (synced l) (dirty l) q wk ps
    (writer_task l) (fsync_task l) (closed l) (failure l) (calls l).

Definition with_tasks (l : AOFLog) (w : WriterTask) (f : bool) : AOFLog :=
  mkLog (fsync_policy l) (enabled l) (queue_max_commands l) (fh l) (file l) (synced l) (dirty l) (queue l)
    (woken l) (putters l) w f (closed l) (failure l) (calls l).

Definition with_calls (l : AOFLog) (fs : list (list bytes * future)) : AOFLog :=
  mkLog (fsync_policy l) (enabled l) (queue_max_commands l) (fh l) (file l) (synced l) (dirty l) (queue l)
    (woken l) (putters l) (writer_task l) (fsync_task l) (closed l) (failure l) fs.

Definition with_failure (l : AOFLog) (e : option exn) : AOFLog :=
  mkLog (fsync_policy l) (enabled l) (queue_max_commands l) (fh l) (file l) (synced l) (dirty l) (queue l)
    (woken l) (putters l) (writer_task l) (fsync_task l) (closed l) e (calls l).

Definition with_handle (l : AOFLog) (h c : bool) : AOFLog :=
  mkLog (fsync_policy l) (enabled l) (queue_max_commands l) h (file l) (synced l) (dirty l) (queue l)
    (woken l) (putters l) (writer_task l) (fsync_task l) c (failure l) (calls l).

(** ** Properties of the object *)

Definition pending_commands (l : AOFLog) : Z :=
  match queue l with None => 0 | Some q => zlen q end.

Definition healthy (l : AOFLog) : bool := match failure l with None => true | Some _ => false end.

(** ** Futures *)

(** [if not completed.done(): completed.set_result / set_exception]. *)
Definition resolve (fs : list (list bytes * future)) (i : nat) (r : future) : list (list bytes * future) :=
  match fs !! i with
  | Some (p, Waiting) => <[i := (p, r)]> fs
  | _ => fs
  end.

Definition resolve_all (fs : list (list bytes * future)) (items : list (option AofItem)) (r : future) :
    list (list bytes * future) :=
  foldl (fun fs it => match it with Some it => resolve fs (completed it) r | None => fs end) fs items.

(** ** Opening *)

(** [open()]; [io] is the exception of the system calls, if any. *)
Definition open_ (io : option str) (l : AOFLog) : result unit * AOFLog :=
  if negb (enabled l) then (Ok tt, l)
  else match io with
       | Some m => (Err (OSError m), l)
       | None => (Ok tt, with_failure (with_queue (with_handle l true false) (Some []) [] []) None)
       end.

Definition start_background_fsync (l : AOFLog) : AOFLog :=
  if negb (enabled l) then l
  else
    let l1 := match queue l with None => with_queue l (Some []) [] [] | Some _ => l end in
    with_tasks l1 WriterIdle (bool_decide (fsync_policy l = everysec)).

(** ** System calls *)

(** [os.write] on the unbuffered file: everything, only the first [n] bytes
    (its result is not looked at), or an exception. *)
Inductive write_outcome := WroteAll | WroteShort (n : nat) | WriteError (msg : str).

Definition write_sync (io : write_outcome) (data : bytes) (l : AOFLog) : result unit * AOFLog :=
  if negb (fh l) then (Err (OSError (u "AOF is not open")), l)
  else match io with
       | WriteError m => (Err (OSError m), l)
       | WroteAll => (Ok tt, with_file l (file l ++ data) (synced l) true)
       | WroteShort n => (Ok tt, with_file l (file l ++ take n data) (synced l) true)
       end.

Definition fsync_sync (io : option str) (l : AOFLog) : result unit * AOFLog :=
  if negb (fh l) || negb (dirty l) then (Ok tt, l)
  else match io with
       | Some m => (Err (OSError m), l)
       | None => (Ok tt, with_file l (file l) (length (file l)) false)
       end.

(** ** The writer *)

(** [n] places became free in the queue: as many putters are woken.  They put
    their items when they run ([put_woken] below); a call of [put] that comes
    first takes the place. *)
Definition wake (n : nat) (l : AOFLog) (q : list (option AofItem)) : AOFLog :=
  with_queue l (Some q) (woken l ++ take n (putters l)) (drop n (putters l)).

(** [_fail_pending(exc)]: empties the queue without yielding; the putters
    that this wakes put their items afterwards. *)
Definition fail_pending (e : exn) (l : AOFLog) : AOFLog :=
  match queue l with
  | None => l
  | Some q => wake (length q) (with_calls l (resolve_all (calls l) q (Raised e))) []
  end.

(** [item = await self._queue.get()] *)
Definition writer_take (l : AOFLog) : AOFLog :=
  match writer_task l, queue l with
  | WriterIdle, Some (Some it :: q) => wake 1 (with_tasks l (WriterWrite it) (fsync_task l)) q
  | WriterIdle, Some (None :: q) => wake 1 (with_tasks l WriterDone (fsync_task l)) q
  | _, _ => l
  end.

(** [except OSError] in [_writer_loop]. *)
Definition writer_fail (e : exn) (it : AofItem) (l : AOFLog) : AOFLog :=
  let l1 := with_failure l (Some e) in
  let l2 := with_calls l1 (resolve (calls l1) (completed it) (Raised e)) in
  with_tasks (fail_pending e l2) WriterDone (fsync_task l).

Definition writer_complete (it : AofItem) (l : AOFLog) : AOFLog :=
  with_tasks (with_calls l (resolve (calls l) (completed it) Completed)) WriterIdle (fsync_task l).

Definition writer_write (io : write_outcome) (l : AOFLog) : AOFLog :=
  match writer_task l with
  | WriterWrite it =>
      match write_sync io (payload it) l with
      | (Err e, l') => writer_fail e it l'
      | (Ok _, l') =>
          match fsync_policy l' with
          | always => with_tasks l' (WriterSync it) (fsync_task l')
          | _ => writer_complete it l'
          end
      end
  | _ => l
  end.

Definition writer_fsync (io : option str) (l : AOFLog) : AOFLog :=
  match writer_task l with
  | WriterSync it =>
      match fsync_sync io l with
      | (Err e, l') => writer_fail e it l'
      | (Ok _, l') => writer_complete it l'
      end
  | _ => l
  end.

(** One round of [_fsync_loop] after its [sleep]. *)
Definition fsync_tick (io : option str) (l : AOFLog) : AOFLog :=
  if negb (fsync_task l) then l
  else match fsync_sync io l with
       | (Ok _, l') => with_tasks l' (writer_task l') (negb (closed l'))
       | (Err e, l') => let l2 := fail_pending e (with_failure l' (Some e)) in with_tasks l2 (writer_task l2) false
       end.

(** ** Appending *)

Definition full (l : AOFLog) (q : list (option AofItem)) : bool :=
  (0 <? queue_max_commands l) && (queue_max_commands l <=? zlen q).

(** [queue.put(it)]: at once when there is a place, even if others wait for one,
    or behind the putters that wait. *)
Definition put (it : option AofItem) (l : AOFLog) (q : list (option AofItem)) : AOFLog :=
  if full l q then with_queue l (Some q) (woken l) (putters l ++ [it]) else with_queue l (Some (q ++ [it])) (woken l) (putters l).

(** A putter that was woken goes on: it puts its item, or waits again. *)
Definition put_woken (l : AOFLog) : AOFLog :=
  match queue l, woken l with
  | Some q, it :: wk => put it (with_queue l (Some q) wk (putters l)) q
  | _, _ => l
  end.

(** [append(argv)] up to its wait for the future: it returns at once (with
    what it raises, if anything), or waits for the future with the given
    number.  [io] is used when there is no writer task. *)
Inductive append_progress := Returned (r : result unit) | Awaits (i : nat).

Definition append (io : write_outcome * option str) (argv : list bytes) (l : AOFLog) : append_progress * AOFLog :=
  if negb (enabled l) || negb (fh l) then (Returned (Ok tt), l)
  else match failure l with
       | Some e => (Returned (Err (OSError (u "AOF is unhealthy: " ++ match e with OSError m => m | _ => [] end))), l)
       | None =>
           let data := encode_command argv in
           match queue l, writer_task l with
           | None, _ | _, WriterNone =>
               match write_sync io.1 data l with
               | (Err e, l') => (Returned (Err e), l')
               | (Ok _, l') =>
                   match fsync_policy l' with
                   | always => let '(r, l'') := fsync_sync io.2 l' in (Returned r, l'')
                   | _ => (Returned (Ok tt), l')
                   end
               end
           | Some q, _ =>
               let i := length (calls l) in
               let it := mkItem data i in
               let l1 := with_calls l (calls l ++ [(argv, Waiting)]) in
               (Awaits i, put (Some it) l1 q)
           end
       end.

(** The timeout of [put] ends the call with [OSError]; its item never was in
    the queue.  One that had been woken wakes the next. *)
Definition put_timeout (i : nat) (l : AOFLog) : AOFLog :=
  let mine it := bool_decide ((completed <$> it) = Some i) in
  let others := filter (fun it => (completed <$> it) <> Some i) in
  let l1 := with_calls l (resolve (calls l) i (Raised (OSError (u "AOF queue is full")))) in
  if existsb mine (putters l) then with_queue l1 (queue l) (woken l) (others (putters l))
  else if existsb mine (woken l) then
    let n := match queue l with Some q => if full l q then 0%nat else 1%nat | None => 0%nat end in
    with_queue l1 (queue l) (others (woken l) ++ take n (putters l)) (drop n (putters l))
  else l.

(** ** Rewriting *)

(** Which system call of [_replace_file_sync] fails: one on the temporary
    file, [fsync] of the old file, its [close] or [os.replace] (the file object
    counts as closed in both cases), or the reopening (then the second attempt, of
    the [except] branch, succeeds; that it fails too is not modelled). *)
Inductive rewrite_outcome :=
| RewriteOk
| TmpError (msg : str)
| OldFsyncError (msg : str)
| ReplaceError (msg : str)
| OpenError (msg : str).

Definition replace_file_sync (io : rewrite_outcome) (data : bytes) (l : AOFLog) : result unit * AOFLog :=
  match io with
  | TmpError m => (Err (OSError m), l)
  | OldFsyncError m =>
      if fh l then (Err (OSError m), l)
      else (Ok tt, with_file (with_handle l true (closed l)) data (length data) false)
  | ReplaceError m =>
      (Err (OSError m), with_file (with_handle l true (closed l)) (file l)
                          (if fh l then length (file l) else synced l) (dirty l))
  | OpenError m => (Err (OSError m), with_file (with_handle l true (closed l)) data (length data) (dirty l))
  | RewriteOk => (Ok tt, with_file (with_handle l true (closed l)) data (length data) false)
  end.

Definition rewrite (io : rewrite_outcome) (current_ms : Z) (es : dict bytes KeyEntry) (l : AOFLog) : result Z * AOFLog :=
  if negb (enabled l) then (Err (OSError (u "AOF is disabled")), l)
  else match build_rewrite_payload current_ms es with
       | Err e => (Err e, l)
       | Ok data => match replace_file_sync io data l with
                    | (Ok _, l') => (Ok (zlen data), l')
                    | (Err e, l') => (Err e, l')
                    end
       end.

(** ** Closing *)

(** [close] up to its wait for the writer, and from there on; an error of the
    last [fsync] is logged. *)
Definition close_begin (l : AOFLog) : AOFLog :=
  let l1 := with_handle l (fh l) true in
  match queue l1, writer_task l1 with
  | None, _ | _, WriterNone | _, WriterDone => l1
  | Some q, _ => put None l1 q
  end.

Definition close_finish (io : option str) (l : AOFLog) : AOFLog :=
  match writer_task l with
  | WriterNone | WriterDone =>
      let l1 := with_tasks l WriterNone false in
      let l2 := if fh l1 then with_handle (fsync_sync io l1).2 false (closed l1) else l1 in
      with_queue l2 None (woken l2) (putters l2)
  | _ => l
  end.

(** ** Runs of the log *)

(** An opened log with its tasks running. *)
Definition started (policy : AofFsync) (queue_max : Z) (contents : bytes) : AOFLog :=
  start_background_fsync (open_ None (new_log policy true queue_max contents)).2.

(** Everything that can happen between [start_background_fsync] and the end
    of [close], in any order, when no rewrite takes place and a write that does not
    fail is complete (a short one is acknowledged, which
    [aof_short_write_acknowledged] shows). *)
Inductive log_step (l : AOFLog) : AOFLog -> Prop :=
| step_append io argv : log_step l (append io argv l).2
| step_timeout i : log_step l (put_timeout i l)
| step_woken : log_step l (put_woken l)
| step_take : log_step l (writer_take l)
| step_write : log_step l (writer_write WroteAll l)
| step_write_error m : log_step l (writer_write (WriteError m) l)
| step_fsync io : log_step l (writer_fsync io l)
| step_tick io : log_step l (fsync_tick io l)
| step_close_begin : log_step l (close_begin l)
| step_close_finish io : log_step l (close_finish io l).

(** *** Futures *)

Definition argv_of (cs : list (list bytes * future)) (i : nat) : list bytes := default [] (fst <$> cs !! i).

Lemma resolve_lookup cs i r j :
  resolve cs i r !! j =
  match cs !! j with
  | Some (a, Waiting) => Some (a, if bool_decide (i = j) then r else Waiting)
  | x => x
  end.
Proof.
  unfold resolve. destruct (decide (i = j)) as [->|Hne].
  - rewrite bool_decide_true by done. destruct (cs !! j) as [[a []]|] eqn:E; rewrite ?E; try done.
    apply list_lookup_insert_eq. by eapply lookup_lt_Some.
  - rewrite bool_decide_false by done. destruct (cs !! i) as [[a []]|] eqn:E; try rewrite list_lookup_insert_ne by done.
    all: by destruct (cs !! j) as [[a' []]|].
Qed.

Lemma resolve_argv cs i r j : argv_of (resolve cs i r) j = argv_of cs j.
Proof. unfold argv_of. rewrite resolve_lookup. by destruct (cs !! j) as [[a []]|]. Qed.

Lemma resolve_length cs i r : length (resolve cs i r) = length cs.
Proof. unfold resolve. destruct (cs !! i) as [[a []]|]; try done. apply length_insert. Qed.

(** *** The calls that are written, pending or over

    [ws] are the calls in the file, in order; [pd] the items that are still to
    be written. *)
Record calls_inv (ws : list nat) (pd : list AofItem) (cs : list (list bytes * future)) : Prop := {
  ci_nodup : NoDup (ws ++ map completed pd);
  ci_bound : Forall (fun i => (i < length cs)%nat) (ws ++ map completed pd);
  ci_pend : Forall (fun it => exists argv, cs !! completed it = Some (argv, Waiting) /\
                              payload it = encode_command argv) pd;
  ci_done : forall i argv, cs !! i = Some (argv, Completed) -> i ∈ ws
}.


Lemma calls_drop ws pd pd' cs : calls_inv ws pd cs -> pd' ⊆+ pd -> calls_inv ws pd' cs.
Proof.
  intros [H1 H2 H3 H4] (k & Hk)%submseteq_Permutation.
  assert (map completed pd ≡ₚ map completed pd' ++ map completed k) as Hm by (by rewrite Hk, map_app).
  rewrite Hm, app_assoc in H1, H2. rewrite Hk in H3. split; try done.
  - by apply NoDup_app in H1 as [? _].
  - by apply Forall_app in H2 as [? _].
  - by apply Forall_app in H3 as [? _].
Qed.

Lemma calls_raise ws pd cs i e : calls_inv ws pd cs -> i ∉ map completed pd -> calls_inv ws pd (resolve cs i (Raised e)).
Proof.
  intros [H1 H2 H3 H4] Hi. split; [done|by rewrite resolve_length| |].
  - rewrite Forall_forall in *. intros it Hit. destruct (H3 it Hit) as (argv & Hc & Hp). exists argv.
    rewrite resolve_lookup, Hc. split; [|done]. rewrite bool_decide_false; [done|].
    intros ->. apply Hi. by apply list_elem_of_fmap_2.
  - intros j argv. rewrite resolve_lookup. destruct (cs !! j) as [[a []]|] eqn:E; intros H; simplify_eq;
      [case_bool_decide; by simplify_eq|by eapply H4].
Qed.

(** The queue as a list of items, sentinels left out. *)
Definition items (q : list (option AofItem)) : list AofItem := omap id q.

Lemma items_app q q' : items (q ++ q') = items q ++ items q'.
Proof. apply omap_app. Qed.

Lemma calls_fresh ws pre it pd cs : calls_inv ws (pre ++ it :: pd) cs -> completed it ∉ map completed (pre ++ pd).
Proof.
  intros [H _ _ _]. apply NoDup_app in H as (_ & _ & H). rewrite map_app in *. simpl in H. rewrite <- Permutation_middle in H.
  by apply NoDup_cons in H as [? _].
Qed.

(** A call in the file is not pending. *)
Lemma calls_apart ws pd cs i : calls_inv ws pd cs -> i ∈ ws -> i ∉ map completed pd.
Proof. intros [H _ _ _] Hi. apply NoDup_app in H as (_ & H & _). by apply H. Qed.

Lemma calls_raise_mid ws pre it pd cs e :
  calls_inv ws (pre ++ it :: pd) cs -> calls_inv ws (pre ++ pd) (resolve cs (completed it) (Raised e)).
Proof.
  intros H. apply calls_raise; [|by apply (calls_fresh ws pre it pd cs)].
  eapply calls_drop; [exact H|]. apply sublist_submseteq, sublist_app; [done|]. by apply sublist_cons.
Qed.

Lemma calls_raise_all ws pre q pd cs e :
  calls_inv ws (pre ++ items q ++ pd) cs -> calls_inv ws (pre ++ pd) (resolve_all cs q (Raised e)).
Proof.
  revert cs. induction q as [|[it|] q IH]; intros cs H; [done| |]; simpl in *; apply IH; [|done].
  by apply calls_raise_mid.
Qed.

Lemma calls_write ws it pd cs : calls_inv ws (it :: pd) cs -> calls_inv (ws ++ [completed it]) pd cs.
Proof.
  intros [H1 H2 H3 H4]. split; try (by rewrite <- app_assoc).
  - by inversion H3.
  - intros i argv Hc. apply elem_of_app. left. by eapply H4.
Qed.

Lemma calls_complete ws pd cs i : i ∈ ws -> calls_inv ws pd cs -> calls_inv ws pd (resolve cs i Completed).
Proof.
  intros Hi [H1 H2 H3 H4]. split; [done|by rewrite resolve_length| |].
  - rewrite Forall_forall in *. intros it Hit. destruct (H3 it Hit) as (argv & Hc & Hp). exists argv.
    rewrite resolve_lookup, Hc. split; [|done]. rewrite bool_decide_false; [done|]. intros ->.
    apply NoDup_app in H1 as (_ & Hd & _). apply (Hd _ Hi). by apply list_elem_of_fmap_2.
  - intros j argv. rewrite resolve_lookup. destruct (cs !! j) as [[a []]|] eqn:E; intros H; simplify_eq;
      [case_bool_decide; by simplify_eq|by eapply H4].
Qed.

Lemma calls_append ws pd cs argv :
  calls_inv ws pd cs -> calls_inv ws (pd ++ [mkItem (encode_command argv) (length cs)]) (cs ++ [(argv, Waiting)]).
Proof.
  intros [H1 H2 H3 H4]. rewrite Forall_forall in H2. split.
  - rewrite map_app, app_assoc. apply NoDup_app. split_and!; [done| |apply NoDup_singleton].
    intros i Hi ->%list_elem_of_singleton. specialize (H2 _ Hi). simpl in H2. lia.
  - rewrite map_app, app_assoc. rewrite length_app. apply Forall_app. split.
    + apply Forall_forall. intros i Hi. specialize (H2 _ Hi). lia.
    + constructor; [simpl; lia|constructor].
  - apply Forall_app. split.
    + eapply Forall_impl; [exact H3|]. intros it (a & Hc & Hp). exists a. split; [|done]. by apply lookup_app_l_Some.
    + constructor; [|constructor]. exists argv. simpl. split; [|done]. by rewrite lookup_app_r, Nat.sub_diag.
  - intros i a. rewrite lookup_app_Some. intros [Hc|[_ Hc]]; [by eapply H4|].
    destruct (i - length cs)%nat as [|n]; [done|]. by rewrite lookup_nil in Hc || destruct n.
Qed.

(** *** The invariant of a running log *)

Definition in_flight (w : WriterTask) : list AofItem := match w with WriterWrite it => [it] | _ => [] end.

Definition pend (l : AOFLog) : list AofItem :=
  in_flight (writer_task l) ++ items (default [] (queue l)) ++ items (woken l) ++ items (putters l).

(** The bytes of the file up to the end of the [j]-th written call. *)
Definition bytes_through (base : bytes) (ws : list nat) (cs : list (list bytes * future)) (j : nat) : nat :=
  length (base ++ wire (map (argv_of cs) (take (S j) ws))).

Record log_inv (base : bytes) (ws : list nat) (l : AOFLog) : Prop := {
  li_calls : calls_inv ws (pend l) (calls l);
  li_file : file l = base ++ wire (map (argv_of (calls l)) ws);
  li_synced : (synced l <= length (file l))%nat;
  li_clean : dirty l = false -> synced l = length (file l);
  li_sync : forall it, writer_task l = WriterSync it -> last ws = Some (completed it);
  li_durable : fsync_policy l = always -> forall i argv, calls l !! i = Some (argv, Completed) ->
    exists j, ws !! j = Some i /\ (bytes_through base ws (calls l) j <= synced l)%nat;
  li_handle : writer_task l = WriterNone \/ queue l = None -> fh l = false;
  li_open : fh l = true \/ writer_task l = WriterNone
}.

(** [cs'] is [cs] with some calls ended by an exception, and perhaps more
    calls. *)
Definition fewer (cs cs' : list (list bytes * future)) : Prop :=
  (length cs <= length cs')%nat /\
  (forall j, (j < length cs)%nat -> argv_of cs' j = argv_of cs j) /\
  (forall i argv, cs' !! i = Some (argv, Completed) -> cs !! i = Some (argv, Completed)).

#[local] Instance fewer_preorder : PreOrder fewer.
Proof.
  split; [by split|]. intros x y z (H0 & H1 & H2) (H3 & H4 & H5).
  split; [lia|]. split; [|eauto]. intros j Hj. rewrite H4 by lia. by apply H1.
Qed.

Lemma fewer_raise cs i e : fewer cs (resolve cs i (Raised e)).
Proof.
  split; [by rewrite resolve_length|]. split; [intros; apply resolve_argv|]. intros j argv. rewrite resolve_lookup.
  destruct (cs !! j) as [[a []]|]; intros H; simplify_eq; [|done]. case_bool_decide; simplify_eq.
Qed.

Lemma fewer_raise_all cs q e : fewer cs (resolve_all cs q (Raised e)).
Proof.
  revert cs. induction q as [|[it|] q IH]; intros cs; simpl; [done| |apply IH].
  etrans; [apply fewer_raise|apply IH].
Qed.

Lemma fewer_append cs argv : fewer cs (cs ++ [(argv, Waiting)]).
Proof.
  split; [rewrite length_app; lia|]. split.
  - intros j Hj. unfold argv_of. by rewrite lookup_app_l.
  - intros i a. rewrite lookup_app_Some. intros [Hc|[_ Hc]]; [done|].
    destruct (i - length cs)%nat as [|n]; [done|]. by destruct n.
Qed.

Lemma map_argv_ext cs cs' (ws : list nat) :
  Forall (fun i => (i < length cs)%nat) ws -> (forall j, (j < length cs)%nat -> argv_of cs' j = argv_of cs j) ->
  map (argv_of cs') ws = map (argv_of cs) ws.
Proof. intros HF H. induction HF; simpl; f_equal; auto. Qed.

(** Steps that leave the file alone and acknowledge nothing. *)
Lemma log_inv_frame base ws l l' :
  log_inv base ws l -> fewer (calls l) (calls l') -> calls_inv ws (pend l') (calls l') ->
  file l' = file l -> synced l' = synced l -> dirty l' = dirty l -> fsync_policy l' = fsync_policy l ->
  (forall it, writer_task l' = WriterSync it -> writer_task l = WriterSync it) ->
  (writer_task l' = WriterNone \/ queue l' = None -> fh l' = false) ->
  (fh l' = true \/ writer_task l' = WriterNone) -> log_inv base ws l'.
Proof.
  intros [] (_ & Ha & Hc) Hcalls Hf Hs Hd Hp Hw Hh Ho.
  assert (Forall (fun i => (i < length (calls l))%nat) ws) as Hb by (eapply proj1, Forall_app, ci_bound, li_calls0).
  split; try done.
  - by rewrite Hf, (map_argv_ext _ _ _ Hb Ha).
  - by rewrite Hf, Hs.
  - by rewrite Hf, Hs, Hd.
  - eauto.
  - rewrite Hp, Hs. intros Hal i argv Hi. destruct (li_durable0 Hal i argv (Hc _ _ Hi)) as (j & Hj & Hle).
    exists j. split; [done|]. unfold bytes_through in *.
    by rewrite (map_argv_ext _ _ _ (Forall_take _ _ _ Hb) Ha).
Qed.

Lemma items_wake n l q : items (woken (wake n l q)) ++ items (putters (wake n l q)) = items (woken l) ++ items (putters l).
Proof. simpl. rewrite items_app, <- app_assoc, <- (items_app (take n _)). by rewrite take_drop. Qed.

(** [put] adds an item to those that are pending; a sentinel is none. *)
Lemma put_pend it l q : queue l = Some q -> pend (put it l q) ≡ₚ pend l ++ items [it].
Proof.
  intros Hq. unfold pend, put. rewrite Hq. destruct (full l q); simpl; rewrite items_app; [by rewrite !app_assoc|].
  solve_Permutation.
Qed.

Lemma put_frame base ws l q it cs :
  log_inv base ws l -> queue l = Some q -> fewer (calls l) cs -> calls_inv ws (pend l ++ items [it]) cs ->
  log_inv base ws (put it (with_calls l cs) q).
Proof.
  intros Hi Hq Hf Hc. assert (writer_task l = WriterNone -> fh l = false) as Hh by (intros ?; apply Hi; by left).
  assert (calls_inv ws (pend (put it (with_calls l cs) q)) cs) as Hc'.
  { eapply calls_drop; [exact Hc|]. by rewrite (put_pend it (with_calls l cs) q Hq). }
  unfold put in *. destruct (full _ q); (eapply log_inv_frame; [exact Hi|..]); try done; simpl.
  1,3: intros [?|?]; [auto|done].
  all: apply Hi.
Qed.

Lemma put_inv base ws l q argv :
  log_inv base ws l -> queue l = Some q ->
  log_inv base ws (put (Some (mkItem (encode_command argv) (length (calls l))))
                       (with_calls l (calls l ++ [(argv, Waiting)])) q).
Proof.
  intros Hi Hq. apply put_frame; [done|done|apply fewer_append|]. by apply calls_append, Hi.
Qed.

(** Items that move between the places where they are pending, or leave them. *)
Lemma queue_inv base ws l q wk ps :
  log_inv base ws l -> (q = None <-> queue l = None) ->
  items (default [] q) ++ items wk ++ items ps ⊆+ items (default [] (queue l)) ++ items (woken l) ++ items (putters l) ->
  log_inv base ws (with_queue l q wk ps).
Proof.
  intros Hi Hq Hs. pose proof (li_calls _ _ _ Hi) as Hc. eapply log_inv_frame; try done; simpl.
  - unfold pend in *. simpl. eapply calls_drop; [exact Hc|]. by apply submseteq_app.
  - intros [?|?]; apply Hi; [by left|right; by apply Hq].
  - apply Hi.
Qed.

Lemma woken_inv base ws l : log_inv base ws l -> log_inv base ws (put_woken l).
Proof.
  intros Hi. unfold put_woken. destruct (queue l) as [q|] eqn:Hq; [|done]. destruct (woken l) as [|it wk] eqn:Hw; [done|].
  set (l1 := with_queue l (Some q) wk (putters l)).
  assert (log_inv base ws l1) as H1.
  { apply queue_inv; [done|by rewrite Hq|]. rewrite Hq, Hw. simpl. destruct it as [it|]; [|done]. simpl.
    apply submseteq_app; [done|]. by apply submseteq_cons. }
  assert (with_calls l1 (calls l) = l1) as E by done. rewrite <- E. apply put_frame; [done|done|done|].
  pose proof (li_calls _ _ _ Hi) as Hc. eapply calls_drop; [exact Hc|]. unfold pend, l1. simpl. rewrite Hq, Hw. simpl.
  destruct it as [it|]; [|by rewrite app_nil_r]. solve_submseteq.
Qed.

Lemma append_inv base ws l io argv : log_inv base ws l -> log_inv base ws (append io argv l).2.
Proof.
  intros Hi. unfold append. destruct (negb (enabled l) || negb (fh l)) eqn:E; [done|].
  apply orb_false_iff in E as [_ Hfh%negb_false_iff]. destruct (failure l); [done|].
  destruct (queue l) as [q|] eqn:Hq.
  - destruct (writer_task l) eqn:Hw; try (by apply put_inv).
    pose proof (li_handle _ _ _ Hi (or_introl Hw)). congruence.
  - pose proof (li_handle _ _ _ Hi (or_intror Hq)). congruence.
Qed.

Lemma others_items i ps :
  items (filter (fun it => (completed <$> it) <> Some i) ps) `sublist_of` items ps /\
  (i ∉ map completed (items (filter (fun it => (completed <$> it) <> Some i) ps))).
Proof.
  induction ps as [|[p|] ps [IH1 IH2]]; [split; [constructor|simpl; set_solver]|..].
  - rewrite filter_cons. case_decide as Hd; simpl in *; (split; [by constructor|set_solver]).
  - rewrite filter_cons_True by done. done.
Qed.

(** The calls with number [i] leave the places where they are pending. *)
Lemma gone_inv base ws l i pd' e wk ps :
  log_inv base ws l -> pend (with_queue l (queue l) wk ps) ≡ₚ pd' -> pd' ⊆+ pend l -> (i ∉ map completed pd') ->
  log_inv base ws (with_queue (with_calls l (resolve (calls l) i (Raised e))) (queue l) wk ps).
Proof.
  intros Hi Hp Hs Hni. eapply log_inv_frame; try done; simpl; try apply Hi; [apply fewer_raise|].
  change (pend (with_queue (with_calls l (resolve (calls l) i (Raised e))) (queue l) wk ps)) with (pend (with_queue l (queue l) wk ps)).
  apply (calls_drop ws pd'); [|by rewrite Hp]. apply calls_raise; [|done]. eapply calls_drop; [apply Hi|done].
Qed.

(** A pending call is pending in one place. *)
Lemma pend_once ws (a c : list AofItem) cs i : calls_inv ws (a ++ c) cs -> i ∈ map completed c -> i ∉ map completed a.
Proof.
  intros [H _ _ _] Hi Ha. apply NoDup_app in H as (_ & _ & H). rewrite map_app in H. apply NoDup_app in H as (_ & H & _). by apply (H i).
Qed.

Lemma mine_elem i ps : existsb (fun it => bool_decide ((completed <$> it) = Some i)) ps = true -> i ∈ map completed (items ps).
Proof.
  intros (it & Hin%list_elem_of_In & Hit%bool_decide_eq_true)%existsb_exists. destruct it as [it|]; [|done]. simpl in Hit. simplify_eq.
  apply list_elem_of_fmap_2. unfold items. apply list_elem_of_omap. by exists (Some it).
Qed.

Lemma timeout_inv base ws l i : log_inv base ws l -> log_inv base ws (put_timeout i l).
Proof.
  intros Hi. pose proof (li_calls _ _ _ Hi) as Hc. unfold pend in Hc. unfold put_timeout.
  destruct (existsb _ (putters l)) eqn:E; [|destruct (existsb _ (woken l)) eqn:E'; [|done]].
  - apply mine_elem in E. destruct (others_items i (putters l)) as [Hsub Hni].
    eapply gone_inv; [done|reflexivity|unfold pend; simpl; apply sublist_submseteq; by repeat apply sublist_app|].
    unfold pend. simpl. rewrite !app_assoc, map_app, elem_of_app. rewrite !app_assoc in Hc. intros [Hq|?]; [|done].
    by apply (pend_once _ _ _ _ _ Hc E).
  - apply mine_elem in E'. destruct (others_items i (woken l)) as [Hsub Hni]. set (n := match queue l with Some q => _ | None => _ end).
    set (wk := filter _ (woken l)) in *. eapply (gone_inv _ _ _ _ (in_flight (writer_task l) ++ items (default [] (queue l)) ++ items wk ++ items (putters l))); [done|..].
    + unfold pend. simpl. by rewrite items_app, <- !app_assoc, <- (items_app (take n _)), take_drop.
    + apply sublist_submseteq. by repeat apply sublist_app.
    + assert (calls_inv ws ((in_flight (writer_task l) ++ items (default [] (queue l)) ++ items (putters l)) ++ items (woken l)) (calls l)) as Hc'.
      { eapply calls_drop; [exact Hc|]. solve_submseteq. }
      pose proof (pend_once _ _ _ _ _ Hc' E') as Hno. rewrite !map_app, !elem_of_app in *. naive_solver.
Qed.

Lemma take_inv base ws l : log_inv base ws l -> log_inv base ws (writer_take l).
Proof.
  intros Hi. unfold writer_take. destruct (writer_task l) eqn:Hw; try done.
  destruct (queue l) as [[|[it|] q]|] eqn:Hq; try done.
  all: pose proof (li_calls _ _ _ Hi) as Hc; unfold pend in Hc; rewrite Hw, Hq in Hc; simpl in Hc.
  all: eapply log_inv_frame; try done.
  1, 4: unfold pend; rewrite items_wake; simpl; exact Hc.
  1, 3: simpl; intros [?|?]; done.
  all: left; destruct (li_open _ _ _ Hi); simpl; congruence.
Qed.

(** [_fail_pending]; the writer keeps running or has no item to write. *)
Lemma fail_pending_inv base ws l e w f :
  log_inv base ws l ->
  w = writer_task l \/ (in_flight (writer_task l) = [] /\ writer_task l <> WriterNone /\ w = WriterDone) ->
  log_inv base ws (with_tasks (fail_pending e l) w f).
Proof.
  intros Hi Hw.
  assert (in_flight w = in_flight (writer_task l)) as Hfl by (destruct Hw as [->|(-> & _ & ->)]; done).
  assert (forall it, w = WriterSync it -> writer_task l = WriterSync it) as Hws by (destruct Hw as [->|(_ & _ & ->)]; done).
  assert (w = WriterNone -> fh l = false) as Hwn.
  { destruct Hw as [->|(_ & _ & ->)]; [|done]. intros ?. apply Hi. by left. }
  assert (fh l = true \/ w = WriterNone) as Ho.
  { destruct (li_open _ _ _ Hi) as [?|Ho]; [by left|]. destruct Hw as [->|(_ & ? & _)]; [by right|done]. }
  pose proof (li_calls _ _ _ Hi) as Hc. unfold pend in Hc.
  unfold fail_pending. destruct (queue l) as [q|] eqn:Hq.
  - eapply log_inv_frame; try done; simpl.
    + apply fewer_raise_all.
    + unfold pend. simpl. rewrite Hfl, items_app, <- app_assoc, <- (items_app (take _ _)), take_drop. by apply calls_raise_all.
    + intros [?|?]; [by apply Hwn|done].
  - eapply log_inv_frame; try done; simpl.
    + unfold pend. simpl. by rewrite Hfl, Hq.
    + intros [?|?]; [by apply Hwn|]. apply Hi. by right.
Qed.

Lemma with_failure_inv base ws l e : log_inv base ws l -> log_inv base ws (with_failure l e).
Proof. intros []. by split. Qed.

(** The call in flight failed before its payload was in the file. *)
Lemma writer_fail_write_inv base ws l e it :
  log_inv base ws l -> writer_task l = WriterWrite it -> log_inv base ws (writer_fail e it l).
Proof.
  intros Hi Hw. unfold writer_fail.
  set (l2 := with_calls _ _).
  assert (log_inv base ws (with_tasks l2 WriterIdle (fsync_task l))) as H2.
  { pose proof (li_calls _ _ _ Hi) as Hc. unfold pend in Hc. rewrite Hw in Hc.
    eapply log_inv_frame; try done; simpl.
    - apply fewer_raise.
    - unfold pend. simpl. by apply (calls_raise_mid ws [] it).
    - intros [?|?]; [done|]. apply Hi. by right.
    - left. destruct (li_open _ _ _ Hi); congruence. }
  apply (fail_pending_inv base ws (with_tasks l2 WriterIdle (fsync_task l)) e WriterDone (fsync_task l)) in H2; [|by right].
  unfold fail_pending in *. simpl in *. by destruct (queue l).
Qed.

(** The call in flight is in the file, but [fsync] failed. *)
Lemma writer_fail_sync_inv base ws l e it :
  log_inv base ws l -> writer_task l = WriterSync it -> log_inv base ws (writer_fail e it l).
Proof.
  intros Hi Hw. unfold writer_fail. set (l2 := with_calls _ _).
  pose proof (li_sync _ _ _ Hi it Hw) as Hlast. apply last_Some in Hlast as [ws' Hws].
  assert (log_inv base ws l2) as H2.
  { pose proof (li_calls _ _ _ Hi) as Hc. eapply log_inv_frame; try done; simpl.
    - apply fewer_raise.
    - apply calls_raise; [exact Hc|]. apply (calls_apart _ _ _ _ Hc). rewrite Hws. apply elem_of_app. right. by left.
    - apply Hi.
    - apply Hi. }
  apply fail_pending_inv; [done|]. right. simpl. by rewrite Hw.
Qed.

Lemma wire_app a c : wire (a ++ c) = wire a ++ wire c.
Proof. unfold wire. by rewrite map_app, concat_app. Qed.

(** A complete write: the call in flight joins the written ones. *)
Lemma wrote_inv base ws l it f :
  log_inv base ws l -> writer_task l = WriterWrite it ->
  log_inv base (ws ++ [completed it])
    (with_tasks (with_file l (file l ++ payload it) (synced l) true) (WriterSync it) f).
Proof.
  intros Hi Hw. pose proof (li_calls _ _ _ Hi) as Hc. unfold pend in Hc. rewrite Hw in Hc. simpl in Hc.
  pose proof (ci_pend _ _ _ Hc) as Hp. apply Forall_cons in Hp as [(argv & Hcall & Hpay) _].
  split; simpl.
  - by apply calls_write.
  - rewrite map_app, wire_app, app_assoc, <- (li_file _ _ _ Hi). do 2 f_equal. simpl. unfold wire. simpl.
    unfold argv_of. by rewrite Hcall, app_nil_r.
  - rewrite length_app. pose proof (li_synced _ _ _ Hi). lia.
  - done.
  - intros it' [= <-]. by rewrite last_snoc.
  - intros Hal i a Hd. destruct (li_durable _ _ _ Hi Hal i a Hd) as (j & Hj & Hle). exists j.
    split; [by apply lookup_app_l_Some|]. unfold bytes_through in *.
    apply lookup_lt_Some in Hj. by rewrite take_app_le by lia.
  - intros [?|?]; [done|]. apply Hi. by right.
  - left. destruct (li_open _ _ _ Hi); congruence.
Qed.

(** The future of the call written last is resolved. *)
Lemma complete_inv base ws l it :
  log_inv base ws l -> writer_task l = WriterSync it -> (fsync_policy l = always -> synced l = length (file l)) ->
  log_inv base ws (writer_complete it l).
Proof.
  intros Hi Hw Hs. pose proof (li_calls _ _ _ Hi) as Hc. pose proof (li_sync _ _ _ Hi it Hw) as Hlast.
  assert (completed it ∈ ws) as Hin by (by apply last_Some_elem_of).
  assert (map (argv_of (resolve (calls l) (completed it) Completed)) ws = map (argv_of (calls l)) ws) as Hargv.
  { apply map_ext. intros j. apply resolve_argv. }
  unfold writer_complete. split; simpl.
  - unfold pend in *. rewrite Hw in Hc. simpl in *. by apply calls_complete.
  - rewrite Hargv. apply Hi.
  - apply Hi.
  - apply Hi.
  - done.
  - intros Hal i argv. rewrite resolve_lookup. intros Hd. rewrite (Hs Hal).
    assert (exists j, ws !! j = Some i) as [j Hj].
    { apply list_elem_of_lookup. destruct (calls l !! i) as [[a []]|] eqn:E; simplify_eq.
      - case_bool_decide; [by subst|done].
      - by eapply ci_done. }
    exists j. split; [done|]. unfold bytes_through. rewrite (li_file _ _ _ Hi), !length_app.
    assert (map (argv_of (resolve (calls l) (completed it) Completed)) (take (S j) ws) = map (argv_of (calls l)) (take (S j) ws)) as ->.
    { apply map_ext. intros j'. apply resolve_argv. }
    rewrite <- (take_drop (S j) ws) at 2. rewrite map_app, wire_app, length_app. lia.
  - intros [?|?]; [done|]. apply Hi. by right.
  - left. destruct (li_open _ _ _ Hi); congruence.
Qed.

Lemma fsync_sync_inv base ws l io : log_inv base ws l ->
  log_inv base ws (fsync_sync io l).2 /\ writer_task (fsync_sync io l).2 = writer_task l /\
  fsync_task (fsync_sync io l).2 = fsync_task l /\ fsync_policy (fsync_sync io l).2 = fsync_policy l /\
  (is_ok (fsync_sync io l).1 = true -> writer_task l <> WriterNone ->
   synced (fsync_sync io l).2 = length (file (fsync_sync io l).2)).
Proof.
  intros Hi. unfold fsync_sync. destruct (negb (fh l) || negb (dirty l)) eqn:E; [|destruct io as [m|]]; simpl.
  - split_and!; try done. intros _ Hw. destruct (li_open _ _ _ Hi) as [Ho|]; [|done]. rewrite Ho in E. simpl in E.
    apply (li_clean _ _ _ Hi). by destruct (dirty l).
  - done.
  - split_and!; try done. destruct Hi. split; try done.
    intros Hal i argv Hd. destruct (li_durable0 Hal i argv Hd) as (j & Hj & Hle). exists j. split; [done|].
    simpl. lia.
Qed.

Lemma write_inv base ws l io :
  log_inv base ws l ->
  match io with WroteShort _ => False | _ => True end ->
  exists new, log_inv base (ws ++ new) (writer_write io l).
Proof.
  intros Hi Hn. unfold writer_write. destruct (writer_task l) as [| |it|it|] eqn:Hw; try (exists []; by rewrite app_nil_r).
  unfold write_sync. destruct (negb (fh l)); [|destruct io as [|n|m]; [|done|]].
  - exists []. rewrite app_nil_r. by apply writer_fail_write_inv.
  - exists [completed it].
    pose proof (wrote_inv base ws l it (fsync_task l) Hi Hw) as H. simpl.
    destruct (fsync_policy l) eqn:Hp; [exact H| |].
    all: apply (complete_inv base _ _ it) in H; [exact H|done|simpl; congruence].
  - exists []. rewrite app_nil_r. by apply writer_fail_write_inv.
Qed.

Lemma fsync_inv base ws l io : log_inv base ws l -> log_inv base ws (writer_fsync io l).
Proof.
  intros Hi. unfold writer_fsync. destruct (writer_task l) as [| |it|it|] eqn:Hw; try done.
  destruct (fsync_sync_inv base ws l io Hi) as (H & Hwt & _ & _ & Hs).
  destruct (fsync_sync io l) as [[[]|e] l'] eqn:E; simpl in *.
  - apply complete_inv; [done|by rewrite Hwt|]. intros _. apply Hs; [done|by rewrite Hw].
  - apply writer_fail_sync_inv; [done|by rewrite Hwt].
Qed.

Lemma tasks_inv base ws l f : log_inv base ws l -> log_inv base ws (with_tasks l (writer_task l) f).
Proof. intros []. by split. Qed.

Lemma tick_inv base ws l io : log_inv base ws l -> log_inv base ws (fsync_tick io l).
Proof.
  intros Hi. unfold fsync_tick. destruct (negb (fsync_task l)); [done|].
  destruct (fsync_sync_inv base ws l io Hi) as (H & _).
  destruct (fsync_sync io l) as [[[]|e] l'] eqn:E; simpl in *; [by apply tasks_inv|].
  pose proof (fail_pending_inv base ws (with_failure l' (Some e)) e (writer_task l') false (with_failure_inv _ _ _ _ H) (or_introl eq_refl)) as Hf.
  assert (writer_task (fail_pending e (with_failure l' (Some e))) = writer_task l') as ->; [|exact Hf].
  unfold fail_pending. simpl. by destruct (queue l').
Qed.

Lemma put_sentinel_inv base ws l q : log_inv base ws l -> queue l = Some q -> log_inv base ws (put None l q).
Proof.
  intros Hi Hq. assert (with_calls l (calls l) = l) as E by (by destruct l). rewrite <- E at 1. apply put_frame; [done|done|done|].
  rewrite app_nil_r. apply Hi.
Qed.

Lemma close_begin_inv base ws l : log_inv base ws l -> log_inv base ws (close_begin l).
Proof.
  intros Hi. unfold close_begin. set (l1 := with_handle l (fh l) true).
  assert (log_inv base ws l1) as H1 by (destruct Hi; by split).
  destruct (queue l1) as [q|] eqn:Hq; [|done]. destruct (writer_task l1); try done; by apply put_sentinel_inv.
Qed.

Lemma close_finish_inv base ws l io : log_inv base ws l -> log_inv base ws (close_finish io l).
Proof.
  intros Hi. unfold close_finish.
  assert (forall l1, log_inv base ws l1 -> in_flight (writer_task l1) = [] ->
            log_inv base ws (with_queue (with_handle (with_tasks l1 WriterNone false) false (closed l1)) None (woken l1) (putters l1))) as Hfin.
  { intros l1 H1 Hfl. pose proof (li_calls _ _ _ H1) as Hc. unfold pend in Hc.
    eapply log_inv_frame; try done; simpl; [|by right]. unfold pend. simpl. eapply calls_drop; [exact Hc|].
    rewrite Hfl. simpl. apply sublist_submseteq. by apply sublist_inserts_l. }
  destruct (writer_task l) eqn:Hw; try done.
  all: simpl; destruct (fh l) eqn:Hfh; simpl.
  all: destruct (fsync_sync_inv base ws l io Hi) as (Hs & Hws & _).
  all: try (specialize (Hfin (fsync_sync io l).2 Hs ltac:(by rewrite Hws, Hw)));
       try (specialize (Hfin l Hi ltac:(by rewrite Hw))).
  all: unfold fsync_sync in *; simpl in *; rewrite Hfh in *; simpl in *.
  all: try (destruct (dirty l); [destruct io as [m|]|]; simpl in * ; exact Hfin).
  all: destruct l; simpl in *; subst; exact Hfin.
Qed.

Lemma started_inv policy qmax base : log_inv base [] (started policy qmax base).
Proof.
  split; simpl; try done.
  - split; simpl; [constructor|constructor|constructor|]. intros i argv. by rewrite lookup_nil.
  - by rewrite app_nil_r.
  - by intros [?|?].
  - by left.
Qed.

(** Calls are only added to the file, behind those that are in it. *)
Lemma step_inv base ws l l' : log_inv base ws l -> log_step l l' -> exists new, log_inv base (ws ++ new) l'.
Proof.
  intros Hi Hs. assert (log_inv base ws l' -> exists new, log_inv base (ws ++ new) l') as Hsame by (intros H; exists []; by rewrite app_nil_r).
  destruct Hs; [apply Hsame|apply Hsame|apply Hsame|apply Hsame| | |apply Hsame..].
  - by apply append_inv.
  - by apply timeout_inv.
  - by apply woken_inv.
  - by apply take_inv.
  - by apply (write_inv base ws l WroteAll).
  - by apply (write_inv base ws l (WriteError m)).
  - by apply fsync_inv.
  - by apply tick_inv.
  - by apply close_begin_inv.
  - by apply close_finish_inv.
Qed.

Lemma steps_inv base ws l l' : log_inv base ws l -> rtc log_step l l' -> exists new, log_inv base (ws ++ new) l'.
Proof.
  intros Hi H. revert ws Hi. induction H as [|x y z Hxy _ IH]; intros ws Hi; [exists []; by rewrite app_nil_r|].
  destruct (step_inv _ _ _ _ Hi Hxy) as [new Hy]. destruct (IH _ Hy) as [new' Hz]. exists (new ++ new'). by rewrite app_assoc.
Qed.

Lemma reachable_inv policy qmax base l : rtc log_step (started policy qmax base) l -> exists ws, log_inv base ws l.
Proof. intros H. exact (steps_inv base [] _ l (started_inv policy qmax base) H). Qed.

Lemma step_policy l l' : log_step l l' -> fsync_policy l' = fsync_policy l.
Proof.
  intros Hs. destruct Hs; simpl;
    unfold append, put_woken, put, put_timeout, writer_take, writer_write, writer_fsync, fsync_tick, close_begin, close_finish,
      put, writer_fail, fail_pending, write_sync, fsync_sync;
    repeat (case_match; simplify_eq; simpl in *; try done).
Qed.

Lemma reachable_policy policy qmax base l :
  rtc log_step (started policy qmax base) l -> fsync_policy l = policy.
Proof.
  intros H. change policy with (fsync_policy (started policy qmax base)).
  induction H as [|x y z Hxy _ IH]; [done|]. rewrite IH. by apply step_policy.
Qed.

(** ** Properties *)

Lemma wire_take_le (a c : nat) cmds : (a <= c)%nat -> (length (wire (take a cmds)) <= length (wire (take c cmds)))%nat.
Proof.
  intros H. rewrite <- (take_drop a (take c cmds)), take_take, Nat.min_l by done.
  rewrite wire_app, length_app. lia.
Qed.

(** A cut that keeps the first [p + 1] records whole delivers them. *)
Lemma cut_keeps n k p cmds rest :
  take n (wire cmds) = wire (take k cmds) ++ rest ->
  (k < length cmds -> exists c, cmds !! k = Some c /\ (length rest < length (encode_command c))%nat)%nat ->
  (p < length cmds)%nat -> (length (wire (take (S p) cmds)) <= n)%nat -> (p < k)%nat.
Proof.
  intros Ht Hk Hp Hn. apply not_ge. intros Hge. destruct (Hk ltac:(lia)) as (c & Hc & Hlt).
  pose proof (wire_take_le (S k) (S p) cmds ltac:(lia)) as Hle. rewrite (take_S_r _ _ _ Hc), wire_app, length_app in Hle.
  pose proof (wire_take_le (S p) (length cmds) cmds ltac:(lia)) as Hall. rewrite firstn_all in Hall.
  apply (f_equal length) in Ht. rewrite length_take, length_app in Ht.
  assert (wire [c] = encode_command c) as Hw by (unfold wire; simpl; by rewrite app_nil_r). rewrite Hw in Hle. lia.
Qed.

(** C2 Crash safety of the append-only log, between two rewrites.  Start the log
    on a file holding the commands [cmds0] and let appends, queue timeouts, writes,
    fsyncs, I/O errors and shutdown happen in any order, every write that does not
    fail being complete; let [l0] be the log at some moment and [l] at a later one.
    The file holds [cmds0] followed by written calls, each once: the calls [ws0]
    that were in it at the earlier moment, every acknowledged one among them and
    none that was made later, and then others.  Every call acknowledged by now is
    in it.  If the machine now dies and any part of the file that was not yet
    synced is lost, [read_commands] succeeds and returns a prefix of that sequence,
    never a damaged command, for commands within the parser's limits and a file of
    at most 32,000,000 bytes and within the load limit; and under the [always]
    policy that prefix contains every acknowledged call. *)
Theorem aof_crash_recovery policy qmax cmds0 l0 l n mbl maxf :
  rtc log_step (started policy qmax (wire cmds0)) l0 -> rtc log_step l0 l ->
  0 <= mbl < 10 ^ int_max_str_digits -> Forall (loggable mbl) cmds0 -> Forall (fun c => loggable mbl c.1) (calls l) ->
  zlen (file l) <= Z.min 32000000 maxf -> (synced l <= n)%nat ->
  exists ws0 ws1 k, let ws := ws0 ++ ws1 in
    NoDup ws /\ file l = wire (cmds0 ++ map (argv_of (calls l)) ws) /\
    file l0 = wire (cmds0 ++ map (argv_of (calls l0)) ws0) /\ Forall (fun i => (i < length (calls l0))%nat) ws0 /\
    (forall i argv, calls l0 !! i = Some (argv, Completed) -> i ∈ ws0) /\
    (forall i argv, calls l !! i = Some (argv, Completed) -> i ∈ ws) /\
    read_commands mbl maxf (Some (take n (file l))) = Ok (take k (cmds0 ++ map (argv_of (calls l)) ws)) /\
    (policy = always -> forall i argv, calls l !! i = Some (argv, Completed) ->
       exists j, ws !! j = Some i /\ (length cmds0 + j < k)%nat).
Proof.
  intros Hr0 Hr Hmbl H0 Hcs Hsize Hn. destruct (reachable_inv _ _ _ _ Hr0) as [ws0 Hi0]. destruct (steps_inv _ _ _ _ Hi0 Hr) as [ws1 Hi].
  assert (rtc log_step (started policy qmax (wire cmds0)) l) as Hr1 by (by etrans). exists ws0, ws1. set (ws := ws0 ++ ws1) in *. cbv zeta.
  assert (file l = wire (cmds0 ++ map (argv_of (calls l)) ws)) as Hf by (rewrite wire_app; apply Hi).
  set (cmds := cmds0 ++ map (argv_of (calls l)) ws) in *.
  assert (Forall (loggable mbl) cmds) as Hl.
  { apply Forall_app. split; [done|]. apply Forall_map.
    pose proof (ci_bound _ _ _ (li_calls _ _ _ Hi)) as Hb. apply Forall_app in Hb as [Hb _].
    eapply Forall_impl; [exact Hb|]. intros i Hlt. cbn beta. unfold argv_of.
    destruct (lookup_lt_is_Some_2 _ _ Hlt) as [x Hx]. rewrite Hx. simpl.
    rewrite Forall_forall in Hcs. apply Hcs. by eapply list_elem_of_lookup_2. }
  rewrite Hf in Hsize. destruct (read_commands_cut mbl maxf cmds n Hmbl Hl Hsize) as (k & rest & Hread & Ht & Hk & _).
  exists k. rewrite Hf. split_and!; try done.
  - pose proof (ci_nodup _ _ _ (li_calls _ _ _ Hi)) as Hnd. by apply NoDup_app in Hnd as [? _].
  - rewrite wire_app. apply Hi0.
  - pose proof (ci_bound _ _ _ (li_calls _ _ _ Hi0)) as Hb. by apply Forall_app in Hb as [? _].
  - apply Hi0.
  - apply Hi.
  - intros -> i argv Hd. destruct (li_durable _ _ _ Hi (reachable_policy _ _ _ _ Hr1) i argv Hd) as (j & Hj & Hle).
    exists j. split; [done|]. apply (cut_keeps n k _ cmds rest); try done.
    + unfold cmds. rewrite length_app, length_map. apply lookup_lt_Some in Hj. lia.
    + unfold bytes_through in Hle. rewrite <- wire_app in Hle. unfold cmds.
      rewrite take_app_ge by lia. replace (S (length cmds0 + j) - length cmds0)%nat with (S j) by lia.
      rewrite <- firstn_map in Hle. lia.
Qed.

Definition ex_set (k v : bytes) : list bytes := [b "SET"; k; v].

(** One acknowledged call, and one that is written but not synced. *)
Definition ex_log0 : AOFLog := started always 10 (wire [ex_set (b "a") (b "1")]).
Definition ex_log1 : AOFLog := writer_take (append (WroteAll, None) (ex_set (b "b") (b "2")) ex_log0).2.
Definition ex_log2 : AOFLog := writer_fsync None (writer_write WroteAll ex_log1).
Definition ex_log3 : AOFLog := writer_take (append (WroteAll, None) (ex_set (b "c") (b "3")) ex_log2).2.
Definition ex_log : AOFLog := writer_write WroteAll ex_log3.

Lemma ex_log_reachable : rtc log_step ex_log0 ex_log2 /\ rtc log_step ex_log2 ex_log.
Proof.
  split.
  - apply (rtc_l _ _ (append (WroteAll, None) (ex_set (b "b") (b "2")) ex_log0).2); [apply step_append|].
    apply (rtc_l _ _ ex_log1); [apply step_take|].
    apply (rtc_l _ _ (writer_write WroteAll ex_log1)); [apply step_write|].
    apply rtc_once, step_fsync.
  - apply (rtc_l _ _ (append (WroteAll, None) (ex_set (b "c") (b "3")) ex_log2).2); [apply step_append|].
    apply (rtc_l _ _ ex_log3); [apply step_take|].
    apply rtc_once, step_write.
Qed.

Lemma aof_crash_recovery_witness :
  exists ws0 ws1 k, file ex_log = wire ([ex_set (b "a") (b "1")] ++ map (argv_of (calls ex_log)) (ws0 ++ ws1)) /\ (0%nat ∈ ws0) /\
    read_commands 1000 1000000 (Some (take (synced ex_log) (file ex_log))) =
      Ok (take k ([ex_set (b "a") (b "1")] ++ map (argv_of (calls ex_log)) (ws0 ++ ws1))) /\
    exists j, (ws0 ++ ws1) !! j = Some 0%nat /\ (1 + j < k)%nat.
Proof.
  destruct (aof_crash_recovery always 10 [ex_set (b "a") (b "1")] ex_log2 ex_log (synced ex_log) 1000 1000000)
    as (ws0 & ws1 & k & _ & Hf & _ & _ & H0 & _ & Hr & Hd).
  - exact (proj1 ex_log_reachable).
  - exact (proj2 ex_log_reachable).
  - split; [discriminate|vm_compute; reflexivity].
  - apply Forall_cons_2; [|constructor]. split; [discriminate|reflexivity].
  - assert (map fst (calls ex_log) = [ex_set (b "b") (b "2"); ex_set (b "c") (b "3")]) as E by (vm_compute; reflexivity).
    apply (Forall_map fst). change (Forall (loggable 1000) (map fst (calls ex_log))). rewrite E.
    repeat apply Forall_cons_2; [split; [discriminate|reflexivity]..|apply Forall_nil_2].
  - vm_compute. discriminate.
  - apply Nat.le_refl.
  - exists ws0, ws1, k. split; [exact Hf|]. split; [apply (H0 0%nat (ex_set (b "b") (b "2"))); vm_compute; reflexivity|]. split; [exact Hr|].
    apply (Hd eq_refl 0%nat (ex_set (b "b") (b "2"))). vm_compute. reflexivity.
Defined.

Lemma resolve_all_keeps e q cs j a :
  cs !! j = Some (a, Raised e) -> resolve_all cs q (Raised e) !! j = Some (a, Raised e).
Proof.
  revert cs. induction q as [|[x|] q IH]; intros cs Hj; simpl; [done| |by apply IH].
  apply IH. by rewrite resolve_lookup, Hj.
Qed.

Lemma resolve_all_raises e q cs j a x :
  Some x ∈ q -> completed x = j -> cs !! j = Some (a, Waiting) ->
  resolve_all cs q (Raised e) !! j = Some (a, Raised e).
Proof.
  revert cs. induction q as [|y q IH]; intros cs Hin Hx Hj; [by apply elem_of_nil in Hin|].
  simpl. destruct (decide (y = Some x)) as [->|Hne].
  - apply resolve_all_keeps. rewrite resolve_lookup, Hj. by rewrite bool_decide_true.
  - apply elem_of_cons in Hin as [?|Hin]; [done|]. destruct y as [y|]; [|by apply IH].
    destruct (decide (completed y = j)) as [Hy|Hy].
    + apply resolve_all_keeps. rewrite resolve_lookup, Hj. by rewrite bool_decide_true.
    + apply IH; [done|done|]. rewrite resolve_lookup, Hj. by rewrite bool_decide_false.
Qed.

(** C25 A failed append is never silent and never acknowledged late: when the
    write of the writer task fails, or its fsync under the [always] policy, the
    call in flight and every call in the queue raise the error, the writer ends,
    the log becomes unhealthy, and from then on [append] raises without touching
    the file.  (Calls that still wait for a place in a full queue are not among
    them, see [aof_full_queue_hang].) *)
Theorem aof_failure_fails_pending l l' it e :
  (writer_task l = WriterWrite it /\ exists io, write_sync io (payload it) l = (Err e, l) /\ l' = writer_write io l) \/
  (writer_task l = WriterSync it /\ exists io, fsync_sync io l = (Err e, l) /\ l' = writer_fsync io l) ->
  calls l !! completed it = Some (argv_of (calls l) (completed it), Waiting) ->
  healthy l' = false /\ writer_task l' = WriterDone /\ file l' = file l /\
  calls l' !! completed it = Some (argv_of (calls l) (completed it), Raised e) /\
  (forall q it', queue l = Some q -> Some it' ∈ q -> completed it' <> completed it ->
     calls l !! completed it' = Some (argv_of (calls l) (completed it'), Waiting) ->
     calls l' !! completed it' = Some (argv_of (calls l) (completed it'), Raised e)) /\
  (enabled l = true -> fh l = true -> forall io' argv, exists m, append io' argv l' = (Returned (Err (OSError m)), l')).
Proof.
  intros Hio Hcall. assert (l' = writer_fail e it l) as ->.
  { destruct Hio as [(Hw & io & Hio & ->)|(Hw & io & Hio & ->)]; [unfold writer_write|unfold writer_fsync]; by rewrite Hw, Hio. }
  clear Hio. unfold writer_fail. set (cs1 := resolve (calls l) (completed it) (Raised e)).
  assert (cs1 !! completed it = Some (argv_of (calls l) (completed it), Raised e)) as H1.
  { unfold cs1. rewrite resolve_lookup, Hcall. by rewrite bool_decide_true. }
  unfold fail_pending. simpl. destruct (queue l) as [q|] eqn:Hq; simpl; split_and!; try done.
  - by apply resolve_all_keeps.
  - intros q0 it' [= <-] Hin Hne Hw'. eapply resolve_all_raises; [exact Hin|done|]. unfold cs1. rewrite resolve_lookup, Hw'.
    by rewrite bool_decide_false.
  - intros Hen Hfh io' argv. unfold append. simpl. rewrite Hen, Hfh. simpl. eauto.
  - intros Hen Hfh io' argv. unfold append. simpl. rewrite Hen, Hfh. simpl. eauto.
Qed.

(** Two calls under [always]: the fsync of the first fails while the second is
    in the queue. *)
Lemma aof_failure_fails_pending_witness :
  let l := writer_write WroteAll (writer_take (append (WroteAll, None) (ex_set (b "b") (b "2"))
             (append (WroteAll, None) (ex_set (b "a") (b "1")) (started always 10 [])).2).2) in
  let l' := writer_fsync (Some (u "Input/output error")) l in
  healthy l' = false /\ calls l' !! 0%nat = Some (ex_set (b "a") (b "1"), Raised (OSError (u "Input/output error"))) /\
  calls l' !! 1%nat = Some (ex_set (b "b") (b "2"), Raised (OSError (u "Input/output error"))).
Proof.
  intros l l'.
  destruct (aof_failure_fails_pending l l' (mkItem (encode_command (ex_set (b "a") (b "1"))) 0) (OSError (u "Input/output error")))
    as (H1 & _ & _ & H2 & H3 & _).
  - right. split; [reflexivity|]. exists (Some (u "Input/output error")). split; reflexivity.
  - reflexivity.
  - split; [exact H1|]. split; [exact H2|].
    apply (H3 [Some (mkItem (encode_command (ex_set (b "b") (b "2"))) 1)] (mkItem (encode_command (ex_set (b "b") (b "2"))) 1)); try reflexivity; [left|discriminate].
Defined.

(** A short write is acknowledged: the unbuffered [write] may store only part
    of the payload, its result is ignored, and the call completes although its
    record is not in the file. *)
Theorem aof_short_write_acknowledged :
  let l := writer_take (append (WroteAll, None) (ex_set (b "a") (b "1")) (started everysec 10 [])).2 in
  let l' := writer_write (WroteShort 5) l in
  calls l' !! 0%nat = Some (ex_set (b "a") (b "1"), Completed) /\ healthy l' = true /\
  read_commands 1000 1000 (Some (file l')) = Ok [].
Proof. vm_compute. auto. Qed.

(** The writer is dead, no fsync loop runs, and call [i] waits. *)
Definition stranded (i : nat) (argv : list bytes) (l : AOFLog) : Prop :=
  (writer_task l = WriterDone \/ (writer_task l = WriterNone /\ fh l = false)) /\ fsync_task l = false /\ woken l = [] /\ putters l = [] /\
  failure l <> None /\ calls l !! i = Some (argv, Waiting).

Lemma stranded_step i argv l l' : stranded i argv l -> log_step l l' -> stranded i argv l'.
Proof.
  intros Hst Hs. pose proof Hst as (Hw & Hf & Hk & Hp & Hfl & Hc). destruct Hs.
  - assert ((append io argv0 l).2 = l) as ->; [|done].
    unfold append. destruct (negb (enabled l) || negb (fh l)); [done|]. by destruct (failure l).
  - unfold put_timeout. by rewrite Hp, Hk.
  - unfold put_woken. rewrite Hk. by destruct (queue l).
  - unfold writer_take. by destruct Hw as [->|[-> ?]].
  - unfold writer_write. by destruct Hw as [->|[-> ?]].
  - unfold writer_write. by destruct Hw as [->|[-> ?]].
  - unfold writer_fsync. by destruct Hw as [->|[-> ?]].
  - unfold fsync_tick. by rewrite Hf.
  - unfold close_begin. simpl. destruct (queue l), Hw as [Hw|[Hw ?]]; try rewrite Hw; unfold stranded; simpl; auto 7.
  - unfold close_finish, fsync_sync. destruct Hw as [Hw|[Hw Hfh]]; rewrite Hw; unfold stranded; simpl;
      destruct (fh l) eqn:E; simpl; try done.
    all: try (destruct (dirty l); [destruct io|]); simpl; auto 7.
Qed.

Definition ex_hang0 : AOFLog := (append (WroteAll, None) (ex_set (b "a") (b "1")) (started always 1 [])).2.
Definition ex_hang1 : AOFLog := (append (WroteAll, None) (ex_set (b "b") (b "2")) (writer_take ex_hang0)).2.
Definition ex_hang2 : AOFLog := (append (WroteAll, None) (ex_set (b "c") (b "3")) ex_hang1).2.
Definition ex_hang3 : AOFLog := writer_write (WriteError (u "No space left on device")) ex_hang2.
Definition ex_hang : AOFLog := put_woken ex_hang3.

(** An [append] that waits for a place in a full queue when the writer dies
    hangs for ever: emptying the queue lets it put its item, and no task is
    left to resolve it.  (The server never has two appends under way, so it
    does not run into this.) *)
Theorem aof_full_queue_hang :
  rtc log_step (started always 1 []) ex_hang /\
  forall l', rtc log_step ex_hang l' -> calls l' !! 2%nat = Some (ex_set (b "c") (b "3"), Waiting).
Proof.
  split.
  - apply (rtc_l _ _ ex_hang0); [apply step_append|]. apply (rtc_l _ _ (writer_take ex_hang0)); [apply step_take|].
    apply (rtc_l _ _ ex_hang1); [apply step_append|]. apply (rtc_l _ _ ex_hang2); [apply step_append|].
    apply (rtc_l _ _ ex_hang3); [apply step_write_error|]. apply rtc_once, step_woken.
  - intros l' H. assert (stranded 2 (ex_set (b "c") (b "3")) ex_hang) as H0.
    { unfold stranded. split_and!; try (vm_compute; reflexivity); [left; vm_compute; reflexivity|vm_compute; discriminate]. }
    enough (stranded 2 (ex_set (b "c") (b "3")) l') as (_ & _ & _ & _ & _ & ?) by done.
    induction H as [|x y z Hxy _ IH]; [done|]. apply IH. by eapply stranded_step.
Qed.
