(* ===== verification/Config.v ===== *)
(** * Configuration ([config.py])

    The [Config] dataclass with its defaults, the options of
    [build_arg_parser] with theirs, and the validation of
    [config_from_args].  Parsing the command line itself is [argparse]; the
    namespace it returns is the argument here. *)
From S2P Require Import Prelude PyText PyFloat Store AofLog.
Local Open Scope Z_scope.

Inductive Role := master | replica.

#[global] Instance Role_eq_dec : EqDecision Role.
Proof. solve_decision. Defined.

Record Config := mkConfig {
  host : str;
  port : Z;
  dir : str;
  dbfilename : str;
  aof_enabled : bool;
  aof_filename : str;
  aof_fsync : AofFsync;
  role : Role;
  replicaof_host : option str;
  replicaof_port : option Z;
  log_level : str;
  rdb_save_seconds : Z;
  proto_max_bulk_len : Z;
  proto_max_array_len : Z;
  cfg_max_array_depth : Z;
  cfg_max_buffer_bytes : Z;
  partial_timeout_sec : pyfloat;
  client_idle_timeout_sec : pyfloat;
  max_clients : Z;
  max_auth_failures : Z;
  aof_queue_max_commands : Z;
  aof_enqueue_timeout_sec : pyfloat;
  replica_backlog_max_bytes : Z;
  replica_pending_max_commands : Z;
  persistence_max_load_bytes : Z;
  cfg_maxmemory_bytes : Z;
  cfg_maxmemory_policy : MaxmemoryPolicy;
  requirepass : option str;
  masterauth : option str;
  allow_unprotected_non_loopback : bool
}.

(** [Config()] *)
Definition default_config : Config :=
  mkConfig (u "127.0.0.1") 6379 (u "data") (u "dump.rdb") true (u "appendonly.aof") everysec master None None
    (u "info") 0 16777216 1024 16 32000000 (float_of_Z 30) (float_of_Z 300) 1000 5 10000 (float_of_Z 5)
    (64 * 1024 * 1024) 10000 (1024 * 1024 * 1024) 0 noeviction None None false.

Definition is_replica (c : Config) : bool := match role c with replica => true | master => false end.

(** ** The data files *)

(** A POSIX [Path]: the root (nothing, one slash, or exactly two) and the
    components, of which empty ones and [.] are dropped. *)
Record Path := mkPath { path_root : str; path_parts : list str }.

Fixpoint split_slash (s : str) : list str :=
  match s with
  | [] => [[]]
  | c :: s' =>
      match split_slash s' with
      | part :: parts => if ceqb c "/" then [] :: part :: parts else (c :: part) :: parts
      | [] => []
      end
  end.

Definition path_of (s : str) : Path :=
  let root :=
    match s with
    | c1 :: c2 :: c3 :: _ => if ceqb c1 "/" then if ceqb c2 "/" && negb (ceqb c3 "/") then u "//" else u "/" else []
    | [c1; c2] => if ceqb c1 "/" then if ceqb c2 "/" then u "//" else u "/" else []
    | [c1] => if ceqb c1 "/" then u "/" else []
    | [] => []
    end in
  mkPath root (filter (fun part => part <> [] /\ part <> u ".") (split_slash s)).

(** [p / q] *)
Definition path_join (p q : Path) : Path :=
  match path_root q with [] => mkPath (path_root p) (path_parts p ++ path_parts q) | _ => q end.

Definition rdb_path (c : Config) : Path := path_join (path_of (dir c)) (path_of (dbfilename c)).
Definition aof_path (c : Config) : Path := path_join (path_of (dir c)) (path_of (aof_filename c)).

Example path_ex :
  map (fun '(d, f) => path_join (path_of d) (path_of f)) [(u "/srv/./data/", u "dump.rdb"); (u "data", u "/tmp//x"); (u "//a", u "."); (u "///a", u "../b")] =
  [mkPath (u "/") [u "srv"; u "data"; u "dump.rdb"]; mkPath (u "/") [u "tmp"; u "x"]; mkPath (u "//") [u "a"]; mkPath (u "/") [u "a"; u ".."; u "b"]].
Proof. reflexivity. Qed.

(** ** [--replicaof] *)

(** [int(s)] of text: ASCII text is read as bytes are, except that the four
    separators also count as white space; other text may use any Unicode
    digits and white space, and [unicode_int] stands for that. *)
Definition int_of_str (unicode_int : str -> option Z) (s : str) : option Z :=
  if forallb (fun c => byte_to_Z c <? 128) s then
    int_of_bytes (map (fun c => if (28 <=? byte_to_Z c) && (byte_to_Z c <=? 31) then " "%byte else c) s)
  else unicode_int s.

(** [s.rpartition(":")], [None] when there is no colon. *)
Fixpoint rpartition_colon (s : str) : option (str * str) :=
  match s with
  | [] => None
  | c :: s' =>
      match rpartition_colon s' with
      | Some (h, t) => Some (c :: h, t)
      | None => if ceqb c ":" then Some ([], s') else None
      end
  end.

(** The message of the [ArgumentTypeError], or the address. *)
Definition parse_replicaof (unicode_int : str -> option Z) (value : str) : str + (str * Z) :=
  match rpartition_colon value with
  | None => inl (u "replicaof must be HOST:PORT, e.g. 127.0.0.1:6379")
  | Some ([], _) => inl (u "replicaof host must not be empty")
  | Some (h, port_s) =>
      match int_of_str unicode_int port_s with
      | None => inl (u "replicaof port must be an integer")
      | Some p => if (1 <=? p) && (p <=? 65535) then inr (h, p) else inl (u "replicaof port out of range")
      end
  end.

(** ** The namespace of [argparse] *)

Record Args := mkArgs {
  a_host : str;
  a_port : Z;
  a_dir : str;
  a_dbfilename : str;
  a_aof_enabled : bool;
  a_aof_filename : str;
  a_aof_fsync : AofFsync;
  a_replicaof : option (str * Z);
  a_log_level : str;
  a_rdb_save_seconds : Z;
  a_proto_max_bulk_len : Z;
  a_proto_max_array_len : Z;
  a_max_array_depth : Z;
  a_max_buffer_bytes : Z;
  a_partial_timeout_sec : pyfloat;
  a_client_idle_timeout_sec : pyfloat;
  a_max_clients : Z;
  a_max_auth_failures : Z;
  a_aof_queue_max_commands : Z;
  a_aof_enqueue_timeout_sec : pyfloat;
  a_replica_backlog_max_bytes : Z;
  a_replica_pending_max_commands : Z;
  a_persistence_max_load_bytes : Z;
  a_maxmemory_bytes : Z;
  a_maxmemory_policy : MaxmemoryPolicy;
  a_requirepass : option str;
  a_masterauth : option str;
  a_allow_unprotected_non_loopback : bool
}.

(** The namespace of an empty command line: the defaults of
    [build_arg_parser].  The passwords come from the environment. *)
Definition default_args (env_password env_master_password : option str) : Args :=
  mkArgs (u "127.0.0.1") 6379 (u "data") (u "dump.rdb") true (u "appendonly.aof") everysec None (u "info") 0
    16777216 1024 16 32000000 (float_of_Z 30) (float_of_Z 300) 1000 5 10000 (float_of_Z 5)
    (64 * 1024 * 1024) 10000 (1024 * 1024 * 1024) 0 noeviction env_password env_master_password false.

(** ** Validation *)

(** The checks in order: the message of [parser.error] of the first that
    fails. *)
Definition first_error (checks : list (bool * str)) : option str :=
  snd <$> find (fun c => c.1) checks.

Definition empty_str (s : option str) : bool := match s with Some [] => true | _ => false end.

Definition arg_errors (a : Args) : list (bool * str) :=
  [(negb ((1 <=? a_port a) && (a_port a <=? 65535)), u "port out of range: " ++ str_of_int (a_port a));
   (a_proto_max_bulk_len a <? 1024, u "proto-max-bulk-len must be >= 1024");
   (a_proto_max_array_len a <=? 0, u "proto-max-array-len must be > 0");
   (a_max_array_depth a <=? 0, u "max-array-depth must be > 0");
   (a_rdb_save_seconds a <? 0, u "rdb-save-seconds must be >= 0");
   (a_max_buffer_bytes a <? 1024, u "max-buffer-bytes must be >= 1024");
   (float_le_0 (a_partial_timeout_sec a), u "partial-timeout-sec must be > 0");
   (float_le_0 (a_client_idle_timeout_sec a), u "client-idle-timeout-sec must be > 0");
   (a_max_clients a <=? 0, u "max-clients must be > 0");
   (a_max_auth_failures a <=? 0, u "max-auth-failures must be > 0");
   (a_aof_queue_max_commands a <=? 0, u "aof-queue-max-commands must be > 0");
   (float_le_0 (a_aof_enqueue_timeout_sec a), u "aof-enqueue-timeout-sec must be > 0");
   (a_replica_backlog_max_bytes a <? 1024, u "replica-backlog-max-bytes must be >= 1024");
   (a_replica_pending_max_commands a <=? 0, u "replica-pending-max-commands must be > 0");
   (a_persistence_max_load_bytes a <? 1024, u "persistence-max-load-bytes must be >= 1024");
   (a_maxmemory_bytes a <? 0, u "maxmemory-bytes must be >= 0");
   (empty_str (a_requirepass a), u "requirepass must not be empty");
   (empty_str (a_masterauth a), u "masterauth must not be empty")].

(** [config_from_args]: the message with which it exits, or the
    configuration.  [absolute] makes a directory absolute. *)
Definition config_from_args (absolute : str -> str) (a : Args) : str + Config :=
  match first_error (arg_errors a) with
  | Some msg => inl msg
  | None =>
      let '(role, rhost, rport) :=
        match a_replicaof a with
        | None => (master, None, None)
        | Some (h, p) => (replica, Some h, Some p)
        end in
      inr (mkConfig (a_host a) (a_port a) (absolute (a_dir a)) (a_dbfilename a) (a_aof_enabled a) (a_aof_filename a)
        (a_aof_fsync a) role rhost rport (a_log_level a) (a_rdb_save_seconds a) (a_proto_max_bulk_len a)
        (a_proto_max_array_len a) (a_max_array_depth a) (a_max_buffer_bytes a) (a_partial_timeout_sec a)
        (a_client_idle_timeout_sec a) (a_max_clients a) (a_max_auth_failures a) (a_aof_queue_max_commands a)
        (a_aof_enqueue_timeout_sec a) (a_replica_backlog_max_bytes a) (a_replica_pending_max_commands a)
        (a_persistence_max_load_bytes a) (a_maxmemory_bytes a) (a_maxmemory_policy a) (a_requirepass a)
        (a_masterauth a) (a_allow_unprotected_non_loopback a))
  end.

(** ** Properties *)

Lemma first_error_none checks : first_error checks = None -> Forall (fun c => c.1 = false) checks.
Proof.
  unfold first_error. induction checks as [|[c m] l IH]; simpl; [constructor|]. destruct c; [done|]. eauto.
Qed.

(** What the rest of the server relies on. *)
Record config_ok (c : Config) : Prop := {
  cok_port : 1 <= port c <= 65535;
  cok_bulk : 1024 <= proto_max_bulk_len c;
  cok_array : 0 < proto_max_array_len c;
  cok_depth : 0 < cfg_max_array_depth c;
  cok_buffer : 1024 <= cfg_max_buffer_bytes c;
  cok_clients : 0 < max_clients c;
  cok_auth : 0 < max_auth_failures c;
  cok_queue : 0 < aof_queue_max_commands c;
  cok_backlog : 1024 <= replica_backlog_max_bytes c;
  cok_pending : 0 < replica_pending_max_commands c;
  cok_load : 1024 <= persistence_max_load_bytes c;
  cok_memory : 0 <= cfg_maxmemory_bytes c;
  cok_save : 0 <= rdb_save_seconds c;
  cok_partial : float_le_0 (partial_timeout_sec c) = false;
  cok_idle : float_le_0 (client_idle_timeout_sec c) = false;
  cok_enqueue : float_le_0 (aof_enqueue_timeout_sec c) = false;
  cok_password : requirepass c <> Some [];
  cok_masterauth : masterauth c <> Some [];
  cok_replica : if is_replica c
                then exists h p, replicaof_host c = Some h /\ h <> [] /\ replicaof_port c = Some p /\ 1 <= p <= 65535
                else replicaof_host c = None /\ replicaof_port c = None
}.

Lemma parse_replicaof_ok ui v h p : parse_replicaof ui v = inr (h, p) -> h <> [] /\ 1 <= p <= 65535.
Proof.
  unfold parse_replicaof. destruct (rpartition_colon v) as [[[|c h'] t]|]; [done| |done].
  destruct (int_of_str ui t) as [q|]; [|done]. case_if; [|done]. intros [= <- <-]. split; [done|lia].
Qed.

(** C31 A configuration that [config_from_args] accepts is within every bound
    it checks (the three timeouts are not zero or less, which a NaN satisfies),
    its passwords are not empty, and it is a replica exactly when it has a
    master address with a host and a port in range (which [start] asserts), given
    that the address came from [_parse_replicaof]. *)
Theorem config_validated unicode_int absolute a c :
  (forall h p, a_replicaof a = Some (h, p) -> exists v, parse_replicaof unicode_int v = inr (h, p)) ->
  config_from_args absolute a = inr c -> config_ok c.
Proof.
  intros Hrep. unfold config_from_args. destruct (first_error (arg_errors a)) eqn:E; [done|].
  apply first_error_none in E. unfold arg_errors in E. rewrite !Forall_cons in E. simpl in E.
  destruct E as (E1 & E2 & E3 & E4 & E5 & E6 & E7 & E8 & E9 & E10 & E11 & E12 & E13 & E14 & E15 & E16 & E17 & E18 & _).
  apply negb_false_iff in E1.
  destruct (a_replicaof a) as [[h p]|] eqn:Er; intros [= <-]; split; simpl; try lia; try done.
  all: try (intros Hs; rewrite Hs in *; done).
  destruct (Hrep h p eq_refl) as [v Hv]. apply parse_replicaof_ok in Hv. naive_solver.
Qed.

Lemma config_validated_witness :
  exists c, config_from_args (fun d => b "/" ++ d) (default_args (Some (u "secret")) None) = inr c /\ config_ok c.
Proof.
  eexists. split; [reflexivity|].
  apply (config_validated (fun _ => None) (fun d => b "/" ++ d) (default_args (Some (u "secret")) None)).
  - intros h p H. discriminate.
  - reflexivity.
Defined.

(** The name of a file in the data directory. *)
Definition plain_name (f : str) : Prop := ("/"%byte ∉ f) /\ f <> [] /\ f <> u ".".

Lemma split_plain f : ("/"%byte ∉ f) -> split_slash f = [f].
Proof.
  induction f as [|c f IH]; [done|]. intros [Hc Hf]%not_elem_of_cons. simpl. rewrite IH by done.
  replace (ceqb c "/") with false; [done|]. symmetry. by apply ceqb_neq.
Qed.

Lemma path_plain f : plain_name f -> path_of f = mkPath [] [f].
Proof.
  intros (Hs & Hne & Hdot). unfold path_of. rewrite split_plain by done. rewrite filter_cons_True, filter_nil by done. f_equal.
  destruct f as [|c1 f]; [done|]. apply not_elem_of_cons in Hs as [Hc _]. assert (ceqb c1 "/" = false) as -> by (by apply ceqb_neq).
  by destruct f as [|? [|? ?]].
Qed.

(** The two data files are different files when their names are. *)
Lemma data_files_apart c : plain_name (dbfilename c) -> plain_name (aof_filename c) -> dbfilename c <> aof_filename c -> rdb_path c <> aof_path c.
Proof.
  intros Hd Ha Hne E. unfold rdb_path, aof_path in E. rewrite (path_plain _ Hd), (path_plain _ Ha) in E. injection E as E%app_inv_head. by injection E.
Qed.

(** [config_from_args] does not compare the names. *)
Lemma same_file_accepted absolute :
  let a := default_args None None in
  let a' := mkArgs (a_host a) (a_port a) (a_dir a) (u "data.db") (a_aof_enabled a) (u "./data.db") (a_aof_fsync a) (a_replicaof a) (a_log_level a)
    (a_rdb_save_seconds a) (a_proto_max_bulk_len a) (a_proto_max_array_len a) (a_max_array_depth a) (a_max_buffer_bytes a) (a_partial_timeout_sec a)
    (a_client_idle_timeout_sec a) (a_max_clients a) (a_max_auth_failures a) (a_aof_queue_max_commands a) (a_aof_enqueue_timeout_sec a)
    (a_replica_backlog_max_bytes a) (a_replica_pending_max_commands a) (a_persistence_max_load_bytes a) (a_maxmemory_bytes a) (a_maxmemory_policy a)
    (a_requirepass a) (a_masterauth a) (a_allow_unprotected_non_loopback a) in
  exists c, config_from_args absolute a' = inr c /\ rdb_path c = aof_path c /\ aof_enabled c = true.
Proof. eexists. split; [reflexivity|]. split; reflexivity. Qed.

Lemma rpartition_last h t : existsb (fun c => ceqb c ":") t = false -> rpartition_colon (h ++ ":"%byte :: t) = Some (h, t).
Proof.
  intros Ht. assert (rpartition_colon t = None) as Hn.
  { induction t as [|c t IH]; [done|]. simpl in *. apply orb_false_iff in Ht as [Hc Ht]. by rewrite IH, Hc. }
  induction h as [|c h IH]; simpl; [by rewrite Hn|]. by rewrite IH.
Qed.

Lemma dec_char_range c : is_dec_char c -> byte_to_Z c = 45 \/ 48 <= byte_to_Z c <= 57.
Proof. intros [[d H%digit_value_bound] | ->]; [by right|by left]. Qed.

(** [--replicaof HOST:PORT] round trip: for any non-empty host (colons
    included, as in IPv6 addresses) and any port in range, the address written
    as [HOST:PORT] is parsed back to exactly that host and port. *)
Theorem replicaof_roundtrip unicode_int h p :
  h <> [] -> 1 <= p <= 65535 -> parse_replicaof unicode_int (h ++ b ":" ++ str_of_int p) = inr (h, p).
Proof.
  intros Hh Hp. pose proof (str_of_int_chars p) as Hc. unfold parse_replicaof.
  change (b ":" ++ str_of_int p) with (":"%byte :: str_of_int p).
  rewrite rpartition_last.
  - assert (int_of_str unicode_int (str_of_int p) = Some p) as ->.
    { unfold int_of_str. rewrite (proj2 (forallb_forall _ _)).
      - rewrite (map_ext_in _ (fun c => c)), map_id; [apply int_of_str_of_int|].
        + assert (65536 <= 10 ^ int_max_str_digits) as Hb.
          { change 65536 with (2 ^ 16). etrans; [apply (Z.pow_le_mono_l 2 10 16); lia|].
            apply Z.pow_le_mono_r; unfold int_max_str_digits; lia. }
          lia.
        + intros c Hin%list_elem_of_In. rewrite Forall_forall in Hc. apply Hc, dec_char_range in Hin. by case_if; [lia|].
      - intros c Hin%list_elem_of_In. rewrite Forall_forall in Hc. apply Hc, dec_char_range in Hin. lia. }
    destruct h; [done|]. by replace ((1 <=? p) && (p <=? 65535)) with true by lia.
  - clear - Hc. induction Hc as [|c l Hr%dec_char_range _ IH]; [done|]. simpl. rewrite IH, orb_false_r. apply ceqb_neq.
    intros ->. unfold byte_to_Z in Hr. simpl in Hr. lia.
Qed.

Lemma replicaof_roundtrip_witness :
  parse_replicaof (fun _ => None) (u "::1" ++ b ":" ++ str_of_int 6380) = inr (u "::1", 6380).
Proof. apply (replicaof_roundtrip (fun _ => None) (u "::1") 6380); [discriminate|lia]. Defined.

(** The defaults of the command line are those of the dataclass. *)
Lemma default_args_config absolute :
  config_from_args absolute (default_args None None) =
  inr (mkConfig (host default_config) 6379 (absolute (dir default_config)) (dbfilename default_config) true
    (aof_filename default_config) everysec master None None (log_level default_config) 0 16777216 1024 16 32000000
    (float_of_Z 30) (float_of_Z 300) 1000 5 10000 (float_of_Z 5) (64 * 1024 * 1024) 10000 (1024 * 1024 * 1024) 0
    noeviction None None false).
Proof. reflexivity. Qed.
