(* ===== verification/Security.v ===== *)
(** * The checks before a server listens ([server.py], [_validate_network_security])

    File names must be plain and the address must be a loopback address unless
    there is a password.  The functions of [os.path] and [ipaddress] that the
    check calls are written out; a host name with characters outside ASCII is
    cleaned by a parameter. *)
From S2P Require Import Prelude PyText PyFloat Store AofLog Config.
Local Open Scope Z_scope.

(** ** Text *)

(** [s.split(c)] *)
Fixpoint split_on (c : byte) (s : str) : list str :=
  match s with
  | [] => [[]]
  | x :: s' =>
      if bool_decide (x = c) then [] :: split_on c s'
      else match split_on c s' with
           | w :: ws => (x :: w) :: ws
           | [] => [[x]]
           end
  end.

Definition contains (c : byte) (s : str) : bool := existsb (fun x => bool_decide (x = c)) s.

(** [str.strip] and [str.lower] on ASCII characters. *)
Definition str_space (c : byte) : bool := is_space c || in_range 28 31 c.
Fixpoint lstrip (s : str) : str := match s with [] => [] | c :: s' => if str_space c then lstrip s' else s end.
Definition strip (s : str) : str := rev (lstrip (rev (lstrip s))).
Definition lower_char (c : byte) : byte := if in_range 65 90 c then byte_of_Z (byte_to_Z c + 32) else c.
Definition is_ascii (s : str) : bool := forallb (fun c => byte_to_Z c <? 128) s.

Definition strip_lower (unicode_strip_lower : str -> str) (s : str) : str :=
  if is_ascii s then map lower_char (strip s) else unicode_strip_lower s.

(** ** [posixpath] *)

(** The components of a path, [..] resolved where it can be. *)
Definition push_component (absolute : bool) (comps : list str) (comp : str) : list str :=
  if bool_decide (comp = []) || bool_decide (comp = b ".") then comps
  else if negb (bool_decide (comp = b "..")) || (negb absolute && bool_decide (comps = [])) ||
          bool_decide (last comps = Some (b "..")) then comps ++ [comp]
  else take (length comps - 1) comps.

Fixpoint join_slash (comps : list str) : str :=
  match comps with
  | [] => []
  | [c] => c
  | c :: comps' => c ++ b "/" ++ join_slash comps'
  end.

Fixpoint leading_slashes (path : str) : nat :=
  match path with
  | [] => 0
  | x :: path' => if bool_decide (x = "/"%byte) then S (leading_slashes path') else 0
  end.

Definition normpath (path : str) : str :=
  match path with
  | [] => b "."
  | _ =>
      let initial := match leading_slashes path with O => [] | 2%nat => b "//" | _ => b "/" end in
      let comps := foldl (push_component (bool_decide (initial <> []))) [] (split_on "/"%byte path) in
      match initial ++ join_slash comps with [] => b "." | p => p end
  end.

Definition basename (path : str) : str := default [] (last (split_on "/"%byte path)).

Definition isabs (path : str) : bool := bool_decide (head path = Some "/"%byte).

(** What the check calls a plain file name. *)
Definition plain_filename (filename : str) : bool :=
  negb (bool_decide (filename = [])) && negb (isabs filename) && bool_decide (normpath filename = basename (normpath filename)).

(** ** [ipaddress] *)

Definition parse_octet (s : str) : option Z :=
  match s with
  | [] => None
  | c :: _ =>
      if forallb (fun x => in_range 48 57 x) s && (length s <=? 3)%nat && (bool_decide (s = b "0") || negb (bool_decide (c = "0"%byte))) then
        match int_of_bytes s with
        | Some n => if n <=? 255 then Some n else None
        | None => None
        end
      else None
  end.

Definition ipv4_address (s : str) : option Z :=
  match split_on "."%byte s with
  | [a; c; d; e] =>
      match parse_octet a, parse_octet c, parse_octet d, parse_octet e with
      | Some a, Some c, Some d, Some e => Some (((a * 256 + c) * 256 + d) * 256 + e)
      | _, _, _, _ => None
      end
  | _ => None
  end.

Definition hex_value (c : byte) : option Z :=
  let z := byte_to_Z c in
  if in_range 48 57 c then Some (z - 48) else if in_range 97 102 c then Some (z - 87) else if in_range 65 70 c then Some (z - 55) else None.

Definition parse_hextet (s : str) : option Z :=
  if (length s <=? 4)%nat && negb (bool_decide (s = [])) then
    foldl (fun acc c => match acc, hex_value c with Some n, Some d => Some (n * 16 + d) | _, _ => None end) (Some 0) s
  else None.

(** ["%x" % n] *)
Fixpoint hex_digits (fuel : nat) (n : Z) : str :=
  match fuel with
  | O => []
  | S f => (if n <? 16 then [] else hex_digits f (n / 16)) ++ [hex_digit (n mod 16)]
  end.

(** A dotted quad at the end becomes two hextets. *)
Definition expand_ipv4 (parts : list str) : option (list str) :=
  match last parts with
  | Some p =>
      if contains "."%byte p then
        match ipv4_address p with
        | Some n => Some (take (length parts - 1) parts ++ [hex_digits 4 (n / 65536); hex_digits 4 (n mod 65536)])
        | None => None
        end
      else Some parts
  | None => None
  end.

(** The positions of the empty parts strictly inside. *)
Definition empty_inside (parts : list str) : list nat :=
  filter (fun i => parts !! i = Some []) (seq 1 (length parts - 2)).

Fixpoint parse_hextets (ip : Z) (parts : list str) : option Z :=
  match parts with
  | [] => Some ip
  | p :: parts' => match parse_hextet p with Some n => parse_hextets (ip * 65536 + n) parts' | None => None end
  end.

(** The integer of the address from its parts, [::] at [skip] if there is one. *)
Definition ipv6_int (parts : list str) : option Z :=
  let n := length parts in
  match empty_inside parts with
  | [] =>
      if negb (n =? 8)%nat || bool_decide (head parts = Some []) || bool_decide (last parts = Some []) then None
      else parse_hextets 0 parts
  | [skip] =>
      let first_empty := bool_decide (head parts = Some []) in
      let last_empty := bool_decide (last parts = Some []) in
      let hi := if first_empty then (skip - 1)%nat else skip in
      let lo := if last_empty then (n - skip - 2)%nat else (n - skip - 1)%nat in
      if (first_empty && negb (hi =? 0)%nat) || (last_empty && negb (lo =? 0)%nat) || (8 <=? hi + lo)%nat then None
      else match parse_hextets 0 (take hi parts) with
           | Some ip => parse_hextets (ip * 65536 ^ (8 - Z.of_nat (hi + lo))) (drop (n - lo) parts)
           | None => None
           end
  | _ => None
  end.

Definition ipv6_address (s : str) : option Z :=
  let '(addr, scope) := match split_on "%"%byte s with
                        | [a] => (Some a, [])
                        | [a; x :: scope] => (Some a, x :: scope)
                        | _ => (None, [])
                        end in
  match addr with
  | None | Some [] => None
  | Some a =>
      let parts := split_on ":"%byte a in
      if (length parts <? 3)%nat then None
      else match expand_ipv4 parts with
           | Some parts' => if (9 <? length parts')%nat then None else ipv6_int parts'
           | None => None
           end
  end.

(** [ip_address(host).is_loopback]; [None] when it raises ValueError.  Newer
    versions of [ipaddress] look into IPv4-mapped addresses
    ([mapped_loopback]). *)
Definition ip_is_loopback (mapped_loopback : bool) (host : str) : option bool :=
  if contains "/"%byte host then None
  else match ipv4_address host with
       | Some n => Some (n / 2 ^ 24 =? 127)
       | None =>
           match ipv6_address host with
           | Some n =>
               Some (if mapped_loopback && (n / 2 ^ 32 =? 65535) then (n mod 2 ^ 32) / 2 ^ 24 =? 127 else n =? 1)
           | None => None
           end
       end.

(** ** The check *)

Section Check.
Context (unicode_strip_lower : str -> str) (mapped_loopback : bool).

Definition host_is_loopback (h : str) : bool :=
  let h' := strip_lower unicode_strip_lower h in
  beqb h' (b "localhost") || default false (ip_is_loopback mapped_loopback h').

Definition validate_network_security (c : Config) : result unit :=
  if negb (plain_filename (dbfilename c)) then Err (ValueError (u "dbfilename must be a plain filename"))
  else if negb (plain_filename (aof_filename c)) then Err (ValueError (u "aof-filename must be a plain filename"))
  else if negb (host_is_loopback (host c)) && bool_decide (requirepass c = None) && negb (allow_unprotected_non_loopback c) then
    Err (ValueError (u "Refusing non-loopback bind without AUTH; configure --requirepass " ++
                     u "or explicitly use --allow-unprotected-non-loopback"))
  else Ok tt.

End Check.

Example ipv6_ex : map ipv6_address [u "::1"; u "::"; u "1::"; u "0:0:0:0:0:0:0:1"; u "::ffff:127.0.0.1"; u "fe80::1%eth0"; u "1:2:3:4:5:6:7:8"] =
  [Some 1; Some 0; Some (2 ^ 112); Some 1; Some (65535 * 2 ^ 32 + 2130706433); Some (65152 * 2 ^ 112 + 1); Some (0x00010002000300040005000600070008)].
Proof. vm_compute. reflexivity. Qed.

Example ipv6_bad : map ipv6_address [u ":::"; u ":1"; u "1:2:3:4:5:6:7"; u "1::2::3"; u "::1%"; u "12345::"; u "1:2:3:4:5:6:7::8"; u ":1:2:3:4:5:6:7"] =
  [None; None; None; None; None; None; None; None].
Proof. vm_compute. reflexivity. Qed.

Example normpath_ex : map normpath [u "dump.rdb"; u "./dump.rdb"; u "a/../b"; u "../x"; u "//a"; u "///a//b/"; u "/.."; u "a/.."] =
  [u "dump.rdb"; u "dump.rdb"; u "b"; u "../x"; u "//a"; u "/a/b"; u "/"; u "."].
Proof. vm_compute. reflexivity. Qed.

Example plain_ex : map plain_filename [u "dump.rdb"; u "/etc/x"; u "../x"; u "a/b"; []] = [true; false; false; false; false].
Proof. vm_compute. reflexivity. Qed.

(** ** Splitting *)

Lemma contains_elem c s : contains c s = true <-> c ∈ s.
Proof.
  unfold contains. rewrite existsb_exists. split.
  - intros (x & Hx%list_elem_of_In & ->%bool_decide_eq_true). done.
  - intros H. exists c. split; [by apply list_elem_of_In|by apply bool_decide_eq_true].
Qed.

Lemma split_on_word c w : c ∉ w -> split_on c w = [w].
Proof.
  induction w as [|x w IH]; intros H; simpl; [done|]. rewrite bool_decide_false by (intros ->; apply H; by left).
  rewrite IH; [done|]. intros Hin. apply H. by right.
Qed.

Lemma split_on_cut c w s : c ∉ w -> split_on c (w ++ c :: s) = w :: split_on c s.
Proof.
  induction w as [|x w IH]; intros H; simpl; [by rewrite bool_decide_true|].
  rewrite bool_decide_false by (intros ->; apply H; by left). rewrite IH; [done|]. intros Hin. apply H. by right.
Qed.

Lemma split_on_pieces c s w : w ∈ split_on c s -> c ∉ w.
Proof.
  revert w. induction s as [|x s IH]; intros w; simpl.
  - intros ->%list_elem_of_singleton. by intros ?%elem_of_nil.
  - case_bool_decide as Hx.
    + intros [->|Hw]%elem_of_cons; [by intros ?%elem_of_nil|by apply IH].
    + destruct (split_on c s) as [|w0 ws]; [intros ->%list_elem_of_singleton; by intros ?%list_elem_of_singleton|].
      intros [->|Hw]%elem_of_cons; [|apply IH; by right]. intros [?|Hin]%elem_of_cons; [done|]. by apply (IH w0); [left|].
Qed.

(** ** Dotted quads *)

Definition dotted (a c d e : Z) : str := str_of_int a ++ b "." ++ str_of_int c ++ b "." ++ str_of_int d ++ b "." ++ str_of_int e.

Definition octet_ok (n : Z) : bool :=
  bool_decide (parse_octet (str_of_int n) = Some n) && forallb (fun x => in_range 48 57 x) (str_of_int n).

Lemma octets_ok n : 0 <= n <= 255 -> octet_ok n = true.
Proof.
  intros Hn. assert (forallb (fun i => octet_ok (Z.of_nat i)) (seq 0 256) = true) as H by (vm_compute; reflexivity).
  rewrite forallb_forall in H. rewrite <- (Z2Nat.id n) by lia. apply H. apply in_seq. lia.
Qed.

Lemma octet_parse n : 0 <= n <= 255 -> parse_octet (str_of_int n) = Some n.
Proof. intros H%octets_ok. unfold octet_ok in H. apply andb_true_iff in H as [H _]. by apply bool_decide_eq_true in H. Qed.

Lemma octet_digits n : 0 <= n <= 255 -> Forall (fun x => in_range 48 57 x = true) (str_of_int n).
Proof.
  intros H%octets_ok. unfold octet_ok in H. apply andb_true_iff in H as [_ H]. rewrite forallb_forall in H.
  apply Forall_forall. intros x Hx. apply H. by apply list_elem_of_In.
Qed.

Lemma not_in_octet n x : 0 <= n <= 255 -> in_range 48 57 x = false -> x ∉ str_of_int n.
Proof. intros H Hx Hin. pose proof (octet_digits n H) as HF. rewrite Forall_forall in HF. specialize (HF x Hin). simpl in HF. congruence. Qed.

Lemma lstrip_id s : Forall (fun c => str_space c = false) s -> lstrip s = s.
Proof. destruct 1 as [|c s Hc]; simpl; [done|]. by rewrite Hc. Qed.

Lemma strip_lower_id usl s :
  Forall (fun c => in_range 48 57 c = true \/ c = "."%byte) s -> strip_lower usl s = s.
Proof.
  intros HF. assert (forall c : byte, in_range 48 57 c = true \/ c = "."%byte -> (byte_to_Z c <? 128) = true /\ str_space c = false /\ lower_char c = c) as Hc.
  { intros c [H| ->]; [|done]. by destruct c; try discriminate H. }
  unfold strip_lower, is_ascii. replace (forallb _ s) with true.
  - unfold strip. rewrite lstrip_id, lstrip_id, rev_involutive.
    + rewrite <- (map_id s) at 2. apply map_ext_in. intros c Hin%list_elem_of_In. rewrite Forall_forall in HF. by apply Hc, HF.
    + eapply Forall_impl; [exact HF|]. intros c H. by apply Hc.
    + rewrite lstrip_id; [apply Forall_rev|]; (eapply Forall_impl; [exact HF|]; intros c H; by apply Hc).
  - symmetry. apply forallb_forall. intros c Hin%list_elem_of_In. rewrite Forall_forall in HF. by apply Hc, HF.
Qed.

Lemma dotted_loopback usl ml a c d e :
  0 <= a <= 255 -> 0 <= c <= 255 -> 0 <= d <= 255 -> 0 <= e <= 255 ->
  host_is_loopback usl ml (dotted a c d e) = (a =? 127).
Proof.
  intros Ha Hc Hd He. assert (Forall (fun x => in_range 48 57 x = true \/ x = "."%byte) (dotted a c d e)) as HF.
  { unfold dotted. rewrite !Forall_app.
    assert (forall n, 0 <= n <= 255 -> Forall (fun x => in_range 48 57 x = true \/ x = "."%byte) (str_of_int n)) as H1.
    { intros n Hn. eapply Forall_impl; [by apply octet_digits|]. auto. }
    assert (Forall (fun x => in_range 48 57 x = true \/ x = "."%byte) (b ".")) as H2 by (repeat constructor; auto).
    auto 10. }
  unfold host_is_loopback. rewrite strip_lower_id by done.
  assert (beqb (dotted a c d e) (b "localhost") = false) as ->.
  { apply beqb_neq. intros E. rewrite E in HF. apply Forall_cons in HF as [[H|H] _]; discriminate H. }
  assert (contains "/"%byte (dotted a c d e) = false) as Hs.
  { apply not_true_iff_false. rewrite contains_elem. intros Hin. rewrite Forall_forall in HF. destruct (HF _ Hin) as [H|H]; discriminate H. }
  unfold ip_is_loopback. rewrite Hs. unfold ipv4_address, dotted. simpl app.
  rewrite !split_on_cut, split_on_word by (by apply not_in_octet). rewrite !octet_parse by done. simpl.
  assert ((((a * 256 + c) * 256 + d) * 256 + e) / 16777216 = a) as Hq.
  { symmetry. apply (Z.div_unique_pos _ _ _ ((c * 256 + d) * 256 + e)); lia. }
  change (2 ^ 24) with 16777216. by rewrite Hq.
Qed.

(** ** File names *)

Lemma plain_filename_inside f : plain_filename f = true -> contains "/"%byte (normpath f) = false.
Proof.
  unfold plain_filename. rewrite !andb_true_iff. intros [_ H]. apply bool_decide_eq_true in H. rewrite H.
  apply not_true_iff_false. rewrite contains_elem. unfold basename. destruct (last (split_on "/"%byte (normpath f))) as [w|] eqn:E; simpl.
  - apply last_Some_elem_of in E. by apply (split_on_pieces "/"%byte (normpath f)).
  - by intros ?%elem_of_nil.
Qed.

(** A name without a slash is plain. *)
Lemma no_slash_plain f : f <> [] -> "/"%byte ∉ f -> plain_filename f = true.
Proof.
  intros Hne Hs. destruct f as [|x f]; [done|]. assert (x <> "/"%byte) as Hx by (intros ->; apply Hs; by left).
  assert (normpath (x :: f) = x :: f) as En.
  { unfold normpath. simpl leading_slashes. rewrite bool_decide_false by done. rewrite split_on_word by done. simpl. unfold push_component. simpl.
    destruct (decide (x :: f = b ".")) as [E|Hd].
    - injection E as -> ->. done.
    - rewrite (bool_decide_false (x :: f = b ".")) by done. by destruct (bool_decide (x :: f = b "..")). }
  unfold plain_filename. rewrite En. unfold basename. rewrite split_on_word by done. simpl.
  unfold isabs. simpl. rewrite (bool_decide_false (Some x = _)) by (by intros [= ->]). simpl. by apply bool_decide_eq_true.
Qed.

(** ** Properties *)

(** C26 The guard of an unprotected server.  For a configuration that listens on
    an IPv4 address, the checks before start-up pass exactly when both file names
    pass theirs and the address is in 127.0.0.0/8, a password is set, or the
    override is given; and then both file names denote a single component: after
    normalisation they contain no slash.  Every name without a slash passes. *)
Theorem bind_guard usl ml cfg a c d e :
  0 <= a <= 255 -> 0 <= c <= 255 -> 0 <= d <= 255 -> 0 <= e <= 255 -> host cfg = dotted a c d e ->
  (validate_network_security usl ml cfg = Ok tt <->
     plain_filename (dbfilename cfg) = true /\ plain_filename (aof_filename cfg) = true /\
     (a = 127 \/ requirepass cfg <> None \/ allow_unprotected_non_loopback cfg = true)) /\
  (validate_network_security usl ml cfg = Ok tt ->
     contains "/"%byte (normpath (dbfilename cfg)) = false /\ contains "/"%byte (normpath (aof_filename cfg)) = false) /\
  (forall f, f <> [] -> "/"%byte ∉ f -> plain_filename f = true).
Proof.
  intros Ha Hc Hd He Hh. assert (validate_network_security usl ml cfg = Ok tt <->
     plain_filename (dbfilename cfg) = true /\ plain_filename (aof_filename cfg) = true /\
     (a = 127 \/ requirepass cfg <> None \/ allow_unprotected_non_loopback cfg = true)) as Hiff.
  { unfold validate_network_security. rewrite Hh, dotted_loopback by done.
    destruct (plain_filename (dbfilename cfg)), (plain_filename (aof_filename cfg)); simpl; try (split; [done|by intros (? & ? & _)]).
    destruct (Z.eqb_spec a 127) as [->|Hne]; simpl; [split; auto|].
    destruct (requirepass cfg) as [p|]; simpl; [split; [intros _; split_and!; auto|done]|].
    destruct (allow_unprotected_non_loopback cfg); simpl; [split; auto|]. split; [done|]. intros (_ & _ & [?|[?|?]]); done. }
  split; [done|]. split; [|apply no_slash_plain]. intros (H1 & H2 & _)%Hiff. split; by apply plain_filename_inside.
Qed.

Lemma bind_guard_witness :
  validate_network_security (fun s => s) false default_config = Ok tt /\
  contains "/"%byte (normpath (dbfilename default_config)) = false.
Proof.
  destruct (bind_guard (fun s => s) false default_config 127 0 0 1) as (H1 & H2 & _).
  - lia.
  - lia.
  - lia.
  - lia.
  - vm_compute. reflexivity.
  - assert (validate_network_security (fun s => s) false default_config = Ok tt) as H.
    { apply H1. split; [vm_compute; reflexivity|]. split; [vm_compute; reflexivity|left; reflexivity]. }
    split; [exact H|]. apply (H2 H).
Defined.

(** Names that are not plain but pass: a directory, and a path through one. *)
Example not_so_plain : map plain_filename [u ".."; u "."; u "link/../dump.rdb"] = [true; true; true].
Proof. vm_compute. reflexivity. Qed.
