(* ===== verification/Master.v ===== *)
(** * Replication, master side ([replication/master.py])

    Replica links are objects that [full_resync], the drain task and the
    [replicas] dictionary share, so they live in a heap and the dictionary
    holds their index.  A coroutine is cut at its [await]s.  What a link has
    written to its transport is [out], one entry per [write]. *)
From S2P Require Import Prelude PyText Encoder Parser Dict Store Crc32 Rdb.
Local Open Scope Z_scope.

Inductive ReplicaState := syncing | live_.

#[global] Instance ReplicaState_eq_dec : EqDecision ReplicaState.
Proof. solve_decision. Defined.

(** [_DRAIN] and [_STOP] *)
Inductive marker := DRAIN | STOP.

Record ReplicaLink := mkLink {
  out : list bytes;
  connection_id : Z;
  link_offset : Z;
  alive : bool;
  state : ReplicaState;
  backlog : list bytes;
  backlog_bytes : Z;
  drain_task : bool;
  pending : list marker
}.

(** A [full_resync] under way: the connection, the link, and whether it still
    has to send the snapshot (or failed to build it). *)
Inductive resync_phase := Sending (payload : result bytes) | Flushing.

Record Resync := mkResync { r_conn : Z; r_link : nat; r_phase : resync_phase }.

Record MasterReplication := mkMaster {
  backlog_max_bytes : Z;
  pending_max_commands : Z;
  replid : str;
  offset : Z;
  replicas : dict Z nat;
  links : list ReplicaLink;
  unregister_tasks : list Z;
  resyncs : list Resync
}.

Definition new_master (backlog_max pending_max : Z) (replid : str) : MasterReplication :=
  mkMaster backlog_max pending_max replid 0 [] [] [] [].

Definition with_links (m : MasterReplication) (ls : list ReplicaLink) : MasterReplication :=
  mkMaster (backlog_max_bytes m) (pending_max_commands m) (replid m) (offset m) (replicas m) ls
    (unregister_tasks m) (resyncs m).

Definition with_resyncs (m : MasterReplication) (rs : list Resync) : MasterReplication :=
  mkMaster (backlog_max_bytes m) (pending_max_commands m) (replid m) (offset m) (replicas m) (links m)
    (unregister_tasks m) rs.

Definition update_link (m : MasterReplication) (id : nat) (f : ReplicaLink -> ReplicaLink) : MasterReplication :=
  with_links m (alter f id (links m)).

(** ** Link updates *)

Definition set_alive (v : bool) (l : ReplicaLink) : ReplicaLink :=
  mkLink (out l) (connection_id l) (link_offset l) v (state l) (backlog l) (backlog_bytes l) (drain_task l) (pending l).

(** [backlog.append(payload); backlog_bytes += len(payload); offset = ...] *)
Definition push_backlog (payload : bytes) (off : Z) (l : ReplicaLink) : ReplicaLink :=
  mkLink (out l) (connection_id l) off (alive l) (state l) (backlog l ++ [payload]) (backlog_bytes l + zlen payload)
    (drain_task l) (pending l).

Definition write_out (payloads : list bytes) (l : ReplicaLink) : ReplicaLink :=
  mkLink (out l ++ payloads) (connection_id l) (link_offset l) (alive l) (state l) (backlog l) (backlog_bytes l)
    (drain_task l) (pending l).

(** [writer.write(payload); offset = ...; _pending.put_nowait(_DRAIN)] *)
Definition write_live (payload : bytes) (off : Z) (l : ReplicaLink) : ReplicaLink :=
  mkLink (out l ++ [payload]) (connection_id l) off (alive l) (state l) (backlog l) (backlog_bytes l) (drain_task l)
    (pending l ++ [DRAIN]).

Definition clear_backlog (l : ReplicaLink) : ReplicaLink :=
  mkLink (out l) (connection_id l) (link_offset l) (alive l) (state l) [] 0 (drain_task l) (pending l).

Definition go_live (off : Z) (l : ReplicaLink) : ReplicaLink :=
  mkLink (out l) (connection_id l) off (alive l) live_ (backlog l) (backlog_bytes l) (drain_task l) (pending l).

(** [_start_drain_task] *)
Definition start_drain_task (l : ReplicaLink) : ReplicaLink :=
  mkLink (out l) (connection_id l) (link_offset l) (alive l) (state l) (backlog l) (backlog_bytes l) true (pending l).

(** [alive = False; _pending.put_nowait(_STOP); _drain_task.cancel()] *)
Definition stop_link (l : ReplicaLink) : ReplicaLink :=
  mkLink (out l) (connection_id l) (link_offset l) false (state l) (backlog l) (backlog_bytes l) false (pending l ++ [STOP]).

(** ** Registration *)

Definition connected_replicas (m : MasterReplication) : Z :=
  zlen (filter (fun r => match links m !! r.2 with
                         | Some l => alive l && bool_decide (state l = live_)
                         | None => false
                         end = true) (replicas m)).

Definition register_link (m : MasterReplication) (conn : Z) (l : ReplicaLink) : MasterReplication :=
  mkMaster (backlog_max_bytes m) (pending_max_commands m) (replid m) (offset m)
    (dict_set (replicas m) conn (length (links m))) (links m ++ [l]) (unregister_tasks m) (resyncs m).

Definition register_syncing (m : MasterReplication) (conn : Z) : MasterReplication :=
  register_link m conn (mkLink [] conn (offset m) true syncing [] 0 false []).

Definition register (m : MasterReplication) (conn : Z) : MasterReplication :=
  register_link m conn (start_drain_task (mkLink [] conn (offset m) true live_ [] 0 false [])).

Definition unregister (m : MasterReplication) (conn : Z) : MasterReplication :=
  match dict_get (replicas m) conn with
  | None => m
  | Some id =>
      mkMaster (backlog_max_bytes m) (pending_max_commands m) (replid m) (offset m) (dict_del (replicas m) conn)
        (alter stop_link id (links m)) (unregister_tasks m) (resyncs m)
  end.

(** ** Propagation *)

(** What [propagate] does to one registered link: the link, and whether it
    joins [dead].  [fails] says that [writer.write] raises. *)
Definition propagate_link (m : MasterReplication) (payload : bytes) (off : Z) (fails : bool) (l : ReplicaLink) :
    ReplicaLink * bool :=
  if negb (alive l) then (l, true)
  else match state l with
       | syncing =>
           if backlog_max_bytes m <? backlog_bytes l + zlen payload then (set_alive false l, true)
           else (push_backlog payload off l, false)
       | live_ =>
           if pending_max_commands m <=? zlen (pending l) then (set_alive false l, true)
           else if fails then (set_alive false l, true)
           else (write_live payload off l, false)
       end.

(** The loop over [list(self.replicas.items())]. *)
Fixpoint propagate_loop (m : MasterReplication) (payload : bytes) (off : Z) (fails : Z -> bool)
    (items : list (Z * nat)) (ls : list ReplicaLink) (dead : list Z) : list ReplicaLink * list Z :=
  match items with
  | [] => (ls, dead)
  | (conn, id) :: items' =>
      match ls !! id with
      | None => propagate_loop m payload off fails items' ls dead
      | Some l =>
          let '(l', d) := propagate_link m payload off (fails conn) l in
          propagate_loop m payload off fails items' (<[id := l']> ls) (if d then dead ++ [conn] else dead)
      end
  end.

Definition propagate (fails : Z -> bool) (argv : list bytes) (m : MasterReplication) : MasterReplication :=
  match replicas m with
  | [] => m
  | _ :: _ =>
      let payload := encode_command argv in
      let off := offset m + zlen payload in
      let '(ls, dead) := propagate_loop m payload off fails (replicas m) (links m) [] in
      mkMaster (backlog_max_bytes m) (pending_max_commands m) (replid m) off (replicas m) ls
        (unregister_tasks m ++ dead) (resyncs m)
  end.

(** A scheduled [unregister] task runs. *)
Definition run_unregister_task (m : MasterReplication) : MasterReplication :=
  match unregister_tasks m with
  | [] => m
  | conn :: rest =>
      let m' := unregister m conn in
      mkMaster (backlog_max_bytes m') (pending_max_commands m') (replid m') (offset m') (replicas m') (links m') rest
        (resyncs m')
  end.

(** ** Full resynchronisation *)

(** Under the snapshot lock: register, read the offset, snapshot. The RDB is
    built from it afterwards. *)
Definition full_resync_begin (m : MasterReplication) (conn : Z) (es : dict bytes KeyEntry) : MasterReplication :=
  let id := length (links m) in
  let payload :=
    let* rdb := dump_rdb_entries es in
    let* header := encode_simple_string (u "FULLRESYNC " ++ replid m ++ u " " ++ str_of_int (offset m)) in
    Ok (header ++ (b "$" ++ str_of_int (zlen rdb) ++ CRLF) ++ rdb) in
  let m' := register_syncing m conn in
  with_resyncs m' (resyncs m' ++ [mkResync conn id (Sending payload)]).

(** [except Exception: await self.unregister(connection_id); raise] *)
Definition full_resync_fail (m : MasterReplication) (r : Resync) (rest : list Resync) : MasterReplication :=
  with_resyncs (unregister m (r_conn r)) rest.

(** [writer.write(payload)]; a snapshot that could not be built ends it. *)
Definition full_resync_send (m : MasterReplication) (pre : list Resync) (r : Resync) (post : list Resync) :
    MasterReplication :=
  match r_phase r with
  | Sending (Ok payload) =>
      with_resyncs (update_link m (r_link r) (write_out [payload]))
        (pre ++ mkResync (r_conn r) (r_link r) Flushing :: post)
  | Sending (Err _) => full_resync_fail m r (pre ++ post)
  | Flushing => m
  end.

(** One round of the flush loop: take the backlog, or go live when it is
    empty.  [written] is the number of writes before one raises. *)
Definition full_resync_flush (m : MasterReplication) (pre : list Resync) (r : Resync) (post : list Resync)
    (written : option nat) : MasterReplication :=
  match r_phase r, links m !! r_link r with
  | Flushing, Some l =>
      match backlog l with
      | [] =>
          with_resyncs (update_link m (r_link r) (fun l => start_drain_task (go_live (offset m) (clear_backlog l))))
            (pre ++ post)
      | batch =>
          match written with
          | None => update_link m (r_link r) (fun l => write_out batch (clear_backlog l))
          | Some n =>
              full_resync_fail (update_link m (r_link r) (fun l => write_out (take n batch) (clear_backlog l))) r (pre ++ post)
          end
      end
  | _, _ => m
  end.

(** ** The drain task *)

(** One round of [_replica_writer_loop]; [ok] is the outcome of [drain]. *)
Definition replica_writer_step (ok : bool) (id : nat) (m : MasterReplication) : MasterReplication :=
  match links m !! id with
  | Some l =>
      if negb (drain_task l) || negb (alive l) then m
      else match pending l with
           | [] => m
           | STOP :: p => update_link m id (fun l =>
               mkLink (out l) (connection_id l) (link_offset l) (alive l) (state l) (backlog l) (backlog_bytes l) false p)
           | DRAIN :: p =>
               let m1 := update_link m id (fun l =>
                 mkLink (out l) (connection_id l) (link_offset l) (if ok then alive l else false) (state l) (backlog l)
                   (backlog_bytes l) (if ok then drain_task l else false) p) in
               if ok then m1
               else mkMaster (backlog_max_bytes m1) (pending_max_commands m1) (replid m1) (offset m1) (replicas m1)
                      (links m1) (unregister_tasks m1 ++ [connection_id l]) (resyncs m1)
           end
  | None => m
  end.

(** ** Runs of the master

    First the steps that concern the links alone: the rest of a resync, the
    [unregister] tasks, a connection that ends, the drain tasks. *)
Inductive link_step (m : MasterReplication) : MasterReplication -> Prop :=
| ls_send pre r post : resyncs m = pre ++ r :: post -> link_step m (full_resync_send m pre r post)
| ls_flush pre r post written : resyncs m = pre ++ r :: post -> link_step m (full_resync_flush m pre r post written)
| ls_fail pre r post : resyncs m = pre ++ r :: post -> link_step m (full_resync_fail m r (pre ++ post))
| ls_task : link_step m (run_unregister_task m)
| ls_unregister conn : link_step m (unregister m conn)
| ls_drain ok id : link_step m (replica_writer_step ok id m).

(** A step is labelled with the payload that it propagates and with the
    snapshot of the resync that it begins, if any.  Connection numbers are never
    reused, so a resync starts on a connection that is not registered. *)
Inductive master_step (m : MasterReplication) : list bytes -> list (dict bytes KeyEntry) -> MasterReplication -> Prop :=
| ms_propagate fails argv :
    master_step m (match replicas m with [] => [] | _ :: _ => [encode_command argv] end) [] (propagate fails argv m)
| ms_begin conn es : dict_get (replicas m) conn = None -> master_step m [] [es] (full_resync_begin m conn es)
| ms_link m' : link_step m m' -> master_step m [] [] m'.

(** The registration of a link: how many payloads had been propagated, and the
    keyspace that was snapshot. *)
Definition origin : Type := nat * dict bytes KeyEntry.

(** A run, with the payloads it propagated and the registrations of its links,
    each in order. *)
Inductive master_run (m : MasterReplication) : list bytes -> list origin -> MasterReplication -> Prop :=
| mr_nil : master_run m [] [] m
| mr_snoc ps starts m1 qs es m2 :
    master_run m ps starts m1 -> master_step m1 qs es m2 -> master_run m (ps ++ qs) (starts ++ map (pair (length ps)) es) m2.

(** The commands a link was given: written after the snapshot, then buffered. *)
Definition stream_of (l : ReplicaLink) : list bytes := tail (out l) ++ backlog l.

(** [h] is the message of a resync that snapshot [es] at offset [off]. *)
Definition snapshot_of (m : MasterReplication) (off : Z) (es : dict bytes KeyEntry) (h : bytes) : Prop :=
  exists rdb hdr, dump_rdb_entries es = Ok rdb /\
    encode_simple_string (u "FULLRESYNC " ++ replid m ++ u " " ++ str_of_int off) = Ok hdr /\
    h = hdr ++ (b "$" ++ str_of_int (zlen rdb) ++ CRLF) ++ rdb.

Record link_inv (ps : list bytes) (m : MasterReplication) (id : nat) (start : origin) (l : ReplicaLink) : Prop := {
  lk_start : (start.1 <= length ps)%nat;
  lk_prefix : stream_of l `prefix_of` drop start.1 ps;
  lk_alive : alive l = true -> stream_of l = drop start.1 ps /\ link_offset l = offset m /\
                               dict_get (replicas m) (connection_id l) = Some id;
  lk_live : state l = live_ -> backlog l = [] /\ out l <> [];
  lk_bytes : backlog_bytes l = zlen (concat (backlog l)) /\ backlog_bytes l <= Z.max 0 (backlog_max_bytes m);
  lk_head : forall h, head (out l) = Some h -> snapshot_of m (zlen (concat (take start.1 ps))) start.2 h
}.

Definition resync_inv (ps : list bytes) (m : MasterReplication) (start : origin) (l : ReplicaLink) (p : resync_phase) : Prop :=
  state l = syncing /\
  match p with
  | Sending r => out l = [] /\ (forall h, r = Ok h -> snapshot_of m (zlen (concat (take start.1 ps))) start.2 h)
  | Flushing => out l <> []
  end.

Record master_inv (ps : list bytes) (starts : list origin) (m : MasterReplication) : Prop := {
  mi_offset : offset m = zlen (concat ps);
  mi_starts : length starts = length (links m);
  mi_dict : dict_ok (replicas m);
  mi_reg : forall conn id, dict_get (replicas m) conn = Some id -> exists l, links m !! id = Some l /\ connection_id l = conn;
  mi_link : forall id start l, starts !! id = Some start -> links m !! id = Some l -> link_inv ps m id start l;
  mi_resync : forall r start, r ∈ resyncs m -> starts !! r_link r = Some start ->
                exists l, links m !! r_link r = Some l /\ resync_inv ps m start l (r_phase r);
  mi_conn : forall r l, r ∈ resyncs m -> links m !! r_link r = Some l -> connection_id l = r_conn r;
  mi_bound : Forall (fun r => (r_link r < length (links m))%nat) (resyncs m);
  mi_nodup : NoDup (map r_link (resyncs m))
}.

(** *** Changing one link *)

Lemma update_link_lookup m id f i :
  links (update_link m id f) !! i = if decide (i = id) then f <$> links m !! i else links m !! i.
Proof.
  simpl. case_decide as H; [subst; apply list_lookup_alter_eq | by apply list_lookup_alter_ne].
Qed.

Lemma lookup_alter_inv {A} (f : A -> A) (l : list A) i j y :
  alter f i l !! j = Some y -> exists x, l !! j = Some x /\ y = (if decide (j = i) then f x else x).
Proof.
  destruct (decide (j = i)) as [->|Hne].
  - rewrite list_lookup_alter_eq. intros (x & -> & Hx)%fmap_Some. eauto.
  - rewrite list_lookup_alter_ne by done. eauto.
Qed.

(** The steps that touch only the bookkeeping of one link keep its stream. *)
Record quiet (f : ReplicaLink -> ReplicaLink) : Prop := {
  q_stream : forall l, stream_of (f l) = stream_of l;
  q_head : forall l, head (out (f l)) = head (out l);
  q_conn : forall l, connection_id (f l) = connection_id l;
  q_state : forall l, state (f l) = state l;
  q_backlog : forall l, backlog (f l) = backlog l /\ backlog_bytes (f l) = backlog_bytes l;
  q_offset : forall l, link_offset (f l) = link_offset l;
  q_alive : forall l, alive (f l) = true -> alive l = true
}.

Lemma head_out_nil (l l' : ReplicaLink) : head (out l) = head (out l') -> out l' <> [] <-> out l <> [].
Proof. destruct (out l), (out l'); simpl; naive_solver. Qed.

Lemma quiet_link ps m m' id start f l :
  quiet f -> link_inv ps m id start l -> offset m' = offset m -> backlog_max_bytes m' = backlog_max_bytes m ->
  replid m' = replid m ->
  (alive (f l) = true -> dict_get (replicas m') (connection_id l) = dict_get (replicas m) (connection_id l)) ->
  link_inv ps m' id start (f l).
Proof.
  intros [] [] Ho Hb Hr Hreg. split; rewrite ?q_stream0, ?q_state0, ?q_offset0, ?q_conn0; try done.
  - intros Ha. destruct (lk_alive0 (q_alive0 _ Ha)) as (H1 & H2 & H3). rewrite Ho. split_and!; try done. by rewrite Hreg.
  - intros Hl. destruct (lk_live0 Hl) as [H1 H2]. destruct (q_backlog0 l) as [-> _]. split; [done|].
    by apply (head_out_nil l (f l)).
  - destruct (q_backlog0 l) as [-> ->]. by rewrite Hb.
  - intros h. rewrite q_head0. unfold snapshot_of. rewrite Hr. apply lk_head0.
Qed.

Lemma quiet_id : quiet (fun l => l).
Proof. by split. Qed.

Lemma quiet_stop : quiet stop_link.
Proof. by split. Qed.

(** Steps that propagate and send nothing. *)
Lemma quiet_master ps starts m m' id f :
  master_inv ps starts m -> quiet f -> links m' = alter f id (links m) ->
  offset m' = offset m -> backlog_max_bytes m' = backlog_max_bytes m -> replid m' = replid m ->
  dict_ok (replicas m') -> (forall c i, dict_get (replicas m') c = Some i -> dict_get (replicas m) c = Some i) ->
  (forall i l, links m' !! i = Some l -> alive l = true ->
     dict_get (replicas m') (connection_id l) = dict_get (replicas m) (connection_id l)) ->
  resyncs m' `sublist_of` resyncs m -> master_inv ps starts m'.
Proof.
  intros [] Hf Hl Ho Hb Hr Hd Hsub Hreg Hrs. split; try done.
  - by rewrite Ho.
  - by rewrite Hl, length_alter.
  - intros c i Hc. destruct (mi_reg0 c i (Hsub _ _ Hc)) as (l & Hi & Hconn). rewrite Hl.
    destruct (decide (i = id)) as [->|Hne].
    + exists (f l). rewrite list_lookup_alter_eq, Hi. by rewrite (q_conn f Hf).
    + exists l. by rewrite list_lookup_alter_ne.
  - intros i s l' Hs Hi. pose proof (Hreg i l' Hi) as Hre. rewrite Hl in Hi.
    apply lookup_alter_inv in Hi as (l & Hi & ->). specialize (mi_link0 i s l Hs Hi). case_decide.
    + eapply quiet_link; try done. intros Ha. rewrite <- (q_conn f Hf). by apply Hre.
    + eapply (quiet_link ps m m' i s (fun l => l)); try done.
  - intros r s Hin Hs. destruct (mi_resync0 r s) as (l & Hi & Hst & Hp); [by eapply elem_of_sublist|done|].
    rewrite Hl. destruct (decide (r_link r = id)) as [E|Hne].
    + exists (f l). rewrite <- E, list_lookup_alter_eq, Hi. split; [done|]. split; [by rewrite (q_state f Hf)|].
      pose proof (q_head f Hf l) as Hh. destruct (r_phase r) as [x|].
      * destruct Hp as [Hout Hx]. split; [|unfold snapshot_of in *; by rewrite Hr].
        rewrite Hout in Hh. by destruct (out (f l)).
      * by apply (head_out_nil l (f l)).
    + exists l. rewrite list_lookup_alter_ne by done. split; [done|]. split; [done|].
      destruct (r_phase r); [|done]. unfold snapshot_of in *. by rewrite Hr.
  - intros r l' Hin Hi. rewrite Hl in Hi. apply lookup_alter_inv in Hi as (l & Hi & ->).
    assert (connection_id l = r_conn r) as <- by (apply mi_conn0; [by eapply elem_of_sublist|done]).
    case_decide; [apply (q_conn f Hf)|done].
  - rewrite Hl, length_alter. by eapply sublist_Forall.
  - eapply sublist_NoDup; [exact mi_nodup0|]. clear - Hrs. induction Hrs; simpl; by constructor.
Qed.

Lemma unregister_inv ps starts m conn : master_inv ps starts m -> master_inv ps starts (unregister m conn).
Proof.
  intros Hi. unfold unregister. destruct (dict_get (replicas m) conn) as [id|] eqn:E; [|done].
  eapply (quiet_master ps starts m _ id stop_link); try done; simpl.
  - apply dict_del_ok, Hi.
  - intros c i. destruct (decide (conn = c)) as [->|Hne].
    + by rewrite dict_get_del_eq by apply Hi.
    + by rewrite dict_get_del_ne.
  - intros i l Hl Ha. apply lookup_alter_inv in Hl as (l0 & Hl & ->). case_decide as Hd; [done|].
    assert (i < length starts)%nat as Hlt by (rewrite (mi_starts _ _ _ Hi); by eapply lookup_lt_Some).
    destruct (lookup_lt_is_Some_2 _ _ Hlt) as [s Hs].
    destruct (lk_alive _ _ _ _ _ (mi_link _ _ _ Hi i s l0 Hs Hl) Ha) as (_ & _ & Hreg).
    rewrite dict_get_del_ne; [done|]. intros ->. congruence.
Qed.

Lemma with_resyncs_inv ps starts m rs : master_inv ps starts m -> rs `sublist_of` resyncs m -> master_inv ps starts (with_resyncs m rs).
Proof.
  intros Hi Hs. eapply (quiet_master ps starts m _ 0 (fun l => l)); try done; simpl.
  - symmetry. by apply list_alter_id.
  - apply Hi.
Qed.

Lemma unregister_resyncs m conn : resyncs (unregister m conn) = resyncs m.
Proof. unfold unregister. by destruct (dict_get (replicas m) conn). Qed.

Lemma fail_inv ps starts m pre r post :
  master_inv ps starts m -> resyncs m = pre ++ r :: post -> master_inv ps starts (full_resync_fail m r (pre ++ post)).
Proof.
  intros Hi Hr. apply with_resyncs_inv; [by apply unregister_inv|]. rewrite unregister_resyncs, Hr.
  apply sublist_app; [done|]. by apply sublist_cons.
Qed.

Lemma task_inv ps starts m : master_inv ps starts m -> master_inv ps starts (run_unregister_task m).
Proof.
  intros Hi. unfold run_unregister_task. destruct (unregister_tasks m) as [|conn rest]; [done|].
  eapply (quiet_master ps starts (unregister m conn) _ 0 (fun l => l)); try done; simpl.
  - by apply unregister_inv.
  - symmetry. by apply list_alter_id.
  - apply (mi_dict ps starts). by apply unregister_inv.
Qed.

Lemma drain_inv ps starts m ok id : master_inv ps starts m -> master_inv ps starts (replica_writer_step ok id m).
Proof.
  intros Hi. unfold replica_writer_step. destruct (links m !! id) as [l|] eqn:El; [|done].
  destruct (negb (drain_task l) || negb (alive l)); [done|]. destruct (pending l) as [|[] p]; [done| |].
  - destruct ok; (eapply quiet_master; [exact Hi| |reflexivity|..]; try done; apply Hi).
  - eapply quiet_master; [exact Hi| |reflexivity|..]; try done. apply Hi.
Qed.

Lemma start_of ps starts m id l : master_inv ps starts m -> links m !! id = Some l -> exists s, starts !! id = Some s.
Proof.
  intros Hi Hl. apply lookup_lt_is_Some_2. rewrite (mi_starts _ _ _ Hi). by eapply lookup_lt_Some.
Qed.

Lemma begin_inv ps starts m conn es :
  master_inv ps starts m -> dict_get (replicas m) conn = None ->
  master_inv ps (starts ++ [(length ps, es)]) (full_resync_begin m conn es).
Proof.
  intros Hi Hc. pose proof (mi_starts _ _ _ Hi) as Hlen. split; simpl.
  - apply Hi.
  - rewrite !length_app. simpl. lia.
  - apply dict_set_ok, Hi.
  - intros c id. rewrite dict_get_set. case_bool_decide as E.
    + intros [= <-]. subst c. eexists. rewrite lookup_app_r, Nat.sub_diag by lia. done.
    + intros Hg. destruct (mi_reg _ _ _ Hi _ _ Hg) as (l & Hl & Hcl). exists l. split; [by apply lookup_app_l_Some|done].
  - intros id s l Hs Hl. apply lookup_app_Some in Hl as [Hl|[Hge Hl]].
    + assert (starts !! id = Some s) as Hs'.
      { destruct (start_of _ _ _ _ _ Hi Hl) as [s' Hs']. rewrite (lookup_app_l_Some _ _ _ _ Hs') in Hs. congruence. }
      destruct (mi_link _ _ _ Hi id s l Hs' Hl). split; try done. intros Ha. destruct (lk_alive0 Ha) as (H1 & H2 & H3).
      split_and!; try done. simpl. rewrite dict_get_set_ne; [done|]. intros ->. congruence.
    + destruct (id - length (links m))%nat as [|n] eqn:En; [|by destruct n]. simpl in Hl. injection Hl as <-.
      assert (id = length (links m)) as -> by lia. rewrite <- Hlen, lookup_app_r, Nat.sub_diag in Hs by lia.
      simpl in Hs. injection Hs as <-. split; simpl; try done.
      * apply prefix_nil.
      * intros _. rewrite drop_ge by lia. split_and!; [done|done|]. by rewrite dict_get_set_eq.
      * split; [done|lia].
  - intros r s Hr Hs. apply elem_of_app in Hr as [Hr|Hr].
    + pose proof (mi_bound _ _ _ Hi) as Hb. rewrite Forall_forall in Hb. specialize (Hb _ Hr).
      rewrite lookup_app_l in Hs by lia. destruct (mi_resync _ _ _ Hi r s Hr Hs) as (l & Hl & Hp).
      exists l. split; [by apply lookup_app_l_Some|exact Hp].
    + apply list_elem_of_singleton in Hr as ->. simpl in *. eexists. rewrite lookup_app_r, Nat.sub_diag by lia.
      split; [done|]. split; [done|]. simpl. split; [done|]. intros h Hh.
      rewrite <- Hlen, lookup_app_r, Nat.sub_diag in Hs by lia. injection Hs as <-. simpl. rewrite firstn_all.
      apply rbind_ok in Hh as (rdb & Hrdb & Hh). apply rbind_ok in Hh as (hdr & Hhdr & Hh).
      injection Hh as <-. exists rdb, hdr. by rewrite <- (mi_offset _ _ _ Hi).
  - intros r l Hr Hl. apply elem_of_app in Hr as [Hr|Hr].
    + pose proof (mi_bound _ _ _ Hi) as Hb. rewrite Forall_forall in Hb. specialize (Hb _ Hr).
      rewrite lookup_app_l in Hl by lia. by apply (mi_conn _ _ _ Hi).
    + apply list_elem_of_singleton in Hr as ->. simpl in *. rewrite lookup_app_r, Nat.sub_diag in Hl by lia.
      by injection Hl as <-.
  - apply Forall_app. split; [|constructor; [simpl; rewrite length_app; simpl; lia|constructor]].
    eapply Forall_impl; [apply Hi|]. intros r Hr. cbn beta in *. rewrite length_app. lia.
  - rewrite map_app. apply NoDup_app. split_and!; [apply Hi| |by repeat constructor; set_solver].
    intros i Hin. apply list_elem_of_fmap in Hin as (r & -> & Hin). simpl. intros E%list_elem_of_singleton.
    pose proof (mi_bound _ _ _ Hi) as Hb. rewrite Forall_forall in Hb. specialize (Hb _ Hin). lia.
Qed.

(** Changing the link of one resync and the phase of that resync. *)
Lemma resync_step_inv ps starts m f pre r post phase :
  master_inv ps starts m -> resyncs m = pre ++ r :: post ->
  (forall l s, links m !! r_link r = Some l -> starts !! r_link r = Some s -> link_inv ps m (r_link r) s l ->
     resync_inv ps m s l (r_phase r) ->
     link_inv ps m (r_link r) s (f l) /\ connection_id (f l) = connection_id l /\
     match phase with Some p => resync_inv ps m s (f l) p | None => True end) ->
  master_inv ps starts (with_resyncs (update_link m (r_link r) f)
    (match phase with Some p => pre ++ mkResync (r_conn r) (r_link r) p :: post | None => pre ++ post end)).
Proof.
  intros Hi Hrs Hf.
  assert (r ∈ resyncs m) as Hin by (rewrite Hrs; set_solver).
  pose proof (mi_bound _ _ _ Hi) as Hb. rewrite Forall_forall in Hb. pose proof (Hb _ Hin) as Hlt.
  destruct (lookup_lt_is_Some_2 _ _ Hlt) as [l Hl]. destruct (start_of _ _ _ _ _ Hi Hl) as [s Hs].
  destruct (mi_resync _ _ _ Hi r s Hin Hs) as (l' & Hl' & Hp). rewrite Hl in Hl'. injection Hl' as <-.
  destruct (Hf l s Hl Hs (mi_link _ _ _ Hi _ _ _ Hs Hl) Hp) as (F1 & F2 & F3).
  pose proof (mi_nodup _ _ _ Hi) as Hnd. rewrite Hrs in Hnd. rewrite map_app in Hnd. cbn [map] in Hnd.
  assert (forall r', r' ∈ pre ++ post -> r_link r' <> r_link r) as Hother.
  { intros r' Hr' E. apply NoDup_app in Hnd as (_ & Hd & Hnd). apply NoDup_cons in Hnd as [Hn _].
    apply elem_of_app in Hr' as [Hr'|Hr'].
    - apply (Hd (r_link r')); [by apply list_elem_of_fmap_2|]. rewrite E. left.
    - apply Hn. rewrite <- E. by apply list_elem_of_fmap_2. }
  assert (forall r', r' ∈ pre ++ post -> r' ∈ resyncs m) as Hsub by (rewrite Hrs; set_solver).
  assert (forall r' s', r' ∈ pre ++ post -> starts !! r_link r' = Some s' ->
            exists l', alter f (r_link r) (links m) !! r_link r' = Some l' /\ resync_inv ps m s' l' (r_phase r')) as Hrest.
  { intros r' s' Hr' Hs'. destruct (mi_resync _ _ _ Hi r' s' (Hsub _ Hr') Hs') as (l' & Hl' & Hp'). exists l'.
    rewrite list_lookup_alter_ne; [done|]. intros E. by apply (Hother r' Hr'). }
  split; simpl.
  - apply Hi.
  - rewrite length_alter. apply Hi.
  - apply Hi.
  - intros c id Hc. destruct (mi_reg _ _ _ Hi c id Hc) as (x & Hx & Hxc). destruct (decide (id = r_link r)) as [->|Hne].
    + exists (f x). rewrite list_lookup_alter_eq, Hx. split; [done|]. rewrite Hl in Hx. injection Hx as <-. congruence.
    + exists x. by rewrite list_lookup_alter_ne.
  - intros id s' x Hs' Hx. apply lookup_alter_inv in Hx as (y & Hy & ->). case_decide as E.
    + subst id. rewrite Hl in Hy. injection Hy as <-. rewrite Hs in Hs'. injection Hs' as <-.
      destruct F1. by split.
    + destruct (mi_link _ _ _ Hi id s' y Hs' Hy). by split.
  - intros r' s' Hr' Hs'. destruct phase as [p|]; [|by apply Hrest].
    apply elem_of_app in Hr' as [Hr'|Hr']; [apply Hrest; set_solver|].
    apply elem_of_cons in Hr' as [->|Hr']; [|apply Hrest; set_solver]. simpl in *.
    rewrite Hs in Hs'. injection Hs' as <-. exists (f l). by rewrite list_lookup_alter_eq, Hl.
  - intros r' x Hr' Hx. apply lookup_alter_inv in Hx as (y & Hy & ->).
    assert (connection_id y = r_conn r') as <-.
    { destruct phase as [p|]; [|by apply (mi_conn _ _ _ Hi); [apply Hsub|]].
      apply elem_of_app in Hr' as [Hr'|Hr']; [apply (mi_conn _ _ _ Hi); [apply Hsub; set_solver|done]|].
      apply elem_of_cons in Hr' as [->|Hr']; [by apply (mi_conn _ _ _ Hi r)|].
      apply (mi_conn _ _ _ Hi); [apply Hsub; set_solver|done]. }
    case_decide as E; [|done]. rewrite E, Hl in Hy. by injection Hy as <-.
  - apply Forall_forall. intros r' Hr'. cbn beta. rewrite length_alter. destruct phase as [p|].
    + apply elem_of_app in Hr' as [Hr'|Hr']; [apply Hb, Hsub; set_solver|].
      apply elem_of_cons in Hr' as [->|Hr']; [done|apply Hb, Hsub; set_solver].
    + by apply Hb, Hsub.
  - destruct phase as [p|]; rewrite map_app; [exact Hnd|].
    apply NoDup_app in Hnd as (H1 & H2 & H3). apply NoDup_cons in H3 as [_ H3]. apply NoDup_app. split_and!; try done.
    intros i Hi' Hi''. apply (H2 i Hi'). by right.
Qed.

Lemma tail_app_nonempty {A} (l k : list A) : l <> [] -> tail (l ++ k) = tail l ++ k.
Proof. by destruct l. Qed.

Lemma head_app_nonempty {A} (l k : list A) : l <> [] -> head (l ++ k) = head l.
Proof. by destruct l. Qed.

Lemma send_inv ps starts m pre r post :
  master_inv ps starts m -> resyncs m = pre ++ r :: post -> master_inv ps starts (full_resync_send m pre r post).
Proof.
  intros Hi Hr. unfold full_resync_send. destruct (r_phase r) as [[payload|e]|] eqn:Hp; [|by apply fail_inv|done].
  apply (resync_step_inv ps starts m (write_out [payload]) pre r post (Some Flushing)); [done|done|].
  rewrite Hp. intros l s _ _ [] [Hst [Hout Hsnap]]. split; [|split; [done|]].
  - split; simpl; try done; unfold stream_of in *; simpl; rewrite Hout in *; simpl in *; try done.
    + intros Hl. congruence.
    + intros h [= <-]. by apply Hsnap.
  - split; [done|]. simpl. by rewrite Hout.
Qed.

Lemma with_resyncs_id m : with_resyncs m (resyncs m) = m.
Proof. by destruct m. Qed.

(** The backlog moves to the transport, whole or up to a failed write. *)
Lemma flush_link ps m id s l batch n :
  link_inv ps m id s l -> out l <> [] -> state l = syncing -> backlog l = batch -> (n = length batch \/ alive l = false) ->
  link_inv ps m id s (write_out (take n batch) (clear_backlog l)).
Proof.
  intros [] Hout Hst Hb Hn. unfold stream_of in *. split; simpl; try done; unfold stream_of; simpl.
  - rewrite app_nil_r, tail_app_nonempty by done. etrans; [|exact lk_prefix0]. rewrite Hb.
    apply prefix_app, prefix_take.
  - intros Ha. destruct Hn as [->|?]; [|congruence]. rewrite app_nil_r, tail_app_nonempty, firstn_all by done.
    rewrite <- Hb. by apply lk_alive0.
  - congruence.
  - split; [done|lia].
  - intros h. rewrite head_app_nonempty by done. apply lk_head0.
Qed.

Lemma unregister_with_resyncs m conn rs : with_resyncs (unregister m conn) rs = unregister (with_resyncs m rs) conn.
Proof. unfold unregister. simpl. by destruct (dict_get (replicas m) conn). Qed.

Lemma flush_inv ps starts m pre r post written :
  master_inv ps starts m -> resyncs m = pre ++ r :: post -> master_inv ps starts (full_resync_flush m pre r post written).
Proof.
  intros Hi Hr. unfold full_resync_flush. destruct (r_phase r) as [|] eqn:Hp; [done|].
  destruct (links m !! r_link r) as [l|] eqn:Hl; [|done].
  assert (r ∈ resyncs m) as Hin by (rewrite Hr; set_solver).
  assert (forall l0 s, links m !! r_link r = Some l0 -> resync_inv ps m s l0 (r_phase r) -> out l0 <> [] /\ state l0 = syncing) as Hph.
  { intros l0 s _ [Hst Ho]. by rewrite Hp in Ho. }
  destruct (backlog l) as [|x batch] eqn:Hb; [|destruct written as [n|]].
  - eapply (resync_step_inv ps starts m _ pre r post None); [done|done|]. intros l0 s Hl0 _ Hk Hph0.
    destruct (Hph l0 s Hl0 Hph0) as [Hout Hst]. rewrite Hl in Hl0. injection Hl0 as <-. split; [|done].
    destruct Hk. split; simpl; try done; unfold stream_of in *; simpl.
    + by rewrite Hb in lk_prefix0.
    + intros Ha. destruct (lk_alive0 Ha) as (H1 & H2 & H3). by rewrite Hb in H1.
    + split; [done|lia].
  - unfold full_resync_fail. rewrite unregister_with_resyncs. set (g := fun l => write_out (take n (x :: batch)) (clear_backlog l)).
    destruct (start_of _ _ _ _ _ Hi Hl) as [s Hs]. pose proof (mi_link _ _ _ Hi _ _ _ Hs Hl) as Hk.
    destruct (alive l) eqn:Ha.
    + destruct (lk_alive _ _ _ _ _ Hk Ha) as (_ & _ & Hreg). rewrite (mi_conn _ _ _ Hi r l Hin Hl) in Hreg.
      unfold unregister. simpl. rewrite Hreg. rewrite list_alter_alter_eq.
      assert (master_inv ps starts (with_resyncs (update_link m (r_link r) (stop_link ∘ g)) (pre ++ post))) as H1.
      { apply (resync_step_inv ps starts m _ pre r post None); [done|done|]. intros l0 s0 Hl0 Hs0 Hk0 Hph0.
        destruct (Hph l0 s0 Hl0 Hph0) as [Hout Hst]. rewrite Hl in Hl0. injection Hl0 as <-. split; [|done].
        assert (link_inv ps m (r_link r) s0 (set_alive false l)) as Hk1 by (destruct Hk0; by split).
        pose proof (flush_link ps m (r_link r) s0 (set_alive false l) (x :: batch) n Hk1 Hout Hst Hb (or_intror eq_refl)) as [].
        by split. }
      eapply (quiet_master ps starts _ _ 0 (fun l => l)); [exact H1| |simpl; by rewrite (list_alter_id (fun l => l))|..]; try done; simpl.
      * apply dict_del_ok, Hi.
      * intros c i. destruct (decide (r_conn r = c)) as [->|Hne]; [by rewrite dict_get_del_eq by apply Hi|by rewrite dict_get_del_ne].
      * intros i y Hy Hay. apply lookup_alter_inv in Hy as (z & Hz & ->). case_decide as Hd; [done|].
        destruct (start_of _ _ _ _ _ Hi Hz) as [s' Hs'].
        destruct (lk_alive _ _ _ _ _ (mi_link _ _ _ Hi _ _ _ Hs' Hz) Hay) as (_ & _ & Hreg').
        rewrite dict_get_del_ne; [done|]. intros E. rewrite <- E in Hreg'. congruence.
    + apply unregister_inv. apply (resync_step_inv ps starts m g pre r post None); [done|done|].
      intros l0 s0 Hl0 Hs0 Hk0 Hph0. destruct (Hph l0 s0 Hl0 Hph0) as [Hout Hst]. rewrite Hl in Hl0. injection Hl0 as <-.
      split; [|done]. apply flush_link; try done. by right.
  - rewrite <- (with_resyncs_id (update_link _ _ _)). simpl. rewrite Hr.
    replace (pre ++ r :: post) with (pre ++ mkResync (r_conn r) (r_link r) Flushing :: post) by (rewrite <- Hp; by destruct r).
    apply (resync_step_inv ps starts m _ pre r post (Some Flushing)); [done|done|]. intros l0 s0 Hl0 Hs0 Hk0 Hph0.
    destruct (Hph l0 s0 Hl0 Hph0) as [Hout Hst]. rewrite Hl in Hl0. injection Hl0 as <-. split; [|split; [done|]].
    + rewrite <- (firstn_all (x :: batch)) at 1. apply flush_link; try done. by left.
    + split; [done|]. simpl. by destruct (out l).
Qed.

(** *** Propagation *)

Lemma propagate_loop_other m payload off fails its ls dead i :
  i ∉ map snd its -> (propagate_loop m payload off fails its ls dead).1 !! i = ls !! i.
Proof.
  revert ls dead. induction its as [|[c id] its IH]; intros ls dead Hi; [done|]. simpl in *.
  apply not_elem_of_cons in Hi as [Hne Hi]. destruct (ls !! id) as [l|]; [|by apply IH].
  destruct (propagate_link m payload off (fails c) l) as [l' d]. rewrite IH by done.
  by rewrite list_lookup_insert_ne.
Qed.

Lemma propagate_loop_lookup m payload off fails its ls dead c i l :
  NoDup (map snd its) -> (c, i) ∈ its -> ls !! i = Some l ->
  (propagate_loop m payload off fails its ls dead).1 !! i = Some (propagate_link m payload off (fails c) l).1.
Proof.
  revert ls dead. induction its as [|[c' id] its IH]; intros ls dead Hnd Hin Hl; [by apply elem_of_nil in Hin|].
  simpl in *. apply NoDup_cons in Hnd as [Hn Hnd]. apply elem_of_cons in Hin as [E|Hin].
  - injection E as <- <-. rewrite Hl. destruct (propagate_link m payload off (fails c) l) as [l' d].
    rewrite propagate_loop_other by done. apply list_lookup_insert_eq. by eapply lookup_lt_Some.
  - assert (i <> id) as Hne.
    { intros ->. apply Hn. apply list_elem_of_fmap. by exists (c, id). }
    destruct (ls !! id) as [x|]; [|by apply IH].
    destruct (propagate_link m payload off (fails c') x) as [x' d]. apply IH; [done|done|].
    by rewrite list_lookup_insert_ne.
Qed.

Lemma propagate_loop_length m payload off fails its ls dead :
  length (propagate_loop m payload off fails its ls dead).1 = length ls.
Proof.
  revert ls dead. induction its as [|[c id] its IH]; intros ls dead; [done|]. simpl.
  destruct (ls !! id) as [l|]; [|apply IH]. destruct (propagate_link m payload off (fails c) l) as [l' d].
  by rewrite IH, length_insert.
Qed.

Lemma prefix_snoc {A} (l k : list A) x : l `prefix_of` k -> l `prefix_of` k ++ [x].
Proof. intros [r ->]. exists (r ++ [x]). by rewrite app_assoc. Qed.

(** A link that does not get the payload: it is, or becomes, dead. *)
Lemma skipped_link ps m m' p id s l :
  link_inv ps m id s l -> backlog_max_bytes m' = backlog_max_bytes m -> replid m' = replid m ->
  link_inv (ps ++ [p]) m' id s (set_alive false l).
Proof.
  intros [] Hb Hr. split; simpl; try done.
  - rewrite length_app. lia.
  - rewrite drop_app_le by done. by apply prefix_snoc.
  - by rewrite Hb.
  - intros h Hh. rewrite take_app_le by done. unfold snapshot_of. rewrite Hr. by apply lk_head0.
Qed.

Lemma set_alive_id l : set_alive (alive l) l = l.
Proof. by destruct l. Qed.

Lemma propagate_link_inv ps m m' p id s l fails :
  link_inv ps m id s l -> dict_get (replicas m) (connection_id l) = Some id -> replicas m' = replicas m ->
  backlog_max_bytes m' = backlog_max_bytes m -> replid m' = replid m -> offset m' = offset m + zlen p ->
  link_inv (ps ++ [p]) m' id s (propagate_link m p (offset m + zlen p) fails l).1.
Proof.
  intros Hk Hreg Hrep Hb Hr Ho. unfold propagate_link.
  assert (link_inv (ps ++ [p]) m' id s (set_alive false l)) as Hdead by (by eapply skipped_link).
  destruct (alive l) eqn:Ha; simpl; [|by rewrite <- (set_alive_id l), Ha].
  destruct Hk. destruct (lk_alive0 Ha) as (Hs & Hoff & _). unfold stream_of in *.
  assert (forall h, head (out l) = Some h -> snapshot_of m' (zlen (concat (take s.1 (ps ++ [p])))) s.2 h) as Hhead.
  { intros h Hh. rewrite take_app_le by done. unfold snapshot_of. rewrite Hr. by apply lk_head0. }
  destruct (state l) eqn:Est.
  - case_if; [done|]. split; simpl; unfold stream_of; simpl; try done.
    + rewrite length_app. lia.
    + rewrite drop_app_le, app_assoc, Hs by done. done.
    + intros _. rewrite drop_app_le, app_assoc, Hs by done. by rewrite Hrep.
    + congruence.
    + destruct lk_bytes0 as [E Hle]. rewrite concat_app, zlen_app, E in *. simpl. rewrite app_nil_r, Hb. split; [done|lia].
  - destruct (lk_live0 eq_refl) as [Hbl Hout]. do 2 (case_if; [done|]).
    split; simpl; unfold stream_of; simpl; try done; rewrite ?Hbl, ?app_nil_r, ?tail_app_nonempty in * by done.
    + rewrite length_app. lia.
    + by rewrite drop_app_le, Hs by done.
    + intros _. rewrite drop_app_le, Hs by done. by rewrite Hrep.
    + intros _. split; [done|]. by destruct (out l).
    + by rewrite Hb.
    + intros h. rewrite head_app_nonempty by done. apply Hhead.
Qed.

(** Distinct connections have distinct links. *)
Lemma registered_nodup ps starts m : master_inv ps starts m -> NoDup (map snd (replicas m)).
Proof.
  intros Hi. pose proof (mi_dict _ _ _ Hi) as Hd.
  assert (forall c c' i, (c, i) ∈ replicas m -> (c', i) ∈ replicas m -> c = c') as Hinj.
  { intros c c' i H1 H2. apply (dict_elem_get _ _ _ Hd) in H1, H2.
    destruct (mi_reg _ _ _ Hi _ _ H1) as (l & Hl & <-). destruct (mi_reg _ _ _ Hi _ _ H2) as (l' & Hl' & <-). congruence. }
  clear Hi. unfold dict_ok, dict_keys in Hd. induction (replicas m) as [|[c i] d IH]; simpl in *; [constructor|].
  apply NoDup_cons in Hd as [Hn Hd]. apply NoDup_cons. split; [|apply IH; [done|]; intros; eapply Hinj; by right].
  intros Hin. apply list_elem_of_fmap in Hin as ([c' i'] & -> & Hin). simpl in *.
  apply Hn. apply list_elem_of_fmap. exists (c', i'). split; [|done]. apply (Hinj c c' i'); [left|by right].
Qed.

Lemma propagate_link_state m p off fails l :
  state (propagate_link m p off fails l).1 = state l /\ connection_id (propagate_link m p off fails l).1 = connection_id l /\
  (state l = syncing -> out (propagate_link m p off fails l).1 = out l).
Proof. unfold propagate_link. destruct (alive l), (state l) eqn:E; simpl; repeat case_if; simpl; rewrite ?E; done. Qed.

Lemma propagate_inv ps starts m fails argv :
  master_inv ps starts m ->
  master_inv (ps ++ match replicas m with [] => [] | _ :: _ => [encode_command argv] end) starts (propagate fails argv m).
Proof.
  intros Hi. unfold propagate. destruct (replicas m) as [|r0 rs] eqn:Hreps; [by rewrite app_nil_r|]. rewrite <- Hreps. clear r0 rs Hreps.
  set (p := encode_command argv). destruct (propagate_loop _ _ _ _ _ _ _) as [ls dead] eqn:El.
  pose proof (registered_nodup _ _ _ Hi) as Hnd.
  assert (forall i l', ls !! i = Some l' -> exists l, links m !! i = Some l /\
      ((exists c, dict_get (replicas m) c = Some i /\ l' = (propagate_link m p (offset m + zlen p) (fails c) l).1) \/
       ((forall c, dict_get (replicas m) c <> Some i) /\ l' = l))) as Hls.
  { intros i l' Hl'. assert (i < length (links m))%nat as Hlt.
    { apply lookup_lt_Some in Hl'. pose proof (propagate_loop_length m p (offset m + zlen p) fails (replicas m) (links m) []) as Hn.
      rewrite El in Hn. simpl in Hn. lia. }
    destruct (lookup_lt_is_Some_2 _ _ Hlt) as [l Hl]. exists l. split; [done|].
    destruct (decide (i ∈ map snd (replicas m))) as [Hin|Hnin].
    - apply list_elem_of_fmap in Hin as ([c i'] & -> & Hin). left. exists c. split; [by apply dict_elem_get; [apply Hi|]|].
      pose proof (propagate_loop_lookup m p (offset m + zlen p) fails (replicas m) (links m) [] c i' l Hnd Hin Hl) as H.
      rewrite El in H. simpl in *. congruence.
    - right. split.
      + intros c Hc. apply Hnin. apply list_elem_of_fmap. exists (c, i). split; [done|]. by apply dict_get_elem.
      + pose proof (propagate_loop_other m p (offset m + zlen p) fails (replicas m) (links m) [] i Hnin) as H.
        rewrite El in H. simpl in *. congruence. }
  assert (length ls = length (links m)) as Hlen.
  { pose proof (propagate_loop_length m p (offset m + zlen p) fails (replicas m) (links m) []) as Hn. by rewrite El in Hn. }
  assert (forall i l, links m !! i = Some l -> exists l', ls !! i = Some l') as Hex.
  { intros i l Hl. apply lookup_lt_is_Some_2. rewrite Hlen. by eapply lookup_lt_Some. }
  assert (forall i l l', ls !! i = Some l' -> links m !! i = Some l ->
            state l' = state l /\ connection_id l' = connection_id l /\ (state l = syncing -> out l' = out l)) as Hsame.
  { intros i l l' Hl' Hl. destruct (Hls i l' Hl') as (l0 & Hl0 & [(c & _ & ->)|[_ ->]]); rewrite Hl in Hl0; injection Hl0 as <-;
      [apply propagate_link_state|done]. }
  split; simpl.
  - rewrite concat_app, zlen_app, (mi_offset _ _ _ Hi). simpl. by rewrite app_nil_r.
  - rewrite Hlen. apply Hi.
  - apply Hi.
  - intros c i Hc. destruct (mi_reg _ _ _ Hi c i Hc) as (l & Hl & Hcl). destruct (Hex i l Hl) as [l' Hl'].
    exists l'. split; [done|]. destruct (Hsame i l l' Hl' Hl) as (_ & -> & _). done.
  - intros i s l' Hs Hl'. destruct (Hls i l' Hl') as (l & Hl & [(c & Hc & ->)|[Hn ->]]);
      pose proof (mi_link _ _ _ Hi i s l Hs Hl) as Hk.
    + apply propagate_link_inv; try done. destruct (mi_reg _ _ _ Hi c i Hc) as (l0 & Hl0 & Hcl). congruence.
    + assert (alive l = false) as Ha.
      { destruct (alive l) eqn:Ha; [|done]. destruct (lk_alive _ _ _ _ _ Hk Ha) as (_ & _ & Hreg). by apply Hn in Hreg. }
      rewrite <- (set_alive_id l), Ha. by eapply skipped_link.
  - intros r s Hr Hs. destruct (mi_resync _ _ _ Hi r s Hr Hs) as (l & Hl & Hst & Hp). destruct (Hex _ l Hl) as [l' Hl'].
    destruct (Hsame _ l l' Hl' Hl) as (E1 & _ & E2). specialize (E2 Hst). exists l'. split; [done|]. split; [congruence|].
    assert (s.1 <= length ps)%nat as Hsl by apply (mi_link _ _ _ Hi _ s l Hs Hl).
    rewrite E2. destruct (r_phase r); [|done]. by rewrite take_app_le.
  - intros r l' Hr Hl'. destruct (Hls _ l' Hl') as (l & Hl & _). destruct (Hsame _ l l' Hl' Hl) as (_ & -> & _).
    by apply (mi_conn _ _ _ Hi).
  - rewrite Hlen. apply Hi.
  - apply Hi.
Qed.

Lemma link_step_inv ps starts m m' : master_inv ps starts m -> link_step m m' -> master_inv ps starts m'.
Proof.
  intros Hi []; [by apply send_inv|by apply flush_inv|by apply fail_inv|by apply task_inv|by apply unregister_inv|by apply drain_inv].
Qed.

Lemma master_step_inv ps starts m qs es m' :
  master_inv ps starts m -> master_step m qs es m' -> master_inv (ps ++ qs) (starts ++ map (pair (length ps)) es) m'.
Proof.
  intros Hi Hs. destruct Hs; simpl; rewrite ?app_nil_r.
  - by apply propagate_inv.
  - by apply begin_inv.
  - by eapply link_step_inv.
Qed.

Lemma new_master_inv bmax pmax rid : master_inv [] [] (new_master bmax pmax rid).
Proof. split; simpl; try done; try (by constructor); intros r start Hr; by apply elem_of_nil in Hr. Qed.

Lemma run_inv bmax pmax rid ps starts m : master_run (new_master bmax pmax rid) ps starts m -> master_inv ps starts m.
Proof. induction 1 as [|ps starts m1 qs es m2 _ IH Hs]; [apply new_master_inv|by apply (master_step_inv ps starts m1)]. Qed.

(** *** Links never come back *)

(** Every link of [m'] that is alive was alive in [m]. *)
Definition no_revival (m m' : MasterReplication) : Prop :=
  forall i l', links m' !! i = Some l' -> alive l' = true -> exists l, links m !! i = Some l /\ alive l = true.

#[global] Instance no_revival_preorder : PreOrder no_revival.
Proof. split; [intros m i l; eauto|]. intros m1 m2 m3 H12 H23 i l' Hl Ha. destruct (H23 i l' Hl Ha) as (l & Hl2 & Ha2). eauto. Qed.

Lemma alter_no_revival m m' id f :
  links m' = alter f id (links m) -> (forall l, alive (f l) = true -> alive l = true) -> no_revival m m'.
Proof.
  intros E Hf i l' Hl Ha. rewrite E in Hl. apply lookup_alter_inv in Hl as (l & Hl & ->). exists l. split; [done|].
  case_decide; auto.
Qed.

Lemma same_links_no_revival m m' : links m' = links m -> no_revival m m'.
Proof. intros E i l'. rewrite E. eauto. Qed.

Lemma unregister_no_revival m conn : no_revival m (unregister m conn).
Proof. unfold unregister. case_match; [|done]. by eapply alter_no_revival. Qed.

Lemma fail_no_revival m r rest : no_revival m (full_resync_fail m r rest).
Proof. etrans; [apply (unregister_no_revival m (r_conn r))|by apply same_links_no_revival]. Qed.

Lemma update_no_revival m id f : (forall l, alive (f l) = true -> alive l = true) -> no_revival m (update_link m id f).
Proof. intros H. by eapply alter_no_revival. Qed.

Lemma link_step_no_revival m m' : link_step m m' -> no_revival m m'.
Proof.
  intros [pre r post _|pre r post written _|pre r post _| |conn|ok id].
  - unfold full_resync_send. destruct (r_phase r) as [[|]|]; [|apply fail_no_revival|done].
    by apply (alter_no_revival m _ (r_link r) (write_out [a])).
  - unfold full_resync_flush. destruct (r_phase r) as [|]; [done|]. destruct (links m !! r_link r) as [l|]; [|done].
    destruct (backlog l) as [|x q]; [by eapply (alter_no_revival m _ (r_link r))|]. destruct written as [n|].
    + etrans; [|apply fail_no_revival]. by apply update_no_revival.
    + by apply update_no_revival.
  - apply fail_no_revival.
  - unfold run_unregister_task. destruct (unregister_tasks m) as [|conn rest]; [done|].
    etrans; [apply (unregister_no_revival m conn)|by apply same_links_no_revival].
  - apply unregister_no_revival.
  - unfold replica_writer_step. destruct (links m !! id) as [l|]; [|done]. case_match; [done|].
    destruct (pending l) as [|[] p]; [done| |by apply update_no_revival].
    destruct ok; [by apply update_no_revival|]. by eapply (alter_no_revival m _ id).
Qed.

Lemma propagate_no_revival fails argv m : no_revival m (propagate fails argv m).
Proof.
  unfold propagate. destruct (replicas m) as [|r rs] eqn:E; [done|]. rewrite <- E. clear E.
  destruct (propagate_loop _ _ _ _ _ _ _) as [ls dead] eqn:El. intros i l' Hl Ha. simpl in Hl.
  assert (ls = (propagate_loop m (encode_command argv) (offset m + zlen (encode_command argv)) fails (replicas m) (links m) []).1)
    as -> by (by rewrite El). clear El. revert Hl. generalize ([] : list Z), (links m). generalize (replicas m).
  intros its. induction its as [|[c id] its IH]; intros dd k Hl; simpl in Hl; [eauto|].
  destruct (k !! id) as [x|] eqn:Ex; [|eauto].
  assert (alive (propagate_link m (encode_command argv) (offset m + zlen (encode_command argv)) (fails c) x).1 = true -> alive x = true) as Hx.
  { unfold propagate_link. destruct (alive x) eqn:Hax; simpl; [done|by rewrite Hax]. }
  destruct (propagate_link _ _ _ _ _) as [x' d]. simpl in Hx. apply IH in Hl as (l & Hl & Hal).
  apply list_lookup_insert_Some in Hl as [(<- & <- & _)|[_ Hl]]; eauto.
Qed.

(** ** Properties *)

(** C3 The stream of a replica link.  Let the master run from its creation,
    resyncs, propagations, flushes, drains, failures and disconnections interleaved
    in any order; let [ps] be the payloads it propagated and [starts] the
    registrations of its links, each with the number of payloads before it and the
    entries that were snapshot.  The first message that a link writes to its
    transport is the snapshot of exactly the entries of its registration, naming
    the offset of that point.  The commands written after it, and then those
    buffered, are always a prefix of the payloads propagated since, in order and
    each once.  For a link that is still alive they are all of them, and its offset
    is the master's; a link that has failed or overflowed keeps its prefix.  A live
    link buffers nothing, and the backlog never exceeds its limit. *)
Theorem replication_stream bmax pmax rid ps starts m id l :
  master_run (new_master bmax pmax rid) ps starts m -> links m !! id = Some l ->
  offset m = zlen (concat ps) /\
  exists start es, starts !! id = Some (start, es) /\ (start <= length ps)%nat /\
    (forall h, head (out l) = Some h -> snapshot_of m (zlen (concat (take start ps))) es h) /\
    (out l = [] -> state l = syncing) /\
    stream_of l `prefix_of` drop start ps /\
    (alive l = true -> stream_of l = drop start ps /\ link_offset l = offset m) /\
    (state l = live_ -> backlog l = []) /\
    zlen (concat (backlog l)) <= Z.max 0 (backlog_max_bytes m).
Proof.
  intros Hr Hl. pose proof (run_inv _ _ _ _ _ _ Hr) as Hi. split; [apply Hi|].
  destruct (start_of _ _ _ _ _ Hi Hl) as [[start es] Hs]. destruct (mi_link _ _ _ Hi _ _ _ Hs Hl).
  exists start, es. split_and!; try done.
  - intros Ho. destruct (state l) eqn:E; [done|]. by destruct (lk_live0 eq_refl).
  - intros Ha. by destruct (lk_alive0 Ha) as (? & ? & _).
  - intros Hst. by apply lk_live0.
  - destruct lk_bytes0 as [<- ?]. done.
Qed.

Definition ex_cmd (k : bytes) : list bytes := [b "SET"; k; b "v"].
Definition ex_m0 : MasterReplication := new_master 1000 10 (u "abc").
Definition ex_m1 : MasterReplication := full_resync_begin ex_m0 7 [].
Definition ex_m2 : MasterReplication := propagate (fun _ => false) (ex_cmd (b "a")) ex_m1.
Definition ex_m3 : MasterReplication := full_resync_send ex_m2 [] (default (mkResync 0 0 Flushing) (head (resyncs ex_m2))) [].
Definition ex_m4 : MasterReplication := full_resync_flush ex_m3 [] (mkResync 7 0 Flushing) [] None.
Definition ex_m5 : MasterReplication := full_resync_flush ex_m4 [] (mkResync 7 0 Flushing) [] None.
Definition ex_m6 : MasterReplication := propagate (fun _ => false) (ex_cmd (b "b")) ex_m5.

Definition ex_ps : list bytes := [encode_command (ex_cmd (b "a")); encode_command (ex_cmd (b "b"))].

Lemma ex_run : master_run ex_m0 ex_ps [(0%nat, [])] ex_m6.
Proof.
  assert (master_step ex_m0 [] [[]] ex_m1) as H1 by (apply ms_begin; vm_compute; reflexivity).
  assert (master_step ex_m1 [encode_command (ex_cmd (b "a"))] [] ex_m2) as H2 by apply (ms_propagate ex_m1 (fun _ => false)).
  assert (master_step ex_m2 [] [] ex_m3) as H3 by (apply ms_link, ls_send; vm_compute; reflexivity).
  assert (master_step ex_m3 [] [] ex_m4) as H4 by (apply ms_link, ls_flush; vm_compute; reflexivity).
  assert (master_step ex_m4 [] [] ex_m5) as H5 by (apply ms_link, ls_flush; vm_compute; reflexivity).
  assert (master_step ex_m5 [encode_command (ex_cmd (b "b"))] [] ex_m6) as H6.
  { pose proof (ms_propagate ex_m5 (fun _ => false) (ex_cmd (b "b"))) as H.
    assert (replicas ex_m5 = [(7, 0%nat)]) as E by (vm_compute; reflexivity). rewrite E in H. exact H. }
  pose proof (mr_snoc _ _ _ _ _ _ _ (mr_snoc _ _ _ _ _ _ _ (mr_snoc _ _ _ _ _ _ _ (mr_snoc _ _ _ _ _ _ _ (mr_snoc _ _ _ _ _ _ _
    (mr_snoc _ _ _ _ _ _ _ (mr_nil ex_m0) H1) H2) H3) H4) H5) H6) as H.
  rewrite !app_nil_r in H. exact H.
Qed.

Definition ex_link6 : ReplicaLink :=
  Eval vm_compute in default (mkLink [] 0 0 false syncing [] 0 false []) (links ex_m6 !! 0%nat).

Lemma ex_link6_eq : links ex_m6 !! 0%nat = Some ex_link6.
Proof. vm_compute. reflexivity. Qed.

Lemma replication_stream_witness :
  state ex_link6 = live_ /\ alive ex_link6 = true /\ stream_of ex_link6 = ex_ps /\ forall h, head (out ex_link6) = Some h -> snapshot_of ex_m6 0 [] h.
Proof.
  split; [reflexivity|]. split; [reflexivity|].
  destruct (replication_stream 1000 10 (u "abc") ex_ps [(0%nat, [])] ex_m6 0 ex_link6 ex_run ex_link6_eq)
    as (_ & start & es & [= <- <-] & _ & Hh & _ & _ & H & _).
  split; [apply H; reflexivity|exact Hh].
Defined.

(** ** A link that is given up *)

Lemma unregister_dead m conn id l :
  links m !! id = Some l -> alive l = false -> exists l', links (unregister m conn) !! id = Some l' /\ alive l' = false /\ stream_of l' = stream_of l.
Proof.
  intros Hl Ha. unfold unregister. destruct (dict_get (replicas m) conn) as [i|]; [|by exists l]. simpl.
  destruct (decide (id = i)) as [->|Hne]; [rewrite list_lookup_alter_eq, Hl; by eexists|rewrite list_lookup_alter_ne by done; by exists l].
Qed.

Lemma propagate_dead m payload off fails its ls dead id l :
  ls !! id = Some l -> alive l = false -> (propagate_loop m payload off fails its ls dead).1 !! id = Some l.
Proof.
  revert ls dead. induction its as [|[c i] its IH]; intros ls dead Hl Ha; simpl; [done|].
  destruct (ls !! i) as [x|] eqn:Ex; [|by apply IH]. destruct (propagate_link m payload off (fails c) x) as [x' d] eqn:Ep. apply IH; [|done].
  destruct (decide (id = i)) as [->|Hne]; [|by rewrite list_lookup_insert_ne].
  rewrite Hl in Ex. injection Ex as <-. unfold propagate_link in Ep. rewrite Ha in Ep. injection Ep as <- _.
  rewrite list_lookup_insert_eq; [done|by eapply lookup_lt_Some].
Qed.

(** A dead link stays dead, and gets no command that it was not given before. *)
Lemma dead_step ps starts m qs es m' id l :
  master_inv ps starts m -> master_step m qs es m' -> links m !! id = Some l -> alive l = false ->
  exists l', links m' !! id = Some l' /\ alive l' = false /\ stream_of l' `prefix_of` stream_of l.
Proof.
  intros Hi Hst Hl Ha.
  assert (forall m0 conn, links m0 !! id = Some l -> exists l', links (unregister m0 conn) !! id = Some l' /\ alive l' = false /\ stream_of l' `prefix_of` stream_of l) as Hun.
  { intros m0 conn H0. destruct (unregister_dead m0 conn id l H0 Ha) as (l' & H1 & H2 & H3). exists l'. by rewrite H3. }
  assert (forall r p, r ∈ resyncs m -> r_phase r = p -> r_link r = id -> exists s, resync_inv ps m s l p) as Hres.
  { intros r p Hr <- E. destruct (start_of _ _ _ _ _ Hi Hl) as [s Hs]. rewrite <- E in Hs, Hl.
    destruct (mi_resync _ _ _ Hi r s Hr Hs) as (x & Hx & H). rewrite Hl in Hx. injection Hx as <-. by exists s. }
  assert (forall f i, (i = id -> alive (f l) = false /\ stream_of (f l) `prefix_of` stream_of l) ->
    exists l', alter f i (links m) !! id = Some l' /\ alive l' = false /\ stream_of l' `prefix_of` stream_of l) as Hup.
  { intros f i Hf. destruct (decide (id = i)) as [->|Hne]; [rewrite list_lookup_alter_eq, Hl; exists (f l); split; [done|by apply Hf]|].
    rewrite list_lookup_alter_ne by done. by exists l. }
  destruct Hst as [fails argv|conn es0 _|m' [pre r post Hr|pre r post written Hr|pre r post Hr| |conn|ok i]].
  - unfold propagate. destruct (replicas m) eqn:Er; [by exists l|]. rewrite <- Er.
    pose proof (propagate_dead m (encode_command argv) (offset m + zlen (encode_command argv)) fails (replicas m) (links m) [] id l Hl Ha) as H.
    destruct (propagate_loop _ _ _ _ _ _ _) as [ls dead]. by exists l.
  - simpl. exists l. by rewrite (lookup_app_l_Some _ _ _ _ Hl).
  - unfold full_resync_send. destruct (r_phase r) as [[payload|e]|] eqn:Hp; [|by apply Hun|by exists l].
    simpl. apply Hup. intros E. destruct (Hres r _ ltac:(rewrite Hr; set_solver) Hp E) as (s & _ & Hout & _).
    split; [done|]. unfold stream_of. simpl. by rewrite Hout.
  - unfold full_resync_flush. destruct (r_phase r) as [|] eqn:Hp; [by exists l|]. destruct (links m !! r_link r) as [x|] eqn:Hx; [|by exists l].
    assert (r_link r = id -> x = l /\ out l <> []) as Hid.
    { intros E. destruct (Hres r _ ltac:(rewrite Hr; set_solver) Hp E) as (s & _ & Hout). rewrite E, Hl in Hx. by injection Hx as <-. }
    destruct (backlog x) as [|y batch] eqn:Hb; [|destruct written as [k|]].
    + simpl. apply Hup. intros [-> Hout]%Hid. split; [done|]. unfold stream_of. simpl. by rewrite Hb.
    + unfold full_resync_fail. simpl. destruct (Hup (fun l => write_out (take k (y :: batch)) (clear_backlog l)) (r_link r)) as (l1 & H1 & H2 & H3).
      { intros [-> Hout]%Hid. split; [done|]. unfold stream_of. simpl. rewrite app_nil_r, tail_app_nonempty, Hb by done. apply prefix_app, prefix_take. }
      destruct (unregister_dead (update_link m (r_link r) (fun l => write_out (take k (y :: batch)) (clear_backlog l))) (r_conn r) id l1 H1 H2) as (l2 & H4 & H5 & H6).
      exists l2. by rewrite H6.
    + simpl. apply Hup. intros [-> Hout]%Hid. split; [done|]. unfold stream_of. simpl. by rewrite app_nil_r, tail_app_nonempty, Hb by done.
  - by apply Hun.
  - unfold run_unregister_task. destruct (unregister_tasks m); [by exists l|]. by apply Hun.
  - by apply Hun.
  - unfold replica_writer_step. destruct (links m !! i) as [x|] eqn:Hx; [|by exists l].
    destruct (negb (drain_task x) || negb (alive x)) eqn:Ed; [by exists l|].
    assert (i <> id) as Hne by (intros ->; rewrite Hl in Hx; injection Hx as <-; by rewrite Ha, orb_true_r in Ed).
    destruct (pending x) as [|[] p]; [by exists l|destruct ok|]; simpl; by apply Hup.
Qed.

Definition any_step (m m' : MasterReplication) : Prop := exists qs es, master_step m qs es m'.

Lemma dead_run ps starts m m' id l :
  master_inv ps starts m -> rtc any_step m m' -> links m !! id = Some l -> alive l = false ->
  exists l', links m' !! id = Some l' /\ alive l' = false /\ stream_of l' `prefix_of` stream_of l.
Proof.
  intros Hi Hr. revert ps starts l Hi. induction Hr as [m|m m1 m2 (qs & es & Hst) _ IH]; intros ps starts l Hi Hl Ha; [by exists l|].
  destruct (dead_step ps starts m qs es m1 id l Hi Hst Hl Ha) as (l1 & H1 & H2 & H3).
  destruct (IH _ _ l1 (master_step_inv _ _ _ _ _ _ Hi Hst) H1 H2) as (l2 & G1 & G2 & G3). exists l2. split_and!; try done. by etrans.
Qed.

(** A replica whose backlog overflows during its resync is cut off without
    knowing it.  In any run of a master, when a command does not fit into the
    backlog of a link that is being flushed, the link is marked dead, and in every
    continuation of the run neither this command nor any later one is sent to it.
    But its resync does not end: it can send the rest of the backlog and make the
    link live, like that of a healthy replica, and only the record of the link is
    removed. *)
Theorem overflow_leaves_stale_replica bmax pmax rid ps starts m pre r post l fails argv :
  master_run (new_master bmax pmax rid) ps starts m -> resyncs m = pre ++ r :: post -> r_phase r = Flushing ->
  links m !! r_link r = Some l -> alive l = true -> backlog_max_bytes m < backlog_bytes l + zlen (encode_command argv) ->
  let m1 := propagate fails argv m in
  (forall m2, rtc any_step m1 m2 -> exists l2, links m2 !! r_link r = Some l2 /\ alive l2 = false /\ stream_of l2 `prefix_of` stream_of l) /\
  exists m3 l3, rtc any_step m1 m3 /\ links m3 !! r_link r = Some l3 /\ state l3 = live_ /\ tail (out l3) = stream_of l /\ resyncs m3 = pre ++ post.
Proof.
  intros Hrun Hr Hp Hl Ha Hover m1. pose proof (run_inv _ _ _ _ _ _ Hrun) as Hi. pose proof (propagate_inv ps starts m fails argv Hi) as Hi1.
  destruct (start_of _ _ _ _ _ Hi Hl) as [s Hs]. destruct (lk_alive _ _ _ _ _ (mi_link _ _ _ Hi _ _ _ Hs Hl) Ha) as (_ & _ & Hreg).
  destruct (mi_resync _ _ _ Hi r s ltac:(rewrite Hr; set_solver) Hs) as (x & Hx & Hst & Hout). rewrite Hl in Hx. injection Hx as <-. rewrite Hp in Hout.
  assert (links m1 !! r_link r = Some (set_alive false l) /\ resyncs m1 = pre ++ r :: post) as [Hl1 Hr1].
  { unfold m1, propagate. destruct (replicas m) as [|r0 rs] eqn:Er; [by rewrite ?Er in Hreg|]. rewrite <- Er in *.
    pose proof (propagate_loop_lookup m (encode_command argv) (offset m + zlen (encode_command argv)) fails (replicas m) (links m) [] _ _ l
      (registered_nodup _ _ _ Hi) (dict_get_elem _ _ _ Hreg) Hl) as H.
    destruct (propagate_loop _ _ _ _ _ _ _) as [ls dead]. simpl in *. split; [|done]. rewrite H. unfold propagate_link. rewrite Ha, Hst. cbn [negb].
    by replace (_ <? _) with true by lia. }
  split; [intros m2 H2; by apply (dead_run _ _ _ _ _ _ Hi1 H2 Hl1)|].
  assert (forall m0 l0, links m0 !! r_link r = Some l0 -> resyncs m0 = pre ++ r :: post -> backlog l0 = [] ->
    exists m3 l3, rtc any_step m0 m3 /\ links m3 !! r_link r = Some l3 /\ state l3 = live_ /\ out l3 = out l0 /\ resyncs m3 = pre ++ post) as Hlive.
  { intros m0 l0 H0 Hr0 Hb. exists (full_resync_flush m0 pre r post None). eexists.
    split; [apply rtc_once; exists [], []; by apply ms_link, ls_flush|].
    unfold full_resync_flush. rewrite Hp, H0, Hb. simpl. rewrite list_lookup_alter_eq, H0. by split. }
  destruct (backlog l) as [|y batch] eqn:Hb.
  - destruct (Hlive m1 _ Hl1 Hr1 Hb) as (m3 & l3 & H1 & H2 & H3 & H4 & H5). exists m3, l3. split_and!; try done.
    rewrite H4. unfold stream_of. simpl. by rewrite Hb, app_nil_r.
  - set (m2 := full_resync_flush m1 pre r post None).
    assert (links m2 !! r_link r = Some (write_out (y :: batch) (clear_backlog (set_alive false l))) /\ resyncs m2 = pre ++ r :: post) as [Hl2 Hr2].
    { unfold m2, full_resync_flush. rewrite Hp, Hl1. simpl. rewrite Hb. simpl. by rewrite list_lookup_alter_eq, Hl1. }
    destruct (Hlive m2 _ Hl2 Hr2 eq_refl) as (m3 & l3 & H1 & H2 & H3 & H4 & H5). exists m3, l3. split_and!; try done.
    + eapply rtc_l; [|exact H1]. exists [], []. by apply ms_link, ls_flush.
    + rewrite H4. unfold stream_of. simpl. by rewrite tail_app_nonempty, Hb by done.
Qed.

(** A link without a backlog, and a command of more than the 1024 bytes that
    the backlog may hold. *)
Definition ex_o0 : MasterReplication := new_master 1024 10 (u "abc").
Definition ex_o1 : MasterReplication := full_resync_begin ex_o0 7 [].
Definition ex_o2 : MasterReplication := full_resync_send ex_o1 [] (default (mkResync 0 0 Flushing) (head (resyncs ex_o1))) [].
Definition ex_large : list bytes := [b "SET"; b "k"; replicate 1100 "x"%byte].

Lemma overflow_leaves_stale_replica_witness :
  exists m3 l3, rtc any_step (propagate (fun _ => false) ex_large ex_o2) m3 /\ links m3 !! 0%nat = Some l3 /\ state l3 = live_ /\ tail (out l3) = [].
Proof.
  assert (exists l, links ex_o2 !! 0%nat = Some l /\ alive l = true /\ backlog_bytes l = 0 /\ stream_of l = []) as (l & Hl & Ha & Hb & Hs)
    by (eexists; split; [vm_compute; reflexivity|done]).
  destruct (overflow_leaves_stale_replica 1024 10 (u "abc") [] [(0%nat, [])] ex_o2 [] (mkResync 7 0 Flushing) [] l (fun _ => false) ex_large)
    as [_ (m3 & l3 & H1 & H2 & H3 & H4 & _)].
  - assert (master_step ex_o0 [] [[]] ex_o1) as S1 by (apply ms_begin; vm_compute; reflexivity).
    assert (master_step ex_o1 [] [] ex_o2) as S2 by (apply ms_link, ls_send; vm_compute; reflexivity).
    exact (mr_snoc _ _ _ _ _ _ _ (mr_snoc _ _ _ _ _ _ _ (mr_nil ex_o0) S1) S2).
  - vm_compute. reflexivity.
  - reflexivity.
  - exact Hl.
  - exact Ha.
  - rewrite Hb. apply Z.ltb_lt. vm_compute. reflexivity.
  - exists m3, l3. rewrite Hs in H4. split; [exact H1|]. split; [exact H2|]. split; [exact H3|exact H4].
Defined.
