(* ===== verification/Commands.v ===== *)
(** * Commands ([commands/*.py]) and the state they act on ([server.py])

    The server object, the context of a command, one definition per handler,
    and the registry that dispatches to them.  A handler returns the reply
    object or raises, and the new server.  Clock readings and the outcomes of
    system calls are in the [World] of the command. *)
From S2P Require Import Prelude PyText PyFloat Encoder Parser Dict Store StoreSpec Crc32 Rdb AofFile AofLog Config Master.
Local Open Scope Z_scope.

(** ** The server object *)

(** The file behind the handle of the thread that writes a background save: it
    opened [<rdb>.tmp]; a SAVE opens the same name and renames it, so that the
    handle may come to belong to the snapshot file, or to no name at all. *)
Inductive handle_target := OnTmp | OnFinal | Unlinked.

(** The thread: the bytes that it has still to write and its position; the
    temporary file, if the name exists; its handle. *)
Record Writing := mkWriting {
  wr_rest : bytes;
  wr_pos : nat;
  wr_tmp : option bytes;
  wr_on : handle_target
}.

(** [_bgsave_task]: not running, scheduled, past its snapshot (which a thread
    encodes), or with the thread that writes the file. *)
Inductive BgsaveTask :=
| BgsaveNone
| BgsaveScheduled
| BgsaveSnapshot (es : dict bytes KeyEntry)
| BgsaveWriting (w : Writing).

(** [closing] are the connections whose [handle_client] waits in
    [writer.wait_closed()] of its [finally]. *)
Record RedisServer := mkServer {
  config : Config;
  store : Store;
  master_ : MasterReplication;
  aof : AOFLog;
  rdb_file : option bytes;
  conn_seq : Z;
  last_save_time : Z;
  bgsave_task : BgsaveTask;
  aof_rewrite_task : bool;
  writers : list Z;
  closing : list Z;
  authenticated_connections : list Z;
  authentication_failures : dict Z Z;
  client_count : Z;
  total_connections_received : Z;
  rejected_connections : Z;
  total_commands_processed : Z;
  total_commands_failed : Z
}.

(** [RedisServer(config)] with the files found in the data directory. *)
Definition new_server (c : Config) (replid : str) (aof_contents : bytes) (rdb : option bytes) : RedisServer :=
  mkServer c (new_store (cfg_maxmemory_bytes c) (cfg_maxmemory_policy c))
    (new_master (replica_backlog_max_bytes c) (replica_pending_max_commands c) replid)
    (new_log (aof_fsync c) (aof_enabled c) (aof_queue_max_commands c) aof_contents)
    rdb 0 0 BgsaveNone false [] [] [] [] 0 0 0 0 0.

Definition set_store (s : RedisServer) (st : Store) : RedisServer :=
  mkServer (config s) st (master_ s) (aof s) (rdb_file s) (conn_seq s) (last_save_time s) (bgsave_task s)
    (aof_rewrite_task s) (writers s) (closing s) (authenticated_connections s) (authentication_failures s) (client_count s)
    (total_connections_received s) (rejected_connections s) (total_commands_processed s) (total_commands_failed s).

Definition set_master (s : RedisServer) (m : MasterReplication) : RedisServer :=
  mkServer (config s) (store s) m (aof s) (rdb_file s) (conn_seq s) (last_save_time s) (bgsave_task s)
    (aof_rewrite_task s) (writers s) (closing s) (authenticated_connections s) (authentication_failures s) (client_count s)
    (total_connections_received s) (rejected_connections s) (total_commands_processed s) (total_commands_failed s).

Definition set_aof (s : RedisServer) (l : AOFLog) : RedisServer :=
  mkServer (config s) (store s) (master_ s) l (rdb_file s) (conn_seq s) (last_save_time s) (bgsave_task s)
    (aof_rewrite_task s) (writers s) (closing s) (authenticated_connections s) (authentication_failures s) (client_count s)
    (total_connections_received s) (rejected_connections s) (total_commands_processed s) (total_commands_failed s).

Definition set_saved (s : RedisServer) (f : option bytes) (t : Z) (bg : BgsaveTask) : RedisServer :=
  mkServer (config s) (store s) (master_ s) (aof s) f (conn_seq s) t bg
    (aof_rewrite_task s) (writers s) (closing s) (authenticated_connections s) (authentication_failures s) (client_count s)
    (total_connections_received s) (rejected_connections s) (total_commands_processed s) (total_commands_failed s).

Definition set_rewrite (s : RedisServer) (running : bool) : RedisServer :=
  mkServer (config s) (store s) (master_ s) (aof s) (rdb_file s) (conn_seq s) (last_save_time s) (bgsave_task s)
    running (writers s) (closing s) (authenticated_connections s) (authentication_failures s) (client_count s)
    (total_connections_received s) (rejected_connections s) (total_commands_processed s) (total_commands_failed s).

Definition set_auth (s : RedisServer) (ok : list Z) (failures : dict Z Z) : RedisServer :=
  mkServer (config s) (store s) (master_ s) (aof s) (rdb_file s) (conn_seq s) (last_save_time s) (bgsave_task s)
    (aof_rewrite_task s) (writers s) (closing s) ok failures (client_count s)
    (total_connections_received s) (rejected_connections s) (total_commands_processed s) (total_commands_failed s).

Definition set_counts (s : RedisServer) (processed failed : Z) : RedisServer :=
  mkServer (config s) (store s) (master_ s) (aof s) (rdb_file s) (conn_seq s) (last_save_time s) (bgsave_task s)
    (aof_rewrite_task s) (writers s) (closing s) (authenticated_connections s) (authentication_failures s) (client_count s)
    (total_connections_received s) (rejected_connections s) processed failed.

(** [self._total_commands_failed += 1] *)
Definition count_failure (s : RedisServer) : RedisServer :=
  set_counts s (total_commands_processed s) (total_commands_failed s + 1).

(** ** The context of a command *)

(** What the outside world gives to the execution of one command: the clock
    ([now_ms]) when the store is snapshot, in the handler, in
    [enforce_memory_limit]; [time.time()]; the uptime and the time of the last
    fsync; the outcome of writing the snapshot file, of the [i]-th log append,
    and of the writes to the replicas. *)
Record World := mkWorld {
  w_snapshot : Z;
  w_clock : nat -> Z;
  w_enforce : nat -> Z;
  w_time : Z;
  w_uptime : Z;
  w_last_fsync : Z;
  w_rdb : option (save_call * str);
  w_append : nat -> write_outcome * option str;
  w_replica_fails : Z -> bool;
  w_link_status : str
}.

Record CommandContext := mkCtx {
  argv : list bytes;
  is_replica_client : bool;
  is_loading : bool;
  ctx_connection_id : Z
}.

Definition handler := World -> CommandContext -> RedisServer -> result pyobj * RedisServer.

(** [raise RespError(msg)] *)
Definition raise (e : exn) (s : RedisServer) : result pyobj * RedisServer := (Err e, s).

Definition wrongtype : exn := RespError (u "WRONGTYPE Operation against a key holding the wrong kind of value").
Definition wrong_arity (cmd : str) : exn :=
  RespError (u "ERR wrong number of arguments for '" ++ cmd ++ u "' command").
Definition unknown_command (name : bytes) : exn :=
  RespError (u "ERR unknown command '" ++ utf8_replace name ++ u "'").
Definition readonly_error : exn := RespError (u "READONLY You can't write against a read only replica.").
Definition not_an_integer : exn := RespError (u "ERR value is not an integer or out of range").
Definition syntax_error : exn := RespError (u "ERR syntax error").

(** [try: ... except WrongTypeError: raise wrongtype()] around a store
    operation, with the reply made from its result. *)
Definition store_reply {A} (s : RedisServer) (r : result A * Store) (f : A -> pyobj) : result pyobj * RedisServer :=
  let '(x, st) := r in
  (match x with Ok v => Ok (f v) | Err WrongTypeError => Err wrongtype | Err e => Err e end, set_store s st).

Definition opt_bytes (v : option bytes) : pyobj := match v with Some x => PBytes x | None => PNone end.

(** ** Connection commands *)

Definition cmd_ping : handler := fun _ c s =>
  match argv c with
  | [_] => (Ok (PSimple (u "PONG")), s)
  | [_; m] => (Ok (PBytes m), s)
  | _ => raise (wrong_arity (u "ping")) s
  end.

Definition cmd_echo : handler := fun _ c s =>
  match argv c with [_; m] => (Ok (PBytes m), s) | _ => raise (wrong_arity (u "echo")) s end.

Definition cmd_select : handler := fun _ c s =>
  match argv c with
  | [_; a] =>
      match int_of_bytes a with
      | None => raise (RespError (u "ERR invalid DB index")) s
      | Some i => if i =? 0 then (Ok (PSimple (u "OK")), s) else raise (RespError (u "ERR DB index is out of range")) s
      end
  | _ => raise (wrong_arity (u "select")) s
  end.

Definition cmd_command : handler := fun _ _ s => (Ok (PList []), s).

(** [RedisServer.authenticate] *)
Definition authenticate (s : RedisServer) (conn : Z) (password : bytes) : bool * RedisServer :=
  match requirepass (config s) with
  | None => (false, s)
  | Some expected =>
      if negb (beqb expected password) then
        (false, set_auth s (authenticated_connections s)
                  (dict_set (authentication_failures s) conn (default 0 (dict_get (authentication_failures s) conn) + 1)))
      else (true, set_auth s (conn :: authenticated_connections s) (dict_del (authentication_failures s) conn))
  end.

Definition cmd_auth : handler := fun _ c s =>
  match argv c with
  | [_; password] =>
      match requirepass (config s) with
      | None => raise (RespError (u "ERR AUTH called without any password configured")) s
      | Some _ =>
          let '(ok, s') := authenticate s (ctx_connection_id c) password in
          if ok then (Ok (PSimple (u "OK")), s') else raise (RespError (u "WRONGPASS invalid username-password pair")) s'
      end
  | _ => raise (wrong_arity (u "auth")) s
  end.

(** ** Strings *)

(** The options of SET, from [argv[3]] on. *)
Fixpoint set_options (opts : list bytes) (ex : option Z) : result (option Z) :=
  match opts with
  | [] => Ok ex
  | opt :: rest =>
      if beqb (bytes_upper opt) (b "EX") then
        match rest with
        | [] => Err syntax_error
        | v :: rest' =>
            match int_of_bytes v with
            | None => Err not_an_integer
            | Some n => if n <=? 0 then Err (RespError (u "ERR invalid expire time in set")) else set_options rest' (Some n)
            end
        end
      else Err syntax_error
  end.

Definition cmd_set : handler := fun w c s =>
  match argv c with
  | _ :: key :: v :: opts =>
      match set_options opts None with
      | Err e => raise e s
      | Ok ex => (Ok (PSimple (u "OK")), set_store s (set_string (w_clock w 0%nat) (store s) key v ex))
      end
  | _ => raise (wrong_arity (u "set")) s
  end.

Definition cmd_get : handler := fun w c s =>
  match argv c with
  | [_; key] => store_reply s (get_string (w_clock w 0%nat) (store s) key) opt_bytes
  | _ => raise (wrong_arity (u "get")) s
  end.

Definition cmd_expire : handler := fun w c s =>
  match argv c with
  | [_; key; a] =>
      match int_of_bytes a with
      | None => raise not_an_integer s
      | Some seconds =>
          let '(r, st) := expire (w_clock w 0%nat) (w_clock w 1%nat) (store s) key seconds in
          (Ok (PInt r), set_store s st)
      end
  | _ => raise (wrong_arity (u "expire")) s
  end.

Definition cmd_ttl : handler := fun w c s =>
  match argv c with
  | [_; key] => let '(r, st) := ttl (w_clock w 0%nat) (w_clock w 1%nat) (store s) key in (Ok (PInt r), set_store s st)
  | _ => raise (wrong_arity (u "ttl")) s
  end.

(** ** Lists and hashes *)

Definition cmd_lpush : handler := fun w c s =>
  match argv c with
  | _ :: key :: e :: es => store_reply s (lpush (w_clock w 0%nat) (store s) key (e :: es)) PInt
  | _ => raise (wrong_arity (u "lpush")) s
  end.

Definition cmd_rpop : handler := fun w c s =>
  match argv c with
  | [_; key] => store_reply s (rpop (w_clock w 0%nat) (store s) key) opt_bytes
  | _ => raise (wrong_arity (u "rpop")) s
  end.

(** [items.append((pairs[i], pairs[i + 1]))], two at a time. *)
Fixpoint pair_up (l : list bytes) : list (bytes * bytes) :=
  match l with f :: v :: l' => (f, v) :: pair_up l' | _ => [] end.

Definition cmd_hset : handler := fun w c s =>
  let argc := zlen (argv c) in
  if (argc <? 4) || negb (argc mod 2 =? 0) then raise (wrong_arity (u "hset")) s
  else match argv c with
       | _ :: key :: pairs => store_reply s (hset (w_clock w 0%nat) (store s) key (pair_up pairs)) PInt
       | _ => raise (wrong_arity (u "hset")) s
       end.

Definition cmd_hgetall : handler := fun w c s =>
  match argv c with
  | [_; key] => store_reply s (hgetall (w_clock w 0%nat) (store s) key) (fun l => PList (map PBytes l))
  | _ => raise (wrong_arity (u "hgetall")) s
  end.

(** ** Server commands *)

Definition policy_name (p : MaxmemoryPolicy) : str :=
  match p with noeviction => u "noeviction" | allkeys_lru => u "allkeys-lru" | volatile_ttl => u "volatile-ttl" end.

Definition flag (v : bool) : str := if v then u "1" else u "0".

(** [schedule_bgsave], [save_rdb_sync], [schedule_aof_rewrite] *)
Definition bgsave_in_progress (s : RedisServer) : bool := match bgsave_task s with BgsaveNone => false | _ => true end.

Definition schedule_bgsave (s : RedisServer) : bool * RedisServer :=
  if bgsave_in_progress s then (false, s) else (true, set_saved s (rdb_file s) (last_save_time s) BgsaveScheduled).

(** What a SAVE does to the thread of a background save. *)
Definition after_save (saved : bool) (tmp : option bytes) (w : Writing) : Writing :=
  mkWriting (wr_rest w) (wr_pos w) tmp
    (if saved then match wr_on w with OnTmp => OnFinal | _ => Unlinked end else wr_on w).

Definition save_rdb_sync (w : World) (s : RedisServer) : result unit * RedisServer :=
  let tmp := match bgsave_task s with BgsaveWriting wr => wr_tmp wr | _ => None end in
  let '(r, st, fs) := dump_rdb (w_clock w 0%nat) (store s) (w_rdb w) (mkFiles (rdb_file s) tmp) in
  let task := match bgsave_task s with BgsaveWriting wr => BgsaveWriting (after_save (is_ok r) (rdb_tmp fs) wr) | t => t end in
  (r, set_saved (set_store s st) (rdb_final fs) (match r with Ok _ => w_time w | Err _ => last_save_time s end) task).

Definition schedule_aof_rewrite (s : RedisServer) : bool * RedisServer :=
  if aof_rewrite_task s || negb (aof_enabled (config s)) then (false, s) else (true, set_rewrite s true).

Definition join_lines (l : list str) : bytes := concat (map (fun x => x ++ CRLF) l).

Definition cmd_info : handler := fun w c s =>
  match argv c with
  | _ :: _ :: _ :: _ => raise (wrong_arity (u "info")) s
  | _ =>
      let cfg := config s in
      let '(key_count, expires, avg_ttl, st1) := keyspace_stats (w_clock w 0%nat) (w_clock w 1%nat) (store s) in
      match memory_usage (w_clock w 2%nat) st1 with
      | (Err e, st2) => raise e (set_store s st2)
      | (Ok used, st2) =>
          let lines :=
            [u "# Server"; u "redis_version:0.2.2"; u "redis_mode:standalone"; u "tcp_port:" ++ str_of_int (port cfg);
             u "uptime_in_seconds:" ++ str_of_int (w_uptime w);
             u "total_connections_received:" ++ str_of_int (total_connections_received s);
             u "rejected_connections:" ++ str_of_int (rejected_connections s);
             u "total_commands_processed:" ++ str_of_int (total_commands_processed s);
             u "total_commands_failed:" ++ str_of_int (total_commands_failed s);
             u "used_memory:" ++ str_of_int used; u "maxmemory:" ++ str_of_int (cfg_maxmemory_bytes cfg);
             u "maxmemory_policy:" ++ policy_name (cfg_maxmemory_policy cfg);
             u "evicted_keys:" ++ str_of_int (evicted_keys st2); []; u "# Clients";
             u "connected_clients:" ++ str_of_int (client_count s); u "maxclients:" ++ str_of_int (max_clients cfg); [];
             u "# Replication"; u "role:" ++ (if is_replica cfg then u "slave" else u "master")] ++
            (if is_replica cfg then
               [u "master_host:" ++ default [] (replicaof_host cfg);
                u "master_port:" ++ str_of_int (default 0 (replicaof_port cfg));
                u "master_link_status:" ++ w_link_status w]
             else [u "connected_slaves:" ++ str_of_int (connected_replicas (master_ s))]) ++
            [[]; u "# Keyspace";
             u "db0:keys=" ++ str_of_int key_count ++ u ",expires=" ++ str_of_int expires ++ u ",avg_ttl=" ++ str_of_int avg_ttl;
             []; u "# Persistence"; u "aof_enabled:" ++ flag (aof_enabled cfg);
             u "aof_pending_commands:" ++ str_of_int (pending_commands (aof s));
             u "aof_healthy:" ++ flag (healthy (aof s)); u "aof_last_fsync_time:" ++ str_of_int (w_last_fsync w);
             u "aof_rewrite_in_progress:" ++ flag (aof_rewrite_task s);
             u "rdb_last_save_time:" ++ str_of_int (last_save_time s)] in
          (Ok (PBytes (join_lines lines)), set_store s st2)
      end
  end.

Definition cmd_save : handler := fun w c s =>
  match argv c with
  | [_] =>
      match save_rdb_sync w s with
      | (Ok _, s') => (Ok (PSimple (u "OK")), s')
      | (Err (OSError m), s') => raise (RespError (u "ERR SAVE failed: " ++ m)) s'
      | (Err e, s') => raise e s'
      end
  | _ => raise (wrong_arity (u "save")) s
  end.

Definition cmd_bgsave : handler := fun _ c s =>
  match argv c with
  | [_] => let '(started, s') := schedule_bgsave s in
           if started then (Ok (PSimple (u "Background saving started")), s')
           else raise (RespError (u "ERR Background save already in progress")) s'
  | _ => raise (wrong_arity (u "bgsave")) s
  end.

Definition cmd_bgrewriteaof : handler := fun _ c s =>
  match argv c with
  | [_] =>
      if negb (aof_enabled (config s)) then raise (RespError (u "ERR AOF is disabled")) s
      else let '(started, s') := schedule_aof_rewrite s in
           if started then (Ok (PSimple (u "Background append only file rewriting started")), s')
           else raise (RespError (u "ERR Background append only file rewriting already in progress")) s'
  | _ => raise (wrong_arity (u "bgrewriteaof")) s
  end.

Definition cmd_config : handler := fun _ c s =>
  match argv c with
  | _ :: sub0 :: rest =>
      let sub := bytes_upper sub0 in
      if beqb sub (b "GET") then
        match rest with
        | [p] =>
            let pattern := bytes_lower (utf8_replace p) in
            let mapping := [(u "dir", dir (config s)); (u "dbfilename", dbfilename (config s))] in
            (Ok (PList (concat (map (fun kv => if beqb pattern (u "*") || beqb pattern kv.1
                                               then [PBytes kv.1; PBytes kv.2] else []) mapping))), s)
        | _ => raise (wrong_arity (u "config|get")) s
        end
      else if beqb sub (b "SET") then raise (RespError (u "ERR CONFIG SET not supported in BYO-Redis v0.2.2")) s
      else match utf8_strict sub with
           | Ok t => raise (RespError (u "ERR Unknown subcommand or wrong number of arguments for 'config|" ++ t ++ u "'")) s
           | Err e => raise e s
           end
  | _ => raise (wrong_arity (u "config")) s
  end.

Definition cmd_del : handler := fun w c s =>
  match argv c with
  | _ :: k :: ks => let '(n, st) := delete_ (w_clock w) (store s) (k :: ks) in (Ok (PInt n), set_store s st)
  | _ => raise (wrong_arity (u "del")) s
  end.

Definition cmd_dbsize : handler := fun w c s =>
  match argv c with
  | [_] => let '(n, st) := dbsize (w_clock w 0%nat) (store s) in (Ok (PInt n), set_store s st)
  | _ => raise (wrong_arity (u "dbsize")) s
  end.

(** ** Replication commands *)

Definition cmd_replconf : handler := fun _ c s =>
  match argv c with
  | _ :: _ :: _ => (Ok (PSimple (u "OK")), s)
  | _ => raise (wrong_arity (u "replconf")) s
  end.

(** [master.full_resync] up to the end of its snapshot; it goes on with the
    steps of [Master]. *)
Definition start_full_resync (w : World) (s : RedisServer) (conn : Z) : RedisServer :=
  let '(es, st) := snapshot (w_clock w 0%nat) (store s) in
  set_store (set_master s (full_resync_begin (master_ s) conn es)) st.

Definition cmd_psync : handler := fun w c s =>
  match argv c with
  | [_; _; _] =>
      if existsb (Z.eqb (ctx_connection_id c)) (writers s) then
        (Ok PNoClientReply, start_full_resync w s (ctx_connection_id c))
      else raise (RespError (u "ERR PSYNC requires active connection")) s
  | _ => raise (wrong_arity (u "psync")) s
  end.

(** ** The registry *)

Definition WRITE_COMMANDS : list bytes := [b "SET"; b "EXPIRE"; b "LPUSH"; b "RPOP"; b "HSET"; b "DEL"].

Definition is_write (upper : bytes) : bool := existsb (beqb upper) WRITE_COMMANDS.

Definition default_registry : dict bytes handler :=
  [(b "PING", cmd_ping); (b "ECHO", cmd_echo); (b "SELECT", cmd_select); (b "COMMAND", cmd_command); (b "AUTH", cmd_auth);
   (b "SET", cmd_set); (b "GET", cmd_get); (b "EXPIRE", cmd_expire); (b "TTL", cmd_ttl);
   (b "LPUSH", cmd_lpush); (b "RPOP", cmd_rpop); (b "HSET", cmd_hset); (b "HGETALL", cmd_hgetall);
   (b "INFO", cmd_info); (b "SAVE", cmd_save); (b "BGSAVE", cmd_bgsave); (b "BGREWRITEAOF", cmd_bgrewriteaof);
   (b "CONFIG", cmd_config); (b "DEL", cmd_del); (b "DBSIZE", cmd_dbsize);
   (b "REPLCONF", cmd_replconf); (b "PSYNC", cmd_psync)].

Definition get_handler (name : bytes) : option handler := dict_get default_registry (bytes_upper name).

Definition dispatch : handler := fun w c s =>
  match argv c with
  | [] => raise (RespError (u "ERR empty command")) s
  | name :: _ =>
      match get_handler name with
      | None => raise (unknown_command name) s
      | Some h =>
          if is_replica (config s) && is_write (bytes_upper name) && negb (is_replica_client c) && negb (is_loading c)
          then raise readonly_error s
          else h w c s
      end
  end.
