(* ===== verification/Server.v ===== *)
(** * The server ([server.py])

    Command execution with authentication, memory limit, logging and
    propagation; connections; start-up and the background tasks.  Write
    commands, snapshots and rewrites hold the write lock from beginning to
    end, so each of them is one definition. *)
From S2P Require Import Prelude PyText PyFloat Encoder Parser Dict Store StoreSpec Crc32 Rdb AofFile AofLog Config Master Commands.
Local Open Scope Z_scope.

(** ** Arguments *)

(** [type(item)] in the message of a bad argument. *)
Definition type_name (x : pyobj) : str :=
  match x with
  | PInt _ => u "<class 'int'>"
  | PList _ => u "<class 'list'>"
  | PErrorMsg _ => u "<class 'byo_redis.protocol.parser.ProtocolErrorMsg'>"
  | _ => u "<class 'object'>"
  end.

Definition normalize_item (x : pyobj) : result bytes :=
  match x with
  | PBytes v | PStr v => Ok v
  | PNone => Ok []
  | _ => Err (ProtocolError (u "command arg must be bulk string, got " ++ type_name x))
  end.

Definition normalize_argv (msg : pyobj) : result (list bytes) :=
  match msg with
  | PList l => rmapM normalize_item l
  | _ => Err (ProtocolError (u "expected array command"))
  end.

(** ** Command execution *)

(** [await self.aof.append(argv)]: while the caller waits for its future, the
    writer task runs.  The write lock keeps other appends out, so the item
    is the only one. *)
Definition append_log (io : write_outcome * option str) (a : list bytes) (l : AOFLog) : result unit * AOFLog :=
  match append io a l with
  | (Returned r, l') => (r, l')
  | (Awaits i, l') =>
      let l2 := writer_fsync io.2 (writer_write io.1 (writer_take l')) in
      (match calls l2 !! i with
       | Some (_, Completed) => Ok tt
       | Some (_, Raised e) => Err e
       | _ => Err OutOfFuel
       end, l2)
  end.

Definition upper_name (a : list bytes) : bytes := match a with [] => [] | name :: _ => bytes_upper name end.

(** One append of a command, and the error reply when it raises. *)
Definition log_command (w : World) (i : nat) (a : list bytes) (s : RedisServer) : result (option bytes) * RedisServer :=
  match append_log (w_append w i) a (aof s) with
  | (Ok _, l) => (Ok None, set_aof s l)
  | (Err (OSError m), l) =>
      (Ok (Some (encode_error (u "MISCONF AOF persistence failed: " ++ m))), count_failure (set_aof s l))
  | (Err e, l) => (Err e, set_aof s l)
  end.

(** Log and propagate the command, then a DEL for every evicted key; the first
    failed append ends it with its error reply. *)
Fixpoint record_writes (w : World) (i : nat) (cmds : list (list bytes)) (s : RedisServer) :
    result (option bytes) * RedisServer :=
  match cmds with
  | [] => (Ok None, s)
  | a :: cmds' =>
      match log_command w i a s with
      | (Ok None, s') => record_writes w (S i) cmds' (set_master s' (propagate (w_replica_fails w) a (master_ s')))
      | r => r
      end
  end.

(** After the handler and the memory limit: logging and the reply. *)
Definition finish_command (w : World) (c : CommandContext) (res : pyobj) (evicted : list bytes) (s : RedisServer) :
    result (option bytes) * RedisServer :=
  let upper := upper_name (argv c) in
  let '(r, s') :=
    if is_write upper && negb (is_loading c) && negb (is_replica_client c) && negb (is_replica (config s)) then
      record_writes w 0 (argv c :: map (fun key => [b "DEL"; key]) evicted) s
    else if is_write upper && is_replica_client c && negb (is_loading c) then log_command w 0 (argv c) s
    else (Ok None, s) in
  match r with
  | Ok None =>
      (match encode_value res with
       | Ok data => Ok (Some data)
       | Err (TypeError _) => Ok (Some (encode_error (u "ERR internal error")))
       | Err e => Err e
       end, s')
  | _ => (r, s')
  end.

(** [_execute_inner]: the bytes for the client, if any; an [Err] is an
    exception that escapes. *)
Definition execute (w : World) (c : CommandContext) (s : RedisServer) : result (option bytes) * RedisServer :=
  let upper := upper_name (argv c) in
  if bool_decide (requirepass (config s) <> None) && negb (existsb (Z.eqb (ctx_connection_id c)) (authenticated_connections s)) &&
     negb (beqb upper (b "AUTH")) && negb (is_loading c) && negb (is_replica_client c) then
    (Ok (Some (encode_error (u "NOAUTH Authentication required."))), count_failure s)
  else if is_write upper && aof_enabled (config s) && negb (healthy (aof s)) && negb (is_loading c) && negb (is_replica_client c) then
    (Ok (Some (encode_error (u "MISCONF AOF persistence is unhealthy"))), count_failure s)
  else
    let '(before, st0) := if is_write upper then snapshot (w_snapshot w) (store s) else ([], store s) in
    match dispatch w c (set_store s st0) with
    | (Err (RespError m), s1) => (Ok (Some (encode_error m)), count_failure s1)
    | (Err _, s1) => (Ok (Some (encode_error (u "ERR internal error"))), count_failure s1)
    | (Ok res, s1) =>
        let '(ev, st2) := if is_write upper then enforce_memory_limit (w_enforce w) (store s1) else (Ok [], store s1) in
        match ev with
        | Err (MemoryLimitError m) =>
            (Ok (Some (encode_error m)), count_failure (set_store s1 (load_entries st2 before)))
        | Err e => (Err e, set_store s1 st2)
        | Ok evicted =>
            match res with
            | PNoClientReply => (Ok None, set_store s1 st2)
            | _ => finish_command w c res evicted (set_store s1 st2)
            end
        end
    end.

(** The contexts in which commands are executed. *)
Definition client_ctx (conn : Z) (a : list bytes) : CommandContext := mkCtx a false false conn.
Definition replay_ctx (a : list bytes) : CommandContext := mkCtx a true true 0.
Definition replicated_ctx (a : list bytes) : CommandContext := mkCtx a true false 0.

(** ** Connections *)

Definition set_conns (s : RedisServer) (m : MasterReplication) (seq : Z) (ws closing auth : list Z) (fails : dict Z Z)
    (count received rejected : Z) : RedisServer :=
  mkServer (config s) (store s) m (aof s) (rdb_file s) seq (last_save_time s) (bgsave_task s) (aof_rewrite_task s) ws closing auth
    fails count received rejected (total_commands_processed s) (total_commands_failed s).

(** [handle_client] until its loop: the number of the connection, or the reply
    with which it is turned away. *)
Definition accept (s : RedisServer) : (bytes + Z) * RedisServer :=
  if max_clients (config s) <=? client_count s then
    (inl (encode_error (u "ERR max number of clients reached")),
     set_conns s (master_ s) (conn_seq s) (writers s) (closing s) (authenticated_connections s) (authentication_failures s)
       (client_count s) (total_connections_received s + 1) (rejected_connections s + 1))
  else
    let conn := conn_seq s + 1 in
    (inr conn, set_conns s (master_ s) conn (conn :: writers s) (closing s) (authenticated_connections s) (authentication_failures s)
                 (client_count s + 1) (total_connections_received s + 1) (rejected_connections s)).

(** The [finally] of [handle_client] up to [await writer.wait_closed()], and
    what follows it: until then the connection is still counted. *)
Definition disconnect_begin (conn : Z) (s : RedisServer) : RedisServer :=
  set_conns s (unregister (master_ s) conn) (conn_seq s) (filter (fun x => x <> conn) (writers s)) (conn :: closing s)
    (filter (fun x => x <> conn) (authenticated_connections s)) (dict_del (authentication_failures s) conn)
    (client_count s) (total_connections_received s) (rejected_connections s).

Definition disconnect_end (conn : Z) (s : RedisServer) : RedisServer :=
  set_conns s (master_ s) (conn_seq s) (writers s) (filter (fun x => x <> conn) (closing s)) (authenticated_connections s)
    (authentication_failures s) (client_count s - 1) (total_connections_received s) (rejected_connections s).

(** The whole of it. *)
Definition disconnect (conn : Z) (s : RedisServer) : RedisServer := disconnect_end conn (disconnect_begin conn s).

(** What the read loop does after a message. *)
Inductive next := Continue | CloseConnection | HoldReplica.

(** One message of a client: what is written to it, and what comes next.  An
    exception that escapes ends the connection without a reply. *)
Definition handle_message (w : World) (conn : Z) (msg : pyobj) (s : RedisServer) : list bytes * next * RedisServer :=
  let s0 := set_counts s (total_commands_processed s + 1) (total_commands_failed s) in
  match normalize_argv msg with
  | Err (ProtocolError m) => ([encode_error (u "ERR protocol error: " ++ m)], Continue, s0)
  | Err _ => ([], CloseConnection, s0)
  | Ok [] => ([], Continue, s0)
  | Ok a =>
      let cmd := upper_name a in
      if beqb cmd (b "PSYNC") && negb (is_replica (config s0)) then ([], HoldReplica, start_full_resync w s0 conn)
      else
        match execute w (client_ctx conn a) s0 with
        | (Err _, s1) => ([], CloseConnection, s1)
        | (Ok reply, s1) =>
            let written := match reply with Some r => [r] | None => [] end in
            if beqb cmd (b "AUTH") &&
               (max_auth_failures (config s1) <=? default 0 (dict_get (authentication_failures s1) conn))
            then (written, CloseConnection, s1) else (written, Continue, s1)
        end
  end.

(** The messages of one read, with the world of each. *)
Fixpoint handle_messages (ws : nat -> World) (conn : Z) (msgs : list pyobj) (s : RedisServer) : list bytes * next * RedisServer :=
  match msgs with
  | [] => ([], Continue, s)
  | msg :: msgs' =>
      match handle_message (ws 0%nat) conn msg s with
      | (o, Continue, s') =>
          let '(o', n, s'') := handle_messages (fun i => ws (S i)) conn msgs' s' in (o ++ o', n, s'')
      | r => r
      end
  end.

Definition client_parser (c : Config) : RespParser :=
  new_parser (proto_max_bulk_len c) (cfg_max_buffer_bytes c) (proto_max_array_len c) (cfg_max_array_depth c).

(** ** Background tasks *)

(** [_bgsave_worker]: the snapshot under the write lock, then the file. *)
Definition bgsave_take_snapshot (now : Z) (s : RedisServer) : RedisServer :=
  match bgsave_task s with
  | BgsaveScheduled =>
      let '(es, st) := snapshot now (store s) in
      set_saved (set_store s st) (rdb_file s) (last_save_time s) (BgsaveSnapshot es)
  | _ => s
  end.

(** [os.write] at a position of a file: it overwrites what is there, and a gap
    is filled with zeros. *)
Definition write_at (pos : nat) (data file : bytes) : bytes :=
  take pos file ++ replicate (pos - length file) Byte.x00 ++ data ++ drop (pos + length data) file.

(** The system calls of [_write] in the thread: opening the temporary file,
    writing some bytes, and [fsync] with [os.replace], each of which may raise.  The
    last one is only reached with everything written; it raises when the name of
    the temporary file does not exist any more. *)
Inductive thread_call := OpenTmp | WriteTmp (n : nat) | InstallTmp (time : Z).

Definition bgsave_thread (call : thread_call) (io : option str) (s : RedisServer) : RedisServer :=
  let failed := set_saved s (rdb_file s) (last_save_time s) BgsaveNone in
  match bgsave_task s, call with
  | BgsaveSnapshot es, OpenTmp =>
      match dump_rdb_entries es, io with
      | Ok data, None => set_saved s (rdb_file s) (last_save_time s) (BgsaveWriting (mkWriting data 0 (Some []) OnTmp))
      | _, _ => failed
      end
  | BgsaveWriting w, WriteTmp n =>
      match io with
      | Some _ => failed
      | None =>
          let chunk := take n (wr_rest w) in
          let w' tmp := BgsaveWriting (mkWriting (drop n (wr_rest w)) (wr_pos w + length chunk) tmp (wr_on w)) in
          match wr_on w with
          | OnTmp => set_saved s (rdb_file s) (last_save_time s) (w' (write_at (wr_pos w) chunk <$> wr_tmp w))
          | OnFinal => set_saved s (write_at (wr_pos w) chunk <$> rdb_file s) (last_save_time s) (w' (wr_tmp w))
          | Unlinked => set_saved s (rdb_file s) (last_save_time s) (w' (wr_tmp w))
          end
      end
  | BgsaveWriting w, InstallTmp time =>
      match wr_rest w, io, wr_tmp w with
      | [], None, Some c => set_saved s (Some c) time BgsaveNone
      | [], _, _ => failed
      | _ :: _, _, _ => s
      end
  | _, _ => s
  end.

(** [_aof_rewrite_worker] *)
Definition aof_rewrite_worker (io : rewrite_outcome) (now current_ms : Z) (s : RedisServer) : RedisServer :=
  if aof_rewrite_task s then
    let '(es, st) := snapshot now (store s) in
    let '(_, l) := rewrite io current_ms es (aof s) in
    set_rewrite (set_aof (set_store s st) l) false
  else s.

(** One round of [_active_expire_loop]. *)
Definition active_expire_tick (random_sample : list bytes -> Z -> list bytes) (now : Z) (s : RedisServer) : RedisServer :=
  set_store s (active_expire_cycle random_sample now (store s) 20).2.

(** [_apply_replicated_command] *)
Definition apply_replicated_command (w : World) (a : list bytes) (s : RedisServer) : result unit * RedisServer :=
  let '(r, s') := execute w (replicated_ctx a) s in (rmap (fun _ => tt) r, s').

(** ** Start-up *)

(** [apply] of [_load_persistence], counting the commands to give each its
    world. *)
Definition replay_command (ws : nat -> World) (x : nat * RedisServer) (a : list bytes) : result unit * (nat * RedisServer) :=
  let '(i, s) := x in
  let '(r, s') := execute (ws i) (replay_ctx a) s in (rmap (fun _ => tt) r, (S i, s')).

Definition load_persistence (ws : nat -> World) (now : Z) (s : RedisServer) : result unit * RedisServer :=
  let cfg := config s in
  if aof_enabled cfg && bool_decide (file (aof s) <> []) then
    let '(r, (_, s')) := replay_aof (replay_command ws) (0%nat, s) (proto_max_bulk_len cfg)
                           (persistence_max_load_bytes cfg) (Some (file (aof s))) in
    (rmap (fun _ => tt) r, s')
  else match rdb_file s with
       | Some (x :: l) =>
           let '(r, st) := load_rdb_into now (persistence_max_load_bytes cfg) (store s) (x :: l) in
           (rmap (fun _ => tt) r, set_store s st)
       | _ => (Ok tt, s)
       end.

(** [start], from the loading of the files to the tasks of the log. *)
Definition start (ws : nat -> World) (now : Z) (io : option str) (s : RedisServer) : result unit * RedisServer :=
  match load_persistence ws now s with
  | (Err e, s') => (Err e, s')
  | (Ok _, s') =>
      match open_ io (aof s') with
      | (Err e, l) => (Err e, set_aof s' l)
      | (Ok _, l) => (Ok tt, set_aof s' (start_background_fsync l))
      end
  end.

(** ** What a handler leaves alone *)

(** Configuration, connections and counters. *)
Definition same_conns (s s' : RedisServer) : Prop :=
  config s' = config s /\ writers s' = writers s /\ closing s' = closing s /\ conn_seq s' = conn_seq s /\ client_count s' = client_count s /\
  total_connections_received s' = total_connections_received s /\ rejected_connections s' = rejected_connections s.

Definition same_auth (s s' : RedisServer) : Prop :=
  authenticated_connections s' = authenticated_connections s /\ authentication_failures s' = authentication_failures s.

(** The log and the replicas. *)
Definition same_log (s s' : RedisServer) : Prop := aof s' = aof s /\ master_ s' = master_ s.

#[export] Instance same_conns_preorder : PreOrder same_conns.
Proof. split; [by split|]. unfold same_conns. intros x y z. naive_solver congruence. Qed.
#[export] Instance same_auth_preorder : PreOrder same_auth.
Proof. split; [by split|]. unfold same_auth. intros x y z. naive_solver congruence. Qed.
#[export] Instance same_log_preorder : PreOrder same_log.
Proof. split; [by split|]. unfold same_log. intros x y z. naive_solver congruence. Qed.

(** Unfolds a handler and splits on everything it tests. *)
Ltac run_handler :=
  unfold cmd_ping, cmd_echo, cmd_select, cmd_command, cmd_auth, cmd_set, cmd_get, cmd_expire, cmd_ttl, cmd_lpush, cmd_rpop,
    cmd_hset, cmd_hgetall, cmd_info, cmd_save, cmd_bgsave, cmd_bgrewriteaof, cmd_config, cmd_del, cmd_dbsize, cmd_replconf,
    cmd_psync, authenticate, save_rdb_sync, schedule_bgsave, schedule_aof_rewrite, start_full_resync, raise, store_reply;
  repeat (case_match; simplify_eq; simpl in *; try done); try reflexivity; try (by repeat split).

(** What holds of every handler of the registry holds of [dispatch]. *)
Lemma dispatch_cases (P : bytes -> RedisServer -> RedisServer -> Prop) w c s :
  (forall n, P n s s) ->
  Forall (fun kh => P kh.1 s (kh.2 w c s).2) default_registry ->
  P (upper_name (argv c)) s (dispatch w c s).2.
Proof.
  intros Hrefl HF. unfold dispatch, upper_name, raise. destruct (argv c) as [|name args]; [apply Hrefl|].
  unfold get_handler. destruct (dict_get default_registry (bytes_upper name)) as [h|] eqn:E; [|apply Hrefl].
  case_match; [apply Hrefl|]. apply dict_get_elem in E. rewrite Forall_forall in HF. apply (HF _ E).
Qed.

Lemma dispatch_conns w c s : same_conns s (dispatch w c s).2.
Proof.
  apply (dispatch_cases (fun _ => same_conns) w c s); [done|].
  repeat apply Forall_cons_2; try apply Forall_nil_2; simpl; run_handler.
Qed.

(** Only AUTH changes who is authenticated. *)
Lemma dispatch_auth w c s : upper_name (argv c) <> b "AUTH" -> same_auth s (dispatch w c s).2.
Proof.
  apply (dispatch_cases (fun n s s' => n <> b "AUTH" -> same_auth s s') w c s); [done|].
  repeat apply Forall_cons_2; try apply Forall_nil_2; simpl; intros Hne; try done; run_handler.
Qed.

(** Only PSYNC touches the log or the replicas. *)
Lemma dispatch_log w c s : upper_name (argv c) <> b "PSYNC" -> same_log s (dispatch w c s).2.
Proof.
  apply (dispatch_cases (fun n s s' => n <> b "PSYNC" -> same_log s s') w c s); [done|].
  repeat apply Forall_cons_2; try apply Forall_nil_2; simpl; intros Hne; try done; run_handler.
Qed.

(** ** Authentication *)

(** The parts of the server that a client without the password must not
    change. *)
Definition untouched (s s' : RedisServer) : Prop :=
  config s' = config s /\ store s' = store s /\ aof s' = aof s /\ master_ s' = master_ s /\ rdb_file s' = rdb_file s /\
  authenticated_connections s' = authenticated_connections s.

#[local] Instance untouched_preorder : PreOrder untouched.
Proof. split; [by repeat split|]. unfold untouched. intros x y z. naive_solver congruence. Qed.

(** A message that is neither PSYNC nor AUTH with the right password. *)
Definition powerless (password : str) (msg : pyobj) : Prop :=
  match normalize_argv msg with
  | Ok a => upper_name a <> b "PSYNC" /\ (upper_name a = b "AUTH" -> tail a <> [password])
  | Err _ => True
  end.

(** AUTH is the only command that an unauthenticated client can run. *)
Lemma execute_unauthenticated w conn a s p :
  requirepass (config s) = Some p -> conn ∉ authenticated_connections s ->
  (upper_name a = b "AUTH" -> tail a <> [p]) -> untouched s (execute w (client_ctx conn a) s).2.
Proof.
  intros Hp Hc Ha. unfold execute. simpl. rewrite Hp. rewrite bool_decide_true by done.
  assert (existsb (Z.eqb conn) (authenticated_connections s) = false) as Hex.
  { apply not_true_iff_false. rewrite existsb_exists. intros (x & Hx%list_elem_of_In & ->%Z.eqb_eq). done. }
  rewrite Hex. simpl. destruct (beqb (upper_name a) (b "AUTH")) eqn:E; simpl; [|by repeat split].
  apply beqb_eq in E. rewrite E. change (is_write (b "AUTH")) with false. cbv iota. simpl.
  destruct a as [|name args]; [done|]. unfold dispatch. simpl. unfold get_handler. simpl in E. rewrite E.
  assert (dict_get default_registry (b "AUTH") = Some cmd_auth) as -> by reflexivity.
  change (is_write (b "AUTH")) with false. rewrite andb_false_r. simpl.
  unfold cmd_auth, raise. simpl. destruct args as [|pw [|]]; try (by repeat split). rewrite Hp. unfold authenticate.
  simpl. rewrite Hp. destruct (beqb p pw) eqn:Epw; simpl; [|by repeat split].
  apply beqb_eq in Epw as <-. exfalso. apply Ha; [done|done].
Qed.

Lemma handle_message_unauthenticated w conn msg s p :
  requirepass (config s) = Some p -> conn ∉ authenticated_connections s -> powerless p msg ->
  untouched s (handle_message w conn msg s).2.
Proof.
  intros Hp Hc Hm. unfold handle_message, powerless in *. set (s0 := set_counts _ _ _).
  assert (untouched s s0) as H0 by (by repeat split).
  destruct (normalize_argv msg) as [[|name args]|[]]; try done. destruct Hm as [Hps Hau].
  assert (beqb (upper_name (name :: args)) (b "PSYNC") = false) as -> by (by apply beqb_neq). simpl.
  pose proof (execute_unauthenticated w conn (name :: args) s0 p Hp Hc Hau) as Hx.
  destruct (execute w (client_ctx conn (name :: args)) s0) as [[reply|e] s1]; simpl in *.
  - case_match; simpl; by etrans.
  - by etrans.
Qed.

(** C9 Authentication gate.  On a server with a password, a connection that
    is not authenticated can send any messages, in any number, malformed ones
    included: as long as none of them is AUTH with the right password or PSYNC,
    the keyspace, the log, the replicas, the snapshot file and the set of
    authenticated connections stay exactly as they were. *)
Theorem auth_gate ws conn msgs s p :
  requirepass (config s) = Some p -> conn ∉ authenticated_connections s -> Forall (powerless p) msgs ->
  untouched s (handle_messages ws conn msgs s).2.
Proof.
  intros Hp Hc HF. revert ws s Hp Hc. induction HF as [|msg msgs Hm HF IH]; intros ws s Hp Hc; [reflexivity|].
  simpl. pose proof (handle_message_unauthenticated (ws 0%nat) conn msg s p Hp Hc Hm) as H1.
  destruct (handle_message (ws 0%nat) conn msg s) as [[o n] s1]. simpl in H1. destruct n; [|done|done].
  destruct H1 as (E1 & E2 & E3 & E4 & E5 & E6). specialize (IH (fun i => ws (S i)) s1 ltac:(congruence) ltac:(congruence)).
  destruct (handle_messages (fun i => ws (S i)) conn msgs s1) as [[o' n'] s2]. simpl in *.
  unfold untouched in *. naive_solver congruence.
Qed.

Definition ex_world : World :=
  mkWorld 0 (fun _ => 0) (fun _ => 0) 0 0 0 None (fun _ => (WroteAll, None)) (fun _ => false) (u "down").

Definition with_password (c : Config) (p : str) : Config :=
  mkConfig (host c) (port c) (dir c) (dbfilename c) (aof_enabled c) (aof_filename c) (aof_fsync c) (role c)
    (replicaof_host c) (replicaof_port c) (log_level c) (rdb_save_seconds c) (proto_max_bulk_len c) (proto_max_array_len c)
    (cfg_max_array_depth c) (cfg_max_buffer_bytes c) (partial_timeout_sec c) (client_idle_timeout_sec c) (max_clients c)
    (max_auth_failures c) (aof_queue_max_commands c) (aof_enqueue_timeout_sec c) (replica_backlog_max_bytes c)
    (replica_pending_max_commands c) (persistence_max_load_bytes c) (cfg_maxmemory_bytes c) (cfg_maxmemory_policy c)
    (Some p) (masterauth c) (allow_unprotected_non_loopback c).

(** A started server with a password. *)
Definition ex_server : RedisServer :=
  (start (fun _ => ex_world) 0 None (new_server (with_password default_config (u "secret")) (u "abc") [] None)).2.

Lemma auth_gate_witness :
  untouched ex_server (handle_messages (fun _ => ex_world) 1
    [command_obj [b "SET"; b "k"; b "v"]; command_obj [b "AUTH"; b "guess"]; PInt 3; command_obj [b "SAVE"]] ex_server).2.
Proof.
  apply (auth_gate (fun _ => ex_world) 1 _ ex_server (u "secret")).
  - reflexivity.
  - intros H. inversion H.
  - apply Forall_cons_2; [split; [discriminate|intros H; discriminate H]|].
    apply Forall_cons_2; [split; [discriminate|intros _; discriminate]|]. apply Forall_cons_2; [exact I|].
    apply Forall_cons_2; [split; [discriminate|intros H; discriminate H]|apply Forall_nil_2].
Defined.

(** C32 PSYNC is served before authentication is checked: a client without the
    password is registered as a replica and sent the whole keyspace. *)
Theorem psync_bypasses_auth w conn s p :
  requirepass (config s) = Some p -> conn ∉ authenticated_connections s -> is_replica (config s) = false ->
  exists s', handle_message w conn (command_obj [b "PSYNC"; b "?"; b "-1"]) s = ([], HoldReplica, s') /\
    exists l, links (master_ s') !! length (links (master_ s)) = Some l /\ connection_id l = conn /\
      last (resyncs (master_ s')) = last (resyncs (full_resync_begin (master_ s) conn (snapshot (w_clock w 0%nat) (store s)).1)).
Proof.
  intros _ _ Hr. unfold handle_message. simpl. rewrite Hr. simpl. eexists. split; [reflexivity|].
  unfold start_full_resync. simpl. destruct (snapshot (w_clock w 0%nat) (store s)) as [es st]. simpl.
  eexists. split; [by rewrite lookup_app_r, Nat.sub_diag by lia|]. split; [done|]. by rewrite !last_snoc.
Qed.

Lemma psync_bypasses_auth_witness :
  exists s', handle_message ex_world 1 (command_obj [b "PSYNC"; b "?"; b "-1"]) ex_server = ([], HoldReplica, s') /\
    exists l, links (master_ s') !! 0%nat = Some l /\ connection_id l = 1.
Proof.
  destruct (psync_bypasses_auth ex_world 1 ex_server (u "secret")) as (s' & H & l & H1 & H2 & _).
  - reflexivity.
  - intros H. inversion H.
  - reflexivity.
  - exists s'. split; [exact H|]. exists l. split; [exact H1|exact H2].
Defined.
