(* ===== verification/Client.v ===== *)
(** * Client connections ([server.py], [handle_client])

    The read loop of a connection with its two timeouts, on top of the parser
    and of the execution of commands; the life of a connection from [accept] to
    the [finally] that forgets it. *)
From stdpp Require Import relations.
From S2P Require Import Prelude PyText PyFloat Encoder Parser Dict Store StoreSpec Crc32 Rdb AofFile AofLog Config Master Commands Server.
Local Open Scope Z_scope.

(** ** The read loop *)

(** What [reader.read(65536)] under [wait_for] does: data (empty at the end of
    the stream), the timeout, or an exception. *)
Inductive read_outcome := ReadData (data : bytes) | ReadTimeout | ReadFailed (e : exn).

(** One iteration of the loop as the outside world answers it: the clock before
    the read, the read (it is given the timeout), the clock after [feed]. *)
Record ReadEvent := mkEvent {
  ev_now : pyfloat;
  ev_read : pyfloat -> read_outcome;
  ev_after : pyfloat
}.

(** The local variables of the loop. *)
Record ClientLoop := mkLoop {
  lp_parser : RespParser;
  partial_since : option pyfloat
}.

Definition buffered (lp : ClientLoop) : bool := bool_decide (buf (lp_parser lp) <> []).

Definition partial_error (c : Config) : exn :=
  ProtocolError (u "incomplete RESP frame timed out after " ++ format_0f (partial_timeout_sec c) ++ u "s").

(** The timeout of the next read. *)
Definition read_timeout (c : Config) (lp : ClientLoop) (now : pyfloat) : result pyfloat :=
  let timeout := client_idle_timeout_sec c in
  match partial_since lp with
  | Some since =>
      if buffered lp then
        let remaining := float_sub (partial_timeout_sec c) (float_sub now since) in
        if float_le_0 remaining then Err (partial_error c) else Ok (float_min timeout remaining)
      else Ok timeout
  | None => Ok timeout
  end.

(** One read; [None] leaves the loop. *)
Definition read_once (c : Config) (lp : ClientLoop) (ev : ReadEvent) : result (option bytes) :=
  let* timeout := read_timeout c lp (ev_now ev) in
  match ev_read ev timeout with
  | ReadTimeout => if buffered lp then Err (partial_error c) else Ok None
  | ReadFailed e => Err e
  | ReadData [] => Ok None
  | ReadData data => Ok (Some data)
  end.

(** [partial_since] after the data has been fed. *)
Definition next_partial (p : RespParser) (since : option pyfloat) (now : pyfloat) : option pyfloat :=
  match buf p with
  | [] => None
  | _ :: _ => match since with None => Some now | Some t => Some t end
  end.

Definition protocol_reply (m : str) : bytes := encode_error (u "ERR protocol error: " ++ m).

(** The [while True] of [handle_client], one element of [evs] per iteration;
    [Continue] when it still waits for data at the end of [evs]. *)
Fixpoint client_loop (ws : nat -> World) (conn : Z) (evs : list ReadEvent) (lp : ClientLoop) (s : RedisServer) :
    list bytes * next * ClientLoop * RedisServer :=
  match evs with
  | [] => ([], Continue, lp, s)
  | ev :: evs' =>
      match read_once (config s) lp ev with
      | Err (ProtocolError m) => ([protocol_reply m], CloseConnection, lp, s)
      | Err _ | Ok None => ([], CloseConnection, lp, s)
      | Ok (Some data) =>
          match feed (lp_parser lp) data with
          | (Err (ProtocolError m), p') => ([protocol_reply m], CloseConnection, mkLoop p' (partial_since lp), s)
          | (Err _, p') => ([], CloseConnection, mkLoop p' (partial_since lp), s)
          | (Ok msgs, p') =>
              let lp' := mkLoop p' (next_partial p' (partial_since lp) (ev_after ev)) in
              match handle_messages ws conn msgs s with
              | (o, Continue, s') =>
                  let '(o', n, lp'', s'') := client_loop (fun i => ws (length msgs + i)%nat) conn evs' lp' s' in
                  (o ++ o', n, lp'', s'')
              | (o, n, s') => (o, n, lp', s')
              end
          end
      end
  end.

(** [_hold_replica_connection]: whether it has returned. *)
Fixpoint hold_replica_connection (reads : list read_outcome) : bool :=
  match reads with
  | [] => false
  | ReadData (_ :: _) :: reads' => hold_replica_connection reads'
  | _ :: _ => true
  end.

(** The handler of a failed PSYNC. *)
Definition psync_failed (conn : Z) (s : RedisServer) : bytes * RedisServer :=
  (encode_error (u "ERR PSYNC failed"),
   match dict_get (replicas (master_ s)) conn with Some _ => set_master s (unregister (master_ s) conn) | None => s end).

(** [handle_client]; when the client became a replica, [held] are the reads of
    its connection. *)
Definition handle_client (ws : nat -> World) (evs : list ReadEvent) (held : list read_outcome) (s : RedisServer) :
    list bytes * next * RedisServer :=
  match accept s with
  | (inl refusal, s1) => ([refusal], CloseConnection, s1)
  | (inr conn, s1) =>
      let '(o, n, _, s2) := client_loop ws conn evs (mkLoop (client_parser (config s)) None) s1 in
      match n with
      | Continue => (o, Continue, s2)
      | CloseConnection => (o, CloseConnection, disconnect conn s2)
      | HoldReplica =>
          if hold_replica_connection held then (o, CloseConnection, disconnect conn s2) else (o, HoldReplica, s2)
      end
  end.

(** ** What a command leaves alone *)

Lemma log_command_conns w i a s : same_conns s (log_command w i a s).2.
Proof. unfold log_command. destruct (append_log _ _ _) as [[|[]] l]; by repeat split. Qed.

Lemma record_writes_conns w i cmds s : same_conns s (record_writes w i cmds s).2.
Proof.
  revert i s. induction cmds as [|a cmds IH]; intros i s; simpl; [done|]. pose proof (log_command_conns w i a s) as H.
  destruct (log_command w i a s) as [[[r|]|e] s']; try done. simpl in H. etrans; [|apply IH]. etrans; [exact H|]. by repeat split.
Qed.

Lemma log_command_auth w i a s : same_auth s (log_command w i a s).2.
Proof. unfold log_command. destruct (append_log _ _ _) as [[|[]] l]; by repeat split. Qed.

Lemma record_writes_auth w i cmds s : same_auth s (record_writes w i cmds s).2.
Proof.
  revert i s. induction cmds as [|a cmds IH]; intros i s; simpl; [done|]. pose proof (log_command_auth w i a s) as H.
  destruct (log_command w i a s) as [[[r|]|e] s']; try done. simpl in H. etrans; [|apply IH]. etrans; [exact H|]. by repeat split.
Qed.

Lemma finish_command_keeps (R : RedisServer -> RedisServer -> Prop) `{!PreOrder R} w c res ev s :
  (forall i cmds, R s (record_writes w i cmds s).2) -> (forall i a, R s (log_command w i a s).2) ->
  R s (finish_command w c res ev s).2.
Proof.
  intros H1 H2. unfold finish_command.
  assert (forall r : result (option bytes) * RedisServer, R s r.2 -> R s (let '(x, s') := r in
    match x with Ok None => (match encode_value res with Ok data => Ok (Some data)
       | Err (TypeError _) => Ok (Some (encode_error (u "ERR internal error"))) | Err e => Err e end, s') | _ => (x, s') end).2) as Hk.
  { intros [[[|]|] s']; done. }
  apply Hk. repeat case_if; [apply H1|apply H2|done].
Qed.

(** A command changes what its handler changes: the rest of [execute] only
    touches the store, the log, the replicas and the counters. *)
Lemma execute_keeps (R : RedisServer -> RedisServer -> Prop) `{!PreOrder R} w c s :
  (forall s st, R s (set_store s st)) -> (forall s, R s (count_failure s)) ->
  (forall s i cmds, R s (record_writes w i cmds s).2) -> (forall s i a, R s (log_command w i a s).2) ->
  (forall s, R s (dispatch w c s).2) -> R s (execute w c s).2.
Proof.
  intros Hst Hct Hrec Hlog Hd. unfold execute. case_if; [apply Hct|]. case_if; [apply Hct|].
  destruct (if is_write _ then snapshot _ _ else _) as [before st0].
  pose proof (transitivity (Hst s st0) (Hd (set_store s st0))) as H1.
  destruct (dispatch w c (set_store s st0)) as [[res|e] s1]; simpl in H1; [|destruct e; simpl; etrans; eauto].
  etrans; [exact H1|].
  destruct (if is_write _ then enforce_memory_limit _ _ else _) as [[ev|e] st2].
  - pose proof (transitivity (Hst s1 st2) (finish_command_keeps R w c res ev (set_store s1 st2) (Hrec _) (Hlog _))) as H2.
    destruct res; simpl in *; auto.
  - destruct e; simpl; try apply Hst. etrans; [apply Hst|apply Hct].
Qed.

Lemma execute_conns w c s : same_conns s (execute w c s).2.
Proof.
  apply execute_keeps; try apply _; try (by repeat split); intros.
  - apply record_writes_conns.
  - apply log_command_conns.
  - apply dispatch_conns.
Qed.

(** Only AUTH with a password changes who is authenticated. *)
Lemma dispatch_no_guess w c s : (upper_name (argv c) = b "AUTH" -> length (argv c) <> 2%nat) -> same_auth s (dispatch w c s).2.
Proof.
  destruct (decide (upper_name (argv c) = b "AUTH")) as [E|Hne]; [|intros _; by apply dispatch_auth]. intros H. specialize (H E).
  unfold dispatch, get_handler. destruct (argv c) as [|name args] eqn:Ea; [done|]. simpl in E. rewrite E.
  assert (dict_get default_registry (b "AUTH") = Some cmd_auth) as -> by reflexivity. case_match; [done|].
  unfold cmd_auth, raise. rewrite Ea. by destruct args as [|pw [|]].
Qed.

Lemma execute_no_guess w c s : (upper_name (argv c) = b "AUTH" -> length (argv c) <> 2%nat) -> same_auth s (execute w c s).2.
Proof.
  intros Hne. apply execute_keeps; try apply _; try (by repeat split); intros.
  - apply record_writes_auth.
  - apply log_command_auth.
  - by apply dispatch_no_guess.
Qed.

Lemma handle_message_conns w conn msg s : same_conns s (handle_message w conn msg s).2.
Proof.
  unfold handle_message. set (s0 := set_counts _ _ _). assert (same_conns s s0) as H0 by (by repeat split).
  destruct (normalize_argv msg) as [[|name args]|[]]; try done. case_if.
  - etrans; [exact H0|]. unfold start_full_resync. destruct (snapshot _ _). by repeat split.
  - pose proof (execute_conns w (client_ctx conn (name :: args)) s0) as Hx.
    destruct (execute w (client_ctx conn (name :: args)) s0) as [[reply|e] s1]; [|by etrans]. case_if; by etrans.
Qed.

(** Every message is counted. *)
Definition same_processed (s s' : RedisServer) : Prop := total_commands_processed s' = total_commands_processed s.

#[export] Instance same_processed_preorder : PreOrder same_processed.
Proof. split; [done|]. unfold same_processed. intros x y z. congruence. Qed.

Lemma log_command_processed w i a s : same_processed s (log_command w i a s).2.
Proof. unfold log_command. by destruct (append_log _ _ _) as [[|[]] l]. Qed.

Lemma record_writes_processed w i cmds s : same_processed s (record_writes w i cmds s).2.
Proof.
  revert i s. induction cmds as [|a cmds IH]; intros i s; simpl; [done|]. pose proof (log_command_processed w i a s) as H.
  destruct (log_command w i a s) as [[[r|]|e] s']; try done. simpl in H. etrans; [exact H|]. by rewrite <- IH.
Qed.

Lemma dispatch_processed w c s : same_processed s (dispatch w c s).2.
Proof.
  apply (dispatch_cases (fun _ => same_processed) w c s); [done|].
  repeat apply Forall_cons_2; try apply Forall_nil_2; simpl; run_handler.
Qed.

Lemma execute_processed w c s : same_processed s (execute w c s).2.
Proof.
  apply execute_keeps; try apply _; try done; intros; first [apply record_writes_processed|apply log_command_processed|apply dispatch_processed].
Qed.

Lemma handle_message_processed w conn msg s : total_commands_processed (handle_message w conn msg s).2 = total_commands_processed s + 1.
Proof.
  unfold handle_message. set (s0 := set_counts _ _ _). change (total_commands_processed s + 1) with (total_commands_processed s0).
  destruct (normalize_argv msg) as [[|name args]|[]]; try done. case_if.
  - unfold start_full_resync. by destruct (snapshot _ _).
  - pose proof (execute_processed w (client_ctx conn (name :: args)) s0) as Hx.
    destruct (execute w (client_ctx conn (name :: args)) s0) as [[reply|e] s1]; [|done]. by case_if.
Qed.

Lemma handle_messages_conns ws conn msgs s : same_conns s (handle_messages ws conn msgs s).2.
Proof.
  revert ws s. induction msgs as [|msg msgs IH]; intros ws s; simpl; [done|].
  pose proof (handle_message_conns (ws 0%nat) conn msg s) as H. destruct (handle_message (ws 0%nat) conn msg s) as [[o []] s1]; try done.
  specialize (IH (fun i => ws (S i)) s1). destruct (handle_messages (fun i => ws (S i)) conn msgs s1) as [[o' n] s2]. by etrans.
Qed.

(** ** A stream of commands *)

Lemma handle_messages_app ws conn l1 l2 s :
  handle_messages ws conn (l1 ++ l2) s =
  match handle_messages ws conn l1 s with
  | (o, Continue, s') => let '(o', n, s'') := handle_messages (fun i => ws (length l1 + i)%nat) conn l2 s' in (o ++ o', n, s'')
  | r => r
  end.
Proof.
  revert ws s. induction l1 as [|msg l1 IH]; intros ws s; simpl.
  - change (fun i => ws i) with ws. by destruct (handle_messages ws conn l2 s) as [[o n] s'].
  - destruct (handle_message (ws 0%nat) conn msg s) as [[o []] s1]; try done. rewrite IH.
    destruct (handle_messages (fun i => ws (S i)) conn l1 s1) as [[o1 []] s2]; try done.
    destruct (handle_messages (fun i => ws (S (length l1 + i))%nat) conn l2 s2) as [[o2 n] s3]. by rewrite app_assoc.
Qed.

(** The read returns [d], whatever its timeout. *)
Definition brings (ev : ReadEvent) (d : bytes) : Prop := d <> [] /\ forall t, ev_read ev t = ReadData d.

(** The read returns [d] in time: before the idle timeout, and, should a frame
    have been incomplete since one of the times [sinces], before the time allowed
    for it is over. *)
Definition timely (c : Config) (sinces : list pyfloat) (ev : ReadEvent) (d : bytes) : Prop :=
  d <> [] /\ ev_read ev (client_idle_timeout_sec c) = ReadData d /\
  forall since, since ∈ sinces ->
    let remaining := float_sub (partial_timeout_sec c) (float_sub (ev_now ev) since) in
    float_le_0 remaining = false /\ ev_read ev (float_min (client_idle_timeout_sec c) remaining) = ReadData d.

Lemma read_once_timely c sinces lp ev d :
  timely c sinces ev d -> (forall since, partial_since lp = Some since -> since ∈ sinces) -> read_once c lp ev = Ok (Some d).
Proof.
  intros (Hne & Hi & Ht) Hs. unfold read_once, read_timeout.
  destruct (partial_since lp) as [since|]; [destruct (buffered lp) eqn:E|]; cbn [rbind]; [|by rewrite Hi; destruct d..].
  destruct (Ht since (Hs since eq_refl)) as [-> Hr]. cbn [rbind]. rewrite Hr. by destruct d.
Qed.

(** What a connection does with the messages that [feed] delivered over its
    reads and the exception that ended them, if any. *)
Definition stream_outcome (ws : nat -> World) (conn : Z) (msgs : list pyobj) (err : option exn) (s : RedisServer) :
    list bytes * next * RedisServer :=
  match handle_messages ws conn msgs s with
  | (o, Continue, s') =>
      match err with
      | None => (o, Continue, s')
      | Some (ProtocolError m) => (o ++ [protocol_reply m], CloseConnection, s')
      | Some _ => (o, CloseConnection, s')
      end
  | r => r
  end.

Lemma stream_outcome_app ws conn l1 l2 err s :
  stream_outcome ws conn (l1 ++ l2) err s =
  match handle_messages ws conn l1 s with
  | (o, Continue, s') => let '(o', n, s'') := stream_outcome (fun i => ws (length l1 + i)%nat) conn l2 err s' in (o ++ o', n, s'')
  | r => r
  end.
Proof.
  unfold stream_outcome. rewrite handle_messages_app. destruct (handle_messages ws conn l1 s) as [[o []] s1]; try done.
  destruct (handle_messages _ conn l2 s1) as [[o' []] s2]; try done. destruct err as [[]|]; by rewrite ?app_assoc.
Qed.

Lemma next_partial_empty p since now : buf p = [] -> next_partial p since now = None.
Proof. unfold next_partial. by intros ->. Qed.

(** The loop over reads that bring [chunks] in time is [feed_all] followed by
    the handling of what it delivers. *)
Lemma client_loop_feed_all ws conn sinces evs chunks lp s msgs err p' :
  Forall2 (timely (config s) sinces) evs chunks -> feed_all (lp_parser lp) chunks = (msgs, err, p') ->
  (buf (lp_parser lp) = [] -> partial_since lp = None) ->
  (forall since, partial_since lp = Some since -> since ∈ sinces) -> (forall ev, ev ∈ evs -> ev_after ev ∈ sinces) ->
  let '(o, n, lp', s') := client_loop ws conn evs lp s in
  (o, n, s') = stream_outcome ws conn msgs err s /\
  (n = Continue -> lp_parser lp' = p' /\ (buf p' = [] -> partial_since lp' = None)).
Proof.
  revert ws evs lp s msgs. induction chunks as [|d chunks IH]; intros ws evs lp s msgs HF Hfeed He Hsince Hafter.
  - apply Forall2_nil_inv_r in HF as ->. simpl. by injection Hfeed as <- <- <-.
  - apply Forall2_cons_inv_r in HF as (ev & evs' & Hb & HF & ->). cbn [client_loop].
    rewrite (read_once_timely _ sinces _ _ d) by done. cbn [feed_all] in Hfeed. destruct (feed (lp_parser lp) d) as [[ms|e] q].
    2:{ injection Hfeed as <- <- <-. by destruct e. }
    destruct (feed_all q chunks) as [[ms' e'] q'] eqn:E. injection Hfeed as <- <- <-.
    rewrite stream_outcome_app. pose proof (handle_messages_conns ws conn ms s) as (Hc & _).
    destruct (handle_messages ws conn ms s) as [[o []] s1]; try done. simpl in Hc. rewrite <- Hc in HF.
    specialize (IH (fun i => ws (length ms + i)%nat) evs' (mkLoop q (next_partial q (partial_since lp) (ev_after ev))) s1 ms' HF E).
    destruct (client_loop _ conn evs' _ s1) as [[[o' n] lp'] s'].
    destruct IH as [IH1 IH2].
    + apply next_partial_empty.
    + intros since Hp. unfold next_partial in Hp. simpl in Hp. destruct (buf q); [done|].
      destruct (partial_since lp) eqn:Ep; injection Hp as <-; [by apply Hsince|apply Hafter; by left].
    + intros; apply Hafter; by right.
    + rewrite <- IH1. by split.
Qed.

(** ** The connections of a server *)

(** Only AUTH changes who is authenticated, and only for its connection. *)
Definition auth_within (conn : Z) (s s' : RedisServer) : Prop :=
  (forall x, x ∈ authenticated_connections s' -> x = conn \/ x ∈ authenticated_connections s) /\
  (dict_ok (authentication_failures s) -> dict_ok (authentication_failures s') /\
   forall x, x ∈ dict_keys (authentication_failures s') -> x = conn \/ x ∈ dict_keys (authentication_failures s)).

#[export] Instance auth_within_preorder conn : PreOrder (auth_within conn).
Proof.
  split; [split; auto|]. intros x y z [H1 H2] [H3 H4]. split; [intros i Hi; apply H3 in Hi; naive_solver|].
  intros [Hy Ey]%H2. destruct (H4 Hy) as [Hz Ez]. split; [done|]. intros i Hi. apply Ez in Hi. naive_solver.
Qed.

Lemma same_auth_within conn s s' : same_auth s s' -> auth_within conn s s'.
Proof. intros [E1 E2]. unfold auth_within. rewrite E1, E2. auto. Qed.

Lemma authenticate_within s conn p : auth_within conn s (authenticate s conn p).2.
Proof.
  unfold authenticate. destruct (requirepass (config s)); [|done]. case_if; split; simpl; intros Hd; auto.
  - split; [by apply dict_set_ok|]. intros x Hx. by apply dict_elem_keys_set in Hx.
  - intros Hx. by apply elem_of_cons in Hx.
  - split; [by apply dict_del_ok|]. intros x Hx. apply dict_elem_keys_del in Hx as [_ Hx]; auto.
Qed.

Lemma dispatch_within w c s : auth_within (ctx_connection_id c) s (dispatch w c s).2.
Proof.
  destruct (decide (upper_name (argv c) = b "AUTH")) as [E|Hne]; [|by apply same_auth_within, dispatch_auth].
  unfold dispatch, get_handler. destruct (argv c) as [|name args] eqn:Ea; [done|]. simpl in E. rewrite E.
  assert (dict_get default_registry (b "AUTH") = Some cmd_auth) as -> by reflexivity. case_match; [done|].
  unfold cmd_auth, raise. rewrite Ea. destruct args as [|pw [|]]; try done. destruct (requirepass (config s)); [|done].
  pose proof (authenticate_within s (ctx_connection_id c) pw) as Hw. by destruct (authenticate _ _ _) as [[] s'].
Qed.

Lemma execute_within w c s : auth_within (ctx_connection_id c) s (execute w c s).2.
Proof.
  apply execute_keeps; try apply _; intros; try (by apply same_auth_within; repeat split).
  - apply same_auth_within, record_writes_auth.
  - apply same_auth_within, log_command_auth.
  - apply dispatch_within.
Qed.

(** Distinct connections with numbers never used before, open or closing, as
    many as are counted and no more than allowed; authentication and failed
    attempts only of connections that are open (number 0 is the server itself,
    replaying its log or following its master). *)
Record conns_ok (s : RedisServer) : Prop := {
  co_distinct : NoDup (writers s ++ closing s);
  co_count : client_count s = zlen (writers s) + zlen (closing s);
  co_limit : client_count s <= Z.max 0 (max_clients (config s));
  co_seq : 0 <= conn_seq s;
  co_fresh : forall x, x ∈ writers s ++ closing s -> 1 <= x <= conn_seq s;
  co_received : total_connections_received s = conn_seq s + rejected_connections s;
  co_auth : forall x, x ∈ authenticated_connections s -> x = 0 \/ x ∈ writers s;
  co_failures : dict_ok (authentication_failures s);
  co_failed : forall x, x ∈ dict_keys (authentication_failures s) -> x = 0 \/ x ∈ writers s
}.

(** What can happen to a server, as far as its connections are concerned. *)
Inductive conn_step (s : RedisServer) : RedisServer -> Prop :=
| cs_accept : conn_step s (accept s).2
| cs_message w conn msg : conn ∈ writers s -> conn_step s (handle_message w conn msg s).2
| cs_disconnect_begin conn : conn ∈ writers s -> conn_step s (disconnect_begin conn s)
| cs_disconnect_end conn : conn ∈ closing s -> conn_step s (disconnect_end conn s)
| cs_replicated w a : conn_step s (apply_replicated_command w a s).2
| cs_links m : conn_step s (set_master s m)
| cs_bgsave now : conn_step s (bgsave_take_snapshot now s)
| cs_bgsave_thread call io : conn_step s (bgsave_thread call io s)
| cs_rewrite io now cur : conn_step s (aof_rewrite_worker io now cur s)
| cs_expire rnd now : conn_step s (active_expire_tick rnd now s).

Lemma conns_ok_within conn s s' :
  same_conns s s' -> auth_within conn s s' -> conn = 0 \/ conn ∈ writers s -> conns_ok s -> conns_ok s'.
Proof.
  intros (Ec & Ew & El & Es & En & Er & Ej) [Ha Hf] Hconn [H1 H2 H3 H4 H5 H6 H7 H8 H9].
  destruct (Hf H8) as [Hd Hk]. split; rewrite ?Ec, ?Ew, ?El, ?Es, ?En, ?Er, ?Ej; auto.
  - intros x [-> |Hx]%Ha; auto.
  - intros x [-> |Hx]%Hk; auto.
Qed.

Lemma conns_ok_same s s' : same_conns s s' -> same_auth s s' -> conns_ok s -> conns_ok s'.
Proof. intros Hc Ha. apply (conns_ok_within 0); auto. by apply same_auth_within. Qed.

Lemma handle_message_within w conn msg s : auth_within conn s (handle_message w conn msg s).2.
Proof.
  unfold handle_message. set (s0 := set_counts _ _ _). assert (auth_within conn s s0) as H0 by (by apply same_auth_within; split).
  destruct (normalize_argv msg) as [[|name args]|[]]; try done. case_if.
  - etrans; [exact H0|]. unfold start_full_resync. destruct (snapshot _ _). by apply same_auth_within.
  - pose proof (execute_within w (client_ctx conn (name :: args)) s0) as Hx.
    destruct (execute w (client_ctx conn (name :: args)) s0) as [[reply|e] s1]; [|by etrans]. case_if; by etrans.
Qed.

Lemma accept_ok s : conns_ok s -> conns_ok (accept s).2.
Proof.
  intros [H1 H2 H3 H4 H5 H6 H7 H8 H9]. unfold accept. case_if; split; simpl; try done; try lia.
  - constructor; [|done]. intros Hx%H5. lia.
  - rewrite zlen_cons. lia.
  - intros x [->|Hx]%elem_of_cons; [lia|]. apply H5 in Hx. lia.
  - intros x [?|?]%H7; [by left|right; by right].
  - intros x [?|?]%H9; [by left|right; by right].
Qed.

Lemma zlen_filter_ne (l : list Z) x : NoDup l -> x ∈ l -> zlen (filter (fun y => y <> x) l) = zlen l - 1.
Proof.
  induction 1 as [|y l Hy Hl IH]; intros Hx; [by apply elem_of_nil in Hx|]. rewrite filter_cons, zlen_cons.
  apply elem_of_cons in Hx as [->|Hx].
  - rewrite decide_False by auto. rewrite filter_all; [lia|]. apply Forall_forall. by intros z Hz ->.
  - rewrite decide_True by (by intros ->). rewrite zlen_cons, IH by done. lia.
Qed.

Lemma disconnect_begin_ok conn s : conn ∈ writers s -> conns_ok s -> conns_ok (disconnect_begin conn s).
Proof.
  intros Hc [H1 H2 H3 H4 H5 H6 H7 H8 H9]. pose proof H1 as (Hw & Hd & Hcl)%NoDup_app.
  assert (forall x, x ∈ filter (fun y => y <> conn) (writers s) ++ conn :: closing s -> x ∈ writers s ++ closing s) as Hsub.
  { intros x. rewrite !elem_of_app, elem_of_cons, list_elem_of_filter. intros [[_ ?]|[->|?]]; auto. }
  split; simpl; try done; try lia.
  - apply NoDup_app. split; [by apply NoDup_filter|]. split; [|constructor; [by apply Hd|done]].
    intros x [Hne Hx]%list_elem_of_filter [?|?]%elem_of_cons; [done|by apply (Hd x)].
  - rewrite zlen_filter_ne, zlen_cons by done. lia.
  - intros x Hx. by apply H5, Hsub.
  - intros x [Hne Hx]%list_elem_of_filter. apply H7 in Hx as [?|?]; [by left|right]. by apply list_elem_of_filter.
  - by apply dict_del_ok.
  - intros x [Hne Hx]%dict_elem_keys_del; [|done]. apply H9 in Hx as [?|?]; [by left|right]. by apply list_elem_of_filter.
Qed.

Lemma disconnect_end_ok conn s : conn ∈ closing s -> conns_ok s -> conns_ok (disconnect_end conn s).
Proof.
  intros Hc [H1 H2 H3 H4 H5 H6 H7 H8 H9]. pose proof H1 as (Hw & Hd & Hcl)%NoDup_app.
  split; simpl; try done; try lia.
  - apply NoDup_app. split; [done|]. split; [|by apply NoDup_filter]. intros x Hx [_ Hy]%list_elem_of_filter. by apply (Hd x).
  - rewrite zlen_filter_ne by done. lia.
  - intros x [Hx|[_ Hx]%list_elem_of_filter]%elem_of_app; apply H5, elem_of_app; auto.
Qed.

Lemma disconnect_ok conn s : conn ∈ writers s -> conns_ok s -> conns_ok (disconnect conn s).
Proof. intros Hc Hs. apply disconnect_end_ok; [by left|by apply disconnect_begin_ok]. Qed.

Lemma bgsave_thread_conns call io s : same_conns s (bgsave_thread call io s).
Proof. unfold bgsave_thread. by repeat case_match. Qed.

Lemma bgsave_thread_auth call io s : same_auth s (bgsave_thread call io s).
Proof. unfold bgsave_thread. by repeat case_match. Qed.

Lemma conn_step_ok s s' : conns_ok s -> conn_step s s' -> conns_ok s'.
Proof.
  intros H Hst. destruct Hst.
  - by apply accept_ok.
  - eapply conns_ok_within; [apply handle_message_conns|apply handle_message_within|auto|done].
  - by apply disconnect_begin_ok.
  - by apply disconnect_end_ok.
  - unfold apply_replicated_command. pose proof (execute_conns w (replicated_ctx a) s). pose proof (execute_within w (replicated_ctx a) s).
    destruct (execute w (replicated_ctx a) s) as [r s1]. eapply conns_ok_within; [done|done|by left|done].
  - by apply (conns_ok_same s).
  - unfold bgsave_take_snapshot. destruct (bgsave_task s); try done. destruct (snapshot _ _). by apply (conns_ok_same s).
  - eapply conns_ok_same; [apply bgsave_thread_conns|apply bgsave_thread_auth|done].
  - unfold aof_rewrite_worker. case_match; [|done]. destruct (snapshot _ _), (rewrite _ _ _ _). by apply (conns_ok_same s).
  - by apply (conns_ok_same s).
Qed.

Lemma apply_all_inv {S} (P : S -> Prop) (apply : S -> list bytes -> result unit * S) s cmds :
  (forall s a, P s -> P (apply s a).2) -> P s -> P (apply_all apply s cmds).2.
Proof.
  intros Ha. revert s. induction cmds as [|a cmds IH]; intros s Hs; simpl; [done|].
  pose proof (Ha s a Hs) as H. destruct (apply s a) as [[|e] s']; [by apply IH|done].
Qed.

Lemma load_conns ws now s : conns_ok s -> conns_ok (load_persistence ws now s).2.
Proof.
  intros H. unfold load_persistence. case_if.
  - unfold replay_aof. destruct (read_commands _ _ _) as [cmds|e]; [|done].
    pose proof (apply_all_inv (fun x : nat * RedisServer => conns_ok x.2) (replay_command ws) (0%nat, s) cmds) as Hi.
    destruct (apply_all _ _ cmds) as [[|e] [n s']]; (apply Hi; [|done]); intros [i s1] c Hs1; simpl.
    all: pose proof (execute_conns (ws i) (replay_ctx c) s1); pose proof (execute_within (ws i) (replay_ctx c) s1).
    all: destruct (execute (ws i) (replay_ctx c) s1); eapply conns_ok_within; [done|done|by left|done].
  - destruct (rdb_file s) as [[|x l]|]; try done. destruct (load_rdb_into _ _ _ _). by apply (conns_ok_same s).
Qed.

Lemma start_conns ws now io s : conns_ok s -> conns_ok (start ws now io s).2.
Proof.
  intros H%(load_conns ws now). unfold start. destruct (load_persistence ws now s) as [[|e] s']; [|done].
  destruct (open_ io (aof s')) as [[|e] l]; by apply (conns_ok_same s').
Qed.

Lemma new_conns cfg rid aof_contents rdb : conns_ok (new_server cfg rid aof_contents rdb).
Proof.
  split; simpl; try done; try lia; try (by constructor); intros x Hx; by apply elem_of_nil in Hx.
Qed.

(** ** Guessing the password *)

(** AUTH with a password that is not [p]. *)
Definition wrong_guess (p : str) (msg : pyobj) : bool :=
  match normalize_argv msg with Ok [name; pw] => beqb (bytes_upper name) (b "AUTH") && negb (beqb p pw) | _ => false end.

Definition right_guess (p : str) (msg : pyobj) : bool :=
  match normalize_argv msg with Ok [name; pw] => beqb (bytes_upper name) (b "AUTH") && beqb p pw | _ => false end.

Definition guesses (p : str) (msgs : list pyobj) : Z := zlen (filter (fun msg => wrong_guess p msg = true) msgs).

Definition failed_attempts (s : RedisServer) (conn : Z) : Z := default 0 (dict_get (authentication_failures s) conn).

(** AUTH, authenticated or not. *)
Lemma execute_auth_command w conn name pw s p :
  requirepass (config s) = Some p -> bytes_upper name = b "AUTH" -> p <> pw ->
  execute w (client_ctx conn [name; pw]) s =
  (Ok (Some (encode_error (u "WRONGPASS invalid username-password pair"))),
   count_failure (set_auth s (authenticated_connections s)
     (dict_set (authentication_failures s) conn (failed_attempts s conn + 1)))).
Proof.
  intros Hp Hn Hne. unfold execute. simpl. rewrite Hn. change (is_write (b "AUTH")) with false.
  change (beqb (b "AUTH") (b "AUTH")) with true. simpl. rewrite andb_false_r. simpl. unfold dispatch. simpl. unfold get_handler. rewrite Hn.
  assert (dict_get default_registry (b "AUTH") = Some cmd_auth) as -> by reflexivity.
  change (is_write (b "AUTH")) with false. rewrite andb_false_r. simpl. unfold cmd_auth. simpl. rewrite Hp. unfold authenticate. simpl.
  rewrite Hp. apply beqb_neq in Hne. rewrite Hne. done.
Qed.

(** A message that does not end the reading loop counts its wrong guess. *)
Lemma handle_message_guess w conn msg s p o s' :
  requirepass (config s) = Some p -> right_guess p msg = false -> handle_message w conn msg s = (o, Continue, s') ->
  failed_attempts s' conn = failed_attempts s conn + (if wrong_guess p msg then 1 else 0) /\
  (wrong_guess p msg = true -> failed_attempts s' conn < max_auth_failures (config s)).
Proof.
  intros Hp Hr. unfold handle_message, right_guess, wrong_guess in *. set (s0 := set_counts _ _ _).
  destruct (normalize_argv msg) as [[|name args]|[]]; try (intros [= <- <-]; split; [unfold failed_attempts; simpl; lia|done]); try done.
  case_if; [done|]. simpl upper_name in *.
  assert ((bytes_upper name = b "AUTH" /\ exists pw, args = [pw]) \/
          (upper_name (name :: args) = b "AUTH" -> length (name :: args) <> 2%nat)) as [(Hn & pw & ->)|Hno].
  { destruct (decide (bytes_upper name = b "AUTH")); [|by right]. destruct args as [|pw [|]]; simpl; eauto. }
  - rewrite Hn in *. change (beqb (b "AUTH") (b "AUTH")) with true in *. simpl in Hr.
    rewrite (execute_auth_command w conn name pw s0 p) by (try done; by apply beqb_neq). change (failed_attempts s0 conn) with (failed_attempts s conn). simpl. rewrite Hr.
    simpl.  rewrite dict_get_set_eq. simpl. case_if; [done|]. intros [= <- <-].
    assert (forall n a, failed_attempts (count_failure (set_auth s0 a (dict_set (authentication_failures s) conn n))) conn = n) as ->
      by (intros; unfold failed_attempts; simpl; by rewrite dict_get_set_eq). split; [done|]. intros _. lia.
  - intros H. assert (same_auth s s') as [_ E].
    { pose proof (execute_no_guess w (client_ctx conn (name :: args)) s0 Hno) as Hx.
      destruct (execute w (client_ctx conn (name :: args)) s0) as [[reply|e] s1]; [|done]. case_match; by simplify_eq. }
    assert (match args with [pw] => beqb (bytes_upper name) (b "AUTH") && negb (beqb p pw) | _ => false end = false) as Ew.
    { destruct args as [|pw [|]]; try done. destruct (beqb (bytes_upper name) (b "AUTH")) eqn:Eb; [|done].
      apply beqb_eq in Eb. by destruct (Hno Eb). }
    rewrite Ew. unfold failed_attempts. rewrite E. split; [lia|done].
Qed.

Lemma guesses_cons p msg msgs : guesses p (msg :: msgs) = (if wrong_guess p msg then 1 else 0) + guesses p msgs.
Proof. unfold guesses. rewrite filter_cons. destruct (wrong_guess p msg); [rewrite decide_True, zlen_cons by done|rewrite decide_False by done]; lia. Qed.

Lemma handle_messages_guesses ws conn msgs s p o s' :
  requirepass (config s) = Some p -> Forall (fun msg => right_guess p msg = false) msgs ->
  handle_messages ws conn msgs s = (o, Continue, s') ->
  failed_attempts s' conn = failed_attempts s conn + guesses p msgs /\
  (0 < guesses p msgs -> failed_attempts s' conn < max_auth_failures (config s)).
Proof.
  intros Hp HF. revert ws s o Hp. induction HF as [|msg msgs Hr HF IH]; intros ws s o Hp H; simpl in H.
  - injection H as _ <-. change (guesses p []) with 0. split; lia.
  - pose proof (handle_message_conns (ws 0%nat) conn msg s) as (Ec & _).
    destruct (handle_message (ws 0%nat) conn msg s) as [[o1 []] s1] eqn:E1; try done.
    destruct (handle_message_guess _ _ _ _ _ _ _ Hp Hr E1) as [Hf Hlt]. simpl in Ec.
    destruct (handle_messages (fun i => ws (S i)) conn msgs s1) as [[o2 n] s2] eqn:E2. injection H as _ -> ->.
    destruct (IH _ s1 _ ltac:(congruence) E2) as [Hf2 Hlt2]. rewrite guesses_cons.
    assert (0 <= guesses p msgs) by apply zlen_nonneg. rewrite Ec in Hlt2. split; [lia|]. intros Hpos.
    destruct (Z.eq_dec (guesses p msgs) 0) as [Hz|]; [|apply Hlt2; lia].
    destruct (wrong_guess p msg); [|lia]. specialize (Hlt eq_refl). lia.
Qed.

(** ** The timer of an incomplete frame *)

(** A read that expires while a frame is incomplete. *)
Lemma read_once_expired c lp ev t0 m e :
  partial_since lp = Some t0 -> buf (lp_parser lp) <> [] -> partial_timeout_sec c = FFinite m e ->
  float_sub (ev_now ev) t0 <> FNan -> float_lt (float_sub (ev_now ev) t0) (FFinite m e) = false ->
  read_once c lp ev = Err (partial_error c).
Proof.
  intros Hs Hb Ht Hn Hlt. unfold read_once, read_timeout, buffered. rewrite Hs, bool_decide_true by done.
  by rewrite Ht, float_elapsed.
Qed.

(** Every read leaves an incomplete frame behind. *)
Fixpoint never_empty (p : RespParser) (chunks : list bytes) : Prop :=
  buf p <> [] /\
  match chunks with
  | [] => True
  | d :: chunks' => match feed p d with (Ok _, q) => never_empty q chunks' | _ => False end
  end.

Lemma never_empty_now p chunks : never_empty p chunks -> buf p <> [].
Proof. by destruct chunks as [|d chunks]; intros [? _]. Qed.

(** ** Properties *)

(** C10 A connection is a stream of commands.  Let the network cut the bytes of
    a client into reads in any way, each read returning before the idle timeout and
    before the time allowed for an incomplete frame is over.  The server answers
    and changes exactly as if the messages that the parser delivers over these
    reads had been handled in one go; when the bytes are malformed it answers
    these messages, then reports the protocol error and closes; otherwise it waits
    with exactly the incomplete rest, and with no timer running when there is none.
    And as long as all the bytes fit into the buffer, the messages and the rest
    are those of the bytes fed at once, and a protocol error is reported for some
    cut exactly when it is for every other. *)
Theorem client_stream ws conn evs chunks s :
  Forall2 (timely (config s) (map ev_after evs)) evs chunks ->
  let '(o, n, lp, s') := client_loop ws conn evs (mkLoop (client_parser (config s)) None) s in
  let '(msgs, err, p') := feed_all (client_parser (config s)) chunks in
  (o, n, s') = stream_outcome ws conn msgs err s /\
  (n = Continue -> lp_parser lp = p' /\ (buf p' = [] -> partial_since lp = None)) /\
  (zlen (concat chunks) <= cfg_max_buffer_bytes (config s) ->
   match feed (client_parser (config s)) (concat chunks) with
   | (Ok ms, q) => msgs = ms /\ err = None /\ p' = q
   | (Err e, _) => err = Some e
   end).
Proof.
  intros HF. set (p := client_parser (config s)). destruct (feed_all p chunks) as [[msgs err] p'] eqn:E.
  pose proof (client_loop_feed_all ws conn _ evs chunks (mkLoop p None) s msgs err p' HF E) as H.
  destruct (client_loop ws conn evs (mkLoop p None) s) as [[[o n] lp] s']. destruct H as [H1 H2]; [done|done|intros ev Hin; by apply list_elem_of_fmap_2|]. split; [done|]. split; [done|].
  intros Hlen. assert (quiescent p) as Hq by (by apply quiescent_empty).
  assert (zlen (buf p) + zlen (concat chunks) <= max_buffer_bytes p) as Hb by done.
  rewrite feed_drain by done. pose proof (feed_all_drain p chunks Hq Hb) as Hd. simpl in Hd.
  change (buf p ++ concat chunks) with (concat chunks) in *. destruct (drain _) as [[ms|e] q]; rewrite E in Hd; [by simplify_eq|].
  destruct Hd as (? & ? & ? & ? & _). by simplify_eq.
Qed.

(** C14 Connections.  From the start of a server on any files, through
    connections that are accepted, refused, used and closed, replicated
    commands and background tasks, in any order: the connections have distinct
    numbers and never exceed the limit; the ones counted are exactly those that
    are open and those whose transport is still being closed; only open
    connections are authenticated or have failed attempts; and a new
    connection gets a number that was never used, is not authenticated and has
    no failed attempts. *)
Theorem connections_ok cfg rid ws now io aof_contents rdb s :
  rtc conn_step (start ws now io (new_server cfg rid aof_contents rdb)).2 s ->
  conns_ok s /\
  forall conn s', accept s = (inr conn, s') ->
    conns_ok s' /\ (conn ∉ writers s ++ closing s) /\ (conn ∉ authenticated_connections s') /\ failed_attempts s' conn = 0 /\ client_count s' <= max_clients (config s).
Proof.
  intros Hr. assert (conns_ok s) as Hs.
  { pose proof (start_conns ws now io _ (new_conns cfg rid aof_contents rdb)) as H0.
    induction Hr as [|x y z Hxy _ IH]; [done|]. apply IH. by eapply conn_step_ok. }
  split; [done|]. intros conn s' Ha. pose proof (accept_ok s Hs) as Hs'. rewrite Ha in Hs'. simpl in Hs'.
  unfold accept in Ha. destruct (max_clients (config s) <=? client_count s) eqn:El; [done|]. apply Z.leb_gt in El. injection Ha as <- <-. destruct Hs.
  assert ((conn_seq s + 1) ∉ writers s ++ closing s) as Hnew by (intros Hx%co_fresh0; lia). split; [done|]. split; [done|]. simpl. split_and!.
  - intros [?|?]%co_auth0; [lia|]. by apply Hnew, elem_of_app; left.
  - unfold failed_attempts. simpl. destruct (dict_get (authentication_failures s) (conn_seq s + 1)) as [n|] eqn:E; [|done].
    apply dict_get_key, co_failed0 in E as [?|?]; [lia|]. by destruct Hnew; apply elem_of_app; left.
  - lia.
Qed.

(** C15 Guessing the password is bounded.  On a server with a password, a
    connection with no failed attempts that sends any messages, none of them the
    right password, is still being read only if fewer than
    [max_auth_failures] of them were wrong passwords: at the last allowed one
    the server closes it. *)
Theorem auth_lockout ws conn msgs s p o s' :
  requirepass (config s) = Some p -> 0 < max_auth_failures (config s) -> failed_attempts s conn = 0 ->
  Forall (fun msg => right_guess p msg = false) msgs ->
  handle_messages ws conn msgs s = (o, Continue, s') -> guesses p msgs < max_auth_failures (config s).
Proof.
  intros Hp Hm H0 HF H. destruct (handle_messages_guesses ws conn msgs s p o s' Hp HF H) as [Hf Hlt].
  destruct (Z.le_gt_cases (guesses p msgs) 0); [lia|]. specialize (Hlt ltac:(lia)). lia.
Qed.

(** C36 The time allowed for an incomplete frame runs from the first read that
    left one, and only a read that leaves nothing restarts it.  A client whose
    reads all end within a frame is disconnected with the timeout error when
    the time is over, however many commands it completed meanwhile. *)
Theorem partial_timer_not_reset ws conn evs chunks ev lp s t0 m e o lp' s' :
  partial_since lp = Some t0 -> Forall2 brings evs chunks -> never_empty (lp_parser lp) chunks ->
  client_loop ws conn evs lp s = (o, Continue, lp', s') ->
  partial_timeout_sec (config s) = FFinite m e -> float_sub (ev_now ev) t0 <> FNan ->
  float_lt (float_sub (ev_now ev) t0) (FFinite m e) = false ->
  client_loop ws conn (evs ++ [ev]) lp s =
  (o ++ [protocol_reply (u "incomplete RESP frame timed out after " ++ format_0f (FFinite m e) ++ u "s")], CloseConnection, lp', s').
Proof.
  intros Hs HF Hne Hx Ht Hn Hlt. revert ws lp s o Hs Hne Hx Ht. induction HF as [|ev1 d evs chunks Hb HF IH]; intros ws lp s o Hs Hne Hx Ht.
  - injection Hx as <- <- <-. simpl. rewrite (read_once_expired _ _ _ t0 m e) by (try done; by eapply never_empty_now).
    unfold partial_error. by rewrite Ht.
  - simpl in *. destruct Hne as [Hb0 Hne]. destruct (read_once (config s) lp ev1) as [[data|]|[]] eqn:Er; try done.
    assert (data = d) as ->.
    { unfold read_once in Er. apply rbind_ok in Er as (t & _ & Er). destruct Hb as [Hd Hr]. rewrite Hr in Er. destruct d; [done|]. by simplify_eq. }
    destruct (feed (lp_parser lp) d) as [[ms|e1] q]; [|done].
    pose proof (handle_messages_conns ws conn ms s) as (Ec & _).
    destruct (handle_messages ws conn ms s) as [[o1 []] s1]; try done. simpl in Ec.
    destruct (client_loop _ conn evs _ s1) as [[[o2 n] lp2] s2] eqn:E2. injection Hx as <- -> -> ->.
    erewrite IH; [by rewrite app_assoc| | |exact E2|by rewrite Ec].
    + simpl. unfold next_partial. rewrite Hs. apply never_empty_now in Hne. by destruct (buf q).
    + done.
Qed.

(** A client that sends two commands and a part of a third in four reads. *)
Definition ex_conn : RedisServer := Eval vm_compute in (accept (start (fun _ => ex_world) 0 None (new_server default_config (u "abc") [] None)).2).2.
Definition ex_stream : bytes := wire [[b "SET"; b "k"; b "v"]; [b "GET"; b "k"]] ++ b "*1".
Definition ex_reads : list bytes := [take 3 ex_stream; take 30 (drop 3 ex_stream); take 10 (drop 33 ex_stream); drop 43 ex_stream].
Definition ex_event (t : Z) (d : bytes) : ReadEvent := mkEvent (FFinite t 0) (fun _ => ReadData d) (FFinite t 0).

Definition ex_malformed : list bytes := ex_reads ++ [b "x" ++ [Byte.x0d; Byte.x0a]].

Lemma client_stream_witness :
  (let '(o, n, lp, s') := client_loop (fun _ => ex_world) 1 (map (ex_event 7) ex_reads) (mkLoop (client_parser default_config) None) ex_conn in
   (o, n, s') = handle_messages (fun _ => ex_world) 1 (map command_obj [[b "SET"; b "k"; b "v"]; [b "GET"; b "k"]]) ex_conn /\
   (n = Continue -> lp_parser lp = with_buf (client_parser default_config) (b "*1"))) /\
  (let '(o, n, lp, s') := client_loop (fun _ => ex_world) 1 (map (ex_event 7) ex_malformed) (mkLoop (client_parser default_config) None) ex_conn in
   exists m, last o = Some (protocol_reply m) /\ n = CloseConnection).
Proof.
  assert (forall l d, Forall (fun x => x = FFinite 7 0) l -> d <> [] -> timely (config ex_conn) l (ex_event 7 d) d) as Hin.
  { intros l d Hl Hd. split; [exact Hd|]. split; [reflexivity|]. intros since Hs. rewrite Forall_forall in Hl. rewrite (Hl _ Hs). split; [vm_compute; reflexivity|reflexivity]. }
  assert (feed_all (client_parser (config ex_conn)) ex_reads =
    (map command_obj [[b "SET"; b "k"; b "v"]; [b "GET"; b "k"]], None, with_buf (client_parser default_config) (b "*1"))) as E by (vm_compute; reflexivity).
  split.
  - pose proof (client_stream (fun _ => ex_world) 1 (map (ex_event 7) ex_reads) ex_reads ex_conn) as H.
    change (config ex_conn) with default_config in *. rewrite E in H.
    destruct (client_loop _ 1 (map (ex_event 7) ex_reads) _ ex_conn) as [[[o n] lp] s']. destruct H as (H1 & H2 & _).
    + repeat (apply Forall2_cons_2; [apply Hin; [repeat constructor|discriminate]|]). apply Forall2_nil_2.
    + split; [|intros Hn; apply (H2 Hn)].
      assert (stream_outcome (fun _ => ex_world) 1 (map command_obj [[b "SET"; b "k"; b "v"]; [b "GET"; b "k"]]) None ex_conn =
        handle_messages (fun _ => ex_world) 1 (map command_obj [[b "SET"; b "k"; b "v"]; [b "GET"; b "k"]]) ex_conn) as <- by (vm_compute; reflexivity).
      exact H1.
  - pose proof (client_stream (fun _ => ex_world) 1 (map (ex_event 7) ex_malformed) ex_malformed ex_conn) as H.
    change (config ex_conn) with default_config in *.
    destruct (client_loop _ 1 (map (ex_event 7) ex_malformed) _ ex_conn) as [[[o n] lp] s'] eqn:El.
    assert (exists m, (feed_all (client_parser default_config) ex_malformed).1 =
      (map command_obj [[b "SET"; b "k"; b "v"]; [b "GET"; b "k"]], Some (ProtocolError m)) /\
      exists o', stream_outcome (fun _ => ex_world) 1 (map command_obj [[b "SET"; b "k"; b "v"]; [b "GET"; b "k"]]) (Some (ProtocolError m)) ex_conn =
        (o' ++ [protocol_reply m], CloseConnection, (handle_messages (fun _ => ex_world) 1 (map command_obj [[b "SET"; b "k"; b "v"]; [b "GET"; b "k"]]) ex_conn).2)) as (m & Em & o' & Eo).
    { eexists. split; [vm_compute; reflexivity|]. unfold stream_outcome.
      exists (handle_messages (fun _ => ex_world) 1 (map command_obj [[b "SET"; b "k"; b "v"]; [b "GET"; b "k"]]) ex_conn).1.1. vm_compute. reflexivity. }
    destruct (feed_all (client_parser default_config) ex_malformed) as [[msgs err] p']. cbn [fst] in Em.
    pose proof (f_equal fst Em) as E1. pose proof (f_equal snd Em) as E2. cbn [fst snd] in E1, E2. subst msgs err.
    destruct H as (H1 & _).
    + repeat (apply Forall2_cons_2; [apply Hin; [repeat constructor|discriminate]|]). apply Forall2_nil_2.
    + exists m. rewrite Eo in H1. pose proof (f_equal (fun x => x.1.1) H1) as E1. pose proof (f_equal (fun x => x.1.2) H1) as E2.
      cbn [fst snd] in E1, E2. subst o n. split; [apply last_snoc|reflexivity].
Defined.

(** Two connections, one command, one goodbye that is still under way. *)
Definition ex_c1 : RedisServer := Eval vm_compute in (start (fun _ => ex_world) 0 None (new_server default_config (u "abc") [] None)).2.
Definition ex_c2 : RedisServer := Eval vm_compute in (accept ex_c1).2.
Definition ex_c3 : RedisServer := Eval vm_compute in (accept ex_c2).2.
Definition ex_c4 : RedisServer := Eval vm_compute in (handle_message ex_world 2 (command_obj [b "PING"]) ex_c3).2.
Definition ex_c5 : RedisServer := Eval vm_compute in disconnect_begin 1 ex_c4.

Lemma connections_ok_witness : conns_ok ex_c5 /\ exists s', accept ex_c5 = (inr 3, s') /\ conns_ok s' /\ failed_attempts s' 3 = 0.
Proof.
  destruct (connections_ok default_config (u "abc") (fun _ => ex_world) 0 None [] None ex_c5) as [H1 H2].
  - assert ((start (fun _ => ex_world) 0 None (new_server default_config (u "abc") [] None)).2 = ex_c1) as -> by (vm_compute; reflexivity).
    apply (rtc_l _ _ ex_c2); [assert ((accept ex_c1).2 = ex_c2) as <- by (vm_compute; reflexivity); apply cs_accept|].
    apply (rtc_l _ _ ex_c3); [assert ((accept ex_c2).2 = ex_c3) as <- by (vm_compute; reflexivity); apply cs_accept|].
    apply (rtc_l _ _ ex_c4).
    { assert ((handle_message ex_world 2 (command_obj [b "PING"]) ex_c3).2 = ex_c4) as <- by (vm_compute; reflexivity).
      apply cs_message. apply elem_of_cons. left. reflexivity. }
    apply rtc_once. assert (disconnect_begin 1 ex_c4 = ex_c5) as <- by (vm_compute; reflexivity).
    apply cs_disconnect_begin. apply elem_of_cons. right. apply elem_of_cons. left. reflexivity.
  - split; [exact H1|]. exists (accept ex_c5).2. assert (accept ex_c5 = (inr 3, (accept ex_c5).2)) as E by (vm_compute; reflexivity).
    destruct (H2 3 (accept ex_c5).2 E) as (Ha & _ & _ & Hf & _). split; [exact E|]. split; [exact Ha|exact Hf].
Defined.

Definition ex_guesses : list pyobj :=
  map command_obj [[b "AUTH"; b "a"]; [b "auth"; b "b"]; [b "AUTH"]; [b "GET"; b "k"]; [b "AUTH"; b "c"; b "d"]; [b "AUTH"; b "e"]].
Definition ex_guessed : RedisServer := Eval vm_compute in (handle_messages (fun _ => ex_world) 1 ex_guesses ex_server).2.

Lemma auth_lockout_witness :
  exists o, handle_messages (fun _ => ex_world) 1 ex_guesses ex_server = (o, Continue, ex_guessed) /\ guesses (u "secret") ex_guesses < 5.
Proof.
  exists (handle_messages (fun _ => ex_world) 1 ex_guesses ex_server).1.1.
  assert (handle_messages (fun _ => ex_world) 1 ex_guesses ex_server =
    ((handle_messages (fun _ => ex_world) 1 ex_guesses ex_server).1.1, Continue, ex_guessed)) as E by (vm_compute; reflexivity).
  split; [exact E|]. apply (auth_lockout (fun _ => ex_world) 1 ex_guesses ex_server (u "secret") (handle_messages (fun _ => ex_world) 1 ex_guesses ex_server).1.1 ex_guessed).
  - reflexivity.
  - apply Z.ltb_lt. reflexivity.
  - reflexivity.
  - unfold ex_guesses. cbn [map]. repeat apply Forall_cons_2; try apply Forall_nil_2; reflexivity.
  - exact E.
Defined.

(** Reads that each complete a PING and begin the next, ten seconds apart. *)
Definition ex_ping : bytes := wire [[b "PING"]].
Definition ex_busy : bytes := drop 10 ex_ping ++ take 10 ex_ping.
Definition ex_busy_loop : ClientLoop := mkLoop (with_buf (client_parser default_config) (take 10 ex_ping)) (Some (FFinite 0 0)).

Lemma partial_timer_not_reset_witness :
  exists o lp' s', client_loop (fun _ => ex_world) 1 (map (fun t => ex_event t ex_busy) [10; 20; 29]) ex_busy_loop ex_conn = (o, Continue, lp', s') /\
    client_loop (fun _ => ex_world) 1 (map (fun t => ex_event t ex_busy) [10; 20; 29] ++ [ex_event 30 ex_busy]) ex_busy_loop ex_conn =
    (o ++ [protocol_reply (u "incomplete RESP frame timed out after 30s")], CloseConnection, lp', s').
Proof.
  set (r := client_loop (fun _ => ex_world) 1 (map (fun t => ex_event t ex_busy) [10; 20; 29]) ex_busy_loop ex_conn).
  assert (r = (r.1.1.1, Continue, r.1.2, r.2)) as E by (vm_compute; reflexivity). exists r.1.1.1, r.1.2, r.2. split; [exact E|].
  apply (partial_timer_not_reset (fun _ => ex_world) 1 _ [ex_busy; ex_busy; ex_busy] (ex_event 30 ex_busy) ex_busy_loop ex_conn (FFinite 0 0) 30 0).
  - reflexivity.
  - repeat (apply Forall2_cons_2; [split; [discriminate|reflexivity]|]). apply Forall2_nil_2.
  - vm_compute. repeat split; discriminate.
  - exact E.
  - reflexivity.
  - vm_compute. discriminate.
  - vm_compute. reflexivity.
Defined.
