(* ===== verification/Snapshots.v ===== *)
(** * Background saves ([server.py])

    The periodic save, what a background save writes while the server goes on,
    and what a restart from the snapshot file restores. *)
From stdpp Require Import relations.
From S2P Require Import Prelude PyText PyFloat Encoder Parser Dict Store StoreSpec Crc32 Rdb AofFile AofLog Config Master Commands Server Client.
Local Open Scope Z_scope.

(** [bgsave]: starts a save unless one is under way; what it then waits for is
    the worker. *)
Definition bgsave (s : RedisServer) : RedisServer := (schedule_bgsave s).2.

(** One round of [_periodic_save_loop]. *)
Definition periodic_save_tick (s : RedisServer) : RedisServer := bgsave s.

(** ** While a save is under way *)

(** A message that is not SAVE. *)
Definition not_save (msg : pyobj) : Prop :=
  match normalize_argv msg with Ok a => upper_name a <> b "SAVE" | Err _ => True end.

(** Everything else that can happen to the server while a background save is
    under way; with [saves], also SAVE. *)
Inductive meanwhile (saves : bool) (s : RedisServer) : RedisServer -> Prop :=
| mw_accept : meanwhile saves s (accept s).2
| mw_message w conn msg : (saves = false -> not_save msg) -> meanwhile saves s (handle_message w conn msg s).2
| mw_disconnect_begin conn : meanwhile saves s (disconnect_begin conn s)
| mw_disconnect_end conn : meanwhile saves s (disconnect_end conn s)
| mw_replicated w a : (saves = false -> upper_name a <> b "SAVE") -> meanwhile saves s (apply_replicated_command w a s).2
| mw_links m : meanwhile saves s (set_master s m)
| mw_periodic : meanwhile saves s (periodic_save_tick s)
| mw_rewrite io now cur : meanwhile saves s (aof_rewrite_worker io now cur s)
| mw_expire rnd now : meanwhile saves s (active_expire_tick rnd now s).

(** While the thread writes the file: one of its writes, or anything else but
    SAVE, which uses the same temporary file. *)
Inductive writing_step (s : RedisServer) : RedisServer -> Prop :=
| wr_write n : writing_step s (bgsave_thread (WriteTmp n) None s)
| wr_other s' : meanwhile false s s' -> writing_step s s'.

(** A save that has its snapshot stays as it is, and so does one that writes
    its file when there is no SAVE. *)
Definition keeps_save (saves : bool) (s s' : RedisServer) : Prop :=
  match bgsave_task s with
  | BgsaveSnapshot _ => bgsave_task s' = bgsave_task s
  | BgsaveWriting _ => saves = false -> bgsave_task s' = bgsave_task s
  | _ => True
  end.

#[export] Instance keeps_save_preorder saves : PreOrder (keeps_save saves).
Proof.
  split; [intros s; unfold keeps_save; by destruct (bgsave_task s)|]. intros x y z H1 H2. unfold keeps_save in *.
  destruct (bgsave_task x); try done.
  - rewrite H1 in H2. congruence.
  - intros Hs. rewrite (H1 Hs) in H2. by apply H2.
Qed.

Lemma same_task_keeps saves s s' : bgsave_task s' = bgsave_task s -> keeps_save saves s s'.
Proof. intros H. unfold keeps_save. by destruct (bgsave_task s). Qed.

Lemma log_command_task w i a s : bgsave_task (log_command w i a s).2 = bgsave_task s.
Proof. unfold log_command. by destruct (append_log _ _ _) as [[|[]] l]. Qed.

Lemma record_writes_task w i cmds s : bgsave_task (record_writes w i cmds s).2 = bgsave_task s.
Proof.
  revert i s. induction cmds as [|a cmds IH]; intros i s; simpl; [done|]. pose proof (log_command_task w i a s) as H.
  destruct (log_command w i a s) as [[[r|]|e] s']; try done. simpl in H. by rewrite IH.
Qed.

Lemma dispatch_save saves w c s : (saves = false -> upper_name (argv c) <> b "SAVE") -> keeps_save saves s (dispatch w c s).2.
Proof.
  apply (dispatch_cases (fun n s s' => (saves = false -> n <> b "SAVE") -> keeps_save saves s s') w c s); [done|].
  repeat apply Forall_cons_2; try apply Forall_nil_2; simpl; intros Hn; unfold keeps_save.
  all: unfold keeps_save; destruct (bgsave_task s) eqn:Hes; try done.
  all: try (assert (saves = true) as -> by (destruct saves; [done|by destruct Hn]); done).
  all: rewrite <- Hes; try (intros _); run_handler.
  all: unfold bgsave_in_progress in *; by rewrite Hes in *.
Qed.

Lemma execute_save saves w c s : (saves = false -> upper_name (argv c) <> b "SAVE") -> keeps_save saves s (execute w c s).2.
Proof.
  intros Hn. apply execute_keeps; try apply _; try (by intros; apply same_task_keeps); intros.
  - apply same_task_keeps, record_writes_task.
  - apply same_task_keeps, log_command_task.
  - by apply dispatch_save.
Qed.

Lemma handle_message_save saves w conn msg s : (saves = false -> not_save msg) -> keeps_save saves s (handle_message w conn msg s).2.
Proof.
  intros Hn. unfold handle_message, not_save in *. set (s0 := set_counts _ _ _).
  assert (keeps_save saves s s0) as H0 by (by apply same_task_keeps).
  destruct (normalize_argv msg) as [[|name args]|[]]; try done. case_if.
  - etrans; [exact H0|]. unfold start_full_resync. destruct (snapshot _ _). by apply same_task_keeps.
  - pose proof (execute_save saves w (client_ctx conn (name :: args)) s0 Hn) as Hx.
    destruct (execute w (client_ctx conn (name :: args)) s0) as [[reply|e] s1]; [|by etrans]. case_if; by etrans.
Qed.

Lemma meanwhile_save saves s s' : meanwhile saves s s' -> keeps_save saves s s'.
Proof.
  intros H. destruct H as [|w conn msg Hn|conn|conn|w a Hn|m| |io now cur|rnd now]; try (by apply same_task_keeps).
  - unfold accept. case_if; by apply same_task_keeps.
  - by apply handle_message_save.
  - unfold apply_replicated_command. pose proof (execute_save saves w (replicated_ctx a) s Hn) as Hx.
    by destruct (execute w (replicated_ctx a) s).
  - unfold keeps_save, periodic_save_tick, bgsave, schedule_bgsave, bgsave_in_progress. by destruct (bgsave_task s) eqn:E; simpl.
  - unfold aof_rewrite_worker. case_match; [|done]. destruct (snapshot _ _), (rewrite _ _ _ _). by apply same_task_keeps.
Qed.

(** The snapshot of a save lasts until its thread starts. *)
Lemma snapshot_kept now s s1 :
  bgsave_task s = BgsaveScheduled -> rtc (meanwhile true) (bgsave_take_snapshot now s) s1 ->
  bgsave_task s1 = BgsaveSnapshot (snapshot now (store s)).1.
Proof.
  intros Hs Hrun. assert (bgsave_task (bgsave_take_snapshot now s) = BgsaveSnapshot (snapshot now (store s)).1) as H0
    by (unfold bgsave_take_snapshot; rewrite Hs; by destruct (snapshot now (store s))).
  clear Hs. induction Hrun as [|x y z Hxy _ IH]; [done|]. apply IH. apply meanwhile_save in Hxy. unfold keeps_save in Hxy.
  rewrite H0 in Hxy. congruence.
Qed.

(** The thread has written some of [data] to the temporary file, and has the
    rest to write. *)
Definition writes_file (data : bytes) (s : RedisServer) : Prop :=
  exists done rest, bgsave_task s = BgsaveWriting (mkWriting rest (length done) (Some done) OnTmp) /\ done ++ rest = data.

Lemma write_at_end file data : write_at (length file) data file = file ++ data.
Proof.
  unfold write_at. rewrite take_ge, Nat.sub_diag, drop_ge by lia. by rewrite app_nil_r.
Qed.

Lemma write_tmp_file data n s : writes_file data s -> writes_file data (bgsave_thread (WriteTmp n) None s).
Proof.
  intros (c & rest & Ht & <-). unfold bgsave_thread. rewrite Ht. cbn [wr_on wr_pos wr_rest wr_tmp fmap option_fmap option_map].
  rewrite write_at_end. exists (c ++ take n rest), (drop n rest). rewrite length_app, <- app_assoc, take_drop. by split.
Qed.

Lemma writing_step_file data s s' : writing_step s s' -> writes_file data s -> writes_file data s'.
Proof.
  intros [n|s2 H%meanwhile_save] Hw; [by apply write_tmp_file|]. destruct Hw as (c & rest & Ht & <-).
  exists c, rest. unfold keeps_save in H. rewrite Ht in H. split; [by apply H|done].
Qed.

(** Writing what is left and renaming the temporary file. *)
Definition bgsave_finish (n : nat) (time : Z) (s : RedisServer) : RedisServer :=
  bgsave_thread (InstallTmp time) None (bgsave_thread (WriteTmp n) None s).

Lemma bgsave_finish_file data n time s :
  writes_file data s -> (length data <= n)%nat ->
  exists t, bgsave_finish n time s = set_saved s (Some data) t BgsaveNone.
Proof.
  intros (c & rest & Ht & <-) Hn. rewrite length_app in Hn. exists time. unfold bgsave_finish, bgsave_thread. rewrite Ht.
  cbn [wr_on wr_pos wr_rest wr_tmp fmap option_fmap option_map bgsave_task set_saved]. rewrite drop_ge, take_ge, write_at_end by lia. done.
Qed.

(** ** Restarting from the snapshot file *)

Lemma dump_nonempty es : dump_rdb_entries es <> Ok [].
Proof. intros H. apply dump_shape in H as (ver & count & recs & crc & _ & _ & _ & _ & H). done. Qed.

Lemma restart_on_snapshot cfg rid contents ws now now' st data :
  aof_enabled cfg = false -> store_ok st -> 0 <= now <= now' -> dump_rdb_entries (snapshot now st).1 = Ok data ->
  zlen data <= persistence_max_load_bytes cfg ->
  exists s2, start ws now' None (new_server cfg rid contents (Some data)) = (Ok tt, s2) /\
    store_ok (store s2) /\ dict_map (entries (store s2)) = live now' st /\
    maxmemory_bytes (store s2) = cfg_maxmemory_bytes cfg /\ config s2 = cfg /\ enabled (aof s2) = false /\ failure (aof s2) = None /\
    client_count s2 = 0.
Proof.
  intros He Hok Hnow Hd Hz.
  destruct (snapshot_restores now now' (persistence_max_load_bytes cfg) st (new_store (cfg_maxmemory_bytes cfg) (cfg_maxmemory_policy cfg))
    data Hok Hnow Hd Hz) as (st2 & Hl & Hok2 & _ & Hm).
  pose proof (f_equal (fun x => maxmemory_bytes x.2) Hl) as Hmem. unfold load_rdb_into in Hmem.
  unfold start, load_persistence. cbn [new_server config aof new_log file rdb_file store]. rewrite He. cbn [andb].
  destruct data as [|x l]; [by apply dump_nonempty in Hd|]. rewrite Hl. cbn [rmap set_store aof].
  unfold open_. cbn [new_server aof new_log enabled]. rewrite He. cbn [negb]. eexists. split; [reflexivity|].
  cbn [set_store set_aof store aof config start_background_fsync new_log enabled failure fh]. unfold start_background_fsync. cbn [enabled new_log].
  split_and!; try done. destruct (load_rdb _ _ _) as [es|e]; cbn [snd] in Hmem; by rewrite <- Hmem.
Qed.

(** ** Properties *)

(** C13 A background save is a snapshot of one moment.  Whatever happens after
    the worker took its snapshot (commands of any clients, connections,
    replication, rewrites, expiry, further requests to save; SAVE too until the
    thread opens the temporary file, but not while it writes it), and however the
    system splits the thread's writes: when they succeed, the file holds exactly the
    keyspace of that moment, and a server without a log that starts on it holds
    exactly the entries of that moment that are still alive. *)
Theorem bgsave_point_in_time cfg rid contents ws now now' n time s s1 s2 data :
  bgsave_task s = BgsaveScheduled -> rtc (meanwhile true) (bgsave_take_snapshot now s) s1 ->
  rtc writing_step (bgsave_thread OpenTmp None s1) s2 ->
  store_ok (store s) -> 0 <= now <= now' -> dump_rdb_entries (snapshot now (store s)).1 = Ok data ->
  aof_enabled cfg = false -> zlen data <= persistence_max_load_bytes cfg -> (length data <= n)%nat ->
  let s3 := bgsave_finish n time s2 in
  rdb_file s3 = Some data /\ bgsave_task s3 = BgsaveNone /\ store s3 = store s2 /\
  exists s4, start ws now' None (new_server cfg rid contents (rdb_file s3)) = (Ok tt, s4) /\
    dict_map (entries (store s4)) = live now' (store s).
Proof.
  intros Hs Hrun1 Hrun2 Hok Hnow Hd He Hz Hn.
  assert (writes_file data (bgsave_thread OpenTmp None s1)) as Hw.
  { exists [], data. split; [|done]. unfold bgsave_thread. by rewrite (snapshot_kept now s s1 Hs Hrun1), Hd. }
  assert (writes_file data s2) as Hw2.
  { clear -Hw Hrun2. induction Hrun2 as [|x y z Hxy _ IH]; [done|]. apply IH. by apply (writing_step_file data x y). }
  destruct (bgsave_finish_file data n time s2 Hw2 Hn) as [t Et]. cbv zeta. rewrite Et. cbn [set_saved rdb_file bgsave_task store].
  split_and!; [done..|]. destruct (restart_on_snapshot cfg rid contents ws now now' (store s) data) as (s4 & H1 & _ & H2 & _); try done.
  by exists s4.
Qed.

(** A server without a log: a key, BGSAVE, SAVE before the thread opens the
    temporary file, another key while it writes. *)
Definition ex_no_log : Config :=
  mkConfig (u "127.0.0.1") 6379 (u "data") (u "dump.rdb") false (u "appendonly.aof") everysec master None None
    (u "info") 0 16777216 1024 16 32000000 (float_of_Z 30) (float_of_Z 300) 1000 5 10000 (float_of_Z 5)
    (64 * 1024 * 1024) 10000 (1024 * 1024 * 1024) 0 noeviction None None false.
Definition ex_send (a : list bytes) (s : RedisServer) : RedisServer := (handle_message ex_world 1 (command_obj a) s).2.
Definition ex_b0 : RedisServer := Eval vm_compute in (accept (start (fun _ => ex_world) 0 None (new_server ex_no_log (u "abc") [] None)).2).2.
Definition ex_b1 : RedisServer := Eval vm_compute in ex_send [b "BGSAVE"] (ex_send [b "SET"; b "a"; b "1"] ex_b0).
Definition ex_b2 : RedisServer := Eval vm_compute in bgsave_take_snapshot 0 ex_b1.
Definition ex_b3 : RedisServer := Eval vm_compute in ex_send [b "SET"; b "b"; b "2"] ex_b2.
Definition ex_b4 : RedisServer := Eval vm_compute in ex_send [b "SAVE"] ex_b3.
Definition ex_b5 : RedisServer := Eval vm_compute in bgsave_thread OpenTmp None ex_b4.
Definition ex_b6 : RedisServer := Eval vm_compute in bgsave_thread (WriteTmp 10) None ex_b5.
Definition ex_b7 : RedisServer := Eval vm_compute in ex_send [b "SET"; b "c"; b "3"] ex_b6.
Definition ex_b_data : bytes := Eval vm_compute in match dump_rdb_entries (snapshot 0 (store ex_b1)).1 with Ok d => d | Err _ => [] end.

Lemma ex_b1_ok : store_ok (store ex_b1).
Proof.
  assert (store ex_b1 = set_string 0 (new_store 0 noeviction) (b "a") (b "1") None) as -> by (vm_compute; reflexivity).
  exact (run_op_ok (fun _ _ => []) (fun _ => 0) (new_store 0 noeviction) (SetString (b "a") (b "1") None) (new_store_ok 0 noeviction)).
Qed.

Lemma ex_b3_run : rtc (meanwhile true) (bgsave_take_snapshot 0 ex_b1) ex_b3.
Proof.
  assert (bgsave_take_snapshot 0 ex_b1 = ex_b2) as -> by (vm_compute; reflexivity).
  apply rtc_once. assert (ex_send [b "SET"; b "b"; b "2"] ex_b2 = ex_b3) as <- by (vm_compute; reflexivity). by apply mw_message.
Qed.

Lemma bgsave_point_in_time_witness :
  exists s4, start (fun _ => ex_world) 5 None (new_server ex_no_log (u "xyz") [] (rdb_file (bgsave_finish 100 7 ex_b7))) = (Ok tt, s4) /\
    dict_map (entries (store s4)) = live 5 (store ex_b1).
Proof.
  destruct (bgsave_point_in_time ex_no_log (u "xyz") [] (fun _ => ex_world) 0 5 100 7 ex_b1 ex_b4 ex_b7 ex_b_data) as (_ & _ & _ & H).
  - reflexivity.
  - apply (rtc_r _ ex_b3); [exact ex_b3_run|].
    assert (ex_send [b "SAVE"] ex_b3 = ex_b4) as <- by (vm_compute; reflexivity). apply mw_message. discriminate.
  - assert (bgsave_thread OpenTmp None ex_b4 = ex_b5) as -> by (vm_compute; reflexivity).
    apply (rtc_l _ _ ex_b6); [assert (bgsave_thread (WriteTmp 10) None ex_b5 = ex_b6) as <- by (vm_compute; reflexivity); apply wr_write|].
    apply rtc_once, wr_other. assert (ex_send [b "SET"; b "c"; b "3"] ex_b6 = ex_b7) as <- by (vm_compute; reflexivity).
    apply mw_message. intros _. vm_compute. discriminate.
  - exact ex_b1_ok.
  - lia.
  - vm_compute. reflexivity.
  - reflexivity.
  - apply Z.leb_le. vm_compute. reflexivity.
  - apply Nat.leb_le. vm_compute. reflexivity.
  - exact H.
Defined.

(** A SAVE on a server without a password. *)
Lemma handle_save w conn name s data :
  requirepass (config s) = None -> bytes_upper name = b "SAVE" -> w_rdb w = None ->
  dump_rdb_entries (snapshot (w_clock w 0%nat) (store s)).1 = Ok data ->
  exists s', handle_message w conn (command_obj [name]) s = ([b "+OK" ++ CRLF], Continue, s') /\
    rdb_file s' = Some data /\ last_save_time s' = w_time w /\
    bgsave_task s' = match bgsave_task s with BgsaveWriting wr => BgsaveWriting (after_save true None wr) | t => t end /\
    store s' = (snapshot (w_clock w 0%nat) (store s)).2 /\ aof s' = aof s /\ config s' = config s.
Proof.
  intros Hp Hn Hw Hd. unfold handle_message. simpl normalize_argv. cbv iota zeta. simpl upper_name. rewrite Hn.
  change (beqb (b "SAVE") (b "PSYNC")) with false. change (beqb (b "SAVE") (b "AUTH")) with false. cbn [andb].
  unfold execute. simpl upper_name. cbn [client_ctx argv upper_name config set_counts]. rewrite Hn, Hp. change (is_write (b "SAVE")) with false. cbn [andb negb].
  rewrite bool_decide_false by (intros H; by apply H). cbn [andb]. unfold dispatch. simpl argv. cbv iota. unfold get_handler. rewrite Hn.
  assert (dict_get default_registry (b "SAVE") = Some cmd_save) as -> by reflexivity.
  change (is_write (b "SAVE")) with false. rewrite andb_false_r. unfold cmd_save, save_rdb_sync, dump_rdb, dump_rdb_bytes. simpl argv. cbv iota.
  cbn [store set_store set_counts]. destruct (snapshot (w_clock w 0%nat) (store s)) as [es st]. cbn [fst] in Hd. rewrite Hw, Hd. cbn [andb].
  unfold finish_command. cbn [client_ctx argv upper_name]. rewrite Hn. change (is_write (b "SAVE")) with false. cbn [andb].
  eexists. split; [reflexivity|]. done.
Qed.

(** C33 SAVE during a background save can leave a snapshot file that no server
    loads.  Both write through the same temporary file.  When a client's SAVE comes
    after the thread of a background save has opened it, and the keyspace has
    grown so that SAVE writes more bytes, then SAVE answers OK and renames
    the file; the thread then writes its older snapshot over the beginning of
    the file that SAVE installed, its own renaming fails, and every server
    without a log that starts on that file stops with an error of the loader. *)
Theorem save_during_bgsave_corrupts now s s1 w conn name data data2 n time :
  bgsave_task s = BgsaveScheduled -> store_ok (store s) -> 0 <= now -> rtc (meanwhile true) (bgsave_take_snapshot now s) s1 ->
  requirepass (config s1) = None -> bytes_upper name = b "SAVE" -> w_rdb w = None ->
  dump_rdb_entries (snapshot now (store s)).1 = Ok data ->
  dump_rdb_entries (snapshot (w_clock w 0%nat) (store s1)).1 = Ok data2 ->
  (length data < length data2)%nat -> (length data <= n)%nat ->
  exists s2, handle_message w conn (command_obj [name]) (bgsave_thread OpenTmp None s1) = ([b "+OK" ++ CRLF], Continue, s2) /\
    rdb_file s2 = Some data2 /\
    let s3 := bgsave_finish n time s2 in
    bgsave_task s3 = BgsaveNone /\ last_save_time s3 = w_time w /\
    forall cfg rid contents ws now', aof_enabled cfg = false ->
      exists m s4, start ws now' None (new_server cfg rid contents (rdb_file s3)) = (Err (RdbError m), s4).
Proof.
  intros Hs Hok Hnow Hrun Hp Hname Hw Hd Hd2 Hlen Hn. pose proof (snapshot_kept now s s1 Hs Hrun) as Ht.
  assert (bgsave_thread OpenTmp None s1 = set_saved s1 (rdb_file s1) (last_save_time s1) (BgsaveWriting (mkWriting data 0 (Some []) OnTmp))) as Eo
    by (unfold bgsave_thread; by rewrite Ht, Hd).
  rewrite Eo. destruct (handle_save w conn name (set_saved s1 (rdb_file s1) (last_save_time s1) (BgsaveWriting (mkWriting data 0 (Some []) OnTmp)))
    data2 Hp Hname Hw Hd2) as (s2 & Eh & Ef & El & Et & _). exists s2. split; [done|]. split; [done|].
  cbn [bgsave_task set_saved] in Et.
  assert (bgsave_finish n time s2 = set_saved s2 (Some (data ++ drop (length data) data2)) (w_time w) BgsaveNone) as ->.
  { unfold bgsave_finish, bgsave_thread. rewrite Et. cbn [after_save wr_on wr_pos wr_rest wr_tmp bgsave_task set_saved].
    rewrite drop_ge, take_ge, Ef, El by lia. cbn [fmap option_fmap option_map]. unfold write_at. by rewrite take_0, Nat.sub_0_l, Nat.add_0_l. }
  cbn [set_saved bgsave_task last_save_time rdb_file]. split_and!; [done..|]. intros cfg rid contents ws now' He.
  destruct (load_dump_trailing now' (persistence_max_load_bytes cfg) _ data (drop (length data) data2) (snapshot_dumpable now _ Hok Hnow) Hd) as [m Hm].
  { intros H%(f_equal length). rewrite length_drop in H. simpl in H. lia. }
  exists m. unfold start, load_persistence. cbn [new_server config aof new_log file rdb_file store]. rewrite He. cbn [andb].
  destruct data as [|x data]; [by apply dump_nonempty in Hd|]. rewrite <- app_comm_cons in *. unfold load_rdb_into. rewrite Hm. by eexists.
Qed.

Lemma save_during_bgsave_corrupts_witness :
  exists s2, handle_message ex_world 1 (command_obj [b "save"]) (bgsave_thread OpenTmp None ex_b3) = ([b "+OK" ++ CRLF], Continue, s2) /\
    exists m s4, start (fun _ => ex_world) 5 None (new_server ex_no_log (u "xyz") [] (rdb_file (bgsave_finish 100 7 s2))) = (Err (RdbError m), s4).
Proof.
  destruct (save_during_bgsave_corrupts 0 ex_b1 ex_b3 ex_world 1 (b "save") ex_b_data
    (match dump_rdb_entries (snapshot 0 (store ex_b3)).1 with Ok d => d | Err _ => [] end) 100 7) as (s2 & H1 & _ & _ & _ & H2).
  - reflexivity.
  - exact ex_b1_ok.
  - lia.
  - exact ex_b3_run.
  - reflexivity.
  - reflexivity.
  - reflexivity.
  - vm_compute. reflexivity.
  - vm_compute. reflexivity.
  - apply Nat.ltb_lt. vm_compute. reflexivity.
  - apply Nat.leb_le. vm_compute. reflexivity.
  - exists s2. split; [exact H1|]. apply H2. reflexivity.
Defined.
