(* ===== verification/Recovery.v ===== *)
(** * Recovery: the log and a snapshot restore the keyspace

    Commands as operations of the store, the effect of [execute] on the
    keyspace, the log and the replicas, and the theorem that replaying the log
    at start-up rebuilds the keyspace that the commands had built. *)
From S2P Require Import Prelude PyText PyFloat Encoder Parser Dict Store StoreSpec Eviction Crc32 Rdb AofFile AofLog Config Master Commands Server.
Local Open Scope Z_scope.

(** ** The log behind the server *)

(** The log is open and healthy, and its writer waits for work. *)
Record log_ready (l : AOFLog) : Prop := {
  lr_enabled : enabled l = true;
  lr_open : fh l = true;
  lr_healthy : failure l = None;
  lr_queue : queue l = Some [];
  lr_putters : woken l = [] /\ putters l = [];
  lr_idle : writer_task l = WriterIdle;
  lr_clean : dirty l = false -> synced l = length (file l)
}.

(** The system calls of the appends succeed and write everything. *)
Definition disk_works (w : World) : Prop := forall i, w_append w i = (WroteAll, None).

Lemma full_nil l : full l [] = false.
Proof.
  unfold full. apply andb_false_iff. destruct (Z.ltb_spec 0 (queue_max_commands l)); [right|by left].
  apply Z.leb_gt. unfold zlen. simpl. lia.
Qed.

Lemma append_log_ready a l :
  log_ready l ->
  exists l', append_log (WroteAll, None) a l = (Ok tt, l') /\ log_ready l' /\ file l' = file l ++ encode_command a.
Proof.
  intros [He Ho Hh Hq [Hk Hp] Hi _]. destruct l as [pol en qm h f sy d q wk ps wt ft cl fl cs]; simpl in *. subst.
  unfold append_log, append. simpl. unfold AofLog.put. rewrite full_nil. unfold writer_take, wake. simpl.
  unfold writer_write, write_sync. simpl.
  destruct pol; simpl; unfold writer_fsync; simpl; unfold writer_complete; simpl;
    rewrite resolve_lookup, lookup_app_r, Nat.sub_diag by lia; simpl; rewrite bool_decide_true by done;
    eexists; split; try reflexivity; by split.
Qed.

(** [propagate] of each command in turn. *)
Definition propagate_all (w : World) (cmds : list (list bytes)) (m : MasterReplication) : MasterReplication :=
  foldl (fun m a => propagate (w_replica_fails w) a m) m cmds.

(** Everything that is logged is propagated, in the same order. *)
Lemma record_writes_ready w i cmds s :
  log_ready (aof s) -> disk_works w ->
  exists l, record_writes w i cmds s = (Ok None, set_master (set_aof s l) (propagate_all w cmds (master_ s))) /\
    log_ready l /\ file l = file (aof s) ++ wire cmds.
Proof.
  revert i s. induction cmds as [|a cmds IH]; intros i s Hl Hio; simpl.
  - exists (aof s). split; [by destruct s|]. split; [done|]. by rewrite app_nil_r.
  - destruct (append_log_ready a (aof s) Hl) as (l1 & Ha & Hl1 & Hf1). unfold log_command. rewrite Hio, Ha.
    destruct (IH (S i) (set_master (set_aof s l1) (propagate (w_replica_fails w) a (master_ s)))) as (l & Hr & Hl2 & Hf2); [done|done|].
    simpl in *. rewrite Hr. exists l. split; [done|]. split; [done|]. by rewrite Hf2, Hf1, <- app_assoc.
Qed.

(** ** Write commands as operations of the store *)

Definition write_op (a : list bytes) : result StoreOp :=
  match a with
  | [] => Err (RespError (u "ERR empty command"))
  | name :: args =>
      let n := bytes_upper name in
      if beqb n (b "SET") then
        match args with
        | key :: v :: opts => let* ex := set_options opts None in Ok (SetString key v ex)
        | _ => Err (wrong_arity (u "set"))
        end
      else if beqb n (b "EXPIRE") then
        match args with
        | [key; x] => match int_of_bytes x with Some seconds => Ok (Expire key seconds) | None => Err not_an_integer end
        | _ => Err (wrong_arity (u "expire"))
        end
      else if beqb n (b "LPUSH") then
        match args with key :: e :: es => Ok (Lpush key (e :: es)) | _ => Err (wrong_arity (u "lpush")) end
      else if beqb n (b "RPOP") then
        match args with [key] => Ok (Rpop key) | _ => Err (wrong_arity (u "rpop")) end
      else if beqb n (b "HSET") then
        if (zlen a <? 4) || negb (zlen a mod 2 =? 0) then Err (wrong_arity (u "hset"))
        else match args with key :: pairs => Ok (Hset key (pair_up pairs)) | [] => Err (wrong_arity (u "hset")) end
      else match args with k :: ks => Ok (Delete (k :: ks)) | [] => Err (wrong_arity (u "del")) end
  end.

(** The reply object of an operation. *)
Definition reply_obj (r : reply) : result pyobj :=
  match r with
  | RUnit => Ok (PSimple (u "OK"))
  | RInt n => Ok (PInt n)
  | RBulk v => Ok (opt_bytes v)
  | RRaise WrongTypeError => Err wrongtype
  | RRaise e => Err e
  | _ => Err OutOfFuel
  end.

(** A write command that may run does the operation it stands for. *)
Lemma dispatch_write rnd w c s :
  is_write (upper_name (argv c)) = true ->
  is_replica (config s) = false \/ is_replica_client c = true \/ is_loading c = true ->
  dispatch w c s =
  match write_op (argv c) with
  | Err e => (Err e, s)
  | Ok op => let '(r, st) := run_op rnd (w_clock w) (store s) op in (reply_obj r, set_store s st)
  end.
Proof.
  intros Hw Hr. destruct c as [[|name args] rc ld cid]; [done|]. simpl in *. unfold dispatch. simpl.
  assert (is_replica (config s) && is_write (bytes_upper name) && negb rc && negb ld = false) as Hro.
  { destruct Hr as [->|[->| ->]]; [done| |]; by rewrite ?andb_false_r. }
  unfold is_write, WRITE_COMMANDS in Hw. simpl in Hw. unfold get_handler.
  repeat (apply orb_true_iff in Hw as [Hw|Hw]; [apply beqb_eq in Hw; rewrite Hw in *; clear Hw|]); [..|done].
  all: match goal with |- match dict_get default_registry ?n with _ => _ end = _ =>
         let h := eval hnf in (dict_get default_registry n) in change (dict_get default_registry n) with h end.
  all: cbv iota; rewrite Hro.
  all: repeat match goal with |- context [beqb (b ?x) (b ?y)] =>
         let v := eval vm_compute in (beqb (b x) (b y)) in change (beqb (b x) (b y)) with v end; cbv iota.
  - unfold cmd_set, raise. simpl. destruct args as [|key [|v opts]]; try done. by destruct (set_options opts None).
  - unfold cmd_expire, raise. simpl. destruct args as [|key [|x [|]]]; try done. destruct (int_of_bytes x) as [n|]; [|done].
    unfold run_op. by destruct (expire _ _ _ _ _).
  - unfold cmd_lpush, raise, store_reply. simpl. destruct args as [|key [|e es]]; try done.
    unfold run_op. destruct (lpush _ _ _ _) as [[n|[]] st]; done.
  - unfold cmd_rpop, raise, store_reply. simpl. destruct args as [|key [|]]; try done.
    unfold run_op. destruct (rpop _ _ _) as [[n|[]] st]; done.
  - unfold cmd_hset, raise, store_reply. cbn [argv]. case_match; [done|]. destruct args as [|key pairs]; [done|].
    unfold run_op. destruct (hset _ _ _ _) as [[n|[]] st]; done.
  - unfold cmd_del, raise. cbn [argv]. destruct args as [|k ks]; [done|]. unfold run_op. by destruct (delete_ _ _ _).
Qed.

(** ** Keyspaces without deadlines *)

Definition keyspace (st : Store) : gmap bytes KeyEntry := dict_map (entries st).

Definition timeless (m : gmap bytes KeyEntry) : Prop := map_Forall (fun _ e => expire_at_ms e = None) m.

(** Operations that set no deadline. *)
Definition timeless_op (op : StoreOp) : Prop :=
  match op with
  | SetString _ _ None | Lpush _ _ | Rpop _ | Hset _ _ | Delete _ => True
  | Expire _ s => s <= 0
  | _ => False
  end.

Definition timeless_cmd (a : list bytes) : Prop :=
  match write_op a with Ok op => timeless_op op | Err _ => True end.

Lemma timeless_prune t m : timeless m -> prune t m = m.
Proof. intros H. unfold prune. apply map_filter_id. intros k e Hk. simpl. by rewrite (H _ _ Hk). Qed.

(** A deadline on top of a keyspace without deadlines. *)
Lemma prune_deadline t k e d m : timeless m -> expire_at_ms e = Some d -> prune t (<[k := e]> m) = if d <=? t then delete k m else <[k := e]> m.
Proof.
  intros Hm He. destruct (Z.leb_spec d t).
  - unfold prune. rewrite map_filter_insert_False by (cbn; rewrite He; cbn; lia). apply (timeless_prune t (delete k m)). by apply map_Forall_delete.
  - unfold prune. rewrite map_filter_insert_True by (cbn; rewrite He; cbn; lia). f_equal. by apply timeless_prune.
Qed.

Lemma live_timeless now st : timeless (keyspace st) -> live now st = keyspace st.
Proof.
  intros H. unfold live. apply map_filter_id. intros k e Hk. simpl. by rewrite (H _ _ Hk).
Qed.

Lemma snapshot_timeless now st : store_ok st -> timeless (keyspace st) -> snapshot now st = (entries st, st).
Proof.
  intros Hok Ht. unfold snapshot, iter_entries. rewrite copy_items_id.
  assert (Forall (fun ke => expire_at_ms ke.2 = None) (entries st)) as HF.
  { apply Forall_forall. intros [k e] Hin. apply (dict_elem_get _ _ _ (ok_entries _ Hok)) in Hin.
    rewrite dict_get_map in Hin. apply (Ht _ _ Hin). }
  f_equal.
  - apply filter_all. eapply Forall_impl; [exact HF|]. intros ke ->. done.
  - unfold expired_keys. rewrite filter_none; [done|]. eapply Forall_impl; [exact HF|]. intros ke ->. done.
Qed.

Lemma spec_timeless clk m op :
  timeless m -> timeless_op op ->
  spec_op clk m op = spec_op (fun _ => 0) m op /\ timeless (spec_op (fun _ => 0) m op).2.
Proof.
  intros Ht Hop.
  assert (forall keys clk', timeless m -> spec_delete clk m keys = spec_delete clk' m keys /\ timeless (spec_delete clk' m keys).2) as Hdel.
  { clear. intros keys. revert clk m. induction keys as [|k keys IH]; intros clk m clk' Ht; simpl; [done|].
    destruct (IH (fun i => clk (S i)) (delete k m) (fun i => clk' (S i))) as [E Hd]; [by apply map_Forall_delete|].
    rewrite E. destruct (spec_delete (fun i => clk' (S i)) (delete k m) keys) as [n m']. simpl in *.
    destruct (m !! k) as [e|] eqn:Ek; [|done]. by rewrite (Ht _ _ Ek). }
  destruct op; simpl in *; try done.
  - destruct (Hdel keys (fun _ => 0) Ht) as [-> H2]. split; [done|]. by destruct (spec_delete (fun _ => 0) m keys).
  - split.
    + destruct (m !! key); [|done]. by replace (seconds <=? 0) with true by lia.
    + destruct (m !! key); [|done]. replace (seconds <=? 0) with true by lia. by apply map_Forall_delete.
  - destruct ex_seconds; [done|]. split; [done|]. by apply map_Forall_insert_2.
  - split; [done|]. destruct (m !! key) as [e|] eqn:E; [|by apply map_Forall_insert_2].
    destruct (value e); simpl; try done. apply map_Forall_insert_2; [|done]. apply (Ht _ _ E).
  - split; [done|]. destruct (m !! key) as [e|] eqn:E; [|done]. destruct (value e); simpl; try done.
    destruct (rev l) as [|x [|y r]]; simpl; try (by apply map_Forall_delete). apply map_Forall_insert_2; [|done].
    apply (Ht _ _ E).
  - split; [done|]. destruct (m !! key) as [e|] eqn:E; [|by apply map_Forall_insert_2].
    destruct (value e); simpl; try done. apply map_Forall_insert_2; [|done]. apply (Ht _ _ E).
Qed.

(** The limits of the store are not touched by a write. *)
Lemma touch_limit now st k : maxmemory_bytes (touch now st k).2 = maxmemory_bytes st.
Proof. unfold touch. by repeat case_match. Qed.

Definition writes_op (op : StoreOp) : Prop :=
  match op with SetString _ _ _ | Expire _ _ | Lpush _ _ | Rpop _ | Hset _ _ | Delete _ => True | _ => False end.

Lemma timeless_writes op : timeless_op op -> writes_op op.
Proof. by destruct op. Qed.

Lemma run_op_limit rnd clk st op : writes_op op -> maxmemory_bytes (run_op rnd clk st op).2 = maxmemory_bytes st.
Proof.
  intros Hop. destruct op; simpl in *; try done.
  - enough (maxmemory_bytes (delete_ clk st keys).2 = maxmemory_bytes st) by (by destruct (delete_ clk st keys)).
    revert clk st. clear. induction keys as [|k keys IH]; intros clk st; simpl; [done|].
    destruct (dict_get (entries st) k); [|apply IH]. specialize (IH (fun i => clk (S i)) (forget st k)).
    destruct (delete_ _ _ _) as [n st']. simpl in *. by case_match.
  - pose proof (touch_limit (clk 0%nat) st key) as H. unfold expire. destruct (touch _ _ _) as [[e|] st']; [|done].
    simpl in H. by destruct (seconds <=? 0).
  - unfold set_string. by destruct ex_seconds as [x|]; [destruct (x <=? 0)|].
  - pose proof (touch_limit (clk 0%nat) st key) as H. unfold lpush. destruct (touch _ _ _) as [[e|] st']; [|done].
    by repeat (case_match; simplify_eq; simpl in * ).
  - pose proof (touch_limit (clk 0%nat) st key) as H. unfold rpop. destruct (touch _ _ _) as [[e|] st']; [|done].
    by repeat (case_match; simplify_eq; simpl in * ).
  - pose proof (touch_limit (clk 0%nat) st key) as H. unfold hset. destruct (touch _ _ _) as [[e|] st'].
    + by repeat (case_match; simplify_eq; simpl in * ).
    + simpl. by destruct (hset_items 0 [] items).
Qed.

(** Deadlines do not appear by themselves. *)
Definition no_deadlines (st : Store) : Prop := Forall (fun ke => expire_at_ms ke.2 = None) (entries st).

Lemma no_deadlines_keyspace st : no_deadlines st -> timeless (keyspace st).
Proof.
  intros H k e Hk. unfold keyspace in Hk. rewrite <- dict_get_map in Hk. apply dict_get_elem in Hk.
  unfold no_deadlines in H. rewrite Forall_forall in H. apply (H _ Hk).
Qed.

Lemma no_deadlines_forget st k : no_deadlines st -> no_deadlines (forget st k).
Proof. intros H. eapply sublist_Forall; [exact H|]. apply dict_del_sublist. Qed.

Lemma no_deadlines_update st k e : expire_at_ms e = None -> no_deadlines st -> no_deadlines (update_entry st k e).
Proof. intros He H. by apply dict_set_Forall. Qed.

Lemma no_deadlines_touch now st k :
  no_deadlines st -> no_deadlines (touch now st k).2 /\ forall e, (touch now st k).1 = Some e -> expire_at_ms e = None.
Proof.
  intros H. unfold touch. destruct (dict_get (entries st) k) as [e|] eqn:E; [|done].
  case_match; simpl; [split; [by apply no_deadlines_forget|done]|]. split; [exact H|]. intros e' [= <-].
  apply dict_get_elem in E. unfold no_deadlines in H. rewrite Forall_forall in H. apply (H _ E).
Qed.

Lemma run_op_no_deadlines rnd clk st op : timeless_op op -> no_deadlines st -> no_deadlines (run_op rnd clk st op).2.
Proof.
  intros Hop H. pose proof (fun k => no_deadlines_touch (clk 0%nat) st k H) as Ht.
  destruct op; simpl in *; try done; try specialize (Ht key).
  - enough (no_deadlines (delete_ clk st keys).2) by (by destruct (delete_ clk st keys)).
    clear Ht. revert clk st H. clear. induction keys as [|k keys IH]; intros clk st H; simpl; [done|].
    destruct (dict_get (entries st) k); [|by apply IH].
    specialize (IH (fun i => clk (S i)) (forget st k) (no_deadlines_forget _ _ H)).
    destruct (delete_ _ _ _) as [n st']. simpl in *. by case_match.
  - unfold expire. destruct (touch _ _ _) as [[e|] st']; simpl in *; destruct Ht as [Hs He]; [|done].
    replace (seconds <=? 0) with true by lia. simpl. by apply no_deadlines_forget.
  - destruct ex_seconds; [done|]. by apply (no_deadlines_update st key (mkEntry STRING (VBytes v) None)).
  - unfold lpush. destruct (touch _ _ _) as [[e|] st']; simpl in *; destruct Ht as [Hs He].
    + repeat (case_match; simplify_eq; simpl in *; try done). apply no_deadlines_update; [exact (He e eq_refl)|done].
    + do 2 (apply no_deadlines_update; [done|]). done.
  - unfold rpop. destruct (touch _ _ _) as [[e|] st']; simpl in *; destruct Ht as [Hs He]; [|done].
    repeat (case_match; simplify_eq; simpl in *; try done); try (by apply no_deadlines_forget).
    all: try apply no_deadlines_forget; apply no_deadlines_update; [exact (He e eq_refl)|done].
  - unfold hset. destruct (touch _ _ _) as [[e|] st']; simpl in *; destruct Ht as [Hs He].
    + repeat (case_match; simplify_eq; simpl in *; try done). apply no_deadlines_update; [exact (He e eq_refl)|done].
    + destruct (hset_items 0 [] items) as [n d]. simpl. do 2 (apply no_deadlines_update; [done|]). done.
Qed.

(** ** The effect of a command on the keyspace *)

(** The reply object (or exception) of a write command and the new keyspace. *)
Definition spec_cmd (m : gmap bytes KeyEntry) (a : list bytes) : result pyobj * gmap bytes KeyEntry :=
  match write_op a with
  | Err e => (Err e, m)
  | Ok op => let '(r, m') := spec_op (fun _ => 0) m op in (reply_obj r, m')
  end.

(** A store without deadlines. *)
Record plain (st : Store) : Prop := {
  pl_ok : store_ok st;
  pl_timeless : no_deadlines st
}.

(** No memory limit. *)
Definition unlimited (st : Store) : Prop := maxmemory_bytes st <= 0.

Definition clock_forward (w : World) : Prop := forall i, w_clock w 0%nat <= w_clock w i.

(** A command that changes nothing raised. *)
Lemma spec_cmd_error m a e : (spec_cmd m a).1 = Err e -> timeless_cmd a -> (spec_cmd m a).2 = m.
Proof.
  unfold spec_cmd, timeless_cmd. destruct (write_op a) as [op|]; [|done]. intros H Hop.
  destruct op; simpl in *; try done; repeat (case_match; simplify_eq; simpl in *; try done).
Qed.

Lemma spec_cmd_reply m a : (spec_cmd m a).1 <> Ok PNoClientReply.
Proof.
  unfold spec_cmd. destruct (write_op a) as [op|]; [|done]. destruct (spec_op (fun _ => 0) m op) as [r m']. simpl.
  destruct r as [| | | |[]| |[]]; done.
Qed.

(** What [execute] does with a write command that passes its guards. *)
Lemma execute_write w c s :
  let a := argv c in
  is_write (upper_name a) = true -> timeless_cmd a -> plain (store s) -> clock_forward w ->
  is_replica (config s) = false \/ is_replica_client c = true ->
  requirepass (config s) = None \/ is_replica_client c = true ->
  healthy (aof s) = true \/ is_replica_client c = true ->
  exists st', plain st' /\ maxmemory_bytes st' = maxmemory_bytes (store s) /\ keyspace st' = (spec_cmd (keyspace (store s)) a).2 /\
    execute w c s =
    match (spec_cmd (keyspace (store s)) a).1 with
    | Ok res =>
        match enforce_memory_limit (w_enforce w) st' with
        | (Ok evicted, st2) => finish_command w c res evicted (set_store s st2)
        | (Err (MemoryLimitError m), st2) =>
            (Ok (Some (encode_error m)), count_failure (set_store s (load_entries st2 (entries (store s)))))
        | (Err e, st2) => (Err e, set_store s st2)
        end
    | Err (RespError m) => (Ok (Some (encode_error m)), count_failure (set_store s st'))
    | Err _ => (Ok (Some (encode_error (u "ERR internal error"))), count_failure (set_store s st'))
    end.
Proof.
  intros a Hw Ht [Hok Hnd] Hclk Hrep Hpw Hh. pose proof (no_deadlines_keyspace _ Hnd) as Htl. unfold execute. fold a.
  assert (bool_decide (requirepass (config s) <> None) && negb (existsb (Z.eqb (ctx_connection_id c)) (authenticated_connections s)) &&
     negb (beqb (upper_name a) (b "AUTH")) && negb (is_loading c) && negb (is_replica_client c) = false) as ->.
  { destruct Hpw as [-> | ->]; [done|]. by rewrite !andb_false_r. }
  assert (is_write (upper_name a) && aof_enabled (config s) && negb (healthy (aof s)) && negb (is_loading c) &&
            negb (is_replica_client c) = false) as ->.
  { destruct Hh as [-> | ->]; by rewrite ?andb_false_r. }
  rewrite Hw, snapshot_timeless by done.
  replace (set_store s (store s)) with s by (by destruct s).
  rewrite (dispatch_write (fun _ _ => [])) by (try done; destruct Hrep; auto).
  pose proof (spec_cmd_reply (keyspace (store s)) a) as Hno. unfold spec_cmd, timeless_cmd in *. fold a.
  destruct (write_op a) as [op|e].
  - destruct (run_op_refines (fun _ _ => []) (w_clock w) (store s) op Hok Hclk) as (H1 & H2 & H3).
    pose proof (run_op_limit (fun _ _ => []) (w_clock w) (store s) op (timeless_writes _ Ht)) as Hl.
    pose proof (run_op_no_deadlines (fun _ _ => []) (w_clock w) (store s) op Ht Hnd) as Hd.
    rewrite (live_timeless _ (store s)) in H1, H2 by done.
    rewrite (proj1 (spec_timeless (w_clock w) _ op Htl Ht)) in H1, H2.
    destruct (spec_op (fun _ => 0) (keyspace (store s)) op) as [r m'].
    destruct (run_op (fun _ _ => []) (w_clock w) (store s) op) as [r' st']. simpl in *. subst r'.
    rewrite live_timeless in H2 by (by apply no_deadlines_keyspace).
    exists st'. split; [by split|]. split; [done|]. split; [done|]. destruct (reply_obj r) as [res|[]]; try done.
    cbn [set_store store]. destruct (enforce_memory_limit (w_enforce w) st') as [[ev|[]] st2]; try done. by destruct res.
  - exists (store s). split; [by split|]. split; [done|]. split; [done|]. replace (set_store s (store s)) with s by (by destruct s).
    by destruct e.
Qed.

(** ** Commands that only read *)

Lemma purge_no_deadlines now st : no_deadlines st -> purge_expired now st = st.
Proof.
  intros H. unfold purge_expired, expired_keys. rewrite filter_none; [done|].
  eapply Forall_impl; [exact H|]. intros ke ->. done.
Qed.

(** The entries stay; at most the access order changes. *)
Definition reads (st st' : Store) : Prop := plain st -> plain st' /\ keyspace st' = keyspace st.

#[local] Instance reads_preorder : PreOrder reads.
Proof. split; [by intros st|]. intros x y z H1 H2 Hx. destruct (H1 Hx) as [Hy Ey]. destruct (H2 Hy) as [Hz Ez]. split; [done|congruence]. Qed.

Lemma touch_reads now st k : reads st (touch now st k).2.
Proof.
  intros [Hok Hnd]. unfold touch. destruct (dict_get (entries st) k) as [e|] eqn:E; [|done].
  assert (is_expired (expire_at_ms e) now = false) as ->.
  { apply dict_get_elem in E. unfold no_deadlines in Hnd. rewrite Forall_forall in Hnd. specialize (Hnd _ E). simpl in Hnd. by rewrite Hnd. }
  simpl. split; [|done]. split; [|done]. apply touch_access_ok; [done|]. by eapply dict_get_key.
Qed.

Lemma snapshot_reads now st : reads st (snapshot now st).2.
Proof. intros Hp. rewrite snapshot_timeless; [done|apply Hp|apply no_deadlines_keyspace, Hp]. Qed.

Lemma purge_reads now st : reads st (purge_expired now st).
Proof. intros Hp. by rewrite purge_no_deadlines by apply Hp. Qed.

Lemma ttl_reads now now' st k : reads st (ttl now now' st k).2.
Proof.
  intros Hp. pose proof (touch_reads now st k Hp) as Ht. unfold ttl, touch in *.
  destruct (dict_get (entries st) k) as [e|] eqn:E; [|done]. destruct (is_expired (expire_at_ms e) now); done.
Qed.

(** The commands of the registry that are not write commands look keys up, purge
    what has expired and take snapshots; what these keep, they keep. *)
Lemma dispatch_read_keeps (R : Store -> Store -> Prop) `{!PreOrder R} w c s :
  (forall now st k, R st (touch now st k).2) -> (forall now now' st k, R st (ttl now now' st k).2) ->
  (forall now st, R st (purge_expired now st)) -> (forall now st, R st (snapshot now st).2) ->
  is_write (upper_name (argv c)) = false -> R (store s) (store (dispatch w c s).2).
Proof.
  intros Htouch Httl Hpurge Hsnap.
  apply (dispatch_cases (fun n s s' => is_write n = false -> R (store s) (store s')) w c s); [done|].
  repeat apply Forall_cons_2; try apply Forall_nil_2; cbn [fst snd]; intros Hw; try discriminate Hw; clear Hw;
    unfold cmd_ping, cmd_echo, cmd_select, cmd_command, cmd_auth, authenticate, cmd_bgsave, schedule_bgsave, cmd_bgrewriteaof,
      schedule_aof_rewrite, cmd_config, cmd_replconf, raise, store_reply.
  all: try (repeat (case_match; simplify_eq; simpl in *; try done); reflexivity).
  - unfold cmd_get. destruct (argv c) as [|? [|key [|]]]; simpl; try reflexivity.
    pose proof (Htouch (w_clock w 0%nat) (store s) key) as H. unfold get_string, store_reply.
    destruct (touch _ _ _) as [[e|] st]; [|done]. destruct (type e), (value e); done.
  - unfold cmd_ttl. destruct (argv c) as [|? [|key [|]]]; simpl; try reflexivity.
    pose proof (Httl (w_clock w 0%nat) (w_clock w 1%nat) (store s) key) as H. by destruct (ttl _ _ _ _).
  - unfold cmd_hgetall. destruct (argv c) as [|? [|key [|]]]; simpl; try reflexivity.
    pose proof (Htouch (w_clock w 0%nat) (store s) key) as H. unfold hgetall, store_reply.
    destruct (touch _ _ _) as [[e|] st]; [|done]. destruct (type e), (value e); done.
  - unfold cmd_info. unfold keyspace_stats, memory_usage, raise.
    assert (R (store s) (purge_expired (w_clock w 2%nat) (purge_expired (w_clock w 0%nat) (store s)))) as H by (etrans; apply Hpurge).
    repeat (case_match; simplify_eq; simpl in *; try done); reflexivity.
  - unfold cmd_save. destruct (argv c) as [|? [|]]; simpl; try reflexivity.
    pose proof (Hsnap (w_clock w 0%nat) (store s)) as H. unfold save_rdb_sync, dump_rdb, dump_rdb_bytes, raise.
    destruct (snapshot _ _) as [es st]. destruct (dump_rdb_entries es) as [d|[]], (w_rdb w) as [[[] ?]|]; done.
  - unfold cmd_dbsize. destruct (argv c) as [|? [|]]; simpl; try reflexivity. apply Hpurge.
  - unfold cmd_psync. destruct (argv c) as [|? [|? [|? [|]]]]; simpl; try reflexivity.
    pose proof (Hsnap (w_clock w 0%nat) (store s)) as H. unfold start_full_resync, raise.
    case_match; [|reflexivity]. by destruct (snapshot _ _).
Qed.

Lemma dispatch_reads w c s : is_write (upper_name (argv c)) = false -> reads (store s) (store (dispatch w c s).2).
Proof. apply dispatch_read_keeps; try apply _; auto using touch_reads, ttl_reads, purge_reads, snapshot_reads. Qed.

Lemma dispatch_aof w c s : aof (dispatch w c s).2 = aof s.
Proof.
  apply (dispatch_cases (fun _ s s' => aof s' = aof s) w c s); [done|].
  repeat apply Forall_cons_2; try apply Forall_nil_2; simpl; run_handler.
Qed.

(** ** Sessions *)

(** Client commands one after the other (the write lock orders them); an
    exception that escapes from [_execute] ends the session. *)
Fixpoint run_session (cmds : list (World * Z * list bytes)) (s : RedisServer) : result unit * RedisServer :=
  match cmds with
  | [] => (Ok tt, s)
  | (w, conn, a) :: cmds' =>
      match execute w (client_ctx conn a) s with
      | (Ok _, s') => run_session cmds' s'
      | (Err e, s') => (Err e, s')
      end
  end.

(** A master without a password, with the log on. *)
Record serving (s : RedisServer) : Prop := {
  sv_plain : plain (store s);
  sv_ready : log_ready (aof s);
  sv_master : is_replica (config s) = false;
  sv_open : requirepass (config s) = None
}.

(** The command, its world, and the conditions under which it is logged
    faithfully. *)
Definition good_command (mbl : Z) (x : World * Z * list bytes) : Prop :=
  let '(w, conn, a) := x in
  loggable mbl a /\ (is_write (upper_name a) = true -> timeless_cmd a) /\ clock_forward w /\ disk_works w.

(** The reply can be encoded, or is reported as an internal error. *)
Definition encodes (res : pyobj) : Prop :=
  match encode_value res with Ok _ | Err (TypeError _) => True | Err _ => False end.

(** [a] is a write command that succeeds on [m] with the result [m']. *)
Definition succeeds (m : gmap bytes KeyEntry) (a : list bytes) (m' : gmap bytes KeyEntry) : Prop :=
  is_write (upper_name a) = true /\ timeless_cmd a /\ exists res, spec_cmd m a = (Ok res, m') /\ encodes res.

(** A list of commands that succeed one after the other. *)
Inductive succeed_all (m : gmap bytes KeyEntry) : list (list bytes) -> gmap bytes KeyEntry -> Prop :=
| sa_nil : succeed_all m [] m
| sa_cons a m1 cmds m2 : succeeds m a m1 -> succeed_all m1 cmds m2 -> succeed_all m (a :: cmds) m2.

(** ** Evictions are deletions *)

(** The commands logged and propagated for evicted keys. *)
Definition del_commands (keys : list bytes) : list (list bytes) := map (fun key => [b "DEL"; key]) keys.

Lemma del_succeeds m k : succeeds m [b "DEL"; k] (delete k m).
Proof.
  split; [done|]. split; [exact I|]. unfold spec_cmd. simpl. destruct (m !! k) as [e|]; [destruct (is_expired (expire_at_ms e) 0)|];
    eexists; (split; [reflexivity|]); exact I.
Qed.

Lemma plain_evict st k : plain st -> plain (evict st k) /\ keyspace (evict st k) = delete k (keyspace st).
Proof.
  intros [Hok Hnd]. split; [split; [auto with redis|by apply no_deadlines_forget]|]. apply dict_del_map, Hok.
Qed.

Lemma enforce_loop_plain fuel clk st ev st2 :
  plain st -> enforce_loop fuel clk st [] = (Ok ev, st2) -> plain st2 /\ succeed_all (keyspace st) (del_commands ev) (keyspace st2).
Proof.
  revert clk st ev. induction fuel as [|f IH]; intros clk st ev Hp H; cbn [enforce_loop] in H; unfold memory_usage in H;
    rewrite purge_no_deadlines in H by apply Hp; destruct (total_size (entries st)) as [used|]; try done;
    (destruct (used <=? maxmemory_bytes st); [injection H as <- <-; split; [done|constructor]|]);
    destruct (eviction_victim st) as [k|]; try done.
  rewrite enforce_loop_acc in H. destruct (plain_evict st k Hp) as [Hp1 Hk1].
  destruct (enforce_loop f _ (evict st k) []) as [[ks|e] st3] eqn:E; [|done]. injection H as <- <-.
  destruct (IH _ _ _ Hp1 E) as [Hp2 Hs]. split; [done|]. econstructor; [|exact Hs]. rewrite Hk1. apply del_succeeds.
Qed.

(** Enforcing the limit deletes keys, or refuses with the out-of-memory error. *)
Lemma enforce_plain clk st :
  plain st ->
  match enforce_memory_limit clk st with
  | (Ok ev, st2) => plain st2 /\ succeed_all (keyspace st) (del_commands ev) (keyspace st2)
  | (Err e, _) => e = oom_error
  end.
Proof.
  intros Hp. unfold enforce_memory_limit. case_if; [split; [done|constructor]|].
  destruct (enforce_loop_spec (length (entries st)) clk st (pl_ok _ Hp) (le_n _)) as (ks & [_ _ _ _ _ H]).
  destruct (enforce_loop (length (entries st)) clk st []) as [[ev|e] st2] eqn:E; simpl in H; [by eapply enforce_loop_plain|apply H].
Qed.

Lemma enforce_unlimited clk st : unlimited st -> enforce_memory_limit clk st = (Ok [], st).
Proof. intros H. unfold unlimited, enforce_memory_limit in *. by replace (maxmemory_bytes st <=? 0) with true by lia. Qed.

(** The store after a refused write. *)
Lemma load_entries_plain st2 st : plain st -> plain (load_entries st2 (entries st)) /\ keyspace (load_entries st2 (entries st)) = keyspace st.
Proof.
  intros [Hok Hnd]. assert (entries (load_entries st2 (entries st)) = entries st) as E by apply copy_items_id.
  split; [|unfold keyspace; by rewrite E]. split; [|unfold no_deadlines; by rewrite E].
  apply load_entries_ok. split; apply Hok.
Qed.

(** ** Keys that fit into a command *)

Definition keys_fit (mbl : Z) (m : gmap bytes KeyEntry) : Prop := map_Forall (fun k _ => zlen k <= mbl) m.

Lemma spec_delete_keys clk ks m k : is_Some ((spec_delete clk m ks).2 !! k) -> is_Some (m !! k).
Proof.
  revert clk m. induction ks as [|k' ks IH]; intros clk m; simpl; [done|].
  specialize (IH (fun i => clk (S i)) (delete k' m)). destruct (spec_delete _ (delete k' m) ks) as [n m']. simpl in IH.
  intros H. assert (is_Some (delete k' m !! k)) as [e He] by (destruct (m !! k'); by apply IH). apply lookup_delete_Some in He as [_ He]. eauto.
Qed.

(** A command makes no key but its own. *)
Lemma spec_op_keys op m k :
  timeless_op op -> is_Some ((spec_op (fun _ => 0) m op).2 !! k) ->
  is_Some (m !! k) \/ match op with SetString k' _ _ | Lpush k' _ | Hset k' _ => k = k' | _ => False end.
Proof.
  intros Ht. destruct op; simpl in *; try done; auto.
  - pose proof (spec_delete_keys (fun _ => 0) keys m k). destruct (spec_delete _ m keys). auto.
  - destruct (m !! key); [|auto]. replace (seconds <=? 0) with true by lia. simpl. intros [e He]. apply lookup_delete_Some in He as [_ He]. eauto.
  - destruct ex_seconds; [done|]. intros [e He]. apply lookup_insert_Some in He as [[<- <-]|[_ He]]; eauto.
  - destruct (m !! key) as [e|]; [destruct (value e)|]; simpl; auto; intros [e' He]; apply lookup_insert_Some in He as [[<- <-]|[_ He]]; eauto.
  - destruct (m !! key) as [e|] eqn:Ek; [destruct (value e)|]; simpl; auto. destruct (rev l) as [|x [|y r]]; simpl; auto;
      intros [e' He]; first [apply lookup_delete_Some in He as [_ He]|apply lookup_insert_Some in He as [[<- <-]|[_ He]]]; eauto.
  - destruct (m !! key) as [e|]; [destruct (value e)|]; simpl; auto; intros [e' He]; apply lookup_insert_Some in He as [[<- <-]|[_ He]]; eauto.
Qed.

Lemma write_op_key a op k :
  write_op a = Ok op -> match op with SetString k' _ _ | Lpush k' _ | Hset k' _ => k = k' | _ => False end -> k ∈ a.
Proof.
  unfold write_op. destruct a as [|name args]; [done|]. intros H Hk.
  assert (forall (x y : bytes) l, x ∈ y :: x :: l) as Hin by (intros; apply elem_of_cons; right; apply elem_of_cons; by left).
  repeat (case_match; simplify_eq; try done; subst); try apply Hin.
  all: apply rbind_ok in H as (? & _ & [= <-]); subst; apply Hin.
Qed.

Lemma succeeds_fit mbl m a m' : loggable mbl a -> succeeds m a m' -> keys_fit mbl m -> keys_fit mbl m'.
Proof.
  intros [_ Hfit] (_ & Ht & res & Hs & _) Hm k e Hk. unfold spec_cmd, timeless_cmd in *. destruct (write_op a) as [op|] eqn:Eo; [|done].
  pose proof (spec_op_keys op m k Ht) as Hkeys. destruct (spec_op _ m op) as [r m1]. injection Hs as _ ->. simpl in Hkeys.
  destruct (Hkeys ltac:(eauto)) as [[e0 He0]|Hown]; [by apply (Hm k e0)|].
  apply (write_op_key a op k Eo) in Hown. unfold command_fits in Hfit. apply andb_true_iff in Hfit as [_ Hfit].
  rewrite forallb_forall in Hfit. apply Z.leb_le, (Hfit k). by apply list_elem_of_In.
Qed.

(** DEL fits where a write command does. *)
Lemma write_name_length a : is_write (upper_name a) = true -> exists name args, a = name :: args /\ 3 <= zlen name.
Proof.
  destruct a as [|name args]; [done|]. intros H. exists name, args. split; [done|]. simpl in H.
  assert (zlen name = zlen (bytes_upper name)) as -> by (unfold zlen, bytes_upper; by rewrite length_map).
  unfold is_write, WRITE_COMMANDS in H. simpl in H.
  repeat (apply orb_true_iff in H as [H|H]; [apply beqb_eq in H; rewrite H; by vm_compute|]). done.
Qed.

Lemma del_loggable mbl a k : loggable mbl a -> is_write (upper_name a) = true -> zlen k <= mbl -> loggable mbl [b "DEL"; k].
Proof.
  intros [_ Hfit] Hw Hk. split; [done|]. destruct (write_name_length a Hw) as (name & args & -> & Hn).
  unfold command_fits in *. apply andb_true_iff in Hfit as [_ Hfit]. simpl in *. apply andb_true_iff in Hfit as [Hfit _].
  apply Z.leb_le in Hfit. change (zlen (b "DEL")) with 3. rewrite !andb_true_iff. split_and!; try done; apply Z.leb_le; lia.
Qed.

Lemma del_all_fit mbl a m keys m' :
  loggable mbl a -> is_write (upper_name a) = true -> keys_fit mbl m -> Forall (fun k => zlen k <= mbl) keys ->
  succeed_all m (del_commands keys) m' -> Forall (loggable mbl) (del_commands keys) /\ keys_fit mbl m'.
Proof.
  intros Hl Hw. revert m. induction keys as [|k keys IH]; intros m Hm HF Hs; inversion Hs; subst; [done|].
  apply Forall_cons in HF as [Hk HF]. pose proof (del_loggable mbl a k Hl Hw Hk) as Hd.
  destruct (IH m1 ltac:(by eapply succeeds_fit) HF ltac:(done)) as [Hd1 Hd2]. split; [by constructor|done].
Qed.

Lemma finish_encodes res (s : RedisServer) r s' :
  (match encode_value res with
   | Ok data => Ok (Some data)
   | Err (TypeError _) => Ok (Some (encode_error (u "ERR internal error")))
   | Err e => Err e
   end, s) = (Ok r, s') -> encodes res /\ s = s'.
Proof. unfold encodes. intros [= H <-]. by destruct (encode_value res) as [|[]]. Qed.

Lemma finish_read w c res s r s' :
  is_write (upper_name (argv c)) = false -> finish_command w c res [] s = (Ok r, s') -> s = s'.
Proof. intros Hw. unfold finish_command. rewrite Hw. cbn [andb]. by intros [_ ?]%finish_encodes. Qed.

(** What a client command does to the log, the keyspace and the replicas: some
    commands, logged and propagated in order, lead from the old keyspace to the
    new one.  (None for a read or a command that failed or was refused; a write
    and the deletions it caused otherwise.) *)
Definition session_effect (mbl : Z) (w : World) (s s' : RedisServer) : Prop :=
  exists cmds, Forall (loggable mbl) cmds /\ file (aof s') = file (aof s) ++ wire cmds /\
    succeed_all (keyspace (store s)) cmds (keyspace (store s')) /\ keys_fit mbl (keyspace (store s')) /\
    master_ s' = propagate_all w cmds (master_ s).

Lemma enforce_keys_fit mbl clk st ev st2 :
  plain st -> keys_fit mbl (keyspace st) -> enforce_memory_limit clk st = (Ok ev, st2) -> Forall (fun k => zlen k <= mbl) ev.
Proof.
  intros Hp Hk H. unfold enforce_memory_limit in H. destruct (maxmemory_bytes st <=? 0); [injection H as <- _; constructor|].
  destruct (enforce_loop_spec (length (entries st)) clk st (pl_ok _ Hp) (le_n _)) as (ks & [_ _ _ _ Hg Hr]).
  rewrite H in *. simpl in *. destruct Hr as [-> _]. eapply Forall_impl; [exact Hg|]. intros k [_ Hin].
  destruct (dict_get (entries st) k) as [e|] eqn:E; [|by apply dict_get_None in E]. rewrite dict_get_map in E. apply (Hk k e E).
Qed.

(** The write half of it: with its evictions, or not at all. *)
Lemma execute_session_write w conn a s r s' mbl :
  serving s -> good_command mbl (w, conn, a) -> keys_fit mbl (keyspace (store s)) -> is_write (upper_name a) = true ->
  execute w (client_ctx conn a) s = (Ok r, s') ->
  serving s' /\ config s' = config s /\ session_effect mbl w s s'.
Proof.
  intros [Hp Hr Hm Ho] (Hlog & Ht & Hclk & Hio) Hkf Hw Hx. specialize (Ht Hw).
  assert (healthy (aof s) = true) as Hh by (unfold healthy; by rewrite (lr_healthy _ Hr)).
  destruct (execute_write w (client_ctx conn a) s Hw Ht Hp Hclk (or_introl Hm) (or_introl Ho) (or_introl Hh))
    as (st' & Hp' & _ & Hk & Hex). rewrite Hex in Hx. simpl in *.
  destruct (spec_cmd (keyspace (store s)) a) as [res m'] eqn:Es. simpl in *. subst m'. destruct res as [res|e].
  - pose proof (enforce_plain (w_enforce w) st' Hp') as Hen. destruct (enforce_memory_limit (w_enforce w) st') as [[ev|e] st2] eqn:Een.
    + destruct Hen as [Hp2 Hdel]. unfold finish_command in Hx. cbn [argv is_loading is_replica_client client_ctx config set_store] in Hx.
      rewrite Hw, Hm in Hx. cbn [andb negb] in Hx.
      destruct (record_writes_ready w 0 (a :: del_commands ev) (set_store s st2) Hr Hio) as (l & Hrec & Hl & Hf).
      unfold del_commands in Hrec. rewrite Hrec in Hx. apply finish_encodes in Hx as [Henc <-]. simpl. split; [by split|]. split; [done|].
      assert (succeeds (keyspace (store s)) a (keyspace st')) as Hsu by (split; [done|]; split; [done|]; by exists res).
      pose proof (succeeds_fit _ _ _ _ Hlog Hsu Hkf) as Hkf'.
      pose proof (enforce_keys_fit mbl _ _ _ _ Hp' Hkf' Een) as Hev.
      destruct (del_all_fit mbl a _ ev _ Hlog Hw Hkf' Hev Hdel) as [Hdl Hkf2].
      exists (a :: del_commands ev). split_and!; [by constructor|done|by econstructor|done|done].
    + subst e. injection Hx as _ <-. destruct (load_entries_plain st2 (store s) Hp) as [Hpl Hkl]. simpl.
      split; [by split|]. split; [done|]. exists []. simpl. rewrite Hkl, app_nil_r. split_and!; try done. constructor.
  - assert (keyspace st' = keyspace (store s)) as Ek.
    { pose proof (spec_cmd_error (keyspace (store s)) a e) as H. rewrite Es in H. by apply H. }
    assert (serving (count_failure (set_store s st')) /\ config (count_failure (set_store s st')) = config s /\
            session_effect mbl w s (count_failure (set_store s st'))) as Hgoal.
    { split; [by split|]. split; [done|]. exists []. simpl. rewrite Ek, app_nil_r. split_and!; try done. constructor. }
    destruct e; injection Hx as _ <-; exact Hgoal.
Qed.

(** One client command. *)
Lemma execute_session w conn a s r s' mbl :
  serving s -> good_command mbl (w, conn, a) -> keys_fit mbl (keyspace (store s)) ->
  execute w (client_ctx conn a) s = (Ok r, s') ->
  serving s' /\ config s' = config s /\
  (session_effect mbl w s s' \/
   upper_name a = b "PSYNC" /\ file (aof s') = file (aof s) /\ keyspace (store s') = keyspace (store s)).
Proof.
  intros Hs Hg Hkf Hx. destruct (is_write (upper_name a)) eqn:Hw.
  { destruct (execute_session_write w conn a s r s' mbl Hs Hg Hkf Hw Hx) as (H1 & H2 & H3). auto. }
  destruct Hs as [Hp Hr Hm Ho]. assert (forall s1, serving s1 -> config s1 = config s -> aof s1 = aof s -> keyspace (store s1) = keyspace (store s) ->
    (upper_name a <> b "PSYNC" -> master_ s1 = master_ s) -> serving s1 /\ config s1 = config s /\ (session_effect mbl w s s1 \/
     upper_name a = b "PSYNC" /\ file (aof s1) = file (aof s) /\ keyspace (store s1) = keyspace (store s))) as Hnone.
  { intros s1 H1 H2 H3 H4 H5. split; [done|]. split; [done|]. destruct (decide (upper_name a = b "PSYNC")) as [E|Hne]; [right; by rewrite H3|left].
    exists []. rewrite H3, H4, (H5 Hne), app_nil_r. split_and!; try done. constructor. }
  unfold execute in Hx. simpl in Hx. rewrite Hw, Ho in Hx. cbn [andb bool_decide] in Hx.
  rewrite bool_decide_false in Hx by (by intros ?). cbn [andb] in Hx.
  replace (set_store s (store s)) with s in Hx by (by destruct s).
  pose proof (dispatch_reads w (client_ctx conn a) s Hw Hp) as [Hp1 Hk1].
  pose proof (dispatch_aof w (client_ctx conn a) s) as Ha1. pose proof (dispatch_log w (client_ctx conn a) s) as Hlg. destruct (dispatch_conns w (client_ctx conn a) s) as (Hc1 & _).
  destruct (dispatch w (client_ctx conn a) s) as [res s1]. simpl in *.
  assert (serving s1) as Hs1 by (split; congruence).
  assert (upper_name a <> b "PSYNC" -> master_ s1 = master_ s) as Hms by (intros Hps; by destruct (Hlg Hps)).
  replace (set_store s1 (store s1)) with s1 in Hx by (by destruct s1).
  assert (serving (count_failure s1)) as Hs1' by (destruct Hs1; by split).
  destruct res as [res|[]]; simplify_eq; try (by apply Hnone).
  assert (s1 = s') as <-; [|by apply Hnone].
  destruct res; try (by apply finish_read in Hx); by simplify_eq.
Qed.

(** Replaying a command that succeeded. *)
Lemma execute_replay w a s m' :
  plain (store s) -> unlimited (store s) -> is_replica (config s) = false -> clock_forward w -> succeeds (keyspace (store s)) a m' ->
  exists r s', execute w (replay_ctx a) s = (Ok r, s') /\ plain (store s') /\ unlimited (store s') /\ keyspace (store s') = m' /\
    config s' = config s /\ aof s' = aof s /\ client_count s' = client_count s.
Proof.
  intros Hp Hu Hm Hclk (Hw & Ht & res & Hs & Henc).
  destruct (execute_write w (replay_ctx a) s Hw Ht Hp Hclk (or_introl Hm) (or_intror eq_refl) (or_intror eq_refl)) as (st' & Hp' & Hl & Hk & Hex).
  assert (unlimited st') as Hu' by (unfold unlimited in *; congruence).
  rewrite Hex. simpl in *. rewrite Hs in *. simpl in *. rewrite enforce_unlimited by done. unfold finish_command. simpl. rewrite Hw. cbn [andb negb].
  unfold encodes in Henc. destruct (encode_value res) as [d|[]]; try done; by eexists _, _.
Qed.

Lemma succeed_all_trans m l1 m1 l2 m2 : succeed_all m l1 m1 -> succeed_all m1 l2 m2 -> succeed_all m (l1 ++ l2) m2.
Proof. induction 1; intros Hs; simpl; [done|]. econstructor; eauto. Qed.

(** What a session leaves in the log explains its keyspace. *)
Lemma session_log mbl cmds s s' :
  serving s -> keys_fit mbl (keyspace (store s)) -> Forall (good_command mbl) cmds -> run_session cmds s = (Ok tt, s') ->
  serving s' /\ exists logged, Forall (loggable mbl) logged /\ file (aof s') = file (aof s) ++ wire logged /\
    succeed_all (keyspace (store s)) logged (keyspace (store s')).
Proof.
  revert s. induction cmds as [|[[w conn] a] cmds IH]; intros s Hs Hkf HF Hrun; simpl in Hrun.
  - injection Hrun as <-. split; [done|]. exists []. split; [done|]. rewrite app_nil_r. split; [done|constructor].
  - apply Forall_cons in HF as [Hg HF]. destruct (execute w (client_ctx conn a) s) as [[r|e] s1] eqn:Hx; [|done].
    destruct (execute_session w conn a s r s1 mbl Hs Hg Hkf Hx) as (Hs1 & _ & [(l1 & Hl1 & Hf1 & Hsa1 & Hkf1 & _)|(_ & Hf1 & Hk1)]).
    + destruct (IH s1 Hs1 Hkf1 HF Hrun) as (Hs' & logged & Hl & Hf & Hsa). split; [done|]. exists (l1 ++ logged).
      split; [by apply Forall_app|]. split; [by rewrite Hf, Hf1, wire_app, app_assoc|]. by eapply succeed_all_trans.
    + rewrite <- Hk1, <- Hf1. apply IH; [done|by rewrite Hk1|done|done].
Qed.

Lemma replay_all ws i cmds s m' :
  plain (store s) -> unlimited (store s) -> is_replica (config s) = false -> (forall j, clock_forward (ws j)) ->
  succeed_all (keyspace (store s)) cmds m' ->
  exists j s', apply_all (replay_command ws) (i, s) cmds = (Ok tt, (j, s')) /\ plain (store s') /\ unlimited (store s') /\
    keyspace (store s') = m' /\ config s' = config s /\ aof s' = aof s /\ client_count s' = client_count s.
Proof.
  intros Hp Hu Hm Hclk H. remember (keyspace (store s)) as m0 eqn:Em. revert i s Hp Hu Hm Em.
  induction H as [m|m a m1 cmds m2 Hs Hsa IH]; intros i s Hp Hu Hm ->; simpl.
  - by exists i, s.
  - destruct (execute_replay (ws i) a s m1 Hp Hu Hm (Hclk i) Hs) as (r & s1 & Hx & Hp1 & Hu1 & Hk1 & Hc1 & Ha1 & Hn1).
    rewrite Hx. simpl. destruct (IH (S i) s1 Hp1 Hu1 ltac:(congruence) ltac:(congruence)) as (j & s2 & H1 & H2 & H3 & H4 & H5 & H6 & H7).
    exists j, s2. split_and!; try done; congruence.
Qed.

(** ** Properties *)

Definition started_server (cfg : Config) (rid : str) : RedisServer :=
  (start (fun _ => ex_world) 0 None (new_server cfg rid [] None)).2.

Lemma new_plain cfg : plain (new_store (cfg_maxmemory_bytes cfg) (cfg_maxmemory_policy cfg)).
Proof. split; [apply new_store_ok|constructor]. Qed.

(** A new server on a fresh directory does not look at the replay world. *)
Lemma start_fresh cfg rid ws now :
  start ws now None (new_server cfg rid [] None) = (Ok tt, started_server cfg rid).
Proof.
  unfold started_server, start, load_persistence. simpl. rewrite !andb_false_r. unfold open_. simpl. by destruct (aof_enabled cfg).
Qed.

Lemma started_serving cfg rid :
  aof_enabled cfg = true -> is_replica cfg = false -> requirepass cfg = None ->
  serving (started_server cfg rid) /\ config (started_server cfg rid) = cfg /\ file (aof (started_server cfg rid)) = [] /\
  keyspace (store (started_server cfg rid)) = ∅.
Proof.
  intros He Hr Hp. unfold started_server, start, load_persistence. simpl. rewrite andb_false_r. simpl.
  unfold open_. simpl. rewrite He. simpl. unfold start_background_fsync. simpl. rewrite ?He. simpl.
  split; [|done]. split; [apply new_plain|by split|done|done].
Qed.

(** Loading a log runs its commands. *)
Lemma load_log cfg rid logged ws now :
  aof_enabled cfg = true -> logged <> [] -> 0 <= proto_max_bulk_len cfg < 10 ^ int_max_str_digits ->
  Forall (loggable (proto_max_bulk_len cfg)) logged -> zlen (wire logged) <= Z.min 32000000 (persistence_max_load_bytes cfg) ->
  let n := new_server cfg rid (wire logged) None in
  let '(r, (_, s)) := apply_all (replay_command ws) (0%nat, n) logged in load_persistence ws now n = (r, s).
Proof.
  intros He Hne Hmbl Hl Hsize n. unfold load_persistence. change (config n) with cfg. change (file (aof n)) with (wire logged).
  cbv zeta. rewrite He, bool_decide_true.
  - destruct (read_commands_cut _ (persistence_max_load_bytes cfg) logged (length (wire logged)) Hmbl Hl) as (k & rest & Hrd & Ht & Hk & _); [done|].
    rewrite firstn_all in Hrd, Ht. assert (take k logged = logged) as Hall.
    { destruct (decide (k < length logged)%nat) as [Hlt|]; [|by rewrite take_ge by lia].
      pose proof (cut_keeps (length (wire logged)) k k logged rest) as Hcut. rewrite firstn_all in Hcut.
      specialize (Hcut Ht Hk Hlt (ltac:(rewrite <- (firstn_all logged) at 2; apply wire_take_le; lia))). lia. }
    rewrite Hall in Hrd. unfold replay_aof. simpl andb. cbv iota. rewrite Hrd.
    destruct (apply_all (replay_command ws) (0%nat, n) logged) as [[[]|e] [m s]]; done.
  - destruct logged as [|a0 l0]; [done|]. unfold wire, encode_command, array_header. done.
Qed.

(** Starting on a log of commands that succeed one after the other. *)
Lemma restart_on_log cfg rid logged m ws now :
  aof_enabled cfg = true -> is_replica cfg = false -> cfg_maxmemory_bytes cfg <= 0 ->
  0 <= proto_max_bulk_len cfg < 10 ^ int_max_str_digits -> Forall (loggable (proto_max_bulk_len cfg)) logged ->
  zlen (wire logged) <= Z.min 32000000 (persistence_max_load_bytes cfg) -> succeed_all ∅ logged m ->
  (forall i, clock_forward (ws i)) ->
  exists s2, start ws now None (new_server cfg rid (wire logged) None) = (Ok tt, s2) /\
    keyspace (store s2) = m /\ store_ok (store s2) /\ file (aof s2) = wire logged /\
    unlimited (store s2) /\ config s2 = cfg /\ log_ready (aof s2) /\ client_count s2 = 0.
Proof.
  intros He Hr Hm Hmbl Hl Hsize Hsa Hclk. set (n := new_server cfg rid (wire logged) None).
  destruct (replay_all ws 0 logged n m (new_plain cfg) Hm Hr Hclk Hsa) as (j & s2 & Hre & Hp2 & Hu2 & Hk2 & Hc2 & Ha2 & Hn2).
  assert (exists s1, load_persistence ws now n = (Ok tt, s1) /\ plain (store s1) /\ unlimited (store s1) /\ keyspace (store s1) = m /\
            config s1 = cfg /\ aof s1 = aof n /\ client_count s1 = 0) as (s1 & Hl1 & Hp1 & Hu1 & Hk1 & Hc1 & Ha1 & Hn1).
  { destruct (decide (logged = [])) as [->|Hne].
    - exists n. split_and!; try done; [|apply new_plain|by inversion Hsa]. unfold load_persistence. simpl. by rewrite andb_false_r.
    - pose proof (load_log cfg rid logged ws now He Hne Hmbl Hl Hsize) as Hload. fold n in Hload. cbv zeta in Hload. rewrite Hre in Hload.
      by exists s2. }
  unfold start. rewrite Hl1, Ha1. unfold n at 1. cbn [new_server aof]. unfold open_. cbn [new_log enabled]. rewrite He. cbn [negb].
  eexists. split; [reflexivity|]. cbn [set_aof store]. split; [done|]. split; [apply Hp1|].
  cbn [set_aof aof]. unfold start_background_fsync. simpl. rewrite ?He. done.
Qed.

(** Replaying the log restores the keyspace.  Let any clients send any
    commands (reads, writes, malformed ones, writes that fail) to a fresh
    master with the log enabled, no memory limit and no deadlines set, the disk
    working; then restart the server on the log file it wrote.  The new server
    starts without error and holds exactly the same keys, types and values. *)
Theorem aof_replay_restores cfg rid rid' cmds s ws now :
  aof_enabled cfg = true -> is_replica cfg = false -> requirepass cfg = None -> cfg_maxmemory_bytes cfg <= 0 ->
  0 <= proto_max_bulk_len cfg < 10 ^ int_max_str_digits ->
  Forall (good_command (proto_max_bulk_len cfg)) cmds -> run_session cmds (started_server cfg rid) = (Ok tt, s) ->
  zlen (file (aof s)) <= Z.min 32000000 (persistence_max_load_bytes cfg) -> (forall i, clock_forward (ws i)) ->
  exists s2, start ws now None (new_server cfg rid' (file (aof s)) None) = (Ok tt, s2) /\
    keyspace (store s2) = keyspace (store s) /\ store_ok (store s2) /\ file (aof s2) = file (aof s).
Proof.
  intros He Hr Hp Hm Hmbl HF Hrun Hsize Hclk.
  destruct (started_serving cfg rid He Hr Hp) as (Hs0 & Hc0 & Hf0 & Hk0).
  destruct (session_log (proto_max_bulk_len cfg) cmds _ s Hs0) as (_ & logged & Hl & Hf & Hsa); [rewrite Hk0; apply map_Forall_empty|done|done|].
  rewrite Hf0 in Hf. simpl in Hf. rewrite Hk0 in Hsa. rewrite Hf in *.
  destruct (restart_on_log cfg rid' logged (keyspace (store s)) ws now) as (s2 & H1 & H2 & H3 & H4 & _); try done. by exists s2.
Qed.

(** Two clients: a string, a list pushed and popped, a hash, a failing write, a
    read, a deletion and an unknown command. *)
Definition ex_session : list (World * Z * list bytes) :=
  [(ex_world, 1, [b "SET"; b "k"; b "v"]); (ex_world, 2, [b "LPUSH"; b "l"; b "a"; b "b"]);
   (ex_world, 1, [b "LPUSH"; b "k"; b "x"]); (ex_world, 1, [b "GET"; b "k"]); (ex_world, 2, [b "RPOP"; b "l"]);
   (ex_world, 2, [b "HSET"; b "h"; b "f"; b "1"]); (ex_world, 1, [b "DEL"; b "k"; b "none"]); (ex_world, 1, [b "NOSUCH"])].

Definition ex_served : RedisServer := (run_session ex_session (started_server default_config (u "abc"))).2.

Lemma ex_session_good : Forall (good_command (proto_max_bulk_len default_config)) ex_session.
Proof.
  repeat (apply Forall_cons; split; [split; [by split|]; split; [by vm_compute|]; split; [done|]; by intros i|]).
  constructor.
Qed.
