(* ===== verification/Memory.v ===== *)
(** * The memory limit over the life of a server

    Between two commands the keyspace is never larger than the limit: a write
    that does not fit evicts keys or is rolled back. *)
From S2P Require Import Prelude PyText PyFloat Encoder Parser Dict Store StoreSpec Eviction Crc32 Rdb AofFile AofLog Config Master Commands Server Client Recovery.
Local Open Scope Z_scope.

(** ** Stores within their limit *)

(** [st'] holds some of the entries of [st]. *)
Definition substore (st st' : Store) : Prop := sublist (entries st') (entries st) /\ maxmemory_bytes st' = maxmemory_bytes st.

#[export] Instance substore_preorder : PreOrder substore.
Proof. split; [by split|]. intros x y z [H1 E1] [H2 E2]. split; [by etrans|congruence]. Qed.

Record bounded (st : Store) : Prop := {
  bd_ok : store_ok st;
  bd_used : maxmemory_bytes st <= 0 \/ exists used, total_size (entries st) = Some used /\ used <= maxmemory_bytes st
}.

Lemma total_size_sublist es es' :
  sublist es' es -> Forall (fun ke => entry_ok ke.2) es -> forall n, total_size es = Some n -> exists n', total_size es' = Some n' /\ n' <= n.
Proof.
  induction 1 as [|[k e] es' es Hs IH|[k e] es' es Hs IH]; intros HF n Hn; simpl in *.
  - injection Hn as <-. by exists 0.
  - apply Forall_cons in HF as [He HF]. destruct (entry_size k e) as [x|]; [|done]. destruct (total_size es) as [t|]; [|done].
    injection Hn as <-. destruct (IH HF t eq_refl) as (n' & -> & Hle). exists (x + n'). split; [done|lia].
  - apply Forall_cons in HF as [He HF]. destruct (entry_size_ok k e He) as (x & Hx & H0). rewrite Hx in Hn.
    destruct (total_size es) as [t|]; [|done]. injection Hn as <-. destruct (IH HF t eq_refl) as (n' & -> & Hle). exists n'. split; [done|lia].
Qed.

Lemma substore_bounded st st' : bounded st -> store_ok st' -> substore st st' -> bounded st'.
Proof.
  intros [Hok Hu] Hok' [Hs Hl]. split; [done|]. rewrite Hl. destruct Hu as [?|(n & Hn & Hle)]; [by left|right].
  destruct (total_size_sublist _ _ Hs (store_ok_entries _ Hok) n Hn) as (n' & Hn' & ?). exists n'. split; [done|lia].
Qed.

(** ** What reading and failing leave *)

Lemma forget_substore st k : substore st (forget st k).
Proof. split; [apply dict_del_sublist|done]. Qed.

Lemma forget_all_substore st ks : substore st (forget_all st ks).
Proof. revert st. induction ks as [|k ks IH]; intros st; simpl; [done|]. etrans; [apply (forget_substore st k)|apply IH]. Qed.

Lemma purge_substore now st : substore st (purge_expired now st).
Proof. apply forget_all_substore. Qed.

Lemma touch_substore now st k : substore st (touch now st k).2.
Proof. unfold touch. destruct (dict_get (entries st) k) as [e|]; [|done]. case_if; [apply forget_substore|done]. Qed.

Lemma snapshot_substore now st : substore st (snapshot now st).2.
Proof. apply forget_all_substore. Qed.

Lemma ttl_substore now now' st k : substore st (ttl now now' st k).2.
Proof. unfold ttl. destruct (dict_get (entries st) k) as [e|]; [|done]. case_if; [apply forget_substore|done]. Qed.

Lemma dispatch_substore w c s : is_write (upper_name (argv c)) = false -> substore (store s) (store (dispatch w c s).2).
Proof. apply dispatch_read_keeps; try apply _; auto using touch_substore, ttl_substore, purge_substore, snapshot_substore. Qed.

(** Whether a write command is refused on a replica. *)
Lemma dispatch_readonly w c s :
  is_write (upper_name (argv c)) = true -> is_replica (config s) = true -> is_replica_client c = false -> is_loading c = false ->
  dispatch w c s = (Err readonly_error, s).
Proof.
  intros Hw Hr Hc Hl. unfold dispatch, upper_name in *. destruct (argv c) as [|name args]; [done|]. rewrite Hr, Hw, Hc, Hl.
  unfold is_write, WRITE_COMMANDS in Hw. simpl in Hw. unfold get_handler.
  repeat (apply orb_true_iff in Hw as [Hw|Hw]; [apply beqb_eq in Hw; by rewrite Hw|]). done.
Qed.

Lemma write_op_writes a op : is_write (upper_name a) = true -> write_op a = Ok op -> writes_op op.
Proof.
  intros _. unfold write_op. destruct a as [|name args]; [done|]. intros H.
  repeat (case_match; simplify_eq; try done). all: by apply rbind_ok in H as (? & _ & [= <-]).
Qed.

Lemma run_op_raises rnd clk st op :
  writes_op op -> is_ok (reply_obj (run_op rnd clk st op).1) = false -> substore st (run_op rnd clk st op).2.
Proof.
  intros Hw. destruct op; try done; cbn [run_op].
  - by destruct (delete_ clk st keys).
  - by destruct (expire _ _ _ _ _).
  - pose proof (touch_substore (clk 0%nat) st key) as Ht. unfold lpush. destruct (touch _ _ _) as [[e0|] st']; simpl in *; [|done].
    by repeat (case_match; simplify_eq; simpl in * ).
  - pose proof (touch_substore (clk 0%nat) st key) as Ht. unfold rpop. destruct (touch _ _ _) as [[e0|] st']; simpl in *; [|done].
    by repeat (case_match; simplify_eq; simpl in * ).
  - pose proof (touch_substore (clk 0%nat) st key) as Ht. unfold hset. destruct (touch _ _ _) as [[e0|] st']; simpl in *.
    + by repeat (case_match; simplify_eq; simpl in * ).
    + by destruct (hset_items 0 [] items).
Qed.

Definition keeps_ok (st st' : Store) : Prop := store_ok st -> store_ok st'.

#[export] Instance keeps_ok_preorder : PreOrder keeps_ok.
Proof. split; [by intros x H|]. intros x y z H1 H2 H. by apply H2, H1. Qed.

Lemma touch_keeps now st k : keeps_ok st (touch now st k).2.
Proof.
  intros Hok. unfold touch. destruct (dict_get (entries st) k) as [e|] eqn:E; [|done]. case_if; simpl; [auto with redis|].
  apply touch_access_ok; [done|by eapply dict_get_key].
Qed.

Lemma snapshot_keeps now st : keeps_ok st (snapshot now st).2.
Proof. intros Hok. exact (run_op_ok (fun _ _ => []) (fun _ => now) st Snapshot Hok). Qed.

Lemma dispatch_read_ok w c s : is_write (upper_name (argv c)) = false -> keeps_ok (store s) (store (dispatch w c s).2).
Proof.
  apply dispatch_read_keeps; try apply _; auto using touch_keeps, snapshot_keeps.
  - intros now now' st k Hok. pose proof (run_op_ok (fun _ _ => []) (fun i => match i with O => now | _ => now' end) st (Ttl k) Hok) as H.
    simpl in H. by destruct (ttl now now' st k).
  - intros now st Hok. by apply purge_expired_ok.
Qed.

(** A command of any kind keeps the store well formed and its limit; when it
    raises it leaves only fewer entries. *)
Lemma dispatch_store w c s :
  store_ok (store s) ->
  store_ok (store (dispatch w c s).2) /\ maxmemory_bytes (store (dispatch w c s).2) = maxmemory_bytes (store s) /\
  (is_write (upper_name (argv c)) = false \/ is_ok (dispatch w c s).1 = false -> substore (store s) (store (dispatch w c s).2)).
Proof.
  intros Hok. destruct (is_write (upper_name (argv c))) eqn:Hw.
  - destruct (is_replica (config s) && negb (is_replica_client c) && negb (is_loading c)) eqn:Hro.
    { apply andb_true_iff in Hro as [[Hr Hc%negb_true_iff]%andb_true_iff Hl%negb_true_iff]. by rewrite dispatch_readonly. }
    rewrite (dispatch_write (fun _ _ => [])) by (try done; destruct (is_replica (config s)), (is_replica_client c), (is_loading c); auto).
    destruct (write_op (argv c)) as [op|e] eqn:Eo; [|done]. pose proof (write_op_writes _ _ Hw Eo) as Hop.
    pose proof (run_op_ok (fun _ _ => []) (w_clock w) (store s) op Hok) as H1.
    pose proof (run_op_limit (fun _ _ => []) (w_clock w) (store s) op Hop) as H2.
    pose proof (run_op_raises (fun _ _ => []) (w_clock w) (store s) op Hop) as H3.
    destruct (run_op _ _ _ op) as [r st]. simpl in *. split; [done|]. split; [done|]. intros [?|Hr]; [done|]. by apply H3.
  - split; [by apply dispatch_read_ok|]. split; [by apply dispatch_substore|]. intros _. by apply dispatch_substore.
Qed.

(** ** Enforcing the limit *)

Lemma enforce_bounded clk st r st' :
  store_ok st -> enforce_memory_limit clk st = (r, st') ->
  maxmemory_bytes st' = maxmemory_bytes st /\
  match r with Ok _ => bounded st' | Err e => e = oom_error end.
Proof.
  intros Hok H. unfold enforce_memory_limit in H. destruct (maxmemory_bytes st <=? 0) eqn:Em.
  - injection H as <- <-. apply Z.leb_le in Em. split; [done|]. split; [done|by left].
  - destruct (enforce_loop_spec (length (entries st)) clk st Hok (le_n _)) as (ks & [H1 _ [H2 _] _ _ H3]). rewrite H in *. simpl in *.
    split; [done|]. destruct r as [l|e]; [|apply H3]. destruct H3 as [_ (used & Hu & Hle)]. split; [done|]. right. exists used. by rewrite H2.
Qed.

Lemma record_writes_store w i cmds s : store (record_writes w i cmds s).2 = store s.
Proof.
  revert i s. induction cmds as [|a cmds IH]; intros i s; simpl; [done|].
  unfold log_command. destruct (append_log _ _ _) as [[|[]] l]; try done. by rewrite IH.
Qed.

Lemma finish_command_store w c res ev s : store (finish_command w c res ev s).2 = store s.
Proof.
  assert (PreOrder (fun s s' : RedisServer => store s' = store s)) as HR by (split; [done|]; intros x y z; congruence).
  apply (finish_command_keeps (fun s s' => store s' = store s)).
  - intros. apply record_writes_store.
  - intros. unfold log_command. by destruct (append_log _ _ _) as [[|[]] l].
Qed.

(** The rolled-back store. *)
Lemma load_snapshot_bounded now st st2 :
  bounded st -> maxmemory_bytes st2 = maxmemory_bytes st -> bounded (load_entries st2 (snapshot now st).1).
Proof.
  intros Hb Hl. pose proof (bd_ok _ Hb) as Hok. unfold snapshot, iter_entries. simpl. rewrite copy_items_id.
  apply (substore_bounded st); [done| |].
  - apply load_entries_ok. split; [apply dict_filter_ok, Hok|]. intros k e [_ Hin]%dict_get_elem%list_elem_of_filter.
    eapply Hok. apply dict_elem_get; [apply Hok|exact Hin].
  - split; [|done]. unfold load_entries. simpl. rewrite copy_items_id. apply sublist_filter.
Qed.

Lemma execute_bounded w c s : bounded (store s) -> bounded (store (execute w c s).2).
Proof.
  intros Hb. pose proof (bd_ok _ Hb) as Hok. unfold execute. case_if; [done|]. case_if; [done|].
  destruct (is_write (upper_name (argv c))) eqn:Hw.
  - pose proof (load_snapshot_bounded (w_snapshot w) (store s)) as Hload. pose proof (snapshot_substore (w_snapshot w) (store s)) as Hs0.
    pose proof (snapshot_keeps (w_snapshot w) (store s) Hok) as Hok0.
    destruct (snapshot (w_snapshot w) (store s)) as [before st0]. simpl in *.
    assert (bounded st0) as Hb0 by (by eapply substore_bounded).
    destruct (dispatch_store w c (set_store s st0) Hok0) as (H1 & H2 & H3).
    destruct (dispatch w c (set_store s st0)) as [[res|e] s1]; simpl in *.
    + destruct (enforce_memory_limit (w_enforce w) (store s1)) as [ev st2] eqn:Een.
      destruct (enforce_bounded _ _ _ _ H1 Een) as [Hl2 Hev]. destruct ev as [evicted|e].
      * destruct res; rewrite ?finish_command_store; done.
      * subst e. simpl. apply Hload; [done|]. destruct Hs0. congruence.
    + assert (bounded (store s1)) as Hb1 by (eapply substore_bounded; [exact Hb0|done|by apply H3; right]). by destruct e.
  - replace (set_store s (store s)) with s by (by destruct s).
    destruct (dispatch_store w c s Hok) as (H1 & _ & H3). specialize (H3 (or_introl Hw)).
    assert (bounded (store (dispatch w c s).2)) as Hb1 by (by eapply substore_bounded).
    destruct (dispatch w c s) as [[res|e] s1]; simpl in *; [|by destruct e].
    destruct res; rewrite ?finish_command_store; done.
Qed.

Lemma handle_message_bounded w conn msg s : bounded (store s) -> bounded (store (handle_message w conn msg s).2).
Proof.
  intros Hb. unfold handle_message. set (s0 := set_counts _ _ _).
  destruct (normalize_argv msg) as [[|name args]|[]]; try done. case_if.
  - unfold start_full_resync. pose proof (snapshot_substore (w_clock w 0%nat) (store s0)) as Hf.
    pose proof (snapshot_keeps (w_clock w 0%nat) (store s0) (bd_ok _ Hb)) as Hok.
    destruct (snapshot _ _) as [es st]. by eapply substore_bounded.
  - pose proof (execute_bounded w (client_ctx conn (name :: args)) s0 Hb) as Hx.
    destruct (execute w (client_ctx conn (name :: args)) s0) as [[reply|e] s1]; [|done]. by case_if.
Qed.

(** ** Properties *)

(** C11 The memory limit holds.  On a server whose keyspace is within its
    memory limit, any messages of a client, with any clock and any failures of
    the log, leave it within the limit: a write that would exceed it evicts keys
    or is rolled back entirely. *)
Theorem memory_limit_holds ws conn msgs s : bounded (store s) -> bounded (store (handle_messages ws conn msgs s).2).
Proof.
  revert ws s. induction msgs as [|msg msgs IH]; intros ws s Hb; simpl; [done|].
  pose proof (handle_message_bounded (ws 0%nat) conn msg s Hb) as H.
  destruct (handle_message (ws 0%nat) conn msg s) as [[o []] s1]; try done.
  specialize (IH (fun i => ws (S i)) s1 H). by destruct (handle_messages (fun i => ws (S i)) conn msgs s1) as [[o' n] s2].
Qed.

(** A limit of 120 bytes: the second value evicts the first, the third does not
    fit at all and evicts even itself. *)
Definition limited (policy : MaxmemoryPolicy) : RedisServer :=
  set_store ex_conn (new_store 120 policy).

Lemma memory_limit_holds_witness :
  exists s, (handle_messages (fun _ => ex_world) 1
    (map command_obj [[b "SET"; b "a"; repeat "x"%byte 40]; [b "SET"; b "b"; repeat "y"%byte 40]; [b "SET"; b "c"; repeat "z"%byte 200]])
    (limited allkeys_lru)).2 = s /\ bounded (store s) /\ evicted_keys (store s) = 3.
Proof.
  eexists. split; [reflexivity|]. split; [|vm_compute; reflexivity]. apply memory_limit_holds. split; [apply new_store_ok|].
  right. exists 0. split; [reflexivity|]. apply Z.leb_le. reflexivity.
Defined.
