(* ===== verification/Replica.v ===== *)
(** * The replica client ([replication/replica.py])

    A session with the master: handshake, snapshot transfer, command stream.
    What the reads of the connection will return is part of the state: one
    byte string per read, none of them empty, the end of the list being the
    end of the stream.  (A read that raises ends a session as the end of the
    stream does.) *)
From S2P Require Import Prelude PyText PyFloat Encoder Parser Dict Store StoreSpec Eviction Crc32 Rdb AofFile AofLog Config Master Commands Server Recovery.
Local Open Scope Z_scope.

(** ** State *)

(** [ReplicaClient]: what its constructor is given. *)
Record ReplicaClient := mkClient {
  rc_listening_port : Z;
  rc_max_bulk_len : Z;
  rc_snapshot_max_bytes : Z;
  rc_masterauth : option str
}.

(** The client of a server, as [RedisServer.start] makes it. *)
Definition replica_client (c : Config) : ReplicaClient :=
  mkClient (port c) (proto_max_bulk_len c) (persistence_max_load_bytes c) (masterauth c).

(** A session: the connection (what it will deliver, what was sent on it),
    its parser, [link_status], the server it feeds, and the number of commands
    applied so far. *)
Record Session := mkSession {
  incoming : list bytes;
  sent : list bytes;
  parser : RespParser;
  link_up : bool;
  server : RedisServer;
  applied : nat
}.

Definition M (A : Type) : Type := Session -> result A * Session.

Definition sret {A} (x : A) : M A := fun s => (Ok x, s).
Definition sraise {A} (e : exn) : M A := fun s => (Err e, s).
Definition sbind {A B} (m : M A) (k : A -> M B) : M B :=
  fun s => match m s with (Ok x, s') => k x s' | (Err e, s') => (Err e, s') end.

Declare Scope session_scope.
Notation "'do' x <- m ; k" := (sbind m (fun x => k)) (at level 10, x pattern, m at level 100, k at level 200) : session_scope.
Local Open Scope session_scope.

Definition set_conn (s : Session) (rs : list bytes) (p : RespParser) : Session :=
  mkSession rs (sent s) p (link_up s) (server s) (applied s).

(** [send_cmd] *)
Definition send_cmd (parts : list bytes) : M unit := fun s =>
  (Ok tt, mkSession (incoming s) (sent s ++ [encode_command parts]) (parser s) (link_up s) (server s) (applied s)).

(** ** Handshake *)

(** [read_one] on the reads to come. *)
Fixpoint read_one_loop (rs : list bytes) (p : RespParser) : result pyobj * (list bytes * RespParser) :=
  match rs with
  | [] | [] :: _ => (Err (ConnectionError (u "master closed during handshake")), (rs, p))
  | data :: rs' =>
      match feed p data with
      | (Err e, p') => (Err e, (rs', p'))
      | (Ok [], p') => read_one_loop rs' p'
      | (Ok [msg], p') => (Ok msg, (rs', p'))
      | (Ok _, p') => (Err (ProtocolError (u "unexpected extra handshake messages")), (rs', p'))
      end
  end.

Definition read_one : M pyobj := fun s =>
  let '(r, (rs, p)) := read_one_loop (incoming s) (parser s) in (r, set_conn s rs p).

(** [ensure(n)] on the local buffer. *)
Fixpoint ensure (n : Z) (buf : bytes) (rs : list bytes) : result bytes * list bytes :=
  if n <=? zlen buf then (Ok buf, rs)
  else match rs with
       | [] | [] :: _ => (Err (ConnectionError (u "master closed while sending RDB")), rs)
       | chunk :: rs' => ensure n (buf ++ chunk) rs'
       end.

(** The loop that looks for the end of the header: [ensure(len(buf) + 1)]
    is one read. *)
Fixpoint read_header (buf : bytes) (rs : list bytes) : result (nat * bytes) * list bytes :=
  match find_crlf buf with
  | Some idx => (Ok (idx, buf), rs)
  | None =>
      match rs with
      | [] | [] :: _ => (Err (ConnectionError (u "master closed while sending RDB")), rs)
      | chunk :: rs' => read_header (buf ++ chunk) rs'
      end
  end.

(** From the header to the end of the snapshot: the length and the bytes
    that follow the header line. *)
Definition rdb_length (limit : Z) (header : bytes) : result Z :=
  match int_of_bytes header with
  | None => Err (ProtocolError (u "bad RDB bulk length " ++ repr_bytes header))
  | Some length =>
      if length <? 0 then Err (ProtocolError (u "null RDB not allowed"))
      else if limit <? length then
        Err (ProtocolError (u "RDB bulk length " ++ str_of_int length ++ u " exceeds snapshot limit " ++ str_of_int limit))
      else Ok length
  end.

(** The messages of the bytes after the snapshot are not used. *)
Definition feed_leftover (p : RespParser) (leftover : bytes) : result unit * RespParser :=
  match leftover with
  | [] => (Ok tt, p)
  | _ => let '(r, p') := feed p leftover in (rmap (fun _ => tt) r, p')
  end.

Definition read_rdb_bulk (limit : Z) : M bytes := fun s =>
  let p := reset (parser s) in
  match ensure 1 (buf (parser s)) (incoming s) with
  | (Err e, rs) => (Err e, set_conn s rs p)
  | (Ok buf1, rs1) =>
      if negb (ceqb (default CR (head buf1)) "$"%byte) then
        (Err (ProtocolError (u "expected RDB bulk header, got bytearray(" ++ repr_bytes (take 20 buf1) ++ u ")")), set_conn s rs1 p)
      else
        match read_header buf1 rs1 with
        | (Err e, rs) => (Err e, set_conn s rs p)
        | (Ok (idx, buf2), rs2) =>
            match rdb_length limit (take (idx - 1) (drop 1 buf2)) with
            | Err e => (Err e, set_conn s rs2 p)
            | Ok length =>
                let start := (idx + 2)%nat in
                match ensure (Z.of_nat start + length) buf2 rs2 with
                | (Err e, rs) => (Err e, set_conn s rs p)
                | (Ok buf3, rs3) =>
                    let rdb := take (Z.to_nat length) (drop start buf3) in
                    let '(r, p') := feed_leftover p (drop (Z.to_nat length) (drop start buf3)) in
                    (rmap (fun _ => rdb) r, set_conn s rs3 p')
                end
            end
        end
  end.

Section Messages.

(** Python's [repr] of a parsed value, which only ends up in messages. *)
Context (repr : pyobj -> str).

(** [reply = await read_one()], which must be [word] as text or bytes. *)
Definition expect (what word : str) : M unit :=
  do reply <- read_one;
  match reply with
  | PStr t | PBytes t => if beqb t word then sret tt else sraise (ProtocolError (u "unexpected " ++ what ++ u " reply: " ++ repr reply))
  | _ => sraise (ProtocolError (u "unexpected " ++ what ++ u " reply: " ++ repr reply))
  end.

Definition expect_fullresync : M unit :=
  do full <- read_one;
  match full with
  | PStr t => if beqb (take 11 t) (u "FULLRESYNC ") then sret tt else sraise (ProtocolError (u "expected FULLRESYNC, got " ++ repr full))
  | _ => sraise (ProtocolError (u "expected FULLRESYNC, got " ++ repr full))
  end.

(** [self.store.load_entries(entries); self.link_status = up] *)
Definition install (es : dict bytes KeyEntry) : M unit := fun s =>
  (Ok tt, mkSession (incoming s) (sent s) (parser s) true (set_store (server s) (load_entries (store (server s)) es)) (applied s)).

Definition lift {A} (r : result A) : M A := fun s => (r, s).

Definition handshake (now : Z) (c : ReplicaClient) : M unit :=
  do _ <- match rc_masterauth c with
          | None => sret tt
          | Some password => do _ <- send_cmd [b "AUTH"; password]; expect (u "AUTH") (u "OK")
          end;
  do _ <- send_cmd [b "PING"];
  do _ <- expect (u "PING") (u "PONG");
  do _ <- send_cmd [b "REPLCONF"; b "listening-port"; str_of_int (rc_listening_port c)];
  do _ <- expect (u "REPLCONF") (u "OK");
  do _ <- send_cmd [b "REPLCONF"; b "capa"; b "eof"];
  do _ <- expect (u "REPLCONF capa") (u "OK");
  do _ <- send_cmd [b "PSYNC"; b "?"; b "-1"];
  do _ <- expect_fullresync;
  do rdb <- read_rdb_bulk (rc_snapshot_max_bytes c);
  do entries <- lift (load_rdb_bytes now (rc_snapshot_max_bytes c) rdb);
  install entries.

(** ** The command stream *)

Definition repl_item (item : pyobj) : result bytes :=
  match item with
  | PBytes v | PStr v => Ok v
  | PNone => Ok []
  | _ => Err (ProtocolError (u "bad argv element: " ++ repr item))
  end.

(** [self.apply_command(argv)], with the world of that command. *)
Definition apply_command (ws : nat -> World) (a : list bytes) : M unit := fun s =>
  let '(r, srv) := apply_replicated_command (ws (applied s)) a (server s) in
  (r, mkSession (incoming s) (sent s) (parser s) (link_up s) srv (S (applied s))).

Fixpoint apply_messages (ws : nat -> World) (messages : list pyobj) : M unit :=
  match messages with
  | [] => sret tt
  | msg :: messages' =>
      match msg with
      | PList (x :: l) =>
          do a <- lift (rmapM repl_item (x :: l));
          do _ <- apply_command ws a;
          apply_messages ws messages'
      | _ => apply_messages ws messages'
      end
  end.

(** [parser.feed(data)] of the session. *)
Definition feed_session (data : bytes) : M (list pyobj) := fun s =>
  let '(r, p) := feed (parser s) data in (r, set_conn s (incoming s) p).

(** One read of [_read_loop]. *)
Definition stream_read (ws : nat -> World) (data : bytes) : M unit :=
  do messages <- feed_session data; apply_messages ws messages.

(** The [while] loop of [_read_loop], until the stream ends. *)
Fixpoint read_stream (ws : nat -> World) (rs : list bytes) : M unit :=
  match rs with
  | [] | [] :: _ => sraise (ConnectionError (u "master closed connection"))
  | data :: rs' => fun s =>
      (do _ <- stream_read ws data; read_stream ws rs') (set_conn s rs' (parser s))
  end.

Definition read_loop (ws : nat -> World) : M unit :=
  do messages <- feed_session [];
  do _ <- apply_messages ws messages;
  fun s => read_stream ws (incoming s) s.

(** [_session], up to its [finally]: one connection with the master. *)
Definition session_body (now : Z) (ws : nat -> World) (c : ReplicaClient) : M unit :=
  do _ <- handshake now c; read_loop ws.

Definition open_session (c : ReplicaClient) (stream : list bytes) (srv : RedisServer) : Session :=
  mkSession stream [] (default_parser (rc_max_bulk_len c)) false srv 0.

(** [finally: self.link_status = down] *)
Definition link_down (s : Session) : Session :=
  mkSession (incoming s) (sent s) (parser s) false (server s) (applied s).

Definition session (now : Z) (ws : nat -> World) (c : ReplicaClient) (stream : list bytes) (srv : RedisServer) :
    result unit * Session :=
  let '(r, s) := session_body now ws c (open_session c stream srv) in (r, link_down s).

End Messages.

(** ** Reconnecting ([_run]) *)

(** The delay (in milliseconds) before the next attempt, after the delay of
    the last failure; a session that returns resets it. *)
Definition next_backoff (backoff : Z) : Z := Z.min (backoff * 2) 10000.

(** The delays of successive attempts, [true] for a session that returned. *)
Fixpoint delays (backoff : Z) (outcomes : list bool) : list Z :=
  match outcomes with
  | [] => []
  | true :: os => delays 500 os
  | false :: os => backoff :: delays (next_backoff backoff) os
  end.

(** ** Reading from chunks *)

Definition chunks (cs : list bytes) : Prop := Forall (fun c => c <> []) cs.

(** Every chunk of [cs] is needed to get [n] bytes. *)
Definition needed (n : Z) (buf : bytes) (cs : list bytes) : Prop :=
  forall cs1 c cs2, cs = cs1 ++ c :: cs2 -> zlen (buf ++ concat cs1) < n.

Lemma needed_tail n buf c cs : needed n buf (c :: cs) -> needed n (buf ++ c) cs.
Proof. intros H cs1 x cs2 ->. specialize (H (c :: cs1) x cs2 eq_refl). simpl in H. by rewrite <- app_assoc. Qed.

Lemma needed_app n buf cs cs' : needed n buf (cs ++ cs') -> needed n (buf ++ concat cs) cs'.
Proof.
  intros H cs1 x cs2 ->. specialize (H (cs ++ cs1) x cs2). rewrite <- app_assoc in H. specialize (H eq_refl).
  by rewrite concat_app, app_assoc in H.
Qed.

Lemma needed_exact buf cs n : chunks cs -> n = zlen (buf ++ concat cs) -> needed n buf cs.
Proof.
  intros Hc -> cs1 c cs2 ->. apply Forall_app in Hc as [_ [Hc _]%Forall_cons]. rewrite concat_app. simpl.
  rewrite !zlen_app. destruct c; [done|]. rewrite zlen_cons. pose proof (zlen_nonneg c). pose proof (zlen_nonneg (concat cs2)). lia.
Qed.

Lemma ensure_done n buf rs : n <= zlen buf -> ensure n buf rs = (Ok buf, rs).
Proof. intros H. destruct rs; simpl; by replace (n <=? zlen buf) with true by lia. Qed.

Lemma ensure_all n buf cs tl :
  chunks cs -> needed n buf cs -> n <= zlen (buf ++ concat cs) -> ensure n buf (cs ++ tl) = (Ok (buf ++ concat cs), tl).
Proof.
  intros Hc. revert buf. induction Hc as [|c cs Hc Hcs IH]; intros buf Hn Hle; simpl in *.
  - rewrite app_nil_r in *. by apply ensure_done.
  - pose proof (Hn [] c cs eq_refl) as H0. simpl in H0. rewrite app_nil_r in H0. replace (n <=? zlen buf) with false by lia.
    destruct c as [|x c]; [done|]. rewrite IH; [by rewrite <- app_assoc|by apply needed_tail|by rewrite <- app_assoc].
Qed.

(** Reading at least [n] bytes out of chunks that hold them. *)
Lemma ensure_some n buf cs tl :
  chunks cs -> n <= zlen (buf ++ concat cs) ->
  exists cs1 cs2, cs = cs1 ++ cs2 /\ ensure n buf (cs ++ tl) = (Ok (buf ++ concat cs1), cs2 ++ tl) /\ n <= zlen (buf ++ concat cs1).
Proof.
  intros Hc. revert buf. induction Hc as [|c cs Hc Hcs IH]; intros buf Hle; simpl in *.
  - exists [], []. simpl. rewrite app_nil_r in *. split_and!; try done. by apply ensure_done.
  - destruct (n <=? zlen buf) eqn:E.
    + exists [], (c :: cs). simpl. rewrite app_nil_r. split_and!; [done..|lia].
    + destruct c as [|x c]; [done|]. destruct (IH (buf ++ x :: c)) as (cs1 & cs2 & -> & H & Hn); [by rewrite <- app_assoc|].
      exists ((x :: c) :: cs1), cs2. simpl in *. rewrite H. rewrite <- app_assoc in *. done.
Qed.

Lemma read_header_some i buf cs tl :
  chunks cs -> find_crlf (buf ++ concat cs) = Some i ->
  exists cs1 cs2, cs = cs1 ++ cs2 /\ read_header buf (cs ++ tl) = (Ok (i, buf ++ concat cs1), cs2 ++ tl) /\
    find_crlf (buf ++ concat cs1) = Some i.
Proof.
  intros Hc. revert buf. induction Hc as [|c cs Hc Hcs IH]; intros buf Hi; simpl in *.
  - rewrite app_nil_r in *. exists [], []. simpl. rewrite app_nil_r. split_and!; [done| |done]. destruct tl; simpl; by rewrite Hi.
  - destruct (find_crlf buf) as [j|] eqn:E.
    + exists [], (c :: cs). simpl. rewrite app_nil_r. rewrite (find_crlf_app _ _ _ E) in Hi. injection Hi as ->. done.
    + destruct c as [|x c]; [done|]. destruct (IH (buf ++ x :: c)) as (cs1 & cs2 & -> & H & Hf); [by rewrite <- app_assoc|].
      exists ((x :: c) :: cs1), cs2. simpl in *. rewrite H. rewrite <- app_assoc in *. done.
Qed.

(** ** The snapshot *)

(** The header that [full_resync] writes before the snapshot. *)
Definition bulk_header (rdb : bytes) : bytes := b "$" ++ str_of_int (zlen rdb) ++ CRLF.

Lemma bulk_header_find rdb l :
  find_crlf (bulk_header rdb ++ l) = Some (S (length (str_of_int (zlen rdb)))).
Proof.
  unfold bulk_header. rewrite <- !app_assoc. rewrite (app_assoc (b "$")). rewrite find_crlf_line; [done|].
  apply one_line_app. split; [|apply str_of_int_one_line]. by repeat constructor.
Qed.

Lemma rdb_length_ok limit (rdb : bytes) :
  zlen rdb <= limit -> zlen rdb < 10 ^ int_max_str_digits -> rdb_length limit (str_of_int (zlen rdb)) = Ok (zlen rdb).
Proof.
  intros Hl Hd. pose proof (zlen_nonneg rdb). unfold rdb_length. rewrite int_of_str_of_int by lia.
  replace (zlen rdb <? 0) with false by lia. by replace (limit <? zlen rdb) with false by lia.
Qed.

Lemma zlen_bulk_header rdb l : 1 <= zlen (bulk_header rdb ++ l).
Proof. unfold bulk_header, zlen. rewrite !length_app. simpl. lia. Qed.

(** The snapshot is read back whatever the chunks; what the last of them
    holds after it goes to the parser. *)
Lemma read_rdb_bulk_ok limit s rdb extra cs tl :
  buf (parser s) ++ concat cs = bulk_header rdb ++ rdb ++ extra -> incoming s = cs ++ tl -> chunks cs ->
  needed (zlen (bulk_header rdb ++ rdb)) (buf (parser s)) cs -> zlen rdb <= limit -> zlen rdb < 10 ^ int_max_str_digits ->
  read_rdb_bulk limit s =
    let '(r, p) := feed_leftover (reset (parser s)) extra in (rmap (fun _ => rdb) r, set_conn s tl p).
Proof.
  intros Hb Hi Hc Hn Hl Hd. unfold read_rdb_bulk. rewrite Hi. set (bf := buf (parser s)) in *.
  destruct (ensure_some 1 bf cs tl Hc) as (cs1 & cs2 & -> & -> & H1); [rewrite Hb; apply zlen_bulk_header|].
  rewrite concat_app, app_assoc in Hb. apply Forall_app in Hc as [_ Hc]. apply needed_app in Hn.
  set (b1 := bf ++ concat cs1) in *. clearbody b1. clear bf Hi.
  assert (head b1 = Some "$"%byte) as ->.
  { destruct b1; [done|]. simpl in *. by injection Hb as -> _. }
  change (negb (ceqb (default CR (Some "$"%byte)) "$"%byte)) with false. cbv iota.
  pose proof (bulk_header_find rdb (rdb ++ extra)) as Hf. rewrite <- Hb in Hf.
  destruct (read_header_some _ b1 cs2 tl Hc Hf) as (cs3 & cs4 & -> & -> & Hf2).
  rewrite concat_app, app_assoc in Hb. apply Forall_app in Hc as [_ Hc]. apply needed_app in Hn.
  set (b2 := b1 ++ concat cs3) in *. apply find_crlf_bound in Hf2.
  assert (exists y, b2 = bulk_header rdb ++ y /\ y ++ concat cs4 = rdb ++ extra) as (y & Ey & Hy).
  { apply app_eq_app in Hb as (y & [[-> ?]|[Hh ?]]); [by exists y|]. exists []. rewrite app_nil_r.
    assert (y = []) as ->.
    { apply (f_equal length) in Hh. unfold bulk_header in Hh. rewrite !length_app in Hh. simpl in Hh.
      apply length_zero_iff_nil. lia. }
    rewrite app_nil_r in Hh. by subst. }
  clearbody b2. subst b2. replace (S (length (str_of_int (zlen rdb))) - 1)%nat with (length (str_of_int (zlen rdb))) by lia.
  assert (take (length (str_of_int (zlen rdb))) (drop 1 (bulk_header rdb ++ y)) = str_of_int (zlen rdb)) as ->.
  { unfold bulk_header. rewrite <- !app_assoc. apply (take_app_length (str_of_int (zlen rdb))). }
  rewrite rdb_length_ok by done. cbv zeta.
  assert (S (length (str_of_int (zlen rdb))) + 2 = length (bulk_header rdb))%nat as ->
    by (unfold bulk_header; rewrite !length_app; simpl; lia).
  change (Z.of_nat (length (bulk_header rdb))) with (zlen (bulk_header rdb)).
  rewrite <- zlen_app, ensure_all; [|done|done|rewrite <- app_assoc, Hy, !zlen_app; pose proof (zlen_nonneg extra); lia].
  rewrite <- app_assoc, Hy, drop_app_length. unfold zlen. rewrite Nat2Z.id, take_app_length, drop_app_length. done.
Qed.

(** ** One reply *)

(** A reply is delivered when its last byte is read; what that read holds
    after it stays in the buffer. *)
Lemma read_one_value p v e post cs tl :
  limits_ok p -> fits p (max_array_depth p) v = true -> encode_value v = Ok e ->
  buf p ++ concat cs = e ++ post -> chunks cs -> cs <> [] -> needed (zlen e) (buf p) cs ->
  quiescent (with_buf p post) -> zlen (e ++ post) <= max_buffer_bytes p ->
  read_one_loop (cs ++ tl) p = (Ok (parsed v), (tl, with_buf p post)).
Proof.
  intros Hlim Hf He. revert p Hlim Hf. induction cs as [|c cs IH]; intros p Hlim Hf Hb Hc Hne Hn Hq Hlen; [done|].
  apply Forall_cons in Hc as [Hc Hcs]. simpl in *. destruct c as [|x c]; [done|].
  assert (zlen (buf p) + zlen (x :: c) <= max_buffer_bytes p) as Hfit.
  { rewrite <- Hb, !zlen_app in Hlen. pose proof (zlen_nonneg (concat cs)). lia. }
  rewrite feed_drain by done. set (p1 := with_buf p (buf p ++ x :: c)).
  destruct cs as [|c2 cs].
  - simpl in Hb. rewrite app_nil_r in Hb.
    assert (drain p1 = prepend (map parsed [v]) (drain (with_buf p1 post))) as ->.
    { apply (drain_encodings p1 [v] [e] post Hlim); [|simpl; by rewrite app_nil_r].
      constructor; [|constructor]. split; [|done]. unfold p1. by rewrite fits_with_buf. }
    unfold p1. rewrite with_buf_twice, Hq. done.
  - assert (zlen (buf p ++ x :: c) < zlen e) as Hlt.
    { specialize (Hn [x :: c] c2 cs eq_refl). simpl in Hn. by rewrite app_nil_r in Hn. }
    assert (exists y, e = (buf p ++ x :: c) ++ y /\ y <> []) as (y & Ey & Hy).
    { simpl in Hb. rewrite app_comm_cons, app_assoc in Hb. apply app_eq_app in Hb as (y & [[E ?]|[-> ?]]).
      - rewrite E in Hlt. rewrite (zlen_app e) in Hlt. pose proof (zlen_nonneg y). lia.
      - exists y. split; [done|]. intros ->. rewrite app_nil_r in Hlt. lia. }
    rewrite (drain_strict_prefix p1 v e (buf p ++ x :: c) y); try done; [|unfold p1; by rewrite fits_with_buf].
    unfold p1. rewrite IH; try done.
    + by rewrite fits_with_buf.
    + cbn [buf with_buf]. by rewrite <- app_assoc.
    + cbn [buf with_buf]. by apply needed_tail.
Qed.

(** ** The log of a replica *)

(** Appends return: the log is off, has failed, or is idle and ready. *)
Definition log_answers (l : AOFLog) : Prop := enabled l = false \/ fh l = false \/ failure l <> None \/ log_ready l.

Lemma append_log_answers io a l :
  log_answers l -> exists r l', append_log io a l = (r, l') /\ log_answers l' /\ (r = Ok tt \/ exists m, r = Err (OSError m)).
Proof.
  intros H. unfold append_log, append. destruct (enabled l) eqn:E1; simpl; [|eexists _, l; split; [done|]; split; [by left|by left]].
  destruct (fh l) eqn:E2; simpl; [|eexists _, l; split; [done|]; split; [by right; left|by left]].
  destruct (failure l) as [e|] eqn:E3; simpl.
  { eexists _, l. split; [done|]. split; [right; right; left; by rewrite E3|right; by eexists]. }
  destruct H as [H|[H|[H|[He Ho Hh Hq [Hk Hp] Hi]]]]; try congruence.
  destruct l as [pol en qm h f sy d q wk ps wt ft cl fl cs]; simpl in *. subst. destruct io as [w fs].
  unfold AofLog.put. rewrite full_nil. unfold writer_take, wake. simpl. unfold writer_write, write_sync. simpl.
  destruct w as [|n|m]; simpl; [destruct pol; simpl; unfold writer_fsync; simpl; [unfold fsync_sync; simpl; destruct fs as [m|]; simpl|..]..|].
  all: unfold writer_complete, writer_fail, fail_pending, writer_fsync; simpl;
    rewrite resolve_lookup, lookup_app_r, Nat.sub_diag by lia; simpl; rewrite bool_decide_true by done; simpl.
  all: eexists _, _; split; [reflexivity|]; split;
    first [right; right; right; by split | right; right; left; done | left; reflexivity | right; by eexists].
Qed.

(** ** Applying the stream *)

(** A replica without a memory limit and without deadlines; its log may be
    off, or fail at any time. *)
Record follower (srv : RedisServer) : Prop := {
  fo_plain : plain (store srv);
  fo_unlimited : unlimited (store srv);
  fo_replica : is_replica (config srv) = true;
  fo_log : log_answers (aof srv)
}.

Lemma execute_replicated w a srv m' :
  follower srv -> clock_forward w -> succeeds (keyspace (store srv)) a m' ->
  exists srv', apply_replicated_command w a srv = (Ok tt, srv') /\ follower srv' /\ keyspace (store srv') = m' /\
    config srv' = config srv.
Proof.
  intros [Hp Hu Hr Hl] Hclk (Hw & Ht & res & Hs & Henc). unfold apply_replicated_command.
  destruct (execute_write w (replicated_ctx a) srv Hw Ht Hp Hclk) as (st' & Hp' & Hlim & Hk & ->); [by right..|].
  assert (unlimited st') as Hu' by (unfold unlimited in *; congruence).
  simpl in *. rewrite Hs in *. simpl in *. rewrite enforce_unlimited by done. unfold finish_command. simpl. rewrite Hw, andb_false_r. cbn [andb negb].
  unfold log_command. destruct (append_log_answers (w_append w 0) a (aof (set_store srv st')) Hl)
    as (r & l' & -> & Hl' & [-> |[m ->]]); simpl.
  - unfold encodes in Henc. destruct (encode_value res) as [d|[]]; try done; simpl; eexists; (split; [done|]); (split; [by split|done]).
  - eexists. split; [done|]. split; [by split|done].
Qed.

Lemma repl_items repr a : rmapM (repl_item repr) (map PBytes a) = Ok a.
Proof. apply rmapM_ok. apply Forall2_fmap_l. by apply Forall_Forall2_diag, Forall_true. Qed.

(** A session whose server follows, after [cmds]. *)
Definition advanced (s s' : Session) (n : nat) : Prop :=
  incoming s' = incoming s /\ sent s' = sent s /\ parser s' = parser s /\ link_up s' = link_up s /\
  applied s' = (applied s + n)%nat /\ config (server s') = config (server s).

Lemma apply_commands repr ws cmds s m' :
  follower (server s) -> (forall i, clock_forward (ws i)) -> Forall (fun c => c <> []) cmds ->
  succeed_all (keyspace (store (server s))) cmds m' ->
  exists s', apply_messages repr ws (map command_obj cmds) s = (Ok tt, s') /\ follower (server s') /\
    keyspace (store (server s')) = m' /\ advanced s s' (length cmds).
Proof.
  intros Hf Hclk Hne H. remember (keyspace (store (server s))) as m0 eqn:Em. revert s Hf Em Hne.
  induction H as [m|m a m1 cmds m2 Hs Hsa IH]; intros s Hf -> Hne.
  - exists s. split; [done|]. split; [done|]. split; [done|]. unfold advanced; simpl; split_and!; first [done|lia].
  - apply Forall_cons in Hne as [Ha Hne].
    destruct (execute_replicated (ws (applied s)) a (server s) m1 Hf (Hclk _) Hs) as (srv' & Hx & Hf' & Hk & Hc).
    destruct (IH (mkSession (incoming s) (sent s) (parser s) (link_up s) srv' (S (applied s))) Hf' (eq_sym Hk) Hne)
      as (s' & H1 & H2 & H3 & (I1 & I2 & I3 & I4 & I5 & I6)).
    exists s'. split.
    + destruct a as [|x l]; [done|]. cbn [map]. unfold command_obj at 1. cbn [map apply_messages].
      unfold sbind at 1, lift. change (PBytes x :: map PBytes l) with (map PBytes (x :: l)). rewrite repl_items.
      unfold sbind, apply_command. rewrite Hx. exact H1.
    + split; [done|]. split; [done|]. simpl in *. repeat split; try congruence. simpl. lia.
Qed.

Lemma succeed_all_app m l1 l2 m2 : succeed_all m (l1 ++ l2) m2 -> exists m1, succeed_all m l1 m1 /\ succeed_all m1 l2 m2.
Proof.
  revert m. induction l1 as [|a l1 IH]; intros m H; simpl in *; [exists m; split; [constructor|done]|].
  inversion H as [|? m1 ? ? Hs Hsa]; subst. destruct (IH _ Hsa) as (m3 & H1 & H2). exists m3. split; [by econstructor|done].
Qed.

Lemma sbind_ok {A B} (m : M A) (k : A -> M B) s x s' : m s = (Ok x, s') -> sbind m k s = k x s'.
Proof. unfold sbind. by intros ->. Qed.

(** How many of the commands [n] bytes of their encodings hold. *)
Fixpoint received (cmds : list (list bytes)) (n : Z) : nat :=
  match cmds with
  | [] => 0
  | a :: cmds' => if zlen (encode_command a) <=? n then S (received cmds' (n - zlen (encode_command a))) else 0
  end.

Lemma wire_cons a cmds : wire (a :: cmds) = encode_command a ++ wire cmds.
Proof. done. Qed.

Lemma received_wire cmds k n :
  (k <= length cmds)%nat -> 0 <= n -> received cmds (zlen (wire (take k cmds)) + n) = (k + received (drop k cmds) n)%nat.
Proof.
  revert k. induction cmds as [|a cmds IH]; intros [|k] Hk Hn; cbn [length] in Hk; try lia; try done.
  cbn [take drop received Nat.add]. rewrite wire_cons, zlen_app. pose proof (zlen_nonneg (wire (take k cmds))).
  replace (zlen (encode_command a) <=? _) with true by lia. f_equal. rewrite <- IH by lia. f_equal. lia.
Qed.

(** A session in its command stream: [cmds] are the commands whose encodings the
    buffer and the bytes [tl] to come hold; reads have at most [size] bytes. *)
Record streaming (size : Z) (cmds : list (list bytes)) (tl : bytes) (s : Session) : Prop := {
  sg_limits : limits_ok (parser s);
  sg_depth : 0 < max_array_depth (parser s);
  sg_follower : follower (server s);
  sg_fit : Forall (fun a => a <> [] /\ command_fits (parser s) a = true /\ zlen (encode_command a) + size <= max_buffer_bytes (parser s)) cmds;
  sg_bytes : buf (parser s) ++ tl = wire cmds;
  sg_head : forall a, head cmds = Some a -> zlen (buf (parser s)) < zlen (encode_command a)
}.

Lemma streaming_received size cmds tl s : streaming size cmds tl s -> received cmds (zlen (buf (parser s))) = 0%nat.
Proof. intros []. destruct cmds as [|a cmds]; [done|]. cbn [received]. specialize (sg_head0 a eq_refl). by replace (_ <=? _) with false by lia. Qed.

(** A read applies the commands that it completes. *)
Lemma stream_read_applies repr ws c tl cmds s m' size :
  streaming size cmds (c ++ tl) s -> (forall i, clock_forward (ws i)) -> c <> [] -> zlen c <= size -> succeed_all (keyspace (store (server s))) cmds m' ->
  let k := received cmds (zlen (buf (parser s)) + zlen c) in
  exists m1 s1, stream_read repr ws c s = (Ok tt, s1) /\ streaming size (drop k cmds) tl s1 /\
    succeed_all (keyspace (store (server s))) (take k cmds) m1 /\ succeed_all m1 (drop k cmds) m' /\ keyspace (store (server s1)) = m1 /\
    zlen (buf (parser s)) + zlen c = zlen (wire (take k cmds)) + zlen (buf (parser s1)) /\ (k <= length cmds)%nat /\
    incoming s1 = incoming s /\ sent s1 = sent s /\ link_up s1 = link_up s /\ config (server s1) = config (server s) /\ applied s1 = (applied s + k)%nat.
Proof.
  intros [Hlim Hd Hfo Hcm Hb Hh] Hclk Hcne Hsz Hsa. set (p := parser s) in *. set (n := length (buf p ++ c)).
  assert (take n (wire cmds) = buf p ++ c) as Htk by (rewrite <- Hb, app_assoc; apply take_app_length).
  assert (Forall (fun a => command_fits p a = true) cmds) as Hfit by (eapply Forall_impl; [exact Hcm|]; naive_solver).
  destruct (drain_cut p cmds n Hlim Hd Hfit) as (k0 & rest & Hdr & Ht & H1 & H2). rewrite Htk in Hdr, Ht.
  assert (exists k, (k <= length cmds)%nat /\ take k0 cmds = take k cmds /\ drop k0 cmds = drop k cmds /\ received (drop k cmds) (zlen rest) = 0%nat /\
    (forall a, head (drop k cmds) = Some a -> zlen rest < zlen (encode_command a))) as (k & Hk & Et & Ed & Hr0 & Hhd).
  { destruct (decide (k0 < length cmds)%nat) as [Hlt|Hge].
    - exists k0. destruct (H1 Hlt) as (a & Ea & Hlen). split_and!; try done; [lia|..]; rewrite (drop_S _ a) by done.
      + cbn [received]. unfold zlen. by replace (_ <=? _) with false by lia.
      + intros a' [= <-]. unfold zlen. lia.
    - exists (length cmds). rewrite !drop_ge, !take_ge by lia. by split_and!. }
  rewrite Et in *. assert (received cmds (zlen (buf p) + zlen c) = k) as ->.
  { rewrite <- zlen_app, Ht, zlen_app, received_wire, Hr0 by (done || apply zlen_nonneg). lia. }
  cbv zeta. rewrite <- (take_drop k cmds) in Hsa. apply succeed_all_app in Hsa as (m1 & Hs1 & Hs2).
  assert (Forall (fun a => a <> []) (take k cmds)) as Hne by (apply Forall_take; eapply Forall_impl; [exact Hcm|]; naive_solver).
  destruct (apply_commands repr ws (take k cmds) (set_conn s (incoming s) (with_buf p rest)) m1 Hfo Hclk Hne Hs1)
    as (s1 & Ha & Hf1 & Hk1 & (I1 & I2 & I3 & I4 & I5 & I6)).
  assert (buf (parser s1) = rest /\ parser s1 = with_buf p rest) as [Hbuf Hp1] by (by rewrite I3).
  exists m1, s1. split_and!; try done.
  - unfold stream_read, sbind at 1, feed_session. fold p. rewrite feed_drain, Hdr; [exact Ha|].
    destruct cmds as [|a cmds]; [|specialize (Hh a eq_refl); apply Forall_cons in Hcm as [(_ & _ & ?) _]; lia].
    unfold wire in Hb. simpl in Hb. apply app_nil in Hb as [_ Hb]. apply app_nil in Hb as [-> _]. done.
  - split; rewrite ?Hp1; try done; [by apply Forall_drop|]. cbn [buf with_buf]. rewrite <- (take_drop k cmds), wire_app, app_assoc, Ht, <- app_assoc in Hb.
    by apply app_inv_head in Hb.
  - by rewrite <- !zlen_app, Ht, Hbuf.
  - rewrite I5, length_take. cbn [applied set_conn]. lia.
Qed.

Lemma streaming_end size cmds s : streaming size cmds [] s -> cmds = [].
Proof.
  intros [_ _ _ _ Hb Hh]. destruct cmds as [|a cmds]; [done|]. specialize (Hh a eq_refl). rewrite app_nil_r, wire_cons in Hb.
  apply (f_equal zlen) in Hb. rewrite zlen_app in Hb. pose proof (zlen_nonneg (wire cmds)). lia.
Qed.

(** The stream of commands, in any chunks, is applied command by command. *)
Lemma read_stream_applies repr ws cs cmds s m' size :
  streaming size cmds (concat cs) s -> (forall i, clock_forward (ws i)) -> chunks cs -> Forall (fun c => zlen c <= size) cs ->
  succeed_all (keyspace (store (server s))) cmds m' ->
  exists s', read_stream repr ws cs s = (Err (ConnectionError (u "master closed connection")), s') /\
    follower (server s') /\ keyspace (store (server s')) = m' /\ applied s' = (applied s + length cmds)%nat /\
    sent s' = sent s /\ link_up s' = link_up s.
Proof.
  intros Hst Hclk Hc Hsz. revert cmds s Hst. induction Hc as [|c cs Hc Hcs IH]; intros cmds s Hst Hsa.
  - pose proof (streaming_end _ _ _ Hst) as ->. inversion Hsa; subst. exists s. simpl. split_and!; first [done|apply Hst|lia].
  - apply Forall_cons in Hsz as [Hz Hszs].
    destruct (stream_read_applies repr ws c (concat cs) cmds (set_conn s cs (parser s)) m' size) as (m1 & s1 & Hx & Hst1 & _ & Hs2 & Hk1 & _ & Hle & _ & I2 & I4 & _ & I5); try done.
    { destruct Hst. by split. }
    rewrite <- Hk1 in Hs2. destruct (IH Hszs _ _ Hst1 Hs2) as (s' & J1 & J2 & J3 & J4 & J5 & J6). exists s'. split.
    + destruct c as [|x c]; [done|]. cbn [read_stream]. by rewrite (sbind_ok _ _ _ _ _ Hx).
    + split_and!; [done|done| |by rewrite J5, I2|by rewrite J6, I4]. rewrite J4, I5, length_drop. cbn [applied set_conn] in *. lia.
Qed.

(** ** The handshake *)

Lemma default_limits mbl : mbl < 10 ^ int_max_str_digits -> limits_ok (default_parser mbl).
Proof. intros H. split; [done|]. apply Z.ltb_lt. by vm_compute. Qed.

Lemma set_conn_id s : set_conn s (incoming s) (parser s) = s.
Proof. by destruct s. Qed.

(** A simple-string reply, in any chunks. *)
Lemma expect_reply repr what word mbl cs tl s :
  mbl < 10 ^ int_max_str_digits -> parser s = default_parser mbl -> incoming s = cs ++ tl -> chunks cs ->
  encode_simple_string word = Ok (concat cs) -> utf8_replace word = word -> zlen (concat cs) <= 32000000 ->
  expect repr what word s = (Ok tt, set_conn s tl (parser s)).
Proof.
  intros Hm Hp Hi Hc He Hu Hz. unfold expect, sbind, read_one. rewrite Hi, Hp.
  assert (concat cs <> []) as Hne by (by eapply (encode_value_nonempty (default_parser mbl) 0 (PSimple word))).
  rewrite (read_one_value (default_parser mbl) (PSimple word) (concat cs) [] cs tl); try done.
  - simpl. rewrite Hu. unfold beqb. rewrite bool_decide_true by done. done.
  - by rewrite app_nil_r.
  - by intros ->.
  - by apply needed_exact.
  - by rewrite app_nil_r.
Qed.

(** The state between two exchanges of the handshake. *)
Definition between (s : Session) (rs out : list bytes) : Session :=
  mkSession rs out (parser s) (link_up s) (server s) (applied s).

(** A command and its reply. *)
Lemma ask {B} repr parts what word mbl cs tl s (k : M B) :
  mbl < 10 ^ int_max_str_digits -> parser s = default_parser mbl -> incoming s = cs ++ tl -> chunks cs ->
  encode_simple_string word = Ok (concat cs) -> utf8_replace word = word -> zlen (concat cs) <= 32000000 ->
  (do _ <- send_cmd parts; do _ <- expect repr what word; k) s = k (between s tl (sent s ++ [encode_command parts])).
Proof.
  intros Hm Hp Hi Hc He Hu Hz. erewrite sbind_ok by reflexivity.
  erewrite sbind_ok; [|eapply (expect_reply repr what word mbl cs tl); try done]. done.
Qed.

(** Any chunks can be cut after the one that completes the first [n] bytes. *)
Lemma chunks_cut n buf cs :
  zlen buf < n -> n <= zlen (buf ++ concat cs) ->
  exists cs1 cs2, cs = cs1 ++ cs2 /\ cs1 <> [] /\ needed n buf cs1 /\ n <= zlen (buf ++ concat cs1).
Proof.
  revert buf. induction cs as [|c cs IH]; intros buf H0 Hn; simpl in Hn; [rewrite app_nil_r in Hn; lia|].
  destruct (decide (n <= zlen (buf ++ c))) as [Hle|Hlt].
  - exists [c], cs. simpl. rewrite app_nil_r. split_and!; try done. intros cs1 x cs2 E. destruct cs1 as [|y cs1]; [by rewrite app_nil_r|].
    by destruct cs1.
  - destruct (IH (buf ++ c)) as (cs1 & cs2 & -> & Hne & Hnd & Hle); [lia|by rewrite <- app_assoc|].
    exists (c :: cs1), cs2. simpl. rewrite <- app_assoc in Hle. split_and!; try done.
    intros cs3 x cs4 E. destruct cs3 as [|y cs3]; simpl in *; [by rewrite app_nil_r|]. injection E as -> ->.
    specialize (Hnd cs3 x cs4 eq_refl). by rewrite <- app_assoc in Hnd.
Qed.

Lemma simple_string_line text hdr : encode_simple_string text = Ok hdr -> exists line, hdr = line ++ CRLF /\ one_line line.
Proof.
  unfold encode_simple_string. destruct (has_crlf_char text) eqn:E; [done|]. intros [= <-]. exists (b "+" ++ text).
  split; [by rewrite <- app_assoc|]. apply one_line_app. split; [by repeat constructor|]. by apply has_crlf_char_one_line.
Qed.

Lemma app_eq_prefix (l p k1 k2 : bytes) :
  l ++ k1 = p ++ k2 -> zlen p <= zlen l -> exists y, l = p ++ y /\ k2 = y ++ k1.
Proof.
  intros H Hz. apply app_eq_app in H as (y & [?|[-> ->]]); [by exists y|]. rewrite zlen_app in Hz.
  destruct y; [|rewrite zlen_cons in Hz; pose proof (zlen_nonneg y); lia]. exists []. by rewrite !app_nil_r.
Qed.

(** The header line, with whatever part of the snapshot comes in the same
    read. *)
Lemma read_fullresync repr text hdr rdb extra mbl fcs rcs tl s :
  0 <= mbl < 10 ^ int_max_str_digits -> parser s = default_parser mbl -> incoming s = fcs ++ rcs ++ tl -> chunks fcs -> fcs <> [] ->
  encode_simple_string (u "FULLRESYNC " ++ text) = Ok hdr -> zlen rdb <= mbl -> needed (zlen hdr) [] fcs ->
  zlen hdr <= zlen (concat fcs) <= Z.min 32000000 (zlen (hdr ++ bulk_header rdb ++ rdb)) ->
  concat fcs ++ concat rcs = (hdr ++ bulk_header rdb ++ rdb) ++ extra ->
  exists post, concat fcs = hdr ++ post /\ post ++ concat rcs = bulk_header rdb ++ rdb ++ extra /\
    expect_fullresync repr s = (Ok tt, set_conn s (rcs ++ tl) (with_buf (default_parser mbl) post)).
Proof.
  intros Hm Hp Hi Hc Hne He Hr Hn Hle Hb. rewrite <- !app_assoc in Hb.
  destruct (app_eq_prefix (concat fcs) hdr (concat rcs) _ Hb) as (post & Ef & Ep); [lia|].
  rewrite Ef in Hle. rewrite !(zlen_app hdr) in Hle. rewrite app_assoc in Ep. symmetry in Ep.
  destruct (app_eq_prefix (bulk_header rdb ++ rdb) post extra (concat rcs) (eq_sym Ep)) as (y & Ey & _); [lia|].
  exists post. rewrite app_assoc. split; [done|]. split; [done|]. unfold expect_fullresync, sbind, read_one. rewrite Hi, Hp.
  rewrite (read_one_value (default_parser mbl) (PSimple (u "FULLRESYNC " ++ text)) hdr post fcs (rcs ++ tl)); try done.
  - by apply default_limits, Hm.
  - apply (drain_strict_prefix _ (PBytes rdb) (bulk_header rdb ++ rdb ++ CRLF) post (y ++ CRLF)); try done.
    + by apply default_limits, Hm.
    + simpl. lia.
    + simpl. unfold encode_bulk_string, bulk_header. by rewrite <- !app_assoc.
    + by rewrite (app_assoc post), <- Ey, <- app_assoc.
    + by destruct y.
  - rewrite zlen_app. simpl. lia.
Qed.

(** ** Deliveries *)

(** The replies to the commands before PSYNC. *)
Definition answers (c : ReplicaClient) : list bytes :=
  match rc_masterauth c with Some _ => [b "+OK" ++ CRLF] | None => [] end ++ [b "+PONG" ++ CRLF; b "+OK" ++ CRLF; b "+OK" ++ CRLF].

Definition handshake_commands (c : ReplicaClient) : list (list bytes) :=
  match rc_masterauth c with Some password => [[b "AUTH"; password]] | None => [] end ++
  [[b "PING"]; [b "REPLCONF"; b "listening-port"; str_of_int (rc_listening_port c)]; [b "REPLCONF"; b "capa"; b "eof"];
   [b "PSYNC"; b "?"; b "-1"]].

(** [l] arrives in the reads [cs]. *)
Definition arrives (l : bytes) (cs : list bytes) : Prop := chunks cs /\ concat cs = l.

(** The exchanges before PSYNC, then PSYNC itself. *)
Lemma handshake_answers repr now c acs tl srv :
  rc_max_bulk_len c < 10 ^ int_max_str_digits -> Forall2 arrives (answers c) acs ->
  handshake repr now c (open_session c (concat acs ++ tl) srv) =
  (do _ <- expect_fullresync repr;
   do rdb <- read_rdb_bulk (rc_snapshot_max_bytes c);
   do entries <- lift (load_rdb_bytes now (rc_snapshot_max_bytes c) rdb);
   install entries)
  (between (open_session c [] srv) tl (map encode_command (handshake_commands c))).
Proof.
  intros Hm HF. unfold handshake, answers, handshake_commands in *.
  destruct (rc_masterauth c) as [password|].
  - inversion_clear HF as [|? cs0 ? acs0 [Hc0 H0] HF0]. inversion_clear HF0 as [|? cs1 ? acs1 [Hc1 H1] HF1].
    inversion_clear HF1 as [|? cs2 ? acs2 [Hc2 H2] HF2]. inversion_clear HF2 as [|? cs3 ? acs3 [Hc3 H3] HF3]. inversion HF3; subst.
    cbn [concat]. rewrite app_nil_r, <- !app_assoc.
    erewrite sbind_ok; cycle 1.
    { erewrite sbind_ok by reflexivity.
      eapply (expect_reply repr _ _ (rc_max_bulk_len c) cs0); try done; by rewrite ?H0. }
    cbn [set_conn incoming parser sent].
    erewrite (ask repr _ _ _ (rc_max_bulk_len c) cs1); try done; try (by rewrite ?H1).
    erewrite (ask repr _ _ _ (rc_max_bulk_len c) cs2); try done; try (by rewrite ?H2).
    erewrite (ask repr _ _ _ (rc_max_bulk_len c) cs3); try done; try (by rewrite ?H3).
  - inversion_clear HF as [|? cs1 ? acs1 [Hc1 H1] HF1].
    inversion_clear HF1 as [|? cs2 ? acs2 [Hc2 H2] HF2]. inversion_clear HF2 as [|? cs3 ? acs3 [Hc3 H3] HF3]. inversion HF3; subst.
    cbn [concat]. rewrite app_nil_r, <- !app_assoc. erewrite sbind_ok by reflexivity.
    erewrite (ask repr _ _ _ (rc_max_bulk_len c) cs1); try done; try (by rewrite ?H1).
    erewrite (ask repr _ _ _ (rc_max_bulk_len c) cs2); try done; try (by rewrite ?H2).
    erewrite (ask repr _ _ _ (rc_max_bulk_len c) cs3); try done; try (by rewrite ?H3).
Qed.

(** The whole handshake: the header line with a first part of the snapshot,
    then the rest of it; [extra] is what the last read of the snapshot holds
    after it. *)
Lemma handshake_ok repr now c m off es payload d acs fcs rcs extra p tl srv :
  0 <= rc_max_bulk_len c < 10 ^ int_max_str_digits -> Forall2 arrives (answers c) acs ->
  snapshot_of m off es payload ->
  (forall rdb, dump_rdb_entries es = Ok rdb -> zlen rdb <= rc_snapshot_max_bytes c ->
     load_rdb_bytes now (rc_snapshot_max_bytes c) rdb = Ok d) ->
  chunks (fcs ++ rcs) -> concat fcs ++ concat rcs = payload ++ extra ->
  zlen payload <= Z.min 32000000 (Z.min (rc_max_bulk_len c) (rc_snapshot_max_bytes c)) -> fcs <> [] ->
  (forall i, find_crlf payload = Some i -> needed (Z.of_nat i + 2) [] fcs /\ Z.of_nat i + 2 <= zlen (concat fcs)) ->
  zlen (concat fcs) <= zlen payload -> needed (zlen payload) (concat fcs) rcs ->
  feed_leftover (default_parser (rc_max_bulk_len c)) extra = (Ok tt, p) ->
  handshake repr now c (open_session c (concat acs ++ fcs ++ rcs ++ tl) srv) =
  (Ok tt, mkSession tl (map encode_command (handshake_commands c)) p true (set_store srv (load_entries (store srv) d)) 0).
Proof.
  intros Hm HF Hpay Hload Hc Hb Hz Hne Hline Hfz Hn Hlo.
  destruct Hpay as (rdb & hdr & Hrdb & Hh & ->). fold (bulk_header rdb) in *.
  rewrite (handshake_answers repr now c acs) by (apply Hm || done). apply Forall_app in Hc as [Hfc Hrc].
  destruct (simple_string_line _ _ Hh) as (line & Eh & Ho).
  destruct (Hline (length hdr - 2)%nat) as [Hnd Hlez].
  { rewrite Eh, <- app_assoc, find_crlf_line by done. f_equal. rewrite (length_app line CRLF). simpl. lia. }
  assert (Z.of_nat (length hdr - 2) + 2 = zlen hdr) as Ez by (unfold zlen; rewrite Eh, (length_app line CRLF); simpl; lia).
  rewrite Ez in Hnd, Hlez. rewrite !zlen_app in Hz. pose proof (zlen_nonneg hdr). pose proof (zlen_nonneg (bulk_header rdb)).
  destruct (read_fullresync repr _ hdr rdb extra (rc_max_bulk_len c) fcs rcs tl
    (between (open_session c [] srv) (fcs ++ rcs ++ tl) (map encode_command (handshake_commands c))) Hm eq_refl eq_refl Hfc Hne Hh)
    as (post & Ef & Ep & Hx); [lia|done|split; [done|apply Z.min_glb; [|done]]|done|].
  { rewrite !zlen_app in Hfz. lia. }
  rewrite (sbind_ok _ _ _ _ _ Hx). erewrite sbind_ok; cycle 1.
  { erewrite (read_rdb_bulk_ok _ _ rdb extra rcs tl); try done; [|cbn [parser set_conn buf with_buf]|lia|lia].
    - cbn [parser set_conn]. unfold reset. rewrite with_buf_twice. change (with_buf (default_parser (rc_max_bulk_len c)) []) with (default_parser (rc_max_bulk_len c)). rewrite Hlo. reflexivity.
    - intros cs1 x cs2 E. specialize (Hn cs1 x cs2 E). rewrite Ef, <- app_assoc, !(zlen_app hdr) in Hn. lia. }
  erewrite sbind_ok; [|unfold lift; rewrite (Hload rdb); [reflexivity|done|lia]]. done.
Qed.

(** A snapshot without deadlines is loaded as it was. *)
Lemma load_timeless now max nowm st rdb :
  plain st -> dump_rdb_entries (snapshot nowm st).1 = Ok rdb -> zlen rdb <= max -> load_rdb_bytes now max rdb = Ok (entries st).
Proof.
  intros [Hok Hnd]. rewrite (snapshot_timeless nowm st Hok (no_deadlines_keyspace _ Hnd)). simpl. intros Hd Hz.
  rewrite (load_dump now max (entries st) rdb); [|apply Hok| |done|done].
  - f_equal. apply filter_all. eapply Forall_impl; [exact Hnd|]. by intros ke ->.
  - apply Forall_forall. intros [k e] Hke. split.
    + eapply Hok. apply dict_elem_get; [apply Hok|exact Hke].
    + unfold no_deadlines in Hnd. rewrite Forall_forall in Hnd. by rewrite (Hnd _ Hke).
Qed.

Lemma install_follower srv st :
  follower srv -> plain st ->
  follower (set_store srv (load_entries (store srv) (entries st))) /\
  keyspace (load_entries (store srv) (entries st)) = keyspace st.
Proof.
  intros [_ Hu Hr Hl] Hp. destruct (load_entries_plain (store srv) st Hp) as [Hp' Hk]. by split.
Qed.

(** Commands after the snapshot in the same read are parsed and forgotten. *)
Lemma leftover_forgotten mbl cmds :
  mbl < 10 ^ int_max_str_digits -> Forall (loggable mbl) cmds -> zlen (wire cmds) <= 32000000 ->
  feed_leftover (default_parser mbl) (wire cmds) = (Ok tt, default_parser mbl).
Proof.
  intros Hm HF Hz. unfold feed_leftover. destruct (wire cmds) as [|x l] eqn:E; [done|]. rewrite <- E in *.
  rewrite feed_drain by done. change (buf (default_parser mbl) ++ wire cmds) with (wire cmds). rewrite (drain_pipeline (default_parser mbl) cmds); [done|by apply default_limits|done|].
  eapply Forall_impl; [exact HF|]. by intros a [_ ?].
Qed.

(** A session whose stream ends with the snapshot. *)
Lemma session_ends repr now ws c stream srv s0 :
  handshake repr now c (open_session c stream srv) = (Ok tt, s0) -> incoming s0 = [] -> parser s0 = default_parser (rc_max_bulk_len c) ->
  session repr now ws c stream srv = (Err (ConnectionError (u "master closed connection")), link_down s0).
Proof.
  intros H Hi Hp. unfold session, session_body. rewrite (sbind_ok _ _ _ _ _ H). unfold read_loop.
  assert (feed_session [] s0 = (Ok [], s0)) as Hf by (unfold feed_session; rewrite Hp; simpl; rewrite <- Hp; by rewrite set_conn_id).
  rewrite (sbind_ok _ _ _ _ _ Hf). cbn [apply_messages]. rewrite (sbind_ok (sret tt) _ s0 tt s0 eq_refl). by rewrite Hi.
Qed.

(** The session after the handshake. *)
Definition in_stream (c : ReplicaClient) (srv : RedisServer) (st : Store) (rs : list bytes) : Session :=
  mkSession rs (map encode_command (handshake_commands c)) (default_parser (rc_max_bulk_len c)) true
    (set_store srv (load_entries (store srv) (entries st))) 0.

Lemma handshake_installs repr now nowm c m off stm payload srv acs ps rs :
  plain stm -> 0 <= rc_max_bulk_len c < 10 ^ int_max_str_digits -> snapshot_of m off (snapshot nowm stm).1 payload ->
  zlen payload <= Z.min 32000000 (Z.min (rc_max_bulk_len c) (rc_snapshot_max_bytes c)) ->
  Forall2 arrives (answers c) acs -> arrives payload ps ->
  handshake repr now c (open_session c (concat acs ++ ps ++ rs) srv) = (Ok tt, in_stream c srv stm rs).
Proof.
  intros Hpl Hm Hpay Hz HF [Hpc Hps].
  assert (exists i, find_crlf payload = Some i) as (i & Hi).
  { destruct Hpay as (rdb & hdr & _ & Hh & ->).
    destruct (simple_string_line _ _ Hh) as (line & -> & Ho). eexists. rewrite <- app_assoc. by apply find_crlf_line. }
  pose proof (find_crlf_bound _ _ Hi) as Hbd. subst payload.
  destruct (chunks_cut (Z.of_nat i + 2) [] ps) as (fcs & rcs & -> & Hne & Hn & Hle); [rewrite zlen_nil; lia|unfold zlen; simpl; lia|].
  rewrite concat_app in *. simpl in Hle.
  rewrite <- app_assoc. apply (handshake_ok repr now c m off (snapshot nowm stm).1 (concat fcs ++ concat rcs) (entries stm)
      acs fcs rcs [] (default_parser (rc_max_bulk_len c)) rs srv); try done.
  - intros rdb Hd Hzr. by eapply load_timeless.
  - by rewrite app_nil_r.
  - intros j Hj. assert (j = i) as -> by congruence. by split.
  - rewrite zlen_app. pose proof (zlen_nonneg (concat rcs)). lia.
  - apply Forall_app in Hpc as [_ Hrc]. by apply needed_exact.
Qed.

(** The command stream begins. *)
Lemma in_stream_streaming c srv stm rs cmds :
  follower srv -> plain stm -> 0 <= rc_max_bulk_len c < 10 ^ int_max_str_digits ->
  Forall (fun a => loggable (rc_max_bulk_len c) a /\ zlen (encode_command a) <= 31000000) cmds ->
  streaming 65536 cmds (wire cmds) (in_stream c srv stm rs) /\ keyspace (store (server (in_stream c srv stm rs))) = keyspace stm.
Proof.
  intros Hfo Hpl Hm Hcm. destruct (install_follower srv stm Hfo Hpl) as [Hfo' Hk]. split; [|done].
  split; try done; [by apply default_limits, Hm|].
  eapply Forall_impl; [exact Hcm|]. intros a [[? ?] ?]. split_and!; [done|done|]. simpl. lia.
Qed.

(** A session that is given the snapshot of [stm] and then the commands [cmds],
    in whatever reads (none of them holding the end of the snapshot and the
    start of the commands), ends, when the master goes away, with the keyspace
    that the commands make. *)
Lemma session_converges repr now nowm ws c m off stm payload cmds m' srv acs ps scs :
  follower srv -> plain stm -> (forall i, clock_forward (ws i)) -> 0 <= rc_max_bulk_len c < 10 ^ int_max_str_digits ->
  snapshot_of m off (snapshot nowm stm).1 payload ->
  zlen payload <= Z.min 32000000 (Z.min (rc_max_bulk_len c) (rc_snapshot_max_bytes c)) ->
  succeed_all (keyspace stm) cmds m' ->
  Forall (fun a => loggable (rc_max_bulk_len c) a /\ zlen (encode_command a) <= 31000000) cmds ->
  Forall2 arrives (answers c) acs -> arrives payload ps -> arrives (wire cmds) scs -> Forall (fun x => zlen x <= 65536) scs ->
  exists s', session repr now ws c (concat acs ++ ps ++ scs) srv = (Err (ConnectionError (u "master closed connection")), s') /\
    sent s' = map encode_command (handshake_commands c) /\ applied s' = length cmds /\
    keyspace (store (server s')) = m' /\ store_ok (store (server s')).
Proof.
  intros Hfo Hpl Hclk Hm Hpay Hz Hsa Hcm HF Hps [Hsc Hss] Hsz. set (s0 := in_stream c srv stm scs).
  pose proof (handshake_installs repr now nowm c m off stm payload srv acs ps scs Hpl Hm Hpay Hz HF Hps) as Hhs. fold s0 in Hhs.
  destruct (in_stream_streaming c srv stm scs cmds Hfo Hpl Hm Hcm) as [Hst Hk]. fold s0 in Hst, Hk. rewrite <- Hss in Hst. rewrite <- Hk in Hsa.
  destruct (read_stream_applies repr ws scs cmds s0 m' 65536) as (s' & Hrs & H1 & H2 & H3 & H4 & H5); try done.
  exists (link_down s'). unfold session, session_body. rewrite (sbind_ok _ _ _ _ _ Hhs). unfold read_loop.
  rewrite (sbind_ok (feed_session []) _ s0 [] s0 eq_refl). cbn [apply_messages]. rewrite (sbind_ok (sret tt) _ s0 tt s0 eq_refl).
  change (incoming s0) with scs. rewrite Hrs. split; [done|]. simpl. split_and!; try done. apply H1.
Qed.

(** ** Properties *)

(** C34 Commands that reach the replica in the same read as the end of the
    snapshot are lost: they are fed to the parser and its messages are thrown
    away, so that the session goes on without them and without an error. *)
Theorem replica_loses_commands repr now nowm ws c m off stm part rest cmds srv acs :
  follower srv -> plain stm -> 0 <= rc_max_bulk_len c < 10 ^ int_max_str_digits ->
  snapshot_of m off (snapshot nowm stm).1 (part ++ rest) ->
  zlen (part ++ rest) <= Z.min 32000000 (Z.min (rc_max_bulk_len c) (rc_snapshot_max_bytes c)) ->
  find_crlf part <> None -> rest <> [] -> Forall (loggable (rc_max_bulk_len c)) cmds -> zlen (wire cmds) <= 32000000 ->
  Forall2 arrives (answers c) acs ->
  exists s', session repr now ws c (concat acs ++ [part] ++ [rest ++ wire cmds]) srv =
      (Err (ConnectionError (u "master closed connection")), s') /\
    applied s' = 0%nat /\ keyspace (store (server s')) = keyspace stm.
Proof.
  intros Hfo Hpl Hm Hpay Hz Hcr Hne Hl Hw HF. destruct (install_follower srv stm Hfo Hpl) as [_ Hk].
  destruct (find_crlf part) as [i|] eqn:Hi; [|done]. pose proof (find_crlf_bound _ _ Hi) as Hbd.
  eexists. split.
  - eapply session_ends; [rewrite <- (app_nil_r [rest ++ wire cmds]); eapply (handshake_ok repr now c m off (snapshot nowm stm).1 (part ++ rest) (entries stm) acs [part] [rest ++ wire cmds] (wire cmds) (default_parser (rc_max_bulk_len c)) []); try done|reflexivity|reflexivity].
    + intros rdb Hd Hzr. by eapply load_timeless.
    + repeat constructor; [by destruct part|by destruct rest].
    + simpl. rewrite !app_nil_r. by rewrite app_assoc.
    + intros j Hj. rewrite (find_crlf_app _ _ _ Hi) in Hj. injection Hj as <-. simpl. rewrite app_nil_r. split; [|unfold zlen; lia].
      intros [|x cs1] y cs2 E; [unfold zlen; simpl; lia|by destruct cs1].
    + simpl. rewrite app_nil_r, zlen_app. pose proof (zlen_nonneg rest). lia.
    + intros [|x cs1] y cs2 E; [|by destruct cs1]. simpl. rewrite !app_nil_r, zlen_app. destruct rest; [done|].
      rewrite zlen_cons. pose proof (zlen_nonneg rest). lia.
    + apply leftover_forgotten; [apply Hm|done|done].
  - split; [done|exact Hk].
Qed.

(** A started replica, and the client it makes. *)
Definition ex_replica_config : Config :=
  mkConfig (u "127.0.0.1") 6380 (u "data") (u "dump.rdb") true (u "appendonly.aof") everysec replica (Some (u "127.0.0.1"))
    (Some 6379) (u "info") 0 16777216 1024 16 32000000 (float_of_Z 30) (float_of_Z 300) 1000 5 10000 (float_of_Z 5)
    (64 * 1024 * 1024) 10000 (1024 * 1024 * 1024) 0 noeviction None None false.

Definition ex_replica : RedisServer := (start (fun _ => ex_world) 0 None (new_server ex_replica_config (u "xyz") [] None)).2.
Definition ex_client : ReplicaClient := replica_client ex_replica_config.

Lemma ex_follower : follower ex_replica.
Proof.
  split; [|done|reflexivity|right; right; right; by split].
  change (store ex_replica) with (new_store 0 noeviction). split; [apply new_store_ok|constructor].
Qed.

(** The master of the session above, and what it sends. *)
Definition ex_master_store : Store := Eval vm_compute in store ex_served.

Lemma ex_master_plain : plain ex_master_store.
Proof.
  destruct (started_serving default_config (u "abc")) as (Hs & _); try done.
  destruct (session_log (proto_max_bulk_len default_config) ex_session (started_server default_config (u "abc")) ex_served Hs) as ([Hp _ _ _] & _).
  - intros k e Hk. assert (keyspace (store (started_server default_config (u "abc"))) = ∅) as E by (vm_compute; reflexivity). by rewrite E in Hk.
  - apply ex_session_good.
  - unfold ex_served. vm_compute. reflexivity.
  - assert (store ex_served = ex_master_store) as <- by (vm_compute; reflexivity). exact Hp.
Qed.

Definition ex_rdb : bytes :=
  Eval vm_compute in match dump_rdb_entries (snapshot 0 ex_master_store).1 with Ok data => data | Err _ => [] end.

Definition ex_payload : bytes := Eval vm_compute in (b "+FULLRESYNC abc 0" ++ CRLF) ++ bulk_header ex_rdb ++ ex_rdb.

Lemma ex_snapshot : snapshot_of (new_master 1000 10 (u "abc")) 0 (snapshot 0 ex_master_store).1 ex_payload.
Proof.
  exists ex_rdb, (b "+FULLRESYNC abc 0" ++ CRLF). split; [vm_compute; reflexivity|]. split; vm_compute; reflexivity.
Qed.

Definition ex_stream : list (list bytes) := [[b "SET"; b "a"; b "1"]; [b "RPOP"; b "l"]].

Definition ex_answers : list (list bytes) := [[b "+PO"; b "NG" ++ CRLF]; [b "+OK" ++ CRLF]; [b "+OK" ++ [CR]; [LF]]].

Lemma ex_answers_arrive : Forall2 arrives (answers ex_client) ex_answers.
Proof. repeat constructor; done. Qed.

Lemma replica_loses_commands_witness :
  exists s', session (fun _ => []) 0 (fun _ => ex_world) ex_client
      (concat ex_answers ++ [take 25 ex_payload] ++ [drop 25 ex_payload ++ wire ex_stream]) ex_replica =
      (Err (ConnectionError (u "master closed connection")), s') /\
    applied s' = 0%nat /\ keyspace (store (server s')) = keyspace ex_master_store.
Proof.
  apply (replica_loses_commands (fun _ => []) 0 0 (fun _ => ex_world) ex_client (new_master 1000 10 (u "abc")) 0 ex_master_store
    (take 25 ex_payload) (drop 25 ex_payload) ex_stream ex_replica ex_answers).
  - exact ex_follower.
  - exact ex_master_plain.
  - split; [apply Z.leb_le|apply Z.ltb_lt]; vm_compute; reflexivity.
  - rewrite take_drop. exact ex_snapshot.
  - apply Z.leb_le. vm_compute. reflexivity.
  - vm_compute. discriminate.
  - vm_compute. discriminate.
  - repeat apply Forall_cons_2; try apply Forall_nil_2; split; [discriminate|reflexivity|discriminate|reflexivity].
  - apply Z.leb_le. vm_compute. reflexivity.
  - exact ex_answers_arrive.
Defined.
