(* ===== verification/Requests.v ===== *)
(** * Clients of the server ([tools/benchmark.py], [docs/_qa_e2e_verify.py])

    The client side of a connection: writing a command and reading its reply,
    and the interface between a client and the server: a client is a function of
    a [Service], and what it may rely on is the class [Answering]. *)
From S2P Require Import Prelude PyText PyFloat Encoder Parser Dict Store StoreSpec Eviction Crc32 Rdb AofFile AofLog Config Master Commands Server Client Recovery Replica.
Local Open Scope Z_scope.

(** ** The other end of a connection *)

(** What a client can do: open a connection (it gets a number, or the bytes with
    which it is turned away), write on it (which determines what its reads will
    return, an empty read being the end of the stream), and close it. *)
Class Service (S : Type) := {
  connect : S -> (list bytes + Z) * S;
  serve : Z -> bytes -> S -> list bytes * S;
  hang_up : Z -> S -> S
}.

(** The two streams of [asyncio.open_connection] and the parser of the
    replies; [st_conn] is [None] on a connection that was turned away. *)
Record Stream := mkStream {
  st_conn : option Z;
  st_incoming : list bytes;
  st_parser : RespParser
}.

(** [RespParser()] *)
Definition reply_parser : RespParser := default_parser 16777216.

Section Client.
Context {S : Type} `{!Service S}.

Definition open_connection (s : S) : Stream * S :=
  match connect s with
  | (inr conn, s') => (mkStream (Some conn) [] reply_parser, s')
  | (inl reply, s') => (mkStream None (reply ++ [[]]) reply_parser, s')
  end.

(** [writer.write(data); await writer.drain()] *)
Definition write (data : bytes) (st : Stream) (s : S) : Stream * S :=
  match st_conn st with
  | Some conn => let '(cs, s') := serve conn data s in (mkStream (Some conn) (st_incoming st ++ cs) (st_parser st), s')
  | None => (st, s)
  end.

(** [writer.close(); await writer.wait_closed()] *)
Definition close (st : Stream) (s : S) : S :=
  match st_conn st with Some conn => hang_up conn s | None => s end.

(** ** [benchmark.py] *)

Fixpoint read_reply_loop (rs : list bytes) (p : RespParser) : awaited (result pyobj) * (list bytes * RespParser) :=
  match feed p [] with
  | (Err e, p1) => (Returns (Err e), (rs, p1))
  | (Ok (msg :: _), p1) => (Returns (Ok msg), (rs, p1))
  | (Ok [], p1) =>
      match rs with
      | [] => (Waits, (rs, p1))
      | [] :: rs' => (Returns (Err (ConnectionError (u "server closed during benchmark"))), (rs', p1))
      | data :: rs' =>
          match feed p1 data with
          | (Err e, p2) => (Returns (Err e), (rs', p2))
          | (Ok (msg :: _), p2) => (Returns (Ok msg), (rs', p2))
          | (Ok [], p2) => read_reply_loop rs' p2
          end
      end
  end.

Definition read_reply (st : Stream) : awaited (result pyobj) * Stream :=
  let '(r, (rs, p)) := read_reply_loop (st_incoming st) (st_parser st) in (r, mkStream (st_conn st) rs p).

Definition send_command (argv : list bytes) (st : Stream) (s : S) : awaited (result pyobj) * (Stream * S) :=
  let '(st1, s1) := write (encode_command argv) st s in
  let '(r, st2) := read_reply st1 in
  (match r with
   | Returns (Ok (PErrorMsg m)) => Returns (Err (RuntimeError m))
   | _ => r
   end, (st2, s1)).

(** ** [RespClient] of [_qa_e2e_verify.py] *)

(** The arguments of [execute]: [str], [bytes] or [int]. *)
Inductive part := Str (s : str) | Bytes (s : bytes) | Int (n : Z).

Definition part_bytes (p : part) : bytes := match p with Str s | Bytes s => s | Int n => str_of_int n end.

(** The loop of [execute]: the parser is only asked when it holds something. *)
Fixpoint execute_loop (rs : list bytes) (p : RespParser) : awaited (result pyobj) * (list bytes * RespParser) :=
  match (if buffered_size p =? 0 then (Ok [], p) else feed p []) with
  | (Err e, p1) => (Returns (Err e), (rs, p1))
  | (Ok (msg :: _), p1) => (Returns (Ok msg), (rs, p1))
  | (Ok [], p1) =>
      match rs with
      | [] => (Waits, (rs, p1))
      | [] :: rs' => (Returns (Err (ConnectionError (u "server closed"))), (rs', p1))
      | data :: rs' =>
          match feed p1 data with
          | (Err e, p2) => (Returns (Err e), (rs', p2))
          | (Ok (msg :: _), p2) => (Returns (Ok msg), (rs', p2))
          | (Ok [], p2) => execute_loop rs' p2
          end
      end
  end.

Definition client_execute (parts : list part) (st : Stream) (s : S) : awaited (result pyobj) * (Stream * S) :=
  let '(st1, s1) := write (encode_command (map part_bytes parts)) st s in
  let '(r, (rs, p)) := execute_loop (st_incoming st1) (st_parser st1) in (r, (mkStream (st_conn st1) rs p, s1)).

End Client.

(** ** Reading a reply *)

(** On a parser that holds no complete frame both loops do what [read_one] of
    the replica does when it succeeds. *)
Lemma read_loops_one rs p msg rs' q :
  quiescent p -> zlen (buf p) <= max_buffer_bytes p -> read_one_loop rs p = (Ok msg, (rs', q)) ->
  read_reply_loop rs p = (Returns (Ok msg), (rs', q)) /\ execute_loop rs p = (Returns (Ok msg), (rs', q)).
Proof.
  revert p. induction rs as [|data rs IH]; intros p Hq Hb H; [done|].
  assert (feed p [] = (Ok [], p)) as Hf by (rewrite feed_drain by (rewrite zlen_nil; lia); by rewrite app_nil_r, with_buf_id).
  cbn [read_reply_loop execute_loop]. rewrite Hf. replace (if buffered_size p =? 0 then _ else _) with (@Ok (list pyobj) [], p) by (by destruct (_ =? 0)).
  destruct data as [|c data]; [done|]. cbn [read_one_loop] in H.
  destruct (feed p (c :: data)) as [[[|m [|]]|e] p1] eqn:E; simplify_eq; try done.
  assert (zlen (buf p) + zlen (c :: data) <= max_buffer_bytes p) as Hle.
  { destruct (decide (zlen (buf p) + zlen (c :: data) <= max_buffer_bytes p)) as [|Hgt]; [done|]. by rewrite feed_over in E by lia. }
  rewrite feed_drain in E by done. pose proof (drain_shrinks (with_buf p (buf p ++ c :: data))) as Hs.
  destruct (drain_rest _ _ _ E) as (_ & _ & Hqe). rewrite E in Hs. cbn [snd buf with_buf] in Hs. rewrite zlen_app in Hs.
  apply IH; [by eapply drain_quiescent| |done]. rewrite Hqe. cbn [max_buffer_bytes with_buf buf]. lia.
Qed.

(** A stream between two commands. *)
Definition idle_stream (conn : Z) : Stream := mkStream (Some conn) [] reply_parser.

(** The value of a reply that the parser of the clients accepts. *)
Definition readable (v : pyobj) (enc : bytes) : Prop :=
  encode_value v = Ok enc /\ fits reply_parser (max_array_depth reply_parser) v = true /\ zlen enc <= max_buffer_bytes reply_parser.

Section Replies.
Context {S : Type} `{!Service S}.

(** A command whose reply arrives in any chunks is answered by its value, and
    the stream is idle again. *)
Lemma exchange_reply conn a v cs (s s' : S) :
  serve conn (encode_command a) s = (cs, s') -> chunks cs -> readable v (concat cs) ->
  send_command a (idle_stream conn) s =
    (Returns (match parsed v with PErrorMsg m => Err (RuntimeError m) | x => Ok x end), (idle_stream conn, s')) /\
  forall parts, map part_bytes parts = a -> client_execute parts (idle_stream conn) s = (Returns (Ok (parsed v)), (idle_stream conn, s')).
Proof.
  intros Hs Hc (He & Hf & Hz).
  assert (concat cs <> []) as Hne by (by eapply encode_value_nonempty).
  assert (read_one_loop cs reply_parser = (Ok (parsed v), ([], reply_parser))) as Hr.
  { rewrite <- (app_nil_r cs). rewrite (read_one_value reply_parser v (concat cs) [] cs []); try done.
    - by rewrite app_nil_r.
    - by intros ->.
    - by apply needed_exact.
    - by rewrite app_nil_r. }
  destruct (read_loops_one cs reply_parser _ _ _ (quiescent_empty reply_parser eq_refl) ltac:(by vm_compute) Hr) as [H1 H2]. split.
  - unfold send_command, write, read_reply, idle_stream. cbn [st_conn]. rewrite Hs. cbn [st_incoming st_parser app]. rewrite H1.
    cbn [st_conn]. by destruct (parsed v).
  - intros parts <-. unfold client_execute, write, idle_stream. cbn [st_conn]. rewrite Hs. cbn [st_incoming st_parser app]. by rewrite H2.
Qed.

End Replies.
