(* ===== verification/ClientView.v ===== *)
(** * What clients see

    The replies of the server as a function of time and of a finite map from
    keys to values: the abstract server that every client talks to, deadlines
    included.  [Answering] is what a [Service] promises to its clients; the
    modelled server is an instance. *)
From S2P Require Import Prelude PyText PyFloat Encoder Parser Dict Store StoreSpec Eviction Crc32 Rdb AofFile AofLog Config Master Commands Server Client Recovery Memory Replica Requests.
Local Open Scope Z_scope.

Abbreviation keymap := (gmap bytes KeyEntry).

(** ** The abstract server *)

(** The operation that a data command stands for, or the error of its
    arguments. *)
Definition data_op (a : list bytes) : option (result StoreOp) :=
  let n := upper_name a in
  if is_write n then Some (write_op a)
  else if beqb n (b "GET") then Some (match a with [_; key] => Ok (GetString key) | _ => Err (wrong_arity (u "get")) end)
  else if beqb n (b "TTL") then Some (match a with [_; key] => Ok (Ttl key) | _ => Err (wrong_arity (u "ttl")) end)
  else if beqb n (b "HGETALL") then Some (match a with [_; key] => Ok (Hgetall key) | _ => Err (wrong_arity (u "hgetall")) end)
  else if beqb n (b "DBSIZE") then Some (match a with [_] => Ok Dbsize | _ => Err (wrong_arity (u "dbsize")) end)
  else None.

(** The reply to a command: what the handler returned, or an error. *)
Definition reply_value (r : result pyobj) : pyobj :=
  match r with
  | Ok v => v
  | Err (RespError m) => PRespError m
  | Err _ => PRespError (u "ERR internal error")
  end.

Definition op_reply (r : reply) : result pyobj :=
  match r with RItems l => Ok (PList (map PBytes l)) | _ => reply_obj r end.

(** The reply to a command at the times [clk], where [m] is the keyspace at
    [clk 0], and the keyspace after it; [None] for commands that are not about
    the keyspace. *)
Definition answer (clk : nat -> Z) (m : keymap) (a : list bytes) : option (pyobj * keymap) :=
  if beqb (upper_name a) (b "PING") then
    match a with [_] => Some (PSimple (u "PONG"), m) | [_; x] => Some (PBytes x, m) | _ => None end
  else
    match data_op a with
    | Some (Ok op) => let '(r, m') := spec_op clk m op in Some (reply_value (op_reply r), m')
    | Some (Err e) => Some (reply_value (Err e), m)
    | None => None
    end.

(** ** Commands on a server *)

(** The log is switched off, or it works. *)
Definition log_fine (l : AOFLog) : Prop := enabled l = false /\ failure l = None \/ log_ready l.

(** A master without a password and without a memory limit. *)
Record steady (s : RedisServer) : Prop := {
  sd_ok : store_ok (store s);
  sd_unlimited : unlimited (store s);
  sd_log : log_fine (aof s);
  sd_master : is_replica (config s) = false;
  sd_open : requirepass (config s) = None
}.

(** The clock does not go back during a command, and the disk works. *)
Record good_world (w : World) : Prop := {
  gw_snapshot : w_snapshot w <= w_clock w 0%nat;
  gw_clock : clock_forward w;
  gw_disk : disk_works w
}.

Lemma snapshot_live now t st : store_ok st -> now <= t -> live t (snapshot now st).2 = live t st /\ store_ok (snapshot now st).2.
Proof.
  intros Hok Ht. destruct (run_op_refines (fun _ _ => []) (fun _ => now) st Snapshot Hok (fun _ => Z.le_refl _)) as (_ & H2 & H3).
  cbn [run_op spec_op fst snd] in H2, H3. split; [|done]. by rewrite <- (prune_live now t (snapshot now st).2), H2, prune_live.
Qed.

(** The commands that read do their operation. *)
Lemma dispatch_data_read w c s r :
  data_op (argv c) = Some r -> is_write (upper_name (argv c)) = false ->
  dispatch w c s =
  match r with
  | Err e => (Err e, s)
  | Ok op => let '(x, st) := run_op (fun _ _ => []) (w_clock w) (store s) op in (op_reply x, set_store s st)
  end.
Proof.
  intros Hd Hw. unfold data_op in Hd. cbv zeta in Hd. destruct c as [[|name args] rc ld cid]; [done|]. cbn [argv upper_name] in *. rewrite Hw in Hd.
  unfold dispatch. cbn [argv upper_name is_loading is_replica_client]. unfold get_handler.
  repeat match type of Hd with (if beqb ?x ?y then _ else _) = _ => destruct (beqb x y) eqn:E; [apply beqb_eq in E; rewrite E in *|clear E] end; [..|done].
  all: injection Hd as <-.
  all: match goal with |- match dict_get default_registry ?n with _ => _ end = _ =>
         let h := eval hnf in (dict_get default_registry n) in change (dict_get default_registry n) with h end.
  all: cbv iota; rewrite Hw, andb_false_r; cbn [andb].
  - unfold cmd_get, raise, store_reply. cbn [argv]. destruct args as [|key [|]]; try done. cbn [run_op].
    destruct (get_string _ _ _) as [[v|[]] st] eqn:Eg; try done.
  - unfold cmd_ttl, raise. cbn [argv]. destruct args as [|key [|]]; try done. cbn [run_op]. by destruct (ttl _ _ _ _).
  - unfold cmd_hgetall, raise, store_reply. cbn [argv]. destruct args as [|key [|]]; try done. cbn [run_op].
    destruct (hgetall _ _ _) as [[v|[]] st] eqn:Eg; try done.
  - unfold cmd_dbsize, raise. cbn [argv]. destruct args; try done.
Qed.

(** What an operation of the abstract server leaves of the real one. *)
Lemma run_op_answers w st op :
  store_ok st -> clock_forward w ->
  let '(r, st') := run_op (fun _ _ => []) (w_clock w) st op in
  (r, live (w_clock w 0%nat) st') = spec_op (w_clock w) (live (w_clock w 0%nat) st) op /\ store_ok st'.
Proof.
  intros Hok Hclk. destruct (run_op_refines (fun _ _ => []) (w_clock w) st op Hok Hclk) as (H1 & H2 & H3).
  destruct (run_op _ _ st op) as [r st'], (spec_op _ _ op) as [r' m']. simpl in *. by subst.
Qed.

Lemma writes_op_reply clk m op : writes_op op -> op_reply (spec_op clk m op).1 = reply_obj (spec_op clk m op).1.
Proof.
  destruct op; try done; intros _; cbn [spec_op].
  all: repeat (case_match; simplify_eq; try done).
Qed.

Definition error_reply (e : exn) : bytes := encode_error (match e with RespError m => m | _ => u "ERR internal error" end).

Lemma reply_value_error e : encode_value (reply_value (Err e)) = Ok (error_reply e).
Proof. by destruct e. Qed.

Lemma steady_healthy s : steady s -> healthy (aof s) = true.
Proof. intros [_ _ Hr _ _]. unfold healthy. destruct Hr as [[_ ->]|Hr]; [done|]. by rewrite (lr_healthy _ Hr). Qed.

(** The guards of [execute] let the commands of clients pass. *)
Lemma execute_steady w conn a s :
  steady s ->
  execute w (client_ctx conn a) s =
    let '(before, st0) := if is_write (upper_name a) then snapshot (w_snapshot w) (store s) else ([], store s) in
    match dispatch w (client_ctx conn a) (set_store s st0) with
    | (Err e, s1) => (Ok (Some (error_reply e)), count_failure s1)
    | (Ok res, s1) =>
        let '(ev, st2) := if is_write (upper_name a) then enforce_memory_limit (w_enforce w) (store s1) else (Ok [], store s1) in
        match ev with
        | Err (MemoryLimitError m) => (Ok (Some (encode_error m)), count_failure (set_store s1 (load_entries st2 before)))
        | Err e => (Err e, set_store s1 st2)
        | Ok evicted =>
            match res with
            | PNoClientReply => (Ok None, set_store s1 st2)
            | _ => finish_command w (client_ctx conn a) res evicted (set_store s1 st2)
            end
        end
    end.
Proof.
  intros Hs. unfold execute. cbn [argv client_ctx is_loading is_replica_client]. rewrite (sd_open _ Hs), bool_decide_false by auto.
  rewrite (steady_healthy _ Hs). cbn [andb negb]. rewrite !andb_false_r. cbn [andb].
  destruct (if is_write (upper_name a) then _ else _) as [before st0].
  destruct (dispatch w (client_ctx conn a) (set_store s st0)) as [[res|[]] s1]; done.
Qed.

Lemma spec_op_reply clk m op : op_reply (spec_op clk m op).1 <> Ok PNoClientReply.
Proof. unfold op_reply, reply_obj, opt_bytes. by repeat case_match. Qed.

Lemma steady_store s st : steady s -> store_ok st -> unlimited st -> steady (set_store s st).
Proof. intros [? ? ? ? ?] ? ?. by split. Qed.

Lemma steady_failure s : steady s -> steady (count_failure s).
Proof. intros [? ? ? ? ?]. by split. Qed.

(** Logging a write. *)
Lemma finish_write w conn a res enc s :
  steady s -> disk_works w -> is_write (upper_name a) = true -> encode_value res = Ok enc ->
  exists s', finish_command w (client_ctx conn a) res [] s = (Ok (Some enc), s') /\ steady s' /\ store s' = store s /\
    (log_ready (aof s) -> log_ready (aof s') /\ file (aof s') = file (aof s) ++ encode_command a).
Proof.
  intros [H1 H2 Hr Hm H5] Hio Hw He. unfold finish_command. cbn [argv is_loading is_replica_client client_ctx]. rewrite Hw, Hm. cbn [andb negb map].
  assert (exists l m, record_writes w 0 [a] s = (Ok None, set_master (set_aof s l) m) /\ log_fine l /\
    (log_ready (aof s) -> log_ready l /\ file l = file (aof s) ++ encode_command a)) as (l & m & -> & Hl & Hlog).
  { destruct Hr as [[He0 Hf0]|Hr].
    - exists (aof s). eexists. cbn [record_writes]. unfold log_command, append_log, append. rewrite He0. cbn [negb orb]. split; [reflexivity|].
      split; [by left|]. intros Hr. pose proof (lr_enabled _ Hr). congruence.
    - destruct (record_writes_ready w 0 [a] s Hr Hio) as (l & -> & Hl & Hfile). eexists _, _. split; [reflexivity|]. split; [by right|].
      intros _. split; [done|]. rewrite Hfile. unfold wire. cbn [map concat]. by rewrite app_nil_r. }
  rewrite He. eexists. split; [reflexivity|]. by split.
Qed.

Lemma finish_other w conn a res enc s :
  is_write (upper_name a) = false -> encode_value res = Ok enc -> finish_command w (client_ctx conn a) res [] s = (Ok (Some enc), s).
Proof. intros Hw He. unfold finish_command. cbn [argv client_ctx]. rewrite Hw. cbn [andb]. by rewrite He. Qed.

(** What a write command returns, and the keyspace after it. *)
Definition write_result (clk : nat -> Z) (m : keymap) (a : list bytes) : result pyobj * keymap :=
  match write_op a with
  | Ok op => let '(r, m') := spec_op clk m op in (reply_obj r, m')
  | Err e => (Err e, m)
  end.

Lemma answer_write clk m a : is_write (upper_name a) = true -> answer clk m a = Some (reply_value (write_result clk m a).1, (write_result clk m a).2).
Proof.
  intros Hw. unfold answer, write_result.
  assert (beqb (upper_name a) (b "PING") = false) as -> by (destruct (beqb _ _) eqn:E; [apply beqb_eq in E; by rewrite E in Hw|done]).
  unfold data_op. rewrite Hw. destruct (write_op a) as [op|e] eqn:Eop; [|done]. pose proof (writes_op_reply clk m op (write_op_writes a op Hw Eop)) as Hr.
  destruct (spec_op clk m op) as [r m']. cbn [fst snd] in *. by rewrite Hr.
Qed.

(** A write command that passes the guards of [execute], at any time and in any
    context: of a client, from the log or from the master. *)
Lemma execute_write_at w c s :
  let a := argv c in
  is_write (upper_name a) = true -> store_ok (store s) -> unlimited (store s) -> w_snapshot w <= w_clock w 0%nat -> clock_forward w ->
  is_replica (config s) = false \/ is_replica_client c = true ->
  requirepass (config s) = None \/ is_replica_client c = true ->
  healthy (aof s) = true \/ is_replica_client c = true ->
  let r := write_result (w_clock w) (live (w_clock w 0%nat) (store s)) a in
  exists st', store_ok st' /\ unlimited st' /\ live (w_clock w 0%nat) st' = r.2 /\
    execute w c s =
    match r.1 with
    | Ok res => finish_command w c res [] (set_store s st')
    | Err e => (Ok (Some (error_reply e)), count_failure (set_store s st'))
    end.
Proof.
  intros a Hw Hok Hun Hsnap Hclk Hrep Hpw Hh r. unfold execute. fold a.
  assert (bool_decide (requirepass (config s) <> None) && negb (existsb (Z.eqb (ctx_connection_id c)) (authenticated_connections s)) &&
     negb (beqb (upper_name a) (b "AUTH")) && negb (is_loading c) && negb (is_replica_client c) = false) as ->.
  { destruct Hpw as [-> | ->]; [done|]. by rewrite !andb_false_r. }
  assert (is_write (upper_name a) && aof_enabled (config s) && negb (healthy (aof s)) && negb (is_loading c) &&
            negb (is_replica_client c) = false) as ->.
  { destruct Hh as [-> | ->]; by rewrite ?andb_false_r. }
  rewrite Hw. destruct (snapshot_live (w_snapshot w) (w_clock w 0%nat) (store s) Hok Hsnap) as [Hl0 Hok0].
  pose proof (snapshot_substore (w_snapshot w) (store s)) as [_ Hm0]. unfold r. clear r. rewrite <- Hl0.
  destruct (snapshot (w_snapshot w) (store s)) as [before st0]. cbn [snd] in *.
  assert (unlimited st0) as Hun0 by (unfold unlimited in *; lia).
  rewrite (dispatch_write (fun _ _ => [])) by (try done; destruct Hrep; auto). fold a. cbn [set_store store]. unfold write_result.
  destruct (write_op a) as [op|e] eqn:Eop.
  - pose proof (write_op_writes a op Hw Eop) as Hwr. pose proof (run_op_answers w st0 op Hok0 Hclk) as Hop.
    pose proof (run_op_limit (fun _ _ => []) (w_clock w) st0 op Hwr) as Hlim.
    pose proof (spec_op_reply (w_clock w) (live (w_clock w 0%nat) st0) op) as Hno. rewrite writes_op_reply in Hno by done.
    destruct (run_op _ _ st0 op) as [x st1]. cbn [snd] in *. destruct Hop as [Hop Hok1]. rewrite <- Hop in *. cbn [fst snd] in *.
    assert (unlimited st1) as Hun1 by (unfold unlimited in *; lia). exists st1. split; [done|]. split; [done|]. split; [done|].
    destruct (reply_obj x) as [res|[]]; try done. rewrite enforce_unlimited by done. by destruct res.
  - exists st0. split; [done|]. split; [done|]. split; [done|]. by destruct e.
Qed.

(** A write command of a client; when it succeeds it is logged. *)
Lemma execute_client_write w conn a s enc :
  steady s -> good_world w -> is_write (upper_name a) = true ->
  let r := write_result (w_clock w) (live (w_clock w 0%nat) (store s)) a in
  encode_value (reply_value r.1) = Ok enc ->
  exists s', execute w (client_ctx conn a) s = (Ok (Some enc), s') /\ steady s' /\ live (w_clock w 0%nat) (store s') = r.2 /\
    (log_ready (aof s) -> is_ok r.1 = true -> log_ready (aof s') /\ file (aof s') = file (aof s) ++ encode_command a).
Proof.
  intros Hs Hg Hw r He. destruct (execute_write_at w (client_ctx conn a) s Hw (sd_ok _ Hs) (sd_unlimited _ Hs) (gw_snapshot _ Hg) (gw_clock _ Hg)
    (or_introl (sd_master _ Hs)) (or_introl (sd_open _ Hs)) (or_introl (steady_healthy _ Hs))) as (st' & H1 & H2 & H3 & Hx).
  cbn [argv client_ctx] in *. fold r in H3, Hx. pose proof (steady_store s st' Hs H1 H2) as Hs'. rewrite Hx. destruct r.1 as [res|e].
  - destruct (finish_write w conn a res enc (set_store s st') Hs' (gw_disk _ Hg) Hw He) as (s' & Hf & Hs2 & Est & Hlog).
    exists s'. split; [done|]. split; [done|]. rewrite Est. split; [done|]. intros Hr _. by apply Hlog.
  - rewrite reply_value_error in He. injection He as <-. eexists. split; [reflexivity|]. split; [by apply steady_failure|]. split; [done|]. done.
Qed.

(** What a command leaves in the log: a write that succeeds is appended, a read
    is not. *)
Definition logged_by (a : list bytes) (v : pyobj) (l l' : AOFLog) : Prop :=
  if is_write (upper_name a)
  then (forall e, v <> PRespError e) -> log_ready l -> log_ready l' /\ file l' = file l ++ encode_command a
  else l' = l.

(** A command that does not write, on a master or a replica without a password. *)
Lemma execute_other w conn a s :
  requirepass (config s) = None -> is_write (upper_name a) = false ->
  execute w (client_ctx conn a) s =
    match dispatch w (client_ctx conn a) s with
    | (Err e, s1) => (Ok (Some (error_reply e)), count_failure s1)
    | (Ok PNoClientReply, s1) => (Ok None, s1)
    | (Ok res, s1) => finish_command w (client_ctx conn a) res [] s1
    end.
Proof.
  intros Hp Hw. unfold execute. cbn [argv client_ctx is_loading is_replica_client]. rewrite Hp, bool_decide_false by auto. rewrite Hw. cbn [andb].
  replace (set_store s (store s)) with s by (by destruct s). destruct (dispatch w (client_ctx conn a) s) as [[res|[]] s1]; try done.
  replace (set_store s1 (store s1)) with s1 by (by destruct s1). by destruct res.
Qed.

(** What a command that reads leaves alone. *)
Definition only_reads (s s' : RedisServer) : Prop :=
  store_ok (store s') /\ Recovery.reads (store s) (store s') /\ maxmemory_bytes (store s') = maxmemory_bytes (store s) /\
  aof s' = aof s /\ config s' = config s.

Lemma execute_read w conn a s v m' enc :
  requirepass (config s) = None -> store_ok (store s) -> clock_forward w -> is_write (upper_name a) = false ->
  answer (w_clock w) (live (w_clock w 0%nat) (store s)) a = Some (v, m') -> encode_value v = Ok enc ->
  exists s', execute w (client_ctx conn a) s = (Ok (Some enc), s') /\ live (w_clock w 0%nat) (store s') = m' /\ only_reads s s'.
Proof.
  intros Hp Hok Hclk Hw Ha He. rewrite execute_other by done. unfold only_reads.
  pose proof (dispatch_reads w (client_ctx conn a) s Hw) as Hre. pose proof (dispatch_substore w (client_ctx conn a) s Hw) as [_ Hlim].
  unfold answer in Ha. destruct (beqb (upper_name a) (b "PING")) eqn:Ep.
  - apply beqb_eq in Ep. clear Hre Hlim. unfold dispatch. cbn [argv client_ctx]. destruct a as [|name args]; [done|]. cbn [upper_name] in *. unfold get_handler.
    rewrite Ep in *. change (dict_get default_registry (b "PING")) with (Some cmd_ping). cbv iota. rewrite Hw, andb_false_r. cbn [andb].
    unfold cmd_ping. cbn [argv client_ctx]. destruct args as [|x [|]]; simplify_eq; (exists s; split; [by apply finish_other; [cbn [upper_name]; rewrite Ep|]|]); by split_and!.
  - destruct (data_op a) as [r|] eqn:Ed; [|done]. rewrite (dispatch_data_read w (client_ctx conn a) s r Ed Hw) in Hre, Hlim |- *.
    destruct r as [op|e].
    + pose proof (run_op_answers w (store s) op Hok Hclk) as Hop. pose proof (spec_op_reply (w_clock w) (live (w_clock w 0%nat) (store s)) op) as Hno.
      destruct (run_op _ _ (store s) op) as [r st1]. destruct Hop as [Hop Hok1]. rewrite <- Hop in Ha, Hno. cbn [fst snd set_store store] in *.
      injection Ha as <- <-. destruct (op_reply r) as [res|e].
      * cbn [reply_value] in He. exists (set_store s st1). split; [|by split_and!].
        rewrite <- (finish_other w conn a res enc (set_store s st1) Hw He). by destruct res.
      * rewrite reply_value_error in He. injection He as <-. eexists. split; [reflexivity|]. by split_and!.
    + assert (v = reply_value (Err e) /\ m' = live (w_clock w 0%nat) (store s)) as [-> ->] by (split; congruence).
      rewrite reply_value_error in He. injection He as <-. eexists. split; [reflexivity|]. by split_and!.
Qed.

Lemma execute_answers_read w conn a s v m' enc :
  steady s -> good_world w -> is_write (upper_name a) = false ->
  answer (w_clock w) (live (w_clock w 0%nat) (store s)) a = Some (v, m') -> encode_value v = Ok enc ->
  exists s', execute w (client_ctx conn a) s = (Ok (Some enc), s') /\ steady s' /\ live (w_clock w 0%nat) (store s') = m' /\ aof s' = aof s.
Proof.
  intros [Hok Hun Hl Hm Hp] Hg Hw Ha He. destruct (execute_read w conn a s v m' enc Hp Hok (gw_clock _ Hg) Hw Ha He) as (s' & Hx & Hv & Hok' & _ & Hlim & Hao & Hc).
  exists s'. split; [done|]. split; [|done]. split; rewrite ?Hao, ?Hc; try done. unfold unlimited in *. by rewrite Hlim.
Qed.

Lemma execute_answers w conn a s v m' enc :
  steady s -> good_world w -> answer (w_clock w) (live (w_clock w 0%nat) (store s)) a = Some (v, m') -> encode_value v = Ok enc ->
  exists s', execute w (client_ctx conn a) s = (Ok (Some enc), s') /\ steady s' /\ live (w_clock w 0%nat) (store s') = m' /\ logged_by a v (aof s) (aof s').
Proof.
  intros Hs Hg Ha He. unfold logged_by. destruct (is_write (upper_name a)) eqn:Hw; [|by apply (execute_answers_read _ _ _ _ v)].
  rewrite answer_write in Ha by done. injection Ha as <- <-. destruct (execute_client_write w conn a s enc Hs Hg Hw He) as (s' & H1 & H2 & H3 & H4).
  exists s'. split_and!; try done. intros Hv Hr. apply H4; [done|]. destruct (write_result _ _ _).1 as [|e]; [done|]. by destruct e, (Hv _ eq_refl).
Qed.

Lemma answer_name clk m a x : answer clk m a = Some x -> upper_name a <> b "PSYNC" /\ upper_name a <> b "AUTH".
Proof.
  unfold answer, data_op. intros H. split; intros E; rewrite E in H;
    change (is_write _) with false in H; repeat match type of H with context [beqb (b ?x) (b ?y)] =>
      let v := eval vm_compute in (beqb (b x) (b y)) in change (beqb (b x) (b y)) with v in H end; done.
Qed.

Lemma normalize_command a : normalize_argv (command_obj a) = Ok a.
Proof. unfold command_obj, normalize_argv. apply rmapM_ok. induction a; simpl; by constructor. Qed.

Lemma handle_answers w conn a s v m' enc :
  steady s -> good_world w -> answer (w_clock w) (live (w_clock w 0%nat) (store s)) a = Some (v, m') -> encode_value v = Ok enc ->
  exists s', handle_message w conn (command_obj a) s = ([enc], Continue, s') /\ steady s' /\ live (w_clock w 0%nat) (store s') = m' /\ logged_by a v (aof s) (aof s').
Proof.
  intros Hs Hg Ha He. destruct (answer_name _ _ _ _ Ha) as [Hnp Hna]. unfold handle_message. rewrite normalize_command.
  set (s0 := set_counts s _ _). assert (steady s0) as Hs0 by (destruct Hs; by split).
  destruct (execute_answers w conn a s0 v m' enc Hs0 Hg Ha He) as (s' & Hx & Hs' & Hl & Hlog).
  destruct a as [|name args]; [done|]. unfold beqb. rewrite (bool_decide_false (_ = b "PSYNC")), (bool_decide_false (_ = b "AUTH")) by done.
  cbn [andb]. rewrite Hx. by exists s'.
Qed.

(** ** The interface *)

(** What a service promises: it has a keyspace, which it shows at the time at
    which the next command will run; connections are accepted as long as there is
    room, and take away at most their own; a command on a connection that is ready
    is answered as the abstract server says, in some chunks, and nobody's connection is
    lost.  A connection that is closed may keep its room for a while. *)
Class Answering (S : Type) `{!Service S} := {
  clock : S -> nat -> Z;
  view : S -> keymap;
  room : S -> Z;
  ready : Z -> S -> Prop;
  usable : S -> Prop;
  sendable : list bytes -> Prop;
  connect_ready s : usable s -> 0 < room s -> exists conn s', connect s = (inr conn, s') /\ ready conn s' /\ usable s' /\ ~ ready conn s /\
    view s' = view s /\ clock s' = clock s /\ room s - 1 <= room s' /\ (forall c, ready c s -> ready c s');
  serve_answers conn a s v m' enc : ready conn s -> sendable a -> answer (clock s) (view s) a = Some (v, m') -> encode_value v = Ok enc ->
    exists cs s', serve conn (encode_command a) s = (cs, s') /\ chunks cs /\ concat cs = enc /\
      view s' = prune (clock s' 0%nat) m' /\ room s <= room s' /\ (usable s -> usable s') /\ (forall c, ready c s -> ready c s');
  hang_up_keeps conn s : ready conn s -> usable s ->
    let s' := hang_up conn s in view s' = view s /\ clock s' = clock s /\ room s <= room s' /\ usable s' /\ (forall c, c <> conn -> ready c s -> ready c s')
}.

(** ** The server as a service *)

(** What the network and the event loop decide at each call of a client: the
    pieces in which it receives the replies, the reads in which the server
    receives what it writes, and the connections whose [handle_client] goes on with
    its end before that. *)
Record Network := mkNetwork {
  cut : nat -> bytes -> list bytes;
  arrive : nat -> bytes -> list ReadEvent;
  tidy : nat -> list Z
}.

(** Nothing is lost, and everything arrives in time: each read returns before
    the idle timeout, and an incomplete frame is completed before its own. *)
Record network_ok (cfg : Config) (net : Network) : Prop := {
  nw_cut : forall n d, chunks (cut net n d) /\ concat (cut net n d) = d;
  nw_arrive : forall n d, d <> [] -> exists cs, concat cs = d /\
    Forall2 (timely cfg (map ev_after (arrive net n d))) (arrive net n d) cs
}.

(** The server with the tasks of its clients: the number of messages handled,
    which gives each its world; the number of calls of the clients; the local
    variables of every read loop; and the connections that the clients have
    closed and the server has not yet. *)
Record Clocked := mkClocked {
  handled : nat;
  called : nat;
  srv : RedisServer;
  loops : gmap Z ClientLoop;
  leaving : list Z
}.

Definition clocked (n : nat) (s : RedisServer) : Clocked := mkClocked n 0 s ∅ [].

(** [handle_client] of a connection goes on: it reads the end of the stream and
    leaves the loop for its [finally], or it returns from [wait_closed]. *)
Definition handler_step (x : Clocked) (conn : Z) : Clocked :=
  if bool_decide (conn ∈ leaving x) then
    mkClocked (handled x) (called x) (disconnect_begin conn (srv x)) (delete conn (loops x)) (filter (fun c => c <> conn) (leaving x))
  else if bool_decide (conn ∈ closing (srv x)) then
    mkClocked (handled x) (called x) (disconnect_end conn (srv x)) (loops x) (leaving x)
  else x.

Section Server.
Context (ws : nat -> World) (net : Network).

Definition settle (x : Clocked) : Clocked := foldl handler_step x (tidy net (called x)).

(** [handle_client] until its loop. *)
Definition accept_client (x0 : Clocked) : (list bytes + Z) * Clocked :=
  let x := settle x0 in
  match accept (srv x) with
  | (inl r, s') => (inl (cut net (called x) r), mkClocked (handled x) (S (called x)) s' (loops x) (leaving x))
  | (inr c, s') =>
      (inr c, mkClocked (handled x) (S (called x)) s' (<[c := mkLoop (client_parser (config s')) None]> (loops x)) (leaving x))
  end.

(** The read loop of a connection on the reads that bring one write of its
    client; when it ends, the transport is closed. *)
Definition serve_bytes (conn : Z) (data : bytes) (x0 : Clocked) : list bytes * Clocked :=
  let x := settle x0 in
  match loops x !! conn with
  | None => ([[]], mkClocked (handled x) (S (called x)) (srv x) (loops x) (leaving x))
  | Some lp =>
      let '(o, nx, lp', s') := client_loop (fun i => ws (handled x + i)%nat) conn (arrive net (called x) data) lp (srv x) in
      let n' := (handled x + Z.to_nat (total_commands_processed s' - total_commands_processed (srv x)))%nat in
      match nx with
      | CloseConnection =>
          (cut net (called x) (concat o) ++ [[]],
           mkClocked n' (S (called x)) (disconnect_begin conn s') (delete conn (loops x)) (filter (fun c => c <> conn) (leaving x)))
      | _ => (cut net (called x) (concat o), mkClocked n' (S (called x)) s' (<[conn := lp']> (loops x)) (leaving x))
      end
  end.

(** The client closes its end; the server learns it later. *)
Definition client_left (conn : Z) (x : Clocked) : Clocked :=
  mkClocked (handled x) (S (called x)) (srv x) (loops x) (conn :: leaving x).

#[local] Instance server_service : Service Clocked := {
  connect := accept_client;
  serve := serve_bytes;
  hang_up := client_left
}.

End Server.

(** The server is in order, and the connections that clients have left are still
    there. *)
Definition server_ready (cfg : Config) (x : Clocked) : Prop :=
  steady (srv x) /\ config (srv x) = cfg /\ conns_ok (srv x) /\ forall c, c ∈ leaving x -> c ∈ writers (srv x).

(** The read loop of a connection waits for its next command. *)
Definition waiting (cfg : Config) (conn : Z) (x : Clocked) : Prop :=
  conn ∈ writers (srv x) /\ (conn ∉ leaving x) /\ loops x !! conn = Some (mkLoop (client_parser cfg) None).

(** What the ends of other connections leave alone: the files, the keyspace and
    the connections that nobody has left. *)
Record settled (cfg : Config) (x x' : Clocked) : Prop := {
  se_ready : server_ready cfg x -> server_ready cfg x';
  se_waiting : forall c, waiting cfg c x -> waiting cfg c x';
  se_store : store (srv x') = store (srv x);
  se_aof : aof (srv x') = aof (srv x);
  se_rdb : rdb_file (srv x') = rdb_file (srv x);
  se_handled : handled x' = handled x;
  se_called : called x' = called x;
  se_seq : conn_seq (srv x') = conn_seq (srv x);
  se_count : client_count (srv x') <= client_count (srv x)
}.

#[export] Instance settled_preorder cfg : PreOrder (settled cfg).
Proof.
  split; [intros x; split; auto; lia|]. intros x y z [] []. split; try congruence; auto. lia.
Qed.

Lemma handler_step_settled cfg x conn : settled cfg x (handler_step x conn).
Proof.
  unfold handler_step. case_bool_decide as Hl; [|case_bool_decide as Hc; [|reflexivity]]; split; try done; cbn [srv leaving loops].
  - intros (Hs & Hcfg & Hok & Hle). split_and!; [destruct Hs; by split|done|by apply disconnect_begin_ok; auto|].
    intros c [Hne Hin]%list_elem_of_filter. cbn [disconnect_begin set_conns writers]. apply list_elem_of_filter. auto.
  - intros c (H1 & H2 & H3). assert (c <> conn) as Hne by (by intros ->). split_and!.
    + by apply list_elem_of_filter.
    + by intros [_ ?]%list_elem_of_filter.
    + cbn [loops]. by rewrite lookup_delete_ne by done.
  - intros (Hs & Hcfg & Hok & Hle). split_and!; [destruct Hs; by split|done|by apply disconnect_end_ok|done].
  - cbn [disconnect_end set_conns client_count]. lia.
Qed.

Lemma settle_settled cfg net x : settled cfg x (settle net x).
Proof.
  unfold settle. generalize (tidy net (called x)) as l. intros l. revert x. induction l as [|c l IH]; intros x; simpl; [reflexivity|].
  etrans; [apply handler_step_settled|apply IH].
Qed.

Section Ready.
Context (cfg : Config) (ws : nat -> World) (net : Network).
Hypothesis Hworlds : forall n, good_world (ws n).
Hypothesis Htime : forall n, w_clock (ws n) 0%nat <= w_clock (ws (S n)) 0%nat.
Hypothesis Hnet : network_ok cfg net.
Hypothesis Hlimits : limits_ok (client_parser cfg).
Hypothesis Hdepth : 0 < cfg_max_array_depth cfg.
#[local] Existing Instance server_service.

Definition sendable_to (a : list bytes) : Prop :=
  command_fits (client_parser cfg) a = true /\ zlen (encode_command a) <= cfg_max_buffer_bytes cfg.

(** A command that arrives in pieces is one message. *)
Lemma feed_command a cs :
  sendable_to a -> concat cs = encode_command a -> feed_all (client_parser cfg) cs = ([command_obj a], None, client_parser cfg).
Proof.
  intros [Hf Hz] Hc. pose proof (feed_all_drain (client_parser cfg) cs) as H. cbv zeta in H. rewrite Hc in H.
  pose proof (drain_pipeline (client_parser cfg) [a] Hlimits Hdepth ltac:(by constructor)) as Hd.
  unfold wire in Hd. cbn [map concat] in Hd. rewrite app_nil_r in Hd.
  change (with_buf (client_parser cfg) (buf (client_parser cfg) ++ encode_command a)) with (with_buf (client_parser cfg) (encode_command a)) in H.
  rewrite Hd in H. apply H; [by apply quiescent_empty|]. exact Hz.
Qed.

Lemma encode_command_nonempty a : encode_command a <> [].
Proof. done. Qed.

(** A connection is accepted when there is room. *)
Lemma accept_client_ok x :
  server_ready cfg x -> client_count (srv x) < max_clients cfg ->
  exists conn x', accept_client net x = (inr conn, x') /\ server_ready cfg x' /\ waiting cfg conn x' /\ conn_seq (srv x) < conn /\
    store (srv x') = store (srv x) /\ aof (srv x') = aof (srv x) /\ rdb_file (srv x') = rdb_file (srv x) /\ handled x' = handled x /\
    client_count (srv x') <= client_count (srv x) + 1 /\ (forall c, waiting cfg c x -> waiting cfg c x').
Proof.
  intros Hr Hroom. destruct (settle_settled cfg net x) as [H1 H2 H3 H4 H5 H6 H7 H8 H9]. specialize (H1 Hr). unfold accept_client.
  set (y := settle net x) in *. destruct H1 as (Hs & Hc & Hok & Hle). pose proof (accept_ok (srv y) Hok) as Hok'.
  unfold accept in *. rewrite Hc in *. replace (max_clients cfg <=? client_count (srv y)) with false in * by lia.
  set (s' := set_conns _ _ _ _ _ _ _ _ _ _) in *. eexists _, _. split; [reflexivity|]. cbn [srv handled].
  assert ((conn_seq (srv y) + 1) ∉ writers (srv y)) as Hnew by (intros Hin; assert ((conn_seq (srv y) + 1) ∈ writers (srv y) ++ closing (srv y)) as Hin'
    by (apply elem_of_app; by left); apply (co_fresh _ Hok) in Hin'; lia).
  split_and!; try done.
  - split_and!; [destruct Hs; by split|done|done|]. intros c Hin%Hle. by right.
  - split_and!; [by left|by intros ?%Hle|]. cbn [loops]. rewrite lookup_insert_eq. change (config s') with (config (srv y)). by rewrite Hc.
  - lia.
  - cbn. lia.
  - intros c (G1 & G2 & G3)%H2. assert (c <> conn_seq (srv y) + 1) as Hne by (by intros ->). split_and!; [by right|done|]. cbn [loops].
    by rewrite lookup_insert_ne by done.
Qed.

(** A message that the server answers: the command gets through, in however
    many reads, and the connection waits for the next one. *)
Lemma serve_handled conn a x s' enc :
  let y := settle net x in
  server_ready cfg x -> waiting cfg conn x -> sendable_to a ->
  handle_message (ws (handled x)) conn (command_obj a) (srv y) = ([enc], Continue, s') -> steady s' ->
  exists cs x', serve_bytes ws net conn (encode_command a) x = (cs, x') /\ chunks cs /\ concat cs = enc /\ srv x' = s' /\
    handled x' = S (handled x) /\ server_ready cfg x' /\ client_count (srv x') <= client_count (srv x) /\ (forall c, waiting cfg c x -> waiting cfg c x').
Proof.
  intros y Hr Hw Hse Hh Hs'. destruct (settle_settled cfg net x) as [H1 H2 H3 H4 H5 H6 H7 H8 H9]. fold y in H1, H2, H3, H4, H5, H6, H7, H8, H9.
  destruct (H1 Hr) as (Hs & Hc & Hok & Hle). destruct (H2 conn Hw) as (Hin & Hnl & Hlp). unfold serve_bytes. fold y. rewrite Hlp.
  destruct (nw_arrive _ _ Hnet (called y) (encode_command a) (encode_command_nonempty a)) as (cs & Hcs & HF). rewrite <- Hc in HF.
  pose proof (client_loop_feed_all (fun i => ws (handled y + i)%nat) conn _ _ cs (mkLoop (client_parser cfg) None) (srv y) _ _ _ HF (feed_command a cs Hse Hcs)) as Hloop.
  destruct (client_loop _ conn _ _ (srv y)) as [[[o nx] lp'] s1]. destruct Hloop as [Ho Hlp']; [done|done|intros ev He; by apply list_elem_of_fmap_2|].
  pose proof (handle_message_processed (ws (handled x)) conn (command_obj a) (srv y)) as Hp.
  pose proof (handle_message_conns (ws (handled x)) conn (command_obj a) (srv y)) as (E1 & E2 & E3 & E4 & E5 & _).
  pose proof (conn_step_ok _ _ Hok (cs_message (srv y) (ws (handled x)) conn (command_obj a) Hin)) as Hok'.
  unfold stream_outcome in Ho. cbn [handle_messages] in Ho. rewrite Nat.add_0_r, H6, Hh in Ho. rewrite Hh in Hp, E1, E2, E3, E4, E5, Hok'. cbn [snd] in *.
  injection Ho as -> -> ->. destruct (Hlp' eq_refl) as [Hpa Hps].
  assert (lp' = mkLoop (client_parser cfg) None) as -> by (destruct lp'; cbn in *; subst; by rewrite Hps).
  destruct (nw_cut _ _ Hnet (called y) (concat [enc])) as [Hch Hcc]. eexists _, _. split; [reflexivity|]. cbn [srv handled].
  rewrite insert_id by done. split_and!; try done.
  - rewrite Hcc. apply app_nil_r.
  - rewrite Hp, H6. lia.
  - split_and!; cbn [srv leaving]; [done|congruence|done|]. intros c. rewrite E2. apply Hle.
  - lia.
  - intros c (G1 & G2 & G3)%H2. split_and!; cbn [srv leaving loops]; [by rewrite E2|done|done].
Qed.

Lemma serve_answered conn a x v m' enc :
  server_ready cfg x -> waiting cfg conn x -> sendable_to a ->
  answer (w_clock (ws (handled x))) (live (w_clock (ws (handled x)) 0%nat) (store (srv x))) a = Some (v, m') -> encode_value v = Ok enc ->
  exists cs x', serve_bytes ws net conn (encode_command a) x = (cs, x') /\ chunks cs /\ concat cs = enc /\
    handled x' = S (handled x) /\ server_ready cfg x' /\ live (w_clock (ws (S (handled x))) 0%nat) (store (srv x')) = prune (w_clock (ws (S (handled x))) 0%nat) m' /\
    logged_by a v (aof (srv x)) (aof (srv x')) /\ client_count (srv x') <= client_count (srv x) /\ (forall c, waiting cfg c x -> waiting cfg c x').
Proof.
  intros Hr Hw Hse Ha He. destruct (settle_settled cfg net x) as [H1 _ H3 H4 _ _ _ _ _]. rewrite <- H3 in Ha. rewrite <- H4.
  destruct (handle_answers (ws (handled x)) conn a (srv (settle net x)) v m' enc (proj1 (H1 Hr)) (Hworlds _) Ha He) as (s' & Hh & Hs' & Hl & Hlog).
  destruct (serve_handled conn a x s' enc Hr Hw Hse Hh Hs') as (cs & x' & G1 & G2 & G3 & G4 & G5 & G6 & G7 & G8).
  exists cs, x'. rewrite G4 in *. split_and!; try done. by rewrite <- Hl, prune_live by apply Htime.
Qed.

#[local] Instance server_answering : @Answering Clocked (server_service ws net).
Proof.
  refine {|
    clock x := w_clock (ws (handled x));
    view x := live (w_clock (ws (handled x)) 0%nat) (store (srv x));
    room x := max_clients cfg - client_count (srv x);
    ready c x := server_ready cfg x /\ waiting cfg c x;
    usable x := server_ready cfg x;
    sendable := sendable_to
  |}.
  - intros x Hr Hroom. destruct (accept_client_ok x Hr ltac:(lia)) as (conn & x' & H1 & H2 & H3 & H4 & H5 & H6 & H7 & H8 & H9 & H10).
    exists conn, x'. rewrite H8, H5. split_and!; try done; [|lia|by intros c [_ ?%H10]].
    intros [(_ & _ & Hok & _) (Hin & _)]. assert (conn ∈ writers (srv x) ++ closing (srv x)) as Hin' by (apply elem_of_app; by left).
    apply (co_fresh _ Hok) in Hin'. lia.
  - intros conn a x v m' enc [Hr Hw] Hse Ha He.
    destruct (serve_answered conn a x v m' enc Hr Hw Hse Ha He) as (cs & x' & H1 & H2 & H3 & H4 & H5 & H6 & _ & H8 & H9).
    exists cs, x'. rewrite H4, H6. split_and!; try done; [lia|by intros c [_ ?%H9]].
  - intros conn x [_ Hw] Hr. cbn [hang_up server_service client_left handled srv]. split_and!; try done.
    + destruct Hr as (? & ? & ? & Hle). split_and!; try done. intros c [->|?]%elem_of_cons; [apply Hw|auto].
    + intros c Hne [_ (G1 & G2 & G3)]. split; [|split_and!; try done; by intros [?|?]%elem_of_cons].
      destruct Hr as (? & ? & ? & Hle). split_and!; try done. intros c' [->|?]%elem_of_cons; [apply Hw|auto].
Defined.

End Ready.

(** ** Clients of a service *)

Section Exchanges.
Context {S : Type} `{!Service S} `{!Answering S}.

(** One command of a client, from the bytes it writes to the value it gets. *)
Lemma exchange_answers conn a (s : S) v m' enc :
  ready conn s -> sendable a -> answer (clock s) (view s) a = Some (v, m') -> readable v enc ->
  exists s', send_command a (idle_stream conn) s =
      (Returns (match parsed v with PErrorMsg m => Err (RuntimeError m) | x => Ok x end), (idle_stream conn, s')) /\
    (forall parts, map part_bytes parts = a -> client_execute parts (idle_stream conn) s = (Returns (Ok (parsed v)), (idle_stream conn, s'))) /\
    s' = (serve conn (encode_command a) s).2 /\
    view s' = prune (clock s' 0%nat) m' /\ room s <= room s' /\ (usable s -> usable s') /\ (forall c, ready c s -> ready c s').
Proof.
  intros Hr Ha Hans Hv. destruct (serve_answers conn a s v m' enc Hr Ha Hans (proj1 Hv)) as (cs & s' & Hs & Hc & Hcc & H1 & H2 & H3 & H4).
  rewrite <- Hcc in Hv. destruct (exchange_reply conn a v cs s s' Hs Hc Hv) as [G1 G2]. exists s'. rewrite Hs. by split_and!.
Qed.

(** Requests of several clients in the order in which the server gets them. *)
Fixpoint client_session (reqs : list (Z * list part)) (sts : gmap Z Stream) (s : S) :
    list (awaited (result pyobj)) * (gmap Z Stream * S) :=
  match reqs with
  | [] => ([], (sts, s))
  | (conn, parts) :: reqs' =>
      match sts !! conn with
      | None => ([], (sts, s))
      | Some st =>
          let '(r, (st', s1)) := client_execute parts st s in
          let '(rs, x) := client_session reqs' (<[conn:=st']> sts) s1 in (r :: rs, x)
      end
  end.

End Exchanges.

(** The abstract server on the same requests, [clk i] being the times of the
    request number [i]. *)
Fixpoint abstract_session (clk : nat -> nat -> Z) (n : nat) (m : keymap) (cmds : list (list bytes)) : option (list pyobj * keymap) :=
  match cmds with
  | [] => Some ([], m)
  | a :: cmds' =>
      match answer (clk n) m a with
      | None => None
      | Some (v, m1) =>
          match abstract_session clk (S n) (prune (clk (S n) 0%nat) m1) cmds' with
          | None => None
          | Some (vs, m2) => Some (v :: vs, m2)
          end
      end
  end.

(** C6 What clients see.  Any number of clients with open connections send
    commands about the keyspace, deadlines included, in any order, to a running
    master that has no password and no memory limit and whose log works or is
    switched off; its clock does not go back; the commands are within the limits
    of the server's parser and the replies within those of the client's.  The
    network cuts the commands and the replies into any reads, each command arriving before the idle timeout and
    the timeout of an incomplete frame; other connections end meanwhile.  Every
    client gets exactly the replies of the abstract server: a finite map that evolves
    by the specified operations at the times of the commands, in which keys disappear
    at their deadlines; errors arrive as error values; and what the server holds at
    the end is that map. *)
Theorem client_refinement cfg ws net x reqs sts vs m' :
  (forall i, good_world (ws i)) -> (forall i, w_clock (ws i) 0%nat <= w_clock (ws (S i)) 0%nat) ->
  network_ok cfg net -> limits_ok (client_parser cfg) -> 0 < cfg_max_array_depth cfg -> server_ready cfg x ->
  Forall (fun r => waiting cfg r.1 x /\ sts !! r.1 = Some (idle_stream r.1) /\
    command_fits (client_parser cfg) (map part_bytes r.2) = true /\ zlen (encode_command (map part_bytes r.2)) <= cfg_max_buffer_bytes cfg) reqs ->
  abstract_session (fun i => w_clock (ws i)) (handled x) (live (w_clock (ws (handled x)) 0%nat) (store (srv x))) (map (fun r => map part_bytes r.2) reqs) =
    Some (vs, m') ->
  Forall (fun v => exists enc, readable v enc) vs ->
  exists x', @client_session _ (server_service ws net) reqs sts x = (map (fun v => Returns (Ok (parsed v))) vs, (sts, x')) /\
    handled x' = (handled x + length reqs)%nat /\ live (w_clock (ws (handled x')) 0%nat) (store (srv x')) = m'.
Proof.
  intros Hw Ht Hnet Hlim Hd. pose (SV := server_service ws net).
  revert x vs. induction reqs as [|[conn parts] reqs IH]; intros x vs Hr HF Hab Hv.
  - simpl in *. injection Hab as <- <-. exists x. by rewrite Nat.add_0_r.
  - apply Forall_cons in HF as [(Hwt & Hst & Hse) HF]. cbn [map abstract_session fst snd] in *.
    destruct (answer _ _ _) as [[v m1]|] eqn:Ea; [|done]. destruct (abstract_session _ _ _ _) as [[vs' m2]|] eqn:Eab; [|done].
    injection Hab as <- <-. apply Forall_cons in Hv as [[enc Henc] Hv].
    destruct (serve_answered cfg ws net Hw Ht Hnet Hlim Hd conn _ x v m1 enc Hr Hwt Hse Ea (proj1 Henc)) as (cs & x1 & Hs & Hc & Hcc & Hn & Hr1 & Hview & _ & _ & Hwait).
    rewrite <- Hcc in Henc. destruct (@exchange_reply _ SV conn _ v cs x x1 Hs Hc Henc) as [_ Hex].
    specialize (Hex parts eq_refl). cbn [client_session]. rewrite Hst. unfold SV in Hex. rewrite Hex, insert_id by done.
    rewrite <- Hview, <- Hn in Eab. destruct (IH x1 vs' Hr1) as (x2 & H1 & H2 & H3).
    + eapply Forall_impl; [exact HF|]. intros r (Hx & Hrest). split; [|done]. by apply Hwait.
    + exact Eab.
    + done.
    + exists x2. rewrite H1. cbn [length]. split; [done|]. split; [lia|done].
Qed.

(** The clock of a world stands still. *)
Definition world_at (t : Z) : World := mkWorld t (fun _ => t) (fun _ => t) 0 0 0 None (fun _ => (WroteAll, None)) (fun _ => false) (u "down").

Lemma world_at_good t : good_world (world_at t).
Proof. split; [apply Z.le_refl|intros j; apply Z.le_refl|intros j; reflexivity]. Defined.

(** Half a second per command; replies arrive in two pieces; two clients.  A
    key set for one second is gone at the third command. *)
Definition ex_timed (n : nat) : World :=
  mkWorld (500 * Z.of_nat n) (fun _ => 500 * Z.of_nat n) (fun _ => 500 * Z.of_nat n) 0 0 0 None (fun _ => (WroteAll, None)) (fun _ => false) (u "down").
Definition ex_cut (_ : nat) (d : bytes) : list bytes := match d with [] => [] | [x] => [[x]] | x :: y :: l => [[x]; y :: l] end.

(** Every write arrives in two reads, after ten seconds each; each read has its
    timeout. *)
Definition ex_slow_read (t : Z) (d : bytes) : ReadEvent :=
  mkEvent (FFinite t 0) (fun timeout => if float_lt (FFinite 10 0) timeout then ReadData d else ReadTimeout) (FFinite (t + 10) 0).
Definition ex_arrive (_ : nat) (d : bytes) : list ReadEvent := match ex_cut 0 d with [] => [] | [x] => [ex_slow_read 0 x] | x :: l => [ex_slow_read 0 x; ex_slow_read 10 (concat l)] end.
Definition ex_net : Network := mkNetwork ex_cut ex_arrive (fun _ => [3; 3]).

Lemma ex_net_ok cfg :
  client_idle_timeout_sec cfg = float_of_Z 300 -> partial_timeout_sec cfg = float_of_Z 30 -> network_ok cfg ex_net.
Proof.
  intros Hi Hp. split.
  - intros n [|x [|y l]]; (split; [repeat constructor; discriminate|]); try reflexivity. cbn. by rewrite app_nil_r.
  - intros n [|x [|y l]] Hne; [done|exists [[x]]|exists [[x]; (y :: l) ++ []]]; (split; [cbn; by rewrite ?app_nil_r|]);
      repeat apply Forall2_cons_2; try apply Forall2_nil_2; (split; [done|]); rewrite Hi, Hp; (split; [reflexivity|]);
      intros since Hs; repeat (apply elem_of_cons in Hs as [->|Hs]; [split; vm_compute; reflexivity|]); by apply elem_of_nil in Hs.
Defined.

Definition ex_first : Clocked := clocked 0 (started_server default_config (u "abc")).

Lemma ex_steady : steady (started_server default_config (u "abc")).
Proof.
  destruct (started_serving default_config (u "abc") eq_refl eq_refl eq_refl) as ([[H1 H2] H3 H4 H5] & _).
  split; try assumption; [apply Z.leb_le; reflexivity|right; exact H3].
Qed.

Lemma ex_first_ready : server_ready default_config ex_first.
Proof. split; [exact ex_steady|]. split; [reflexivity|]. split; [apply start_conns, new_conns|]. intros c Hc. by apply elem_of_nil in Hc. Qed.

(** Two clients, and a third one that has left. *)
Definition ex_two : Clocked :=
  client_left 3 (accept_client ex_net (accept_client ex_net (accept_client ex_net ex_first).2).2).2.

Lemma ex_two_ready : server_ready default_config ex_two.
Proof.
  split; [destruct ex_steady; by split|]. split; [reflexivity|]. split; [change (conns_ok (accept (accept (accept (srv ex_first)).2).2).2); apply accept_ok, accept_ok, accept_ok, ex_first_ready|].
  intros c Hc. change (c ∈ [3]) in Hc. apply list_elem_of_singleton in Hc as ->. change (3 ∈ [3; 2; 1]). by left.
Qed.

Definition ex_streams : gmap Z Stream := <[1 := idle_stream 1]> (<[2 := idle_stream 2]> ∅).
Definition ex_requests : list (Z * list part) :=
  [(1, [Str (u "SET"); Str (u "k"); Str (u "v"); Str (u "EX"); Int 1]); (2, [Str (u "GET"); Bytes (b "k")]);
   (2, [Str (u "GET"); Bytes (b "k")]); (1, [Str (u "LPUSH"); Str (u "k")])].
Definition ex_replies : list pyobj :=
  [PSimple (u "OK"); PBytes (b "v"); PNone; PRespError (u "ERR wrong number of arguments for 'lpush' command")].

Lemma client_refinement_witness :
  exists x', @client_session _ (server_service ex_timed ex_net) ex_requests ex_streams ex_two =
    (map (fun v => Returns (Ok (parsed v))) ex_replies, (ex_streams, x')) /\ handled x' = 4%nat /\ live (w_clock (ex_timed (handled x')) 0%nat) (store (srv x')) = ∅.
Proof.
  apply (client_refinement default_config ex_timed ex_net ex_two ex_requests ex_streams ex_replies ∅).
  - intros i. split; [apply Z.le_refl|intros j; apply Z.le_refl|intros j; reflexivity].
  - intros i. cbn [w_clock ex_timed]. lia.
  - apply ex_net_ok; reflexivity.
  - split; apply Z.ltb_lt; vm_compute; reflexivity.
  - reflexivity.
  - exact ex_two_ready.
  - repeat apply Forall_cons_2; try apply Forall_nil_2;
      (split; [split; [apply (bool_decide_unpack _); vm_compute; exact I|split; [apply (bool_decide_unpack _); vm_compute; exact I|vm_compute; reflexivity]]|]);
      (split; [reflexivity|]); (split; [reflexivity|apply Z.leb_le; reflexivity]).
  - vm_compute. reflexivity.
  - repeat apply Forall_cons_2; try apply Forall_nil_2; (eexists; split; [reflexivity|]; split; [reflexivity|apply Z.leb_le; vm_compute; reflexivity]).
Defined.
