(* ===== verification/Benchmark.v ===== *)
(** * The benchmark ([tools/benchmark.py])

    Concurrent workers, each with its own connection, share the requests; their
    round trips interleave in any order.  The workers are clients of a
    [Service], and what they rely on is [Answering]. *)
From stdpp Require Import relations.
From S2P Require Import Prelude PyText PyFloat Percentile Encoder Parser Dict Store StoreSpec Eviction Crc32 Rdb AofFile AofLog Config Master Commands Server Client Recovery Memory Replica Requests ClientView.
Local Open Scope Z_scope.

(** ** Commands *)

Definition benchmark_key (worker_id index : Z) : bytes :=
  b "benchmark:" ++ str_of_int worker_id ++ b ":" ++ str_of_int index.
Definition shared_key : bytes := b "benchmark:shared".

Definition build_command (command : str) (worker_id index : Z) : result (list bytes) :=
  if beqb command (u "ping") then Ok [b "PING"]
  else if beqb command (u "set") then Ok [b "SET"; benchmark_key worker_id index; b "value"]
  else if beqb command (u "get") then Ok [b "GET"; shared_key]
  else Err (ValueError (u "unsupported command: " ++ command)).

(** ** Workers *)

(** Where a worker is: before [open_connection], before AUTH, before the request
    of that index, or at the end. *)
Inductive phase := Opening | Authenticating | Requesting (index : Z) | Finished (r : result unit).

Record Worker := mkWorker {
  wk_id : Z;
  wk_count : Z;
  wk_phase : phase;
  wk_stream : Stream;
  wk_latencies : list pyfloat
}.

Definition move (wk : Worker) (ph : phase) (st : Stream) (ls : list pyfloat) : Worker := mkWorker (wk_id wk) (wk_count wk) ph st ls.

(** [(t2 - t1) / 1_000_000] *)
Definition elapsed_ms (t1 t2 : Z) : pyfloat := float_of_ratio (t2 - t1) 1000000.

Section Workers.
Context {S : Type} `{!Service S} (command : str) (password : option str).

(** [run_worker] from one [await] of the server to the next; [t1] and [t2] are
    the readings of [perf_counter_ns].  A turn stands where the server handles the
    request: what the worker does before and after it, on its own streams,
    commutes with the turns of the other workers.  [None] when the worker has
    ended or waits for ever. *)
Definition worker_turn (t1 t2 : Z) (wk : Worker) (s : S) : option (Worker * S) :=
  let fail e st s' := Some (move wk (Finished (Err e)) st (wk_latencies wk), close st s') in
  match wk_phase wk with
  | Opening =>
      let '(st, s') := open_connection s in
      Some (move wk (match password with Some _ => Authenticating | None => Requesting 0 end) st (wk_latencies wk), s')
  | Authenticating =>
      match send_command [b "AUTH"; default [] password] (wk_stream wk) s with
      | (Waits, _) => None
      | (Returns (Ok _), (st, s')) => Some (move wk (Requesting 0) st (wk_latencies wk), s')
      | (Returns (Err e), (st, s')) => fail e st s'
      end
  | Requesting i =>
      if i <? wk_count wk then
        match build_command command (wk_id wk) i with
        | Err e => fail e (wk_stream wk) s
        | Ok a =>
            match send_command a (wk_stream wk) s with
            | (Waits, _) => None
            | (Returns (Ok _), (st, s')) => Some (move wk (Requesting (i + 1)) st (wk_latencies wk ++ [elapsed_ms t1 t2]), s')
            | (Returns (Err e), (st, s')) => fail e st s'
            end
        end
      else Some (move wk (Finished (Ok tt)) (wk_stream wk) (wk_latencies wk), close (wk_stream wk) s)
  | Finished _ => None
  end.

(** [asyncio.gather]: any worker may go on. *)
Inductive bench_step : list Worker * S -> list Worker * S -> Prop :=
| bench_turn t1 t2 l1 wk l2 s wk' s' : worker_turn t1 t2 wk s = Some (wk', s') -> bench_step (l1 ++ wk :: l2, s) (l1 ++ wk' :: l2, s').

(** [prepare_get_key] *)
Definition prepare_get_key (s : S) : awaited (result unit) * S :=
  let '(st, s1) := open_connection s in
  let '(r1, (st1, s2)) :=
    match password with
    | Some p => send_command [b "AUTH"; p] st s1
    | None => (Returns (Ok PNone), (st, s1))
    end in
  match r1 with
  | Waits => (Waits, s2)
  | Returns (Err e) => (Returns (Err e), close st1 s2)
  | Returns (Ok _) =>
      let '(r2, (st2, s3)) := send_command [b "SET"; shared_key; b "value"] st1 s2 in
      match r2 with
      | Waits => (Waits, s3)
      | Returns r => (Returns (rmap (fun _ => tt) r), close st2 s3)
      end
  end.

(** The key of the GET benchmark is written first. *)
Definition prepare (s : S) : awaited (result unit) * S :=
  if beqb command (u "get") then prepare_get_key s else (Returns (Ok tt), s).

End Workers.

(** ** The split of the requests *)

Definition request_count (requests concurrency worker_id : Z) : Z :=
  requests / concurrency + (if worker_id <? requests mod concurrency then 1 else 0).

Definition new_worker (requests concurrency worker_id : Z) : Worker :=
  mkWorker worker_id (request_count requests concurrency worker_id) Opening (mkStream None [] reply_parser) [].

Definition workers (requests concurrency : Z) : list Worker :=
  map (new_worker requests concurrency) (seqZ 0 concurrency).

(** ** The report *)

(** [min(values)] and [max(values)] *)
Definition list_min (values : list pyfloat) : result pyfloat :=
  match values with
  | [] => Err (ValueError (u "min() iterable argument is empty"))
  | x :: l => Ok (foldl (fun acc y => if float_lt y acc then y else acc) x l)
  end.

Definition list_max (values : list pyfloat) : result pyfloat :=
  match values with
  | [] => Err (ValueError (u "max() iterable argument is empty"))
  | x :: l => Ok (foldl (fun acc y => if float_lt acc y then y else acc) x l)
  end.

Record Report := mkReport {
  rp_command : str;
  rp_requests : Z;
  rp_concurrency : Z;
  rp_duration_seconds : pyfloat;
  rp_requests_per_second : pyfloat;
  rp_min : pyfloat;
  rp_p50 : pyfloat;
  rp_p95 : pyfloat;
  rp_p99 : pyfloat;
  rp_max : pyfloat
}.

(** The dictionary that [run_benchmark] returns. *)
Definition report (command : str) (concurrency : Z) (duration : pyfloat) (batches : list (list pyfloat)) : result Report :=
  let latencies := concat batches in
  let* rps := float_div (round_binary64 (zlen latencies) 0) duration in
  let* lo := list_min latencies in
  let* p50 := percentile latencies (float_of_ratio 50 100) in
  let* p95 := percentile latencies (float_of_ratio 95 100) in
  let* p99 := percentile latencies (float_of_ratio 99 100) in
  let* hi := list_max latencies in
  Ok (mkReport (bytes_upper command) (zlen latencies) concurrency (round_digits 6 duration) (round_digits 2 rps)
        (round_digits 3 lo) (round_digits 3 p50) (round_digits 3 p95) (round_digits 3 p99) (round_digits 3 hi)).

(** [run_benchmark]: after the preparation the workers run until all have ended,
    and the report is made of their latencies, or until one has failed, and
    [gather] raises its error.  [duration] is the difference of the two readings
    of [perf_counter]. *)
Inductive run_benchmark {S} `{!Service S} (command : str) (password : option str) (requests concurrency : Z) (duration : pyfloat) (s : S) :
    result Report -> S -> Prop :=
| run_unprepared e s' : prepare command password s = (Returns (Err e), s') -> run_benchmark command password requests concurrency duration s (Err e) s'
| run_failed s1 wks wk e s' :
    prepare command password s = (Returns (Ok tt), s1) -> rtc (bench_step command password) (workers requests concurrency, s1) (wks, s') ->
    wk ∈ wks -> wk_phase wk = Finished (Err e) -> run_benchmark command password requests concurrency duration s (Err e) s'
| run_finished s1 wks s' :
    prepare command password s = (Returns (Ok tt), s1) -> rtc (bench_step command password) (workers requests concurrency, s1) (wks, s') ->
    Forall (fun wk => wk_phase wk = Finished (Ok tt)) wks ->
    run_benchmark command password requests concurrency duration s (report command concurrency duration (map wk_latencies wks)) s'.

(** The checks of [main]. *)
Definition bench_args_error (port requests concurrency : Z) : option str :=
  first_error [(negb ((1 <=? port) && (port <=? 65535)), u "port must be between 1 and 65535");
               (requests <=? 0, u "requests must be > 0");
               (negb ((1 <=? concurrency) && (concurrency <=? requests)), u "concurrency must be between 1 and requests")].

(** ** The shares *)

Lemma shares_prefix requests concurrency n :
  0 < concurrency -> zsum (map (request_count requests concurrency) (seqZ 0 (Z.of_nat n))) =
    Z.of_nat n * (requests / concurrency) + Z.min (Z.of_nat n) (requests mod concurrency).
Proof.
  intros Hc. pose proof (Z.mod_pos_bound requests concurrency Hc). induction n as [|n IH]; [simpl; lia|].
  replace (Z.of_nat (S n)) with (Z.of_nat n + 1) by lia. rewrite seqZ_app, map_app, zsum_app, IH by lia.
  replace (seqZ (0 + Z.of_nat n) 1) with [Z.of_nat n] by (rewrite seqZ_cons by lia; by replace (Z.pred 1) with 0 by lia).
  unfold request_count. simpl. case_match; lia.
Qed.

(** The requests are shared out completely, and nobody gets more than one more
    than another. *)
Lemma shares_sum requests concurrency :
  0 < concurrency -> zsum (map (request_count requests concurrency) (seqZ 0 concurrency)) = requests.
Proof.
  intros Hc. pose proof (shares_prefix requests concurrency (Z.to_nat concurrency) Hc) as H. rewrite Z2Nat.id in H by lia. rewrite H.
  pose proof (Z.mod_pos_bound requests concurrency Hc). pose proof (Z.div_mod requests concurrency). lia.
Qed.

Lemma share_positive requests concurrency w : 1 <= concurrency <= requests -> 1 <= request_count requests concurrency w.
Proof.
  intros Hc. unfold request_count. assert (1 <= requests / concurrency) by (apply Z.div_le_lower_bound; lia). case_match; lia.
Qed.

(** ** The keys *)

Lemma str_of_int_inj n m :
  0 <= n < 10 ^ int_max_str_digits -> 0 <= m < 10 ^ int_max_str_digits -> str_of_int n = str_of_int m -> n = m.
Proof.
  intros Hn Hm E. pose proof (int_of_str_of_int n ltac:(lia)) as H1. rewrite E, int_of_str_of_int in H1 by lia. congruence.
Qed.

Lemma no_colon n : ":"%byte ∉ str_of_int n.
Proof.
  pose proof (str_of_int_chars n) as H. rewrite Forall_forall in H. intros Hin. destruct (H _ Hin) as [[d Hd]|Hd]; [by vm_compute in Hd|done].
Qed.

Lemma separator_inj (c : byte) l1 l2 k1 k2 : c ∉ l1 -> c ∉ l2 -> l1 ++ c :: k1 = l2 ++ c :: k2 -> l1 = l2 /\ k1 = k2.
Proof.
  revert l2. induction l1 as [|x l1 IH]; intros [|y l2] H1 H2 E; simpl in *; simplify_eq; try done.
  - by destruct H2; left.
  - by destruct H1; left.
  - destruct (IH l2) as [-> ->]; [by intros ?; apply H1; right|by intros ?; apply H2; right|done|done].
Qed.

Lemma benchmark_key_inj w i w' i' :
  0 <= w < 10 ^ int_max_str_digits -> 0 <= i < 10 ^ int_max_str_digits -> 0 <= w' < 10 ^ int_max_str_digits -> 0 <= i' < 10 ^ int_max_str_digits ->
  benchmark_key w i = benchmark_key w' i' -> w = w' /\ i = i'.
Proof.
  intros Hw Hi Hw' Hi' E. unfold benchmark_key in E. apply app_inv_head in E. change (b ":") with [":"%byte] in E. cbn [app] in E.
  apply separator_inj in E as [E1 E2]; [|apply no_colon..]. split; by apply str_of_int_inj.
Qed.

(** ** Runs of the workers *)

(** The entry that SET makes. *)
Definition bench_entry : KeyEntry := mkEntry STRING (VBytes (b "value")) None.

(** What a worker has written. *)
Definition keys_of (command : str) (wk : Worker) : list bytes :=
  if beqb command (u "set") then map (benchmark_key (wk_id wk)) (seqZ 0 (zlen (wk_latencies wk))) else [].

(** The steps that a worker has before it. *)
Definition work (wk : Worker) : Z :=
  match wk_phase wk with
  | Opening => wk_count wk + 2
  | Authenticating => wk_count wk + 2
  | Requesting i => wk_count wk - i + 1
  | Finished _ => 0
  end.

Definition open_conn (wk : Worker) : option Z :=
  match wk_phase wk with Requesting _ => st_conn (wk_stream wk) | _ => None end.

Definition opening (wk : Worker) : Z := match wk_phase wk with Opening => 1 | _ => 0 end.

(** The value under the key that the GET benchmark reads. *)
Definition shared_ok (m : keymap) : Prop :=
  match m !! shared_key with
  | None => True
  | Some e => exists v, value e = VBytes v /\ zlen v <= 1024
  end.

(** A map with the keys of the benchmark written over [m0]. *)
Definition written_over (m0 : keymap) (ks : list bytes) (m : keymap) : Prop :=
  forall k, m !! k = if bool_decide (k ∈ ks) then Some bench_entry else m0 !! k.

Section Runs.
Context {S : Type} `{!Service S} `{!Answering S} (command : str) (m0 : keymap).
Hypothesis Hcommand : command = u "ping" \/ command = u "set" \/ command = u "get".
Hypothesis Htimeless : timeless m0.
Hypothesis Hshared : command = u "get" -> shared_ok m0.

Definition worker_ok (s : S) (wk : Worker) : Prop :=
  0 <= wk_count wk /\
  (forall i a, 0 <= i < wk_count wk -> build_command command (wk_id wk) i = Ok a -> sendable a) /\
  match wk_phase wk with
  | Opening => wk_latencies wk = []
  | Authenticating => False
  | Requesting i => 0 <= i <= wk_count wk /\ zlen (wk_latencies wk) = i /\ exists conn, wk_stream wk = idle_stream conn /\ ready conn s
  | Finished r => r = Ok tt /\ zlen (wk_latencies wk) = wk_count wk
  end.

Record bench_inv (wks : list Worker) (s : S) : Prop := {
  bi_usable : usable s;
  bi_workers : Forall (worker_ok s) wks;
  bi_conns : NoDup (omap open_conn wks);
  bi_room : zsum (map opening wks) <= room s;
  bi_view : written_over m0 (concat (map (keys_of command) wks)) (view s);
  bi_timeless : timeless (view s)
}.

(** Workers stay well when the connections that are ready stay ready. *)
Lemma workers_ok_mono s s' wks :
  (forall c, Some c ∈ map open_conn wks -> ready c s -> ready c s') -> Forall (worker_ok s) wks -> Forall (worker_ok s') wks.
Proof.
  intros Hr HF. rewrite Forall_forall in *. intros wk Hin. destruct (HF _ Hin) as (Hc & Hs & Hph). split; [done|]. split; [done|].
  destruct (wk_phase wk) eqn:E; try done. destruct Hph as (Hi & Hl & conn & Hst & Hready). split; [done|]. split; [done|]. exists conn. split; [done|].
  apply Hr; [|done]. apply list_elem_of_fmap. exists wk. split; [|done]. unfold open_conn. by rewrite E, Hst.
Qed.

Lemma keys_none wks : command <> u "set" -> concat (map (keys_of command) wks) = [].
Proof. intros Hne. unfold keys_of. unfold beqb. rewrite bool_decide_false by done. induction wks; by simpl. Qed.

Lemma keys_next wk ph st x :
  command = u "set" ->
  keys_of command (move wk ph st (wk_latencies wk ++ [x])) = keys_of command wk ++ [benchmark_key (wk_id wk) (zlen (wk_latencies wk))].
Proof.
  intros ->. unfold keys_of. change (beqb (u "set") (u "set")) with true. cbv iota. cbn [move wk_id wk_latencies]. rewrite zlen_app. change (zlen [x]) with 1.
  rewrite seqZ_app, map_app by (pose proof (zlen_nonneg (wk_latencies wk)); lia). done.
Qed.

Lemma short_readable v : zlen v <= 1024 -> exists enc, readable (PBytes v) enc.
Proof.
  intros Hz. eexists. split; [reflexivity|]. split; [apply Z.leb_le; cbn; lia|]. unfold encode_bulk_string. rewrite !zlen_app.
  pose proof (str_of_int_short (zlen v) (zlen_nonneg v)). pose proof (zlen_nonneg v). change (zlen (b "$")) with 1. change (zlen CRLF) with 2.
  change (max_buffer_bytes reply_parser) with 32000000. lia.
Qed.

(** The reply to a request of the benchmark, and what it writes. *)
Lemma request_answer clk m l1 wk l2 a :
  build_command command (wk_id wk) (zlen (wk_latencies wk)) = Ok a -> timeless m ->
  written_over m0 (concat (map (keys_of command) (l1 ++ wk :: l2))) m ->
  exists v m' enc, answer clk m a = Some (v, m') /\ readable v enc /\ (forall e, parsed v <> PErrorMsg e) /\ timeless m' /\
    forall x ph st, written_over m0 (concat (map (keys_of command) (l1 ++ move wk ph st (wk_latencies wk ++ [x]) :: l2))) m'.
Proof.
  intros Hb Ht Hv. unfold build_command in Hb. destruct Hcommand as [Ec|[Ec|Ec]]; rewrite Ec in Hb; cbn in Hb; injection Hb as <-.
  - eexists _, m, _. split; [reflexivity|]. split; [split; [reflexivity|split; [done|by apply Z.leb_le]]|]. split; [done|]. split; [done|].
    intros x ph st. by rewrite !keys_none in * by (by rewrite Ec).
  - eexists _, _, _. split; [reflexivity|]. split; [split; [reflexivity|split; [done|by apply Z.leb_le]]|]. split; [done|]. split; [by apply map_Forall_insert_2|].
    intros x ph st k. specialize (Hv k). rewrite !map_app, !concat_app in *. cbn [map concat] in *. rewrite keys_next by done.
    set (key := benchmark_key _ _). destruct (decide (k = key)) as [->|Hne].
    + rewrite lookup_insert_eq, bool_decide_true by set_solver. done.
    + rewrite lookup_insert_ne, Hv by done. erewrite bool_decide_ext; [reflexivity|]. set_solver.
  - assert (m !! shared_key = m0 !! shared_key) as Es by (rewrite Hv, keys_none by (by rewrite Ec); done).
    assert (exists r, answer clk m [b "GET"; shared_key] = Some (r, m) /\ (r = PNone \/ exists v, r = PBytes v /\ zlen v <= 1024)) as (r & Hr & Hcase).
    { change (answer clk m [b "GET"; shared_key]) with (let '(r, m') := spec_op clk m (GetString shared_key) in Some (reply_value (op_reply r), m')).
      cbn [spec_op]. rewrite Es. specialize (Hshared Ec). unfold shared_ok in Hshared. destruct (m0 !! shared_key) as [e|].
      - destruct Hshared as (v & -> & Hz). eexists. split; [reflexivity|]. right. by exists v.
      - eexists. split; [reflexivity|]. by left. }
    exists r, m. assert (exists enc, readable r enc) as [enc Henc].
    { destruct Hcase as [->|(v & -> & Hz)]; [|by apply short_readable]. eexists. split; [reflexivity|]. split; [done|by apply Z.leb_le]. }
    exists enc. split; [done|]. split; [done|]. split; [by destruct Hcase as [->|(v & -> & _)]|]. split; [done|].
    intros x ph st. by rewrite !keys_none in * by (by rewrite Ec).
Qed.

Lemma open_ready s wks c : Forall (worker_ok s) wks -> c ∈ omap open_conn wks -> ready c s.
Proof.
  intros HF (wk & Hin & Ho)%list_elem_of_omap. rewrite Forall_forall in HF. destruct (HF _ Hin) as (_ & _ & Hph). unfold open_conn in Ho.
  destruct (wk_phase wk); try done. destruct Hph as (_ & _ & conn & Hst & Hr). rewrite Hst in Ho. by injection Ho as <-.
Qed.

Lemma zsum_opening wks : 0 <= zsum (map opening wks).
Proof. unfold zsum, opening. induction wks as [|wk wks IH]; simpl; [lia|]. destruct (wk_phase wk); lia. Qed.

(** The rest of the invariant when the worker in the middle changes. *)
Lemma inv_swap l1 wk l2 s wk' s' :
  bench_inv (l1 ++ wk :: l2) s -> usable s' -> worker_ok s' wk' ->
  (forall c, c ∈ omap open_conn (l1 ++ l2) -> ready c s -> ready c s') ->
  (forall c, open_conn wk' = Some c -> open_conn wk = Some c \/ ~ ready c s) ->
  room s - opening wk <= room s' - opening wk' ->
  written_over m0 (concat (map (keys_of command) (l1 ++ wk' :: l2))) (view s') -> timeless (view s') ->
  bench_inv (l1 ++ wk' :: l2) s'.
Proof.
  intros [Hu Hw Hn Hr Hv Ht] Hu' Hok Hmono Hc Hroom Hv' Ht'. apply Forall_app in Hw as [Hw1 [Hwk Hw2]%Forall_cons].
  assert (Forall (worker_ok s') l1 /\ Forall (worker_ok s') l2) as [Hw1' Hw2'].
  { split; (apply (workers_ok_mono s); [|done]); intros c Hin; apply Hmono; rewrite omap_app; apply elem_of_app; [left|right];
      apply list_elem_of_fmap in Hin as (x & Hx & Hin); apply list_elem_of_omap; by exists x. }
  split; try done.
  - apply Forall_app. split; [done|]. by constructor.
  - rewrite omap_app in *. cbn [omap list_omap] in *. destruct (open_conn wk') as [c|] eqn:E'.
    + assert ((c ∉ omap open_conn l1) /\ (c ∉ omap open_conn l2)) as [H1 H2].
      { destruct (Hc c eq_refl) as [Ho|Hnr].
        - rewrite Ho in Hn. apply NoDup_app in Hn as (_ & Hd & [Hn2 _]%NoDup_cons). split; [|done]. intros Hin. apply (Hd c Hin). by left.
        - split; intros Hin; apply Hnr; [apply (open_ready s l1)|apply (open_ready s l2)]; done. }
      destruct (open_conn wk) as [c0|]; apply NoDup_app in Hn as (Hn1 & Hd & Hn2); apply NoDup_app.
      * apply NoDup_cons in Hn2 as [_ Hn2]. split_and!; [done| |by constructor]. intros x Hx [->|Hx2]%elem_of_cons; [done|]. apply (Hd x Hx). by right.
      * split_and!; [done| |by constructor]. intros x Hx [->|Hx2]%elem_of_cons; [done|]. by apply (Hd x Hx).
    + destruct (open_conn wk) as [c0|]; [|done]. apply NoDup_app in Hn as (Hn1 & Hd & [_ Hn2]%NoDup_cons). apply NoDup_app. split_and!; [done| |done].
      intros x Hx Hx2. apply (Hd x Hx). by right.
  - rewrite !map_app, !zsum_app in *. cbn [map zsum foldr] in *. fold (zsum (map opening l2)) in *. lia.
Qed.

(** A step of the worker in the middle: it keeps the invariant and brings the
    worker one step closer to its end. *)
Definition good_turn (l1 : list Worker) (wk : Worker) (l2 : list Worker) (s : S) (r : option (Worker * S)) : Prop :=
  exists wk' s', r = Some (wk', s') /\ bench_inv (l1 ++ wk' :: l2) s' /\
    work wk' + 1 = work wk /\ wk_id wk' = wk_id wk /\ wk_count wk' = wk_count wk.

Lemma turn_open t1 t2 l1 wk l2 s :
  bench_inv (l1 ++ wk :: l2) s -> wk_phase wk = Opening -> good_turn l1 wk l2 s (worker_turn command None t1 t2 wk s).
Proof.
  intros Hinv Eph. pose proof (bi_workers _ _ Hinv) as Hws. apply Forall_app in Hws as [_ [Hwk _]%Forall_cons].
  destruct Hwk as (Hcnt & Hsend & Hph). unfold worker_turn, good_turn, work. rewrite Eph in *.
  assert (opening wk = 1) as Eo by (unfold opening; by rewrite Eph). assert (0 < room s) as Hroom.
  { pose proof (bi_room _ _ Hinv) as Hr. rewrite map_app, zsum_app in Hr. cbn [map zsum foldr] in Hr. fold (zsum (map opening l2)) in Hr.
    pose proof (zsum_opening l1). pose proof (zsum_opening l2). lia. }
  destruct (connect_ready s (bi_usable _ _ Hinv) Hroom) as (conn & s' & Hcon & Hrd & Hu & Hnr & Hv & Hck & Hrm & Hkeep).
  unfold open_connection. rewrite Hcon. eexists _, s'. split; [reflexivity|]. cbn [move wk_phase wk_id wk_count]. split; [|split_and!; [lia|done|done]].
  apply (inv_swap l1 wk l2 s); try done.
  - split; [done|]. split; [done|]. cbn [move wk_phase wk_latencies wk_stream]. rewrite Hph. split; [cbn; lia|]. split; [done|]. by exists conn.
  - intros c _. apply Hkeep.
  - intros c [= <-]. by right.
  - rewrite Eo. unfold opening. cbn [move wk_phase]. lia.
  - rewrite Hv. pose proof (bi_view _ _ Hinv) as Hw. rewrite !map_app in *. exact Hw.
  - rewrite Hv. apply Hinv.
Qed.

Lemma turn_request t1 t2 l1 wk l2 s i :
  bench_inv (l1 ++ wk :: l2) s -> wk_phase wk = Requesting i -> i < wk_count wk -> good_turn l1 wk l2 s (worker_turn command None t1 t2 wk s).
Proof.
  intros Hinv Eph El. pose proof (bi_workers _ _ Hinv) as Hws. apply Forall_app in Hws as [_ [Hwk _]%Forall_cons].
  destruct Hwk as (Hcnt & Hsend & Hph). unfold worker_turn, good_turn, work. rewrite Eph in *.
  destruct Hph as (Hi & Hl & conn & Hst & Hrd). assert (opening wk = 0) as Eo by (unfold opening; by rewrite Eph). rewrite Hst.
  replace (i <? wk_count wk) with true by lia.
  assert (exists a, build_command command (wk_id wk) i = Ok a) as [a Ha] by (unfold build_command; destruct Hcommand as [->|[->| ->]]; by eexists).
  rewrite Ha. rewrite <- Hl in Ha.
  destruct (request_answer (clock s) (view s) l1 wk l2 a Ha (bi_timeless _ _ Hinv) (bi_view _ _ Hinv)) as (v & m' & enc & Hans & Hread & Hne & Ht' & Hw').
  destruct (exchange_answers conn a s v m' enc Hrd (Hsend i a ltac:(lia) ltac:(by rewrite <- Hl)) Hans Hread) as (s' & Hx & _ & _ & Hv & Hrm & Hu & Hready).
  rewrite Hx. assert (match parsed v with PErrorMsg m => Err (RuntimeError m) | x => Ok x end = Ok (parsed v)) as ->
    by (destruct (parsed v) eqn:Ep; try done; by destruct (Hne message)).
  eexists _, s'. split; [reflexivity|]. cbn [move wk_phase wk_id wk_count]. split; [|split_and!; [lia|done|done]].
  rewrite timeless_prune in Hv by done. apply (inv_swap l1 wk l2 s); try done.
  - by apply Hu, Hinv.
  - split; [done|]. split; [done|]. cbn [move wk_phase wk_latencies wk_stream wk_count]. rewrite zlen_app, Hl. change (zlen [elapsed_ms t1 t2]) with 1.
    split; [lia|]. split; [lia|]. exists conn. split; [done|]. by apply Hready.
  - intros c _. by apply Hready.
  - intros c Hc. left. unfold open_conn in *. rewrite Eph, Hst. exact Hc.
  - rewrite Eo. unfold opening. cbn [move wk_phase]. lia.
  - rewrite Hv. apply Hw'.
  - by rewrite Hv.
Qed.

Lemma turn_close t1 t2 l1 wk l2 s i :
  bench_inv (l1 ++ wk :: l2) s -> wk_phase wk = Requesting i -> wk_count wk <= i -> good_turn l1 wk l2 s (worker_turn command None t1 t2 wk s).
Proof.
  intros Hinv Eph El. pose proof (bi_workers _ _ Hinv) as Hws. apply Forall_app in Hws as [_ [Hwk _]%Forall_cons].
  destruct Hwk as (Hcnt & Hsend & Hph). unfold worker_turn, good_turn, work. rewrite Eph in *.
  destruct Hph as (Hi & Hl & conn & Hst & Hrd). assert (opening wk = 0) as Eo by (unfold opening; by rewrite Eph). rewrite Hst.
  replace (i <? wk_count wk) with false by lia.
  destruct (hang_up_keeps conn s Hrd (bi_usable _ _ Hinv)) as (Hv & Hck & Hrm & Hu & Hkeep).
  eexists _, _. split; [reflexivity|]. cbn [move wk_phase wk_id wk_count]. split; [|split_and!; [lia|done|done]]. cbn [close idle_stream st_conn].
  apply (inv_swap l1 wk l2 s); try done.
  - split; [done|]. split; [done|]. cbn [move wk_phase wk_latencies wk_count]. split; [done|lia].
  - intros c Hin. apply Hkeep. intros ->. pose proof (bi_conns _ _ Hinv) as Hn. rewrite omap_app in *. cbn [omap list_omap] in Hn.
    assert (open_conn wk = Some conn) as Ho by (unfold open_conn; by rewrite Eph, Hst). rewrite Ho in Hn.
    apply NoDup_app in Hn as (_ & Hd & [Hn2 _]%NoDup_cons). apply elem_of_app in Hin as [Hin|Hin]; [|done]. apply (Hd conn Hin). by left.
  - rewrite Eo. unfold opening. cbn [move wk_phase]. lia.
  - rewrite Hv. pose proof (bi_view _ _ Hinv) as Hw. rewrite !map_app in *. exact Hw.
  - rewrite Hv. apply Hinv.
Qed.

(** A worker that has not ended can go on, and does not fail. *)
Lemma turn_ok t1 t2 l1 wk l2 s :
  bench_inv (l1 ++ wk :: l2) s -> 0 < work wk -> good_turn l1 wk l2 s (worker_turn command None t1 t2 wk s).
Proof.
  intros Hinv Hwork. pose proof (bi_workers _ _ Hinv) as Hws. apply Forall_app in Hws as [_ [(_ & _ & Hph) _]%Forall_cons].
  unfold work in Hwork. destruct (wk_phase wk) as [| |i|r] eqn:Eph; [by apply turn_open|done| |lia].
  destruct (decide (i < wk_count wk)); [by apply (turn_request _ _ _ _ _ _ i)|apply (turn_close _ _ _ _ _ _ i); [done|done|lia]].
Qed.

Definition total_work (wks : list Worker) : Z := zsum (map work wks).

Lemma step_ok wks s wks' s' :
  bench_inv wks s -> bench_step command None (wks, s) (wks', s') ->
  bench_inv wks' s' /\ total_work wks' + 1 = total_work wks /\ map wk_id wks' = map wk_id wks /\ map wk_count wks' = map wk_count wks.
Proof.
  intros Hinv Hst. inversion Hst as [t1 t2 l1 wk l2 s0 wk' s0' Hturn]; subst. destruct (decide (0 < work wk)) as [Hw|Hw].
  - destruct (turn_ok t1 t2 l1 wk l2 s Hinv Hw) as (wk1 & s1 & Hr & Hi & Hwk & Hid & Hc). rewrite Hturn in Hr. injection Hr as <- <-.
    split; [done|]. unfold total_work. rewrite !map_app, !zsum_app. cbn [map zsum foldr]. rewrite Hid, Hc. split; [lia|done].
  - exfalso. pose proof (bi_workers _ _ Hinv) as Hws. apply Forall_app in Hws as [_ [(Hcnt & _ & Hph) _]%Forall_cons].
    unfold work, worker_turn in *. destruct (wk_phase wk); try done; lia.
Qed.

Lemma steps_ok n wks s wks' s' :
  bench_inv wks s -> nsteps (bench_step command None) n (wks, s) (wks', s') ->
  bench_inv wks' s' /\ total_work wks' + Z.of_nat n = total_work wks /\ map wk_id wks' = map wk_id wks /\ map wk_count wks' = map wk_count wks.
Proof.
  revert wks s. induction n as [|n IH]; intros wks s Hinv Hst; inversion Hst as [|? ? [wks1 s1] ? H1 H2]; subst; [split_and!; first [done|lia]|].
  destruct (step_ok _ _ _ _ Hinv H1) as (Hi & Hw & Hid & Hc). destruct (IH _ _ Hi H2) as (Hi' & Hw' & Hid' & Hc').
  split; [done|]. split; [lia|]. by rewrite Hid', Hc'.
Qed.

Lemma work_nonneg s wk : worker_ok s wk -> 0 <= work wk /\ (work wk = 0 -> wk_phase wk = Finished (Ok tt) /\ zlen (wk_latencies wk) = wk_count wk).
Proof. intros (Hc & _ & Hph). unfold work. destruct (wk_phase wk); try done; split; try lia. intros _. by destruct Hph as [-> ?]. Qed.

(** Nobody has failed; there is a next step until all have ended. *)
Lemma run_progress wks s :
  bench_inv wks s ->
  0 <= total_work wks /\ (0 < total_work wks -> exists y, bench_step command None (wks, s) y) /\
  (total_work wks = 0 -> Forall (fun wk => wk_phase wk = Finished (Ok tt) /\ zlen (wk_latencies wk) = wk_count wk) wks).
Proof.
  intros Hinv. pose proof (bi_workers _ _ Hinv) as Hws.
  assert (0 <= total_work wks /\ (0 < total_work wks -> exists l1 wk l2, wks = l1 ++ wk :: l2 /\ 0 < work wk) /\
    (total_work wks = 0 -> Forall (fun wk => wk_phase wk = Finished (Ok tt) /\ zlen (wk_latencies wk) = wk_count wk) wks)) as (H1 & H2 & H3).
  { clear Hinv. unfold total_work. induction Hws as [|wk wks Hwk _ (IH1 & IH2 & IH3)]; cbn [map zsum foldr].
    - split; [lia|]. split; [lia|]. by constructor.
    - fold (zsum (map work wks)). destruct (work_nonneg _ _ Hwk) as [Hw0 Hw1]. split; [lia|]. split.
      + intros Hpos. destruct (decide (0 < work wk)) as [Hp|Hp]; [by exists [], wk, wks|].
        destruct IH2 as (l1 & wk' & l2 & -> & Hp'); [lia|]. by exists (wk :: l1), wk', l2.
      + intros Hz. constructor; [apply Hw1; lia|apply IH3; lia]. }
  split; [done|]. split; [|done]. intros Hpos. destruct (H2 Hpos) as (l1 & wk & l2 & -> & Hp).
  destruct (turn_ok 0 0 l1 wk l2 s Hinv Hp) as (wk' & s' & Hr & _). eexists. by apply (bench_turn command None 0 0 l1 wk l2 s wk' s').
Qed.

Lemma start_inv requests concurrency s :
  1 <= concurrency <= requests -> usable s -> concurrency <= room s -> view s = m0 ->
  (forall w i a, 0 <= w < concurrency -> 0 <= i < request_count requests concurrency w -> build_command command w i = Ok a -> sendable a) ->
  bench_inv (workers requests concurrency) s /\ total_work (workers requests concurrency) = requests + 2 * concurrency.
Proof.
  intros Hc Hu Hr Hv Hsend. unfold workers, total_work. rewrite map_map.
  assert (forall l, omap open_conn (map (new_worker requests concurrency) l) = [] /\ concat (map (keys_of command) (map (new_worker requests concurrency) l)) = [] /\
    zsum (map opening (map (new_worker requests concurrency) l)) = zlen l /\
    zsum (map (fun x => work (new_worker requests concurrency x)) l) = zsum (map (request_count requests concurrency) l) + 2 * zlen l) as Hall.
  { induction l as [|x l (I1 & I2 & I3 & I4)]; [done|]. cbn [map omap list_omap concat zsum foldr].
    change (keys_of command (new_worker requests concurrency x)) with (if beqb command (u "set") then map (benchmark_key x) (seqZ 0 0) else []).
    rewrite zlen_cons. split_and!; [done|by destruct (beqb _ _)| |].
    - fold (zsum (map opening (map (new_worker requests concurrency) l))). rewrite I3. done.
    - fold (zsum (map (fun x => work (new_worker requests concurrency x)) l)). fold (zsum (map (request_count requests concurrency) l)). rewrite I4.
      change (work (new_worker requests concurrency x)) with (request_count requests concurrency x + 2). lia. }
  assert (zlen (seqZ 0 concurrency) = concurrency) as Hlen by (unfold zlen; rewrite length_seqZ; lia).
  destruct (Hall (seqZ 0 concurrency)) as (I1 & I2 & I3 & I4). rewrite Hlen in *. split; [|rewrite I4, shares_sum by lia; lia]. split; try done.
  - apply Forall_map, Forall_forall. intros w Hw%elem_of_seqZ. split; [pose proof (share_positive requests concurrency w Hc); cbn; lia|].
    split; [|done]. intros i a Hi. apply (Hsend w); [lia|done].
  - rewrite I1. constructor.
  - lia.
  - rewrite I2, Hv. intros k. done.
  - by rewrite Hv.
Qed.

End Runs.

(** All keys of a run. *)
Definition all_keys (requests concurrency : Z) : list bytes :=
  concat (map (fun w => map (benchmark_key w) (seqZ 0 (request_count requests concurrency w))) (seqZ 0 concurrency)).

Lemma zlen_map {A B} (f : A -> B) l : zlen (map f l) = zlen l.
Proof. unfold zlen. by rewrite length_map. Qed.

Lemma NoDup_map_inj {A B} (f : A -> B) l : (forall x y, x ∈ l -> y ∈ l -> f x = f y -> x = y) -> NoDup l -> NoDup (map f l).
Proof.
  intros Hinj Hn. induction Hn as [|x l Hx Hn IH]; cbn [map]; constructor.
  - intros (y & E & Hy)%list_elem_of_fmap. apply Hx. rewrite (Hinj x y); [done|by left|by right|done].
  - apply IH. intros y z Hy Hz. apply Hinj; by right.
Qed.

Lemma zlen_seqZ n : 0 <= n -> zlen (seqZ 0 n) = n.
Proof. intros Hn. unfold zlen. rewrite length_seqZ. lia. Qed.

Lemma all_keys_distinct requests concurrency :
  1 <= concurrency <= requests -> requests < 10 ^ int_max_str_digits ->
  NoDup (all_keys requests concurrency) /\ zlen (all_keys requests concurrency) = requests.
Proof.
  intros Hc Hr. unfold all_keys. split.
  - assert (forall w i, i ∈ seqZ 0 (request_count requests concurrency w) -> 0 <= i < 10 ^ int_max_str_digits) as Hi.
    { intros w i Hi%elem_of_seqZ. unfold request_count in Hi. assert (requests / concurrency <= requests) by (apply Z.div_le_upper_bound; nia). case_match; lia. }
    assert (forall w, w ∈ seqZ 0 concurrency -> 0 <= w < 10 ^ int_max_str_digits) as Hw by (intros w Hw%elem_of_seqZ; lia).
    pose proof (NoDup_seqZ 0 concurrency) as Hn. induction Hn as [|w ws Hnot Hn IH]; cbn [map concat]; [constructor|].
    apply NoDup_app. split_and!; [| |apply IH; intros x Hx; apply Hw; by right].
    + apply NoDup_map_inj; [|apply NoDup_seqZ]. intros x y Hx Hy E. apply (benchmark_key_inj w x w y) in E as [_ E]; eauto; apply Hw; by left.
    + intros k (i & -> & Hin)%list_elem_of_fmap Hk. rewrite list_elem_of_In, in_concat in Hk.
      destruct Hk as (ks & (w' & <- & Hw')%in_map_iff & (i' & E & Hi')%in_map_iff). rewrite <- list_elem_of_In in Hw', Hi'.
      apply (benchmark_key_inj w' i' w i) in E as [-> _]; [done|apply Hw; by right|by apply (Hi w')|apply Hw; by left|by apply (Hi w)].
  - rewrite zlen_concat, map_map. etrans; [|apply (shares_sum requests concurrency); lia]. f_equal. apply map_ext_in. intros w Hin.
    rewrite zlen_map, zlen_seqZ; [done|]. pose proof (share_positive requests concurrency w Hc). lia.
Qed.

(** What finished workers leave. *)
Lemma finished_workers command requests concurrency wks ids :
  map wk_id wks = ids -> map wk_count wks = map (request_count requests concurrency) ids ->
  Forall (fun wk => wk_phase wk = Finished (Ok tt) /\ zlen (wk_latencies wk) = wk_count wk) wks ->
  map zlen (map wk_latencies wks) = map (request_count requests concurrency) ids /\
  map (keys_of command) wks =
    map (fun w => if beqb command (u "set") then map (benchmark_key w) (seqZ 0 (request_count requests concurrency w)) else []) ids.
Proof.
  intros <- Hc HF. induction HF as [|wk wks [_ Hl] _ IH]; [done|]. cbn [map] in *. injection Hc as Hc1 Hc2. destruct (IH Hc2) as [-> ->].
  unfold keys_of. by rewrite Hl, Hc1.
Qed.

(** What a run of any [Answering] service comes to. *)
Definition bench_outcome {S} `{!Service S} `{!Answering S} (command : str) (requests concurrency : Z) (s : S) (n : nat) (wks : list Worker) (x : S) : Prop :=
  let steps := requests + 2 * concurrency in
  let keys := if beqb command (u "set") then all_keys requests concurrency else [] in
  Forall (fun wk => forall e, wk_phase wk <> Finished (Err e)) wks /\ Z.of_nat n <= steps /\
  (Z.of_nat n < steps -> exists y, bench_step command None (wks, x) y) /\
  (Forall (fun wk => wk_phase wk = Finished (Ok tt)) wks -> Z.of_nat n = steps) /\
  (Z.of_nat n = steps ->
    Forall (fun wk => wk_phase wk = Finished (Ok tt)) wks /\ zlen (concat (map wk_latencies wks)) = requests /\
    written_over (view s) keys (view x)).

Lemma bench_runs {S} `{!Service S} `{!Answering S} command requests concurrency (s : S) n wks x :
  command = u "ping" \/ command = u "set" \/ command = u "get" -> timeless (view s) -> (command = u "get" -> shared_ok (view s)) ->
  1 <= concurrency <= requests -> usable s -> concurrency <= room s ->
  (forall w i a, 0 <= w < concurrency -> 0 <= i < request_count requests concurrency w -> build_command command w i = Ok a -> sendable a) ->
  nsteps (bench_step command None) n (workers requests concurrency, s) (wks, x) -> bench_outcome command requests concurrency s n wks x.
Proof.
  intros Hcmd Htl Hsh Hn Hu Hroom Hfit Hrun. unfold bench_outcome. cbv zeta.
  destruct (start_inv command (view s) Htl requests concurrency s Hn Hu Hroom eq_refl Hfit) as [Hinv Hwork].
  destruct (steps_ok command (view s) Hcmd Htl Hsh n _ _ wks x Hinv Hrun) as (Hinv' & Hw' & Hid & Hcnt).
  destruct (run_progress command (view s) Hcmd Htl Hsh wks x Hinv') as (H1 & H2 & H3). rewrite Hwork in Hw'.
  split; [|split; [lia|split; [intros Hlt; apply H2; lia|split]]].
  - eapply Forall_impl; [apply Hinv'|]. intros wk (_ & _ & Hph) e E. rewrite E in Hph. by destruct Hph.
  - intros Hall. assert (total_work wks = 0); [|lia]. clear - Hall. unfold total_work. induction Hall as [|wk wks Hwk _ IH]; [done|].
    cbn [map zsum foldr]. unfold work at 1. rewrite Hwk. exact IH.
  - intros Hz. specialize (H3 ltac:(lia)).
    assert (map wk_id wks = seqZ 0 concurrency) as Eid by (rewrite Hid; unfold workers; rewrite map_map; apply map_id).
    assert (map wk_count wks = map (request_count requests concurrency) (seqZ 0 concurrency)) as Ecnt by (rewrite Hcnt; unfold workers; by rewrite map_map).
    destruct (finished_workers command requests concurrency wks _ Eid Ecnt H3) as [Hl Hks].
    split; [eapply Forall_impl; [exact H3|]; by intros wk []|]. split; [rewrite zlen_concat, Hl; apply shares_sum; lia|].
    pose proof (bi_view _ _ _ _ Hinv') as Hv. rewrite Hks in Hv. unfold all_keys.
    destruct (beqb command (u "set")); [exact Hv|].
    by replace (concat _) with (@nil bytes) in Hv by (clear; induction (seqZ 0 concurrency) as [|? ? IH]; [done|exact IH]).
Qed.

(** ** Properties *)

(** C16 A benchmark run.  Workers that share [requests] requests (PING, SET or
    GET) talk, without AUTH, to a running master that has no password, no memory
    limit and no deadlines, whose log works or is switched off, whose clock does not
    go back, and that has room for their connections; every request reaches the server
    within its timeouts; their round trips interleave in any way.  No worker ever
    fails; as long as the run has fewer than
    [requests + 2 * concurrency] steps (one per request, one to connect and one to
    close) there is a next one, and it has no more; then every worker has ended,
    exactly [requests] latencies were measured and, in the case of SET, the
    keyspace holds one more string under each of the [requests] different keys
    and is unchanged elsewhere. *)
Theorem benchmark_completes cfg ws net x0 command requests concurrency n wks x :
  (forall i, good_world (ws i)) -> (forall i, w_clock (ws i) 0%nat <= w_clock (ws (S i)) 0%nat) ->
  network_ok cfg net -> limits_ok (client_parser cfg) -> 0 < cfg_max_array_depth cfg -> server_ready cfg x0 ->
  let m0 := live (w_clock (ws (handled x0)) 0%nat) (store (srv x0)) in
  timeless m0 -> (command = u "get" -> shared_ok m0) -> command = u "ping" \/ command = u "set" \/ command = u "get" ->
  1 <= concurrency <= requests -> requests < 10 ^ int_max_str_digits -> client_count (srv x0) + concurrency <= max_clients cfg ->
  (forall w i a, 0 <= w < concurrency -> 0 <= i < request_count requests concurrency w -> build_command command w i = Ok a -> sendable_to cfg a) ->
  nsteps (@bench_step _ (server_service ws net) command None) n (workers requests concurrency, x0) (wks, x) ->
  let steps := requests + 2 * concurrency in
  let keys := if beqb command (u "set") then all_keys requests concurrency else [] in
  Forall (fun wk => forall e, wk_phase wk <> Finished (Err e)) wks /\ Z.of_nat n <= steps /\
  (Z.of_nat n < steps -> exists y, @bench_step _ (server_service ws net) command None (wks, x) y) /\
  (Z.of_nat n = steps ->
    Forall (fun wk => wk_phase wk = Finished (Ok tt)) wks /\ zlen (concat (map wk_latencies wks)) = requests /\
    written_over m0 keys (live (w_clock (ws (handled x)) 0%nat) (store (srv x))) /\
    NoDup (all_keys requests concurrency) /\ zlen (all_keys requests concurrency) = requests).
Proof.
  intros Hw Ht Hnet Hlim Hd Hr m0 Htl Hsh Hcmd Hn Hreq Hroom Hfit Hrun steps keys.
  pose (SV := server_service ws net). pose (AN := server_answering cfg ws net Hw Ht Hnet Hlim Hd).
  destruct (@bench_runs _ SV AN command requests concurrency x0 n wks x Hcmd Htl Hsh Hn) as (H1 & H2 & H3 & _ & H4); try done.
  { cbn. lia. }
  split; [done|]. split; [done|]. split; [done|]. intros Hz. destruct (H4 Hz) as (F1 & F2 & F3).
  split; [done|]. split; [done|]. split; [exact F3|]. by apply all_keys_distinct.
Qed.

(** A run in a given order of the workers. *)
Fixpoint run_order {S} `{!Service S} (command : str) (order : list nat) (x : list Worker * S) : option (list Worker * S) :=
  match order with
  | [] => Some x
  | i :: order' =>
      match x.1 !! i with
      | None => None
      | Some wk =>
          match worker_turn command None 0 2500000 wk x.2 with
          | None => None
          | Some (wk', s') => run_order command order' (take i x.1 ++ wk' :: drop (Datatypes.S i) x.1, s')
          end
      end
  end.

Lemma run_order_steps {S} `{!Service S} command order (x y : list Worker * S) :
  run_order command order x = Some y -> nsteps (bench_step command None) (length order) x y.
Proof.
  revert x. induction order as [|i order IH]; intros [wks s] H; cbn [run_order fst snd length] in *; [injection H as ->; constructor|].
  destruct (wks !! i) as [wk|] eqn:E; [|done]. destruct (worker_turn command None 0 2500000 wk s) as [[wk' s']|] eqn:Ew; [|done].
  apply nsteps_l with (take i wks ++ wk' :: drop (Datatypes.S i) wks, s'); [|by apply IH].
  rewrite <- (take_drop_middle wks i wk E) at 1. by apply (bench_turn command None 0 2500000).
Qed.

(** Two workers, three SETs, in an order that mixes them. *)
Definition ex_bench_start : list Worker * Clocked := (workers 3 2, ex_first).
Definition ex_bench_end : option (list Worker * Clocked) :=
  Eval vm_compute in @run_order _ (server_service ex_timed ex_net) (u "set") [0; 1; 1; 0; 1; 0; 0]%nat ex_bench_start.

Lemma benchmark_completes_witness :
  exists wks x, ex_bench_end = Some (wks, x) /\ zlen (concat (map wk_latencies wks)) = 3 /\
    written_over ∅ (all_keys 3 2) (live (w_clock (ex_timed (handled x)) 0%nat) (store (srv x))).
Proof.
  assert (@run_order _ (server_service ex_timed ex_net) (u "set") [0; 1; 1; 0; 1; 0; 0]%nat ex_bench_start = ex_bench_end) as E by (vm_compute; reflexivity).
  destruct ex_bench_end as [[wks x]|] eqn:Ee; [|discriminate Ee]. exists wks, x. split; [reflexivity|].
  destruct (benchmark_completes default_config ex_timed ex_net ex_first (u "set") 3 2 7 wks x) as (_ & _ & _ & H).
  - intros i. split; [apply Z.le_refl|intros j; apply Z.le_refl|intros j; reflexivity].
  - intros i. cbn [w_clock ex_timed]. lia.
  - apply ex_net_ok; reflexivity.
  - split; apply Z.ltb_lt; vm_compute; reflexivity.
  - reflexivity.
  - exact ex_first_ready.
  - change (timeless ∅). apply map_Forall_empty.
  - intros _. exact I.
  - right. left. reflexivity.
  - lia.
  - apply Z.ltb_lt. vm_compute. reflexivity.
  - apply Z.leb_le. reflexivity.
  - intros w i a Hw Hi [= <-]. assert (w = 0 \/ w = 1) as [->| ->] by lia; assert (i = 0 \/ i = 1) as [->| ->] by (unfold request_count in Hi; change (3 / 2) with 1 in Hi; case_match; lia);
      (split; [reflexivity|apply Z.leb_le; reflexivity]).
  - exact (@run_order_steps _ (server_service ex_timed ex_net) (u "set") _ _ _ E).
  - destruct H as (_ & H1 & H2 & _); [reflexivity|]. split; [exact H1|exact H2].
Defined.
