(* ===== verification/Report.v ===== *)
(** * The report of the benchmark ([tools/benchmark.py], [run_benchmark])

    The whole of [run_benchmark] on a running server: it returns, the report
    counts every request, and its latencies are in order after the rounding. *)
From stdpp Require Import relations.
From S2P Require Import Prelude PyText PyFloat Percentile Rounding Encoder Parser Dict Store StoreSpec Eviction Crc32 Rdb AofFile AofLog Config Master Commands Server Client Recovery Memory Replica Requests ClientView Benchmark.
Local Open Scope Z_scope.

(** ** Summaries of finite latencies *)

Lemma float_le_refl x : float_le x x.
Proof. by destruct (total float_le x x). Qed.

Lemma ratio_finite a d : is_finite (float_of_ratio a d) = true.
Proof. unfold float_of_ratio. by case_match. Qed.

Lemma round_finite n x : is_finite x = true -> is_finite (round_digits n x) = true.
Proof. destruct x; try done. intros _. apply ratio_finite. Qed.

(** A percentile is one of the values. *)
Lemma percentile_elem values p x :
  values <> [] -> zlen values <= 2 ^ 31 -> 1 <= p <= 100 -> percentile values (float_of_ratio p 100) = Ok x -> x ∈ values.
Proof.
  intros Hne Hn Hp Hx. destruct (percentile_rank values p Hne Hn Hp) as (_ & y & Hy & Hl). rewrite Hx in Hy. injection Hy as <-.
  rewrite <- sorted_perm. by apply (list_elem_of_lookup_2 _ _ _ Hl).
Qed.

(** A higher percentage gives no smaller value. *)
Lemma percentile_mono values p q x y :
  values <> [] -> zlen values <= 2 ^ 31 -> all_finite values -> 1 <= p <= q -> q <= 100 ->
  percentile values (float_of_ratio p 100) = Ok x -> percentile values (float_of_ratio q 100) = Ok y -> float_le x y.
Proof.
  intros Hne Hn Hf Hp Hq Ex Ey. destruct (percentile_rank values p Hne Hn ltac:(lia)) as (Hr & x' & Ex' & Hx).
  destruct (percentile_rank values q Hne Hn ltac:(lia)) as (Hr' & y' & Ey' & Hy). rewrite Ex in Ex'. rewrite Ey in Ey'. injection Ex' as <-. injection Ey' as <-.
  set (r := (zlen values * p + 99) / 100) in *. set (r' := (zlen values * q + 99) / 100) in *.
  assert (r <= r') as Hrr by (apply Z.div_le_mono; [lia|]; pose proof (zlen_nonneg values); nia).
  destruct (ordered_split (sorted values) _ x ltac:(by rewrite sorted_perm) (sorted_ordered values Hf) Hx) as [_ H2].
  rewrite Forall_forall in H2. apply H2, (list_elem_of_lookup_2 _ (Z.to_nat (r' - 1) - Z.to_nat (r - 1))). rewrite lookup_drop. by replace (_ + _)%nat with (Z.to_nat (r' - 1)) by lia.
Qed.

(** [min] and [max] keep the best value so far: no value is better than the
    result. *)
Lemma best_spec (better : pyfloat -> pyfloat -> bool) x l :
  (forall x y, better x y = true -> better y x = false) ->
  (forall x y z, is_finite x = true -> is_finite y = true -> is_finite z = true -> better y x = false -> better z y = false -> better z x = false) ->
  all_finite (x :: l) ->
  let m := foldl (fun acc y => if better y acc then y else acc) x l in m ∈ x :: l /\ Forall (fun y => better y m = false) (x :: l).
Proof.
  intros Hasym Htrans. assert (forall x, better x x = false) as Hirr by (intros y; destruct (better y y) eqn:E; [by rewrite (Hasym y y E) in E|done]).
  revert x. induction l as [|y l IH]; intros x Hf; cbn [foldl]; [split; [by left|by repeat constructor]|].
  apply Forall_cons in Hf as [Hx [Hy Hf]%Forall_cons]. destruct (IH (if better y x then y else x)) as [Hin [Hle Hall]%Forall_cons].
  { apply Forall_cons. split; [by case_match|done]. }
  set (m := foldl _ _ l) in *. assert (is_finite m = true) as Hm.
  { rewrite elem_of_cons in Hin. destruct Hin as [->|Hin]; [by case_match|]. by apply (proj1 (Forall_forall _ _) Hf). }
  destruct (better y x) eqn:E; (split; [set_solver|]); repeat apply Forall_cons_2; try done.
  - apply (Htrans m y x); auto.
  - by apply (Htrans m x y).
Qed.

Lemma float_lt_asym x y : float_lt x y = true -> float_lt y x = false.
Proof. destruct (total float_le x y) as [H|H]; [done|]. unfold float_le in H. congruence. Qed.

Lemma min_spec values : values <> [] -> all_finite values -> exists lo, list_min values = Ok lo /\ lo ∈ values /\ Forall (float_le lo) values.
Proof.
  destruct values as [|x l]; [done|]. intros _ Hf. destruct (best_spec float_lt x l float_lt_asym) as [H1 H2]; [|done|by eexists].
  intros a c d Ha Hc Hd H1 H2. by apply (float_le_trans a c d).
Qed.

Lemma max_spec values : values <> [] -> all_finite values -> exists hi, list_max values = Ok hi /\ hi ∈ values /\ Forall (fun y => float_le y hi) values.
Proof.
  destruct values as [|x l]; [done|]. intros _ Hf. destruct (best_spec (fun y acc => float_lt acc y) x l) as [H1 H2].
  - intros a c. apply float_lt_asym.
  - intros a c d Ha Hc Hd H1 H2. by apply (float_le_trans d c a).
  - done.
  - by eexists.
Qed.

(** ** The report *)

(** The latencies of the report are numbers, and in order. *)
Definition report_ordered (r : Report) : Prop :=
  all_finite [rp_min r; rp_p50 r; rp_p95 r; rp_p99 r; rp_max r] /\
  float_le (rp_min r) (rp_p50 r) /\ float_le (rp_p50 r) (rp_p95 r) /\ float_le (rp_p95 r) (rp_p99 r) /\ float_le (rp_p99 r) (rp_max r).

(** Every field of the report of a non-empty run that took some time. *)
Lemma report_spec command concurrency m e batches :
  let n := zlen (concat batches) in
  1 <= n <= 2 ^ 31 -> all_finite (concat batches) -> m <> 0 ->
  exists r, report command concurrency (FFinite m e) batches = Ok r /\
    rp_command r = bytes_upper command /\ rp_requests r = n /\ rp_concurrency r = concurrency /\ report_ordered r.
Proof.
  intros n Hn Hf Hm. unfold report. fold n. set (ls := concat batches) in *. assert (ls <> []) as Hne by (intros E; unfold n in Hn; rewrite E in Hn; change (1 <= 0 <= 2 ^ 31) in Hn; lia).
  rewrite round_small by lia. assert (exists q, float_div (FFinite n 0) (FFinite m e) = Ok q) as [q ->] by (destruct m; [done|by eexists..]). cbn [rbind].
  destruct (min_spec ls Hne Hf) as (lo & -> & Hlo & Hmin). destruct (max_spec ls Hne Hf) as (hi & -> & Hhi & Hmax). cbn [rbind].
  assert (forall p, 1 <= p <= 100 -> exists x, percentile ls (float_of_ratio p 100) = Ok x) as Hp.
  { intros p Hp. destruct (percentile_rank ls p Hne ltac:(lia) Hp) as (_ & x & Ex & _). by exists x. }
  destruct (Hp 50) as [x Ex]; [lia|]. destruct (Hp 95) as [y Ey]; [lia|]. destruct (Hp 99) as [z Ez]; [lia|].
  pose proof (percentile_elem ls 50 x Hne ltac:(lia) ltac:(lia) Ex) as Ix. pose proof (percentile_elem ls 95 y Hne ltac:(lia) ltac:(lia) Ey) as Iy.
  pose proof (percentile_elem ls 99 z Hne ltac:(lia) ltac:(lia) Ez) as Iz. rewrite Ex, Ey, Ez. cbn [rbind]. eexists. split; [reflexivity|].
  cbn [rp_command rp_requests rp_concurrency]. split_and!; try done.
  pose proof (percentile_mono ls 50 95 x y Hne ltac:(lia) Hf ltac:(lia) ltac:(lia) Ex Ey).
  pose proof (percentile_mono ls 95 99 y z Hne ltac:(lia) Hf ltac:(lia) ltac:(lia) Ey Ez).
  unfold report_ordered. cbn [rp_min rp_p50 rp_p95 rp_p99 rp_max]. unfold all_finite in Hf. rewrite Forall_forall in Hf, Hmin, Hmax.
  split; [repeat apply Forall_cons_2; try constructor; apply round_finite; auto|]. split_and!; apply round_digits_mono; auto; lia.
Qed.

(** ** The run *)

Section Run.
Context {S : Type} `{!Service S} `{!Answering S}.

(** The preparation writes the shared key; its connection may still be
    counted when it returns. *)
Lemma prepare_get_key_ok s :
  usable s -> 0 < room s -> timeless (view s) -> sendable [b "SET"; shared_key; b "value"] ->
  exists s', prepare_get_key None s = (Returns (Ok tt), s') /\ usable s' /\ room s - 1 <= room s' /\ view s' = <[shared_key := bench_entry]> (view s).
Proof.
  intros Hu Hr Ht Hsend. destruct (connect_ready s Hu Hr) as (conn & s1 & Hcon & Hrd & Hu1 & _ & Hv1 & _ & Hr1 & _).
  unfold prepare_get_key, open_connection. rewrite Hcon. change (mkStream (Some conn) [] reply_parser) with (idle_stream conn).
  assert (timeless (<[shared_key := bench_entry]> (view s))) as Ht' by (by apply map_Forall_insert_2).
  destruct (exchange_answers conn [b "SET"; shared_key; b "value"] s1 (PSimple (u "OK")) (<[shared_key := bench_entry]> (view s)) (b "+OK" ++ CRLF) Hrd Hsend)
    as (s2 & Hx & _ & _ & Hv2 & Hr2 & Hu2 & Hready); [by rewrite Hv1|split; [done|split; [done|by apply Z.leb_le]]|].
  rewrite Hx. cbn [parsed rmap]. rewrite timeless_prune in Hv2 by done.
  destruct (hang_up_keeps conn s2 (Hready conn Hrd) (Hu2 Hu1)) as (Hv3 & _ & Hr3 & Hu3 & _).
  eexists. split; [reflexivity|]. cbn [close idle_stream st_conn]. split; [done|]. split; [lia|]. by rewrite Hv3.
Qed.

(** What the workers start from. *)
Lemma prepare_ok command s :
  usable s -> 0 < room s -> timeless (view s) -> (command = u "get" -> sendable [b "SET"; shared_key; b "value"]) ->
  exists s', prepare command None s = (Returns (Ok tt), s') /\ usable s' /\ room s - (if beqb command (u "get") then 1 else 0) <= room s' /\ timeless (view s') /\
    (command = u "get" -> shared_ok (view s')) /\ view s' = if beqb command (u "get") then <[shared_key := bench_entry]> (view s) else view s.
Proof.
  intros Hu Hr Ht Hsend. unfold prepare, beqb. case_bool_decide as E; [|exists s; split_and!; try done; lia].
  destruct (prepare_get_key_ok s Hu Hr Ht (Hsend E)) as (s' & -> & Hu' & Hr' & Hv'). exists s'. rewrite Hv'. split_and!; try done.
  - by apply map_Forall_insert_2.
  - intros _. unfold shared_ok. rewrite lookup_insert_eq. exists (b "value"). split; [done|]. by apply Z.leb_le.
Qed.

(** Latencies are quotients of integers. *)
Lemma latencies_finite command password (x y : list Worker * S) :
  Forall (fun wk => all_finite (wk_latencies wk)) x.1 -> rtc (bench_step command password) x y -> Forall (fun wk => all_finite (wk_latencies wk)) y.1.
Proof.
  intros Hx Hr. induction Hr as [|x y z Hst _ IH]; [done|]. apply IH. destruct Hst as [t1 t2 l1 wk l2 s wk' s' Ht]. cbn [fst] in *.
  apply Forall_app in Hx as [H1 [Hwk H2]%Forall_cons]. apply Forall_app. split; [done|]. constructor; [|done].
  unfold worker_turn, open_connection in Ht. repeat case_match; simplify_eq; try exact Hwk. cbn [move wk_latencies]. apply Forall_app. split; [done|].
  constructor; [apply ratio_finite|constructor].
Qed.

(** A run of the workers to their end exists. *)
Lemma bench_reaches command requests concurrency (s : S) :
  (forall n wks x, nsteps (bench_step command None) n (workers requests concurrency, s) (wks, x) -> bench_outcome command requests concurrency s n wks x) ->
  0 <= requests + 2 * concurrency ->
  exists wks x, rtc (bench_step command None) (workers requests concurrency, s) (wks, x) /\ Forall (fun wk => wk_phase wk = Finished (Ok tt)) wks.
Proof.
  intros Hout Hpos. assert (forall n, Z.of_nat n <= requests + 2 * concurrency -> exists y, nsteps (bench_step command None) n (workers requests concurrency, s) y) as Hall.
  { induction n as [|n IH]; intros Hn; [eexists; constructor|]. destruct IH as [[wks x] Hst]; [lia|].
    destruct (Hout n wks x Hst) as (_ & _ & Hnext & _). destruct Hnext as [y Hy]; [lia|]. exists y. by eapply nsteps_r. }
  destruct (Hall (Z.to_nat (requests + 2 * concurrency))) as [[wks x] Hst]; [lia|]. destruct (Hout _ wks x Hst) as (_ & _ & _ & _ & Hend).
  exists wks, x. split; [by eapply rtc_nsteps_2|]. apply Hend. lia.
Qed.

(** [run_benchmark] with a service that has room for the connections. *)
Lemma run_benchmark_ok command requests concurrency m e (s : S) :
  command = u "ping" \/ command = u "set" \/ command = u "get" -> timeless (view s) -> 1 <= concurrency <= requests -> requests <= 2 ^ 31 -> m <> 0 ->
  usable s -> concurrency + (if beqb command (u "get") then 1 else 0) <= room s -> (command = u "get" -> sendable [b "SET"; shared_key; b "value"]) ->
  (forall w i a, 0 <= w < concurrency -> 0 <= i < request_count requests concurrency w -> build_command command w i = Ok a -> sendable a) ->
  let run := run_benchmark command None requests concurrency (FFinite m e) s in
  (exists r x, run r x) /\
  forall r x, run r x -> exists rep, r = Ok rep /\ rp_command rep = bytes_upper command /\ rp_requests rep = requests /\ rp_concurrency rep = concurrency /\
    report_ordered rep /\
    written_over (if beqb command (u "get") then <[shared_key := bench_entry]> (view s) else view s)
      (if beqb command (u "set") then all_keys requests concurrency else []) (view x).
Proof.
  intros Hcmd Ht Hn Hmax Hm Hu Hr Hset Hfit run. destruct (prepare_ok command s Hu ltac:(destruct (beqb command (u "get")); lia) Ht Hset) as (s1 & Hp & Hu1 & Hr1 & Ht1 & Hsh & Hv1).
  assert (forall n wks x, nsteps (bench_step command None) n (workers requests concurrency, s1) (wks, x) -> bench_outcome command requests concurrency s1 n wks x) as Hout.
  { intros n wks x. apply bench_runs; try done. lia. }
  split; [destruct (bench_reaches command requests concurrency s1 Hout ltac:(lia)) as (wks & x & Hst & Hall); eexists _, x; by eapply run_finished|].
  intros r x Hrun. destruct Hrun as [e' s' Hp'|s1' wks wk e' s' Hp' Hst Hin Hph|s1' wks s' Hp' Hst Hall]; rewrite Hp in Hp'; simplify_eq.
  - exfalso. apply rtc_nsteps in Hst as [n Hst]. destruct (Hout n wks s' Hst) as (Hno & _). rewrite Forall_forall in Hno. by apply (Hno wk Hin e').
  - assert (all_finite (concat (map wk_latencies wks))) as Hf.
    { apply (latencies_finite _ _ _ (wks, s')) in Hst; [apply Forall_concat, Forall_map, Hst|]. apply Forall_map, Forall_forall. intros w _. constructor. }
    apply rtc_nsteps in Hst as [n Hst]. destruct (Hout n wks s' Hst) as (_ & _ & _ & Hdone & Hend). destruct (Hend (Hdone Hall)) as (_ & Hlen & Hw).
    destruct (report_spec command concurrency m e (map wk_latencies wks)) as (rep & Hrep & H1 & H2 & H3 & H4); [lia|done|done|].
    exists rep. rewrite Hv1 in Hw. split_and!; try done. by rewrite H2.
Qed.

End Run.

(** ** Properties *)

(** C17 [run_benchmark], without AUTH, on a running master that has no password,
    no memory limit and no deadlines, whose log works or is switched off, whose
    clock does not go back, and that has room for the connections of the
    workers (and, before a run of GET, for the one that prepares the key, which may
    still be counted when the workers connect); every request reaches it within its
    timeouts; the run takes a time that is not zero, for at most [2 ^ 31] requests.  It
    returns, whatever the interleaving of the workers; the report has the name of the
    command in upper case and counts exactly the requests that were asked for; the
    minimum, the three percentiles and the maximum, each computed in floating point
    and rounded to three decimals, are in order; and the keyspace has the keys of SET, or
    the shared key of GET, written over it and is unchanged elsewhere. *)
Theorem run_benchmark_reports cfg ws net x0 command requests concurrency m e :
  (forall i, good_world (ws i)) -> (forall i, w_clock (ws i) 0%nat <= w_clock (ws (S i)) 0%nat) ->
  network_ok cfg net -> limits_ok (client_parser cfg) -> 0 < cfg_max_array_depth cfg -> server_ready cfg x0 ->
  let m0 := live (w_clock (ws (handled x0)) 0%nat) (store (srv x0)) in
  timeless m0 -> command = u "ping" \/ command = u "set" \/ command = u "get" ->
  1 <= concurrency <= requests -> requests <= 2 ^ 31 -> m <> 0 ->
  client_count (srv x0) + concurrency + (if beqb command (u "get") then 1 else 0) <= max_clients cfg ->
  (command = u "get" -> sendable_to cfg [b "SET"; shared_key; b "value"]) ->
  (forall w i a, 0 <= w < concurrency -> 0 <= i < request_count requests concurrency w -> build_command command w i = Ok a -> sendable_to cfg a) ->
  let run := @run_benchmark _ (server_service ws net) command None requests concurrency (FFinite m e) x0 in
  (exists r x, run r x) /\
  forall r x, run r x -> exists rep, r = Ok rep /\ rp_command rep = bytes_upper command /\ rp_requests rep = requests /\ rp_concurrency rep = concurrency /\
    report_ordered rep /\
    written_over (if beqb command (u "get") then <[shared_key := bench_entry]> m0 else m0)
      (if beqb command (u "set") then all_keys requests concurrency else []) (live (w_clock (ws (handled x)) 0%nat) (store (srv x))).
Proof.
  intros Hw Ht Hnet Hlim Hd Hr m0 Htl Hcmd Hn Hreq Hm Hroom Hset Hfit run.
  pose (SV := server_service ws net). pose (AN := server_answering cfg ws net Hw Ht Hnet Hlim Hd).
  apply (@run_benchmark_ok _ SV AN command requests concurrency m e x0); try done.
  change (concurrency + (if beqb command (u "get") then 1 else 0) <= max_clients cfg - client_count (srv x0)). lia.
Qed.

(** Two workers and three GETs on an empty server. *)
Lemma run_benchmark_reports_witness :
  let run := @run_benchmark _ (server_service ex_timed ex_net) (u "get") None 3 2 (FFinite 1 (-4)) ex_first in
  exists rep x, run (Ok rep) x /\ rp_requests rep = 3 /\ report_ordered rep /\ rp_command rep = u "GET".
Proof.
  destruct (run_benchmark_reports default_config ex_timed ex_net ex_first (u "get") 3 2 1 (-4)) as [(r & x & Hr) H].
  - intros i. split; [apply Z.le_refl|intros j; apply Z.le_refl|intros j; reflexivity].
  - intros i. cbn [w_clock ex_timed]. lia.
  - apply ex_net_ok; reflexivity.
  - split; apply Z.ltb_lt; vm_compute; reflexivity.
  - reflexivity.
  - exact ex_first_ready.
  - change (timeless ∅). apply map_Forall_empty.
  - right. right. reflexivity.
  - lia.
  - lia.
  - discriminate.
  - apply Z.leb_le. reflexivity.
  - intros _. split; [reflexivity|apply Z.leb_le; reflexivity].
  - intros w i a Hw Hi [= <-]. split; [reflexivity|apply Z.leb_le; reflexivity].
  - destruct (H r x Hr) as (rep & -> & H1 & H2 & _ & H3 & _). exists rep, x. split; [exact Hr|]. split; [exact H2|]. split; [exact H3|exact H1].
Defined.
