(* ===== verification/EndToEnd.v ===== *)
(** * The end-to-end checks ([docs/_qa_e2e_verify.py])

    The script that starts servers, talks to them, kills them and starts them
    again: its client, the assertions of its sections, and what they mean on the
    modelled server. *)
From S2P Require Import Prelude PyText PyFloat Encoder Parser Dict Store StoreSpec Eviction Crc32 Rdb AofFile AofLog Config Security Master Commands Server Client Snapshots Recovery Memory Replica Requests ClientView.
Local Open Scope Z_scope.

(** ** Assertions *)

(** [==] on the values that a parser makes. *)
Fixpoint py_eq (x y : pyobj) : bool :=
  match x, y with
  | PNone, PNone => true
  | PInt m, PInt n => m =? n
  | PBytes s, PBytes t | PStr s, PStr t => bool_decide (s = t)
  | PList l, PList k =>
      (fix list_eq l k :=
         match l, k with
         | [], [] => true
         | x :: l', y :: k' => py_eq x y && list_eq l' k'
         | _, _ => false
         end) l k
  | _, _ => false
  end.

(** A [dict] of parsed values. *)
Abbreviation mapping := (list (pyobj * pyobj)).

Fixpoint mapping_get (d : mapping) (k : pyobj) : option pyobj :=
  match d with [] => None | (k', v) :: d' => if py_eq k' k then Some v else mapping_get d' k end.

Fixpoint mapping_set (d : mapping) (k v : pyobj) : mapping :=
  match d with
  | [] => [(k, v)]
  | (k', v') :: d' => if py_eq k' k then (k', v) :: d' else (k', v') :: mapping_set d' k v
  end.

Definition mapping_eq (d e : mapping) : bool :=
  (zlen d =? zlen e) && forallb (fun kv => match mapping_get e kv.1 with Some v => py_eq kv.2 v | None => false end) d.

(** [zip(value[0::2], value[1::2])] of a list of even length. *)
Fixpoint zip_pairs (l : list pyobj) : list (pyobj * pyobj) :=
  match l with k :: v :: l' => (k, v) :: zip_pairs l' | _ => [] end.

Fixpoint dict_of_pairs (d : mapping) (l : list (pyobj * pyobj)) : result mapping :=
  match l with
  | [] => Ok d
  | (PList _, _) :: _ => Err (TypeError (u "unhashable type: 'list'"))
  | (k, v) :: l' => dict_of_pairs (mapping_set d k v) l'
  end.

Definition assert_ (c : bool) : result unit := if c then Ok tt else Err AssertionError.

Definition pair_mapping (value : pyobj) : result mapping :=
  match value with
  | PList l => if zlen l mod 2 =? 0 then dict_of_pairs [] (zip_pairs l) else Err AssertionError
  | _ => Err AssertionError
  end.

(** [x in s] of bytes or text *)
Fixpoint is_in (x s : bytes) : bool :=
  bool_decide (take (length x) s = x) || match s with [] => false | _ :: s' => is_in x s' end.

Definition equals (v r : pyobj) : result unit := assert_ (py_eq r v).
Definition is_none (r : pyobj) : result unit := assert_ (match r with PNone => true | _ => false end).
Definition maps_to (d : mapping) (r : pyobj) : result unit := let* m := pair_mapping r in assert_ (mapping_eq m d).
Definition error_with (x : str) (r : pyobj) : result unit :=
  assert_ (match r with PErrorMsg m => is_in x m | _ => false end).
Definition unchecked (_ : pyobj) : result unit := Ok tt.

(** ** Sections *)

(** A statement of a section: a command and what is asserted of its reply, a
    pause in milliseconds, or a line of evidence. *)
Inductive statement :=
| Execute (parts : list part) (check : pyobj -> result unit)
| Sleep (ms : Z)
| Evidence (line : str).

(** The arguments of [execute], given with spaces between them. *)
Abbreviation words l := (map Str (split_on " "%byte (u l))).
Abbreviation OK := (equals (PStr (u "OK"))).
Abbreviation bulk x := (equals (PBytes (b x))).
Abbreviation int n := (equals (PInt n)).

Definition commands_script : list statement :=
  [Execute (words "PING") (equals (PStr (u "PONG")));
   Evidence (u "PING → PONG");
   Execute (words "SET foo bar") OK;
   Execute (words "GET foo") (bulk "bar");
   Evidence (u "SET/GET foo=bar OK");
   Execute (words "SET exk v EX 1") OK;
   Sleep 1150;
   Execute (words "GET exk") is_none;
   Evidence (u "SET EX 1 expired → null");
   Execute (words "SET ek v") OK;
   Execute (words "EXPIRE ek" ++ [Int 1]) (int 1);
   Sleep 1150;
   Execute (words "GET ek") is_none;
   Evidence (u "EXPIRE then GET null");
   Execute (words "LPUSH mylist a") (int 1);
   Execute (words "LPUSH mylist b") (int 2);
   Execute (words "RPOP mylist") (bulk "a");
   Execute (words "RPOP mylist") (bulk "b");
   Execute (words "RPOP mylist") is_none;
   Evidence (u "LPUSH/RPOP order a then b then null");
   Execute (words "HSET hk f1 v1") (int 1);
   Execute (words "HSET hk f1 v2") (int 0);
   Execute (words "HGETALL hk") (maps_to [(PBytes (b "f1"), PBytes (b "v2"))]);
   Evidence (u "HSET/HGETALL f1=v2");
   Execute (words "LPUSH wt z") (int 1);
   Execute (words "GET wt") (error_with (u "WRONGTYPE"));
   Evidence (u "WRONGTYPE on GET list")].

(** Before and after the crash of [section_rdb_crash], and of [section_aof]. *)
Definition rdb_before : list statement :=
  [Execute (words "SET str hello") OK;
   Execute (words "LPUSH lst a b") (int 2);
   Execute (words "HSET hs f v") (int 1);
   Execute (words "SET ttlkey t EX 3600") OK].

Definition rdb_after : list statement :=
  [Execute (words "GET str") (bulk "hello");
   Execute (words "RPOP lst") (bulk "a");
   Execute (words "HGETALL hs") (maps_to [(PBytes (b "f"), PBytes (b "v"))]);
   Execute (words "GET ttlkey") (bulk "t");
   Evidence (u "post-crash restart restored str/list/hash/ttlkey")].

Definition aof_before : list statement :=
  [Execute (words "SET a 1") OK;
   Execute (words "LPUSH L x") (int 1);
   Execute (words "HSET H f v") (int 1);
   Execute (words "GET a") unchecked].

Definition aof_after : list statement :=
  [Execute (words "GET a") (bulk "1");
   Execute (words "RPOP L") (bulk "x");
   Execute (words "HGETALL H") (maps_to [(PBytes (b "f"), PBytes (b "v"))]);
   Evidence (u "AOF replay restored a/L/H after restart (RDB removed)")].

(** ** The client *)

Section Harness.
Context {S : Type} `{!Service S}.

(** [RespClient.connect]: [refusals] are the errors of the attempts before the
    server listens. *)
Fixpoint qa_connect (refusals : list str) (retries : nat) (last : option str) (s : S) : result Stream * S :=
  match retries with
  | O => (Err (ConnectionError (u "connect failed: " ++ default (u "None") last)), s)
  | Datatypes.S retries' =>
      match refusals with
      | e :: refusals' => qa_connect refusals' retries' (Some e) s
      | [] => let '(st, s') := open_connection s in (Ok st, s')
      end
  end.

(** A pause changes nothing here: it bounds the clock of the commands after it
    (see [slept]). *)
Fixpoint run_statements (stmts : list statement) (evidence : list str) (st : Stream) (s : S) :
    awaited (result (list str)) * (Stream * S) :=
  match stmts with
  | [] => (Returns (Ok evidence), (st, s))
  | Sleep _ :: stmts' => run_statements stmts' evidence st s
  | Evidence line :: stmts' => run_statements stmts' (evidence ++ [line]) st s
  | Execute parts check :: stmts' =>
      let '(r, (st', s')) := client_execute parts st s in
      match r with
      | Waits => (Waits, (st', s'))
      | Returns (Err e) => (Returns (Err e), (st', s'))
      | Returns (Ok v) =>
          match check v with
          | Err e => (Returns (Err e), (st', s'))
          | Ok _ => run_statements stmts' evidence st' s'
          end
      end
  end.

Definition section_commands (refusals : list str) (s : S) : awaited (result (list str)) * S :=
  match qa_connect refusals 50 None s with
  | (Err e, s1) => (Returns (Err e), s1)
  | (Ok st, s1) =>
      let '(r, (st', s2)) := run_statements commands_script [] st s1 in
      match r with Waits => (Waits, s2) | Returns _ => (r, close st' s2) end
  end.

(** The part of a section that uses one server: connect, run, and close when
    everything held; [look] is what the section checks before it closes. *)
Definition leave (look : list str -> S -> result (list str)) (x : awaited (result (list str)) * (Stream * S)) : awaited (result (list str)) * S :=
  let '(r, (st, s)) := x in
  match r with
  | Returns (Ok evidence) =>
      match look evidence s with
      | Ok evidence' => (Returns (Ok evidence'), close st s)
      | Err e => (Returns (Err e), s)
      end
  | _ => (r, s)
  end.

Definition visit (refusals : list str) (stmts : list statement) (look : list str -> S -> result (list str)) (evidence : list str) (s : S) :
    awaited (result (list str)) * S :=
  match qa_connect refusals 50 None s with
  | (Err e, s1) => (Returns (Err e), s1)
  | (Ok st, s1) => leave look (run_statements stmts evidence st s1)
  end.

End Harness.

(** ** Servers *)

(** The namespace that [argparse] makes of the command line of [start_server],
    in an environment without passwords. *)
Definition qa_args (port : Z) (data_dir : str) (aof : bool) (fsync : AofFsync) : Args :=
  let d := default_args None None in
  mkArgs (u "127.0.0.1") port data_dir (a_dbfilename d) aof (a_aof_filename d) fsync None (u "warning") (a_rdb_save_seconds d)
    (a_proto_max_bulk_len d) (a_proto_max_array_len d) (a_max_array_depth d) (a_max_buffer_bytes d) (a_partial_timeout_sec d)
    (a_client_idle_timeout_sec d) (a_max_clients d) (a_max_auth_failures d) (a_aof_queue_max_commands d) (a_aof_enqueue_timeout_sec d)
    (a_replica_backlog_max_bytes d) (a_replica_pending_max_commands d) (a_persistence_max_load_bytes d) (a_maxmemory_bytes d)
    (a_maxmemory_policy d) (a_requirepass d) (a_masterauth d) (a_allow_unprotected_non_loopback d).

(** What the outside world decides when a server is started: its run id, the
    worlds of the replay, the time of loading, and the refused attempts to
    connect before it listens. *)
Record Launch := mkLaunch {
  l_rid : str;
  l_replay : nat -> World;
  l_now : Z;
  l_refusals : list str
}.

Section Servers.
Context (cfg : Config) (ws : nat -> World) (net : Network).
Let SV : Service Clocked := server_service ws net.

(** A server on the files of its directory, and a visit to it; when it does not
    start, every attempt to connect is refused.  [n] messages and [k] calls came
    before it. *)
Definition launch (l : Launch) (n k : nat) (aof_contents : bytes) (rdb : option bytes) : option Clocked :=
  match start (l_replay l) (l_now l) None (new_server cfg (l_rid l) aof_contents rdb) with
  | (Ok _, s) => Some (mkClocked n k s ∅ [])
  | (Err _, _) => None
  end.

Definition visit_server (l : Launch) (n k : nat) (aof_contents : bytes) (rdb : option bytes) (stmts : list statement)
    (look : list str -> Clocked -> result (list str)) (evidence : list str) : awaited (result (list str)) * option Clocked :=
  match launch l n k aof_contents rdb with
  | None => (Returns (Err (ConnectionError (u "connect failed: " ++ default (u "None") (last (l_refusals l))))), None)
  | Some x => let '(r, x') := @visit _ SV (l_refusals l) stmts look evidence x in (r, Some x')
  end.

(** [section_rdb_crash]; the kill leaves the files as they are. *)
Definition save_statement : statement := Execute (words "SAVE") OK.

Definition look_rdb (evidence : list str) (x : Clocked) : result (list str) :=
  match rdb_file (srv x) with
  | Some (c :: data) => Ok (evidence ++ [u "SAVE ok; RDB size=" ++ str_of_int (zlen (c :: data))])
  | _ => Err AssertionError
  end.

Definition section_rdb_crash (pid : Z) (l1 l2 : Launch) : awaited (result (list str)) :=
  match visit_server l1 0 0 [] None (rdb_before ++ [save_statement]) look_rdb [] with
  | (Returns (Ok evidence), Some x) =>
      (visit_server l2 (handled x) (called x) (file (aof (srv x))) (rdb_file (srv x)) rdb_after (fun ev _ => Ok ev)
         (evidence ++ [u "force-killed PID " ++ str_of_int pid ++ u " (taskkill /F)"])).1
  | (r, _) => r
  end.

(** [section_aof]; a snapshot, had there been one, is removed. *)
Definition look_aof (evidence : list str) (x : Clocked) : result (list str) :=
  let content := file (aof (srv x)) in
  if (0 <? zlen content) && is_in (b "SET") content && negb (is_in (b "GET") content)
  then Ok (evidence ++ [u "AOF size=" ++ str_of_int (zlen content) ++ u "; contains SET; no GET"])
  else Err AssertionError.

Definition section_aof (l1 l2 : Launch) : awaited (result (list str)) :=
  match visit_server l1 0 0 [] None aof_before look_aof [] with
  | (Returns (Ok evidence), Some x) =>
      (visit_server l2 (handled x) (called x) (file (aof (srv x))) None aof_after (fun ev _ => Ok ev) evidence).1
  | (r, _) => r
  end.

End Servers.

(** ** One command *)

Section Exchange.
Context (cfg : Config) (ws : nat -> World) (net : Network).
Hypothesis Hworlds : forall n, good_world (ws n).
Hypothesis Htime : forall n, w_clock (ws n) 0%nat <= w_clock (ws (S n)) 0%nat.
Hypothesis Hnet : network_ok cfg net.
Hypothesis Hlimits : limits_ok (client_parser cfg).
Hypothesis Hdepth : 0 < cfg_max_array_depth cfg.
Let SV : Service Clocked := server_service ws net.
#[local] Existing Instance SV.

Definition sends (a : list bytes) : bool := command_fits (client_parser cfg) a && (zlen (encode_command a) <=? cfg_max_buffer_bytes cfg).

Lemma sends_sendable a : sends a = true -> sendable_to cfg a.
Proof. intros [Hf Hz]%andb_true_iff. apply Z.leb_le in Hz. by split. Qed.

(** A command that the server handles reaches it and its reply comes back. *)
Lemma exchange_handled parts conn x s' v enc :
  let a := map part_bytes parts in
  server_ready cfg x -> waiting cfg conn x -> sends a = true -> readable v enc ->
  handle_message (ws (handled x)) conn (command_obj a) (srv (settle net x)) = ([enc], Continue, s') -> steady s' ->
  exists x', client_execute parts (idle_stream conn) x = (Returns (Ok (parsed v)), (idle_stream conn, x')) /\ srv x' = s' /\ handled x' = S (handled x).
Proof.
  intros a Hr Hw Hf Hv Hh Hs'.
  destruct (serve_handled cfg ws net Hnet Hlimits Hdepth conn a x s' enc Hr Hw (sends_sendable _ Hf) Hh Hs') as (cs & x' & Hserve & Hch & Hcc & Hsrv & Hn & _).
  rewrite <- Hcc in Hv. destruct (@exchange_reply _ SV conn a v cs x x' Hserve Hch Hv) as [_ Hx]. exists x'. split; [by apply Hx|done].
Qed.

Lemma exchange_data parts conn x v m' enc :
  let a := map part_bytes parts in
  server_ready cfg x -> waiting cfg conn x -> sends a = true -> readable v enc ->
  answer (w_clock (ws (handled x))) (live (w_clock (ws (handled x)) 0%nat) (store (srv x))) a = Some (v, m') ->
  exists x', client_execute parts (idle_stream conn) x = (Returns (Ok (parsed v)), (idle_stream conn, x')) /\ handled x' = S (handled x) /\
    server_ready cfg x' /\ waiting cfg conn x' /\
    live (w_clock (ws (S (handled x))) 0%nat) (store (srv x')) = prune (w_clock (ws (S (handled x))) 0%nat) m' /\
    logged_by a v (aof (srv x)) (aof (srv x')).
Proof.
  intros a Hr Hw Hf Hv Ha.
  destruct (serve_answered cfg ws net Hworlds Htime Hnet Hlimits Hdepth conn a x v m' enc Hr Hw (sends_sendable _ Hf) Ha (proj1 Hv))
    as (cs & x' & Hserve & Hch & Hcc & Hn & Hr' & Hl & Hlog & _ & Hw').
  rewrite <- Hcc in Hv. destruct (@exchange_reply _ SV conn a v cs x x' Hserve Hch Hv) as [_ Hx].
  exists x'. split; [by apply Hx|]. split_and!; auto.
Qed.

(** Connecting, after fewer than fifty refusals. *)
Lemma connect_server refusals x :
  server_ready cfg x -> client_count (srv x) < max_clients cfg -> (length refusals < 50)%nat ->
  exists conn x', qa_connect refusals 50 None x = (Ok (idle_stream conn), x') /\ server_ready cfg x' /\ waiting cfg conn x' /\
    store (srv x') = store (srv x) /\ aof (srv x') = aof (srv x) /\ handled x' = handled x.
Proof.
  intros Hr Hroom. generalize 50%nat (@None str). intros k o Hk. revert k o Hk.
  destruct (accept_client_ok cfg net x Hr Hroom) as (conn & x' & Hc & H1 & H2 & _ & H3 & H4 & _ & H5 & _).
  assert (open_connection x = (idle_stream conn, x')) as Ho by (unfold open_connection; cbn [connect SV server_service]; by rewrite Hc).
  induction refusals as [|e refusals IH]; intros [|k] o Hk; simpl in Hk; try lia; cbn [qa_connect].
  - rewrite Ho. by exists conn, x'.
  - apply IH. lia.
Qed.

(** ** Statements on the abstract server *)

Definition reads (v : pyobj) : bool :=
  match encode_value v with
  | Ok enc => fits reply_parser (max_array_depth reply_parser) v && (zlen enc <=? max_buffer_bytes reply_parser)
  | Err _ => false
  end.

Lemma reads_readable v : reads v = true -> exists enc, readable v enc.
Proof.
  unfold reads. destruct (encode_value v) as [enc|e] eqn:E; [|done]. intros [H1 H2]%andb_true_iff. apply Z.leb_le in H2.
  exists enc. by split.
Qed.

(** The evidence, the keyspace after the statements and the commands that they
    log, when all their assertions hold. *)
Fixpoint abstract_statements (n : nat) (m : keymap) (stmts : list statement) : option (list str * keymap * list (list bytes)) :=
  match stmts with
  | [] => Some ([], m, [])
  | Sleep _ :: stmts' => abstract_statements n m stmts'
  | Evidence line :: stmts' =>
      match abstract_statements n m stmts' with Some (ev, m', cmds) => Some (line :: ev, m', cmds) | None => None end
  | Execute parts check :: stmts' =>
      let a := map part_bytes parts in
      match answer (w_clock (ws n)) m a with
      | Some (v, m1) =>
          let failed := match v with PRespError _ => true | _ => false end in
          if sends a && reads v && is_ok (check (parsed v)) && negb (is_write (upper_name a) && failed) then
            match abstract_statements (S n) (prune (w_clock (ws (S n)) 0%nat) m1) stmts' with
            | Some (ev, m', cmds) => Some (ev, m', (if is_write (upper_name a) then [a] else []) ++ cmds)
            | None => None
            end
          else None
      | None => None
      end
  end.

Fixpoint commands_in (stmts : list statement) : nat :=
  match stmts with [] => O | Execute _ _ :: l => S (commands_in l) | _ :: l => commands_in l end.

Lemma run_data conn stmts x ev m' cmds :
  server_ready cfg x -> waiting cfg conn x ->
  abstract_statements (handled x) (live (w_clock (ws (handled x)) 0%nat) (store (srv x))) stmts = Some (ev, m', cmds) ->
  let n' := (handled x + commands_in stmts)%nat in
  exists x', (forall evidence stmts', run_statements (stmts ++ stmts') evidence (idle_stream conn) x =
                             run_statements stmts' (evidence ++ ev) (idle_stream conn) x') /\
    handled x' = n' /\ server_ready cfg x' /\ waiting cfg conn x' /\ live (w_clock (ws n') 0%nat) (store (srv x')) = m' /\
    (log_ready (aof (srv x)) -> log_ready (aof (srv x')) /\ file (aof (srv x')) = file (aof (srv x)) ++ wire cmds).
Proof.
  revert x ev cmds. induction stmts as [|[parts check|ms|line] stmts IH]; intros x ev cmds Hr Hin Ha; cbn [abstract_statements commands_in] in *.
  - injection Ha as <- <- <-. exists x. rewrite Nat.add_0_r. split_and!; try done; [intros evidence stmts'; by rewrite app_nil_r|by rewrite app_nil_r].
  - destruct (answer _ _ _) as [[v m1]|] eqn:Ean; [|done]. set (a := map part_bytes parts) in *.
    destruct (sends a && reads v && is_ok (check (parsed v)) && _) eqn:Eb; [|done]. rewrite !andb_true_iff in Eb. destruct Eb as [[[Hse Hre] Hck] Hnf].
    destruct (abstract_statements _ _ stmts) as [[[ev1 m2] cmds1]|] eqn:Eab; [|done]. injection Ha as <- <- <-.
    destruct (reads_readable _ Hre) as [enc Henc].
    destruct (exchange_data parts conn x v m1 enc Hr Hin Hse Henc Ean) as (x1 & Hx & Hn1 & Hr1 & Hin1 & Hl1 & Hlog).
    rewrite <- Hl1, <- Hn1 in Eab. destruct (IH x1 ev1 cmds1 Hr1 Hin1 Eab) as (x2 & Hrun & Hn2 & Hr2 & Hin2 & Hl2 & Hlog2). exists x2.
    rewrite <- Nat.add_succ_comm, <- Hn1. split_and!; try done.
    + intros evidence stmts'. cbn [app run_statements]. rewrite Hx. destruct (check (parsed v)); [|done]. apply Hrun.
    + intros Hready. unfold logged_by in Hlog. fold a in Hlog. destruct (is_write (upper_name a)).
      * destruct Hlog as [Hready1 Hfile]; [by intros e ->|done|]. destruct (Hlog2 Hready1) as [H1 H2]. split; [done|].
        rewrite H2, Hfile, <- app_assoc. unfold wire. cbn [app map concat]. done.
      * rewrite Hlog in Hlog2. by apply Hlog2.
  - apply IH; done.
  - destruct (abstract_statements _ _ stmts) as [[[ev1 m2] cmds1]|] eqn:Eab; [|done]. injection Ha as <- <- <-.
    destruct (IH x ev1 cmds1 Hr Hin Eab) as (x2 & Hrun & H). exists x2. split; [|done]. intros evidence stmts'. cbn [app run_statements].
    rewrite Hrun, <- app_assoc. done.
Qed.

End Exchange.

(** ** Running the scripts *)

(** The configuration of the servers. *)
Definition qa_config (port : Z) (data_dir : str) (aof : bool) (fsync : AofFsync) : Config :=
  mkConfig (u "127.0.0.1") port data_dir (u "dump.rdb") aof (u "appendonly.aof") fsync master None None
    (u "warning") 0 16777216 1024 16 32000000 (float_of_Z 30) (float_of_Z 300) 1000 5 10000 (float_of_Z 5)
    (64 * 1024 * 1024) 10000 (1024 * 1024 * 1024) 0 noeviction None None false.

Lemma qa_config_args absolute port dir aof fsync cfg :
  config_from_args absolute (qa_args port dir aof fsync) = inr cfg -> cfg = qa_config port (absolute dir) aof fsync.
Proof.
  unfold config_from_args. destruct (first_error (arg_errors (qa_args port dir aof fsync))); [done|]. by intros [= <-].
Qed.

Lemma qa_limits port dir aof fsync : limits_ok (client_parser (qa_config port dir aof fsync)) /\ 0 < cfg_max_array_depth (qa_config port dir aof fsync).
Proof. split; [split|]; apply Z.ltb_lt; vm_compute; reflexivity. Qed.

(** The pauses on the clock: everything after one is later than everything
    before it. *)
Fixpoint slept (ws : nat -> World) (n : nat) (stmts : list statement) : Prop :=
  match stmts with
  | [] => True
  | Execute _ _ :: l => slept ws (S n) l
  | Sleep ms :: l => (forall i, w_clock (ws (pred n)) i + ms <= w_clock (ws n) 0%nat) /\ slept ws n l
  | Evidence _ :: l => slept ws n l
  end.

Section Scripts.
Context (port : Z) (dir : str) (aof : bool) (fsync : AofFsync) (ws : nat -> World).
Let cfg : Config := qa_config port dir aof fsync.

Lemma abstract_step n m parts check stmts v m1 m2 ev m' cmds :
  answer (w_clock (ws n)) m (map part_bytes parts) = Some (v, m1) ->
  sends cfg (map part_bytes parts) && reads v && is_ok (check (parsed v)) &&
    negb (is_write (upper_name (map part_bytes parts)) && match v with PRespError _ => true | _ => false end) = true ->
  prune (w_clock (ws (S n)) 0%nat) m1 = m2 ->
  abstract_statements cfg ws (S n) m2 stmts = Some (ev, m', cmds) ->
  abstract_statements cfg ws n m (Execute parts check :: stmts) =
    Some (ev, m', (if is_write (upper_name (map part_bytes parts)) then [map part_bytes parts] else []) ++ cmds).
Proof. intros Ha Hb <- Hr. cbn [abstract_statements]. rewrite Ha. cbv zeta. by rewrite Hb, Hr. Qed.

Lemma abstract_line n m line stmts ev m' cmds :
  abstract_statements cfg ws n m stmts = Some (ev, m', cmds) -> abstract_statements cfg ws n m (Evidence line :: stmts) = Some (line :: ev, m', cmds).
Proof. intros H. cbn [abstract_statements]. by rewrite H. Qed.

Lemma abstract_pause n m ms stmts x : abstract_statements cfg ws n m stmts = x -> abstract_statements cfg ws n m (Sleep ms :: stmts) = x.
Proof. done. Qed.

End Scripts.

(** A command that is an operation of the keyspace. *)
Lemma answer_op clk m a op r m' :
  beqb (upper_name a) (b "PING") = false -> data_op a = Some (Ok op) -> spec_op clk m op = (r, m') ->
  answer clk m a = Some (reply_value (op_reply r), m').
Proof. intros Hp Ho Hs. unfold answer. by rewrite Hp, Ho, Hs. Qed.

Lemma answer_ping clk m a x : a = [x] -> beqb (bytes_upper x) (b "PING") = true -> answer clk m a = Some (PSimple (u "PONG"), m).
Proof. intros -> Hp. unfold answer. cbn [upper_name]. by rewrite Hp. Qed.

Lemma prune_alive t m : map_Forall (fun _ e => is_expired (expire_at_ms e) t = false) m -> prune t m = m.
Proof. intros H. unfold prune. apply map_filter_id. intros k e Hk. exact (H k e Hk). Qed.

Ltac computed := lazymatch goal with |- ?x = _ => let y := eval vm_compute in x in transitivity y; [vm_cast_no_check (eq_refl y)|reflexivity] end.

(** The reply to a command, from what its key holds. *)
Ltac answers :=
  first
    [ eapply answer_ping; [computed|vm_compute; reflexivity]
    | eapply answer_op; [vm_compute; reflexivity|computed|];
      cbn [spec_op];
      try lazymatch goal with |- context [?m !! ?k] =>
        let y := eval vm_compute in (m !! k) in replace (m !! k) with y by (vm_cast_no_check (eq_refl y)) end;
      cbn [Z.leb Z.compare]; cbv beta iota; reflexivity ].

(** Every entry is alive. *)
Ltac alive :=
  apply prune_alive;
  repeat lazymatch goal with
    | |- map_Forall _ ∅ => apply map_Forall_empty
    | |- map_Forall _ (insert _ _ _) => apply map_Forall_insert_2; [first [reflexivity | apply Z.leb_gt; lia]|]
    | |- map_Forall _ (delete _ _) => apply map_Forall_delete
    end.

(** A statement after which everything is still alive. *)
Ltac plain_step :=
  first
    [ apply abstract_line
    | apply abstract_pause
    | eapply abstract_step; [answers|vm_compute; reflexivity|alive|] ].

(** A statement after which the deadline of a key is over. *)
Ltac passing_step d :=
  eapply abstract_step;
  [ answers | vm_compute; reflexivity
  | rewrite (prune_deadline _ _ _ d) by (try reflexivity; apply (bool_decide_unpack _); vm_compute; exact I);
    rewrite (proj2 (Z.leb_le d _)) by lia; reflexivity
  | ].

(** All assertions of [section_commands] hold. *)
Definition commands_evidence : list str :=
  [u "PING → PONG"; u "SET/GET foo=bar OK"; u "SET EX 1 expired → null"; u "EXPIRE then GET null";
   u "LPUSH/RPOP order a then b then null"; u "HSET/HGETALL f1=v2"; u "WRONGTYPE on GET list"].

Lemma commands_hold port dir aof fsync ws n :
  slept ws n commands_script ->
  exists m cmds, abstract_statements (qa_config port dir aof fsync) ws n ∅ commands_script = Some (commands_evidence, m, cmds).
Proof.
  intros Hslept. unfold commands_script in *. cbn [slept app] in Hslept. destruct Hslept as [Hex [Hek _]]. cbn [pred] in *. eexists _, _.
  do 5 plain_step. specialize (Hex 0%nat). passing_step (w_clock (ws (S (S (S n)))) 0%nat + 1 * 1000).
  do 4 plain_step. specialize (Hek 1%nat). passing_step (w_clock (ws (S (S (S (S (S (S n))))))) 1%nat + 1 * 1000).
  do 16 plain_step. reflexivity.
Qed.

(** The keyspace that [section_rdb_crash] saves, [d] being the deadline. *)
Definition rdb_keys (d : Z) : keymap :=
  <[b "ttlkey" := fresh (VBytes (b "t")) (Some d)]> (<[b "hs" := fresh (VDict [(b "f", b "v")]) None]>
  (<[b "lst" := fresh (VDeque [b "b"; b "a"]) None]> (<[b "str" := fresh (VBytes (b "hello")) None]> ∅))).

Definition rdb_deadline (ws : nat -> World) : Z := w_clock (ws 3%nat) 0%nat + 3600 * 1000.

Section Persistence.
Context (port : Z) (dir : str) (fsync : AofFsync) (ws : nat -> World).
Hypothesis Htime : forall n, w_clock (ws n) 0%nat <= w_clock (ws (S n)) 0%nat.

Lemma rdb_before_holds aof :
  w_clock (ws 4%nat) 0%nat < rdb_deadline ws ->
  exists cmds, abstract_statements (qa_config port dir aof fsync) ws 0 ∅ rdb_before = Some ([], rdb_keys (rdb_deadline ws), cmds).
Proof.
  intros Hd. unfold rdb_deadline in *.
  assert (exists m cmds, abstract_statements (qa_config port dir aof fsync) ws 0 ∅ rdb_before = Some ([], m, cmds) /\
    m = rdb_keys (w_clock (ws 3%nat) 0%nat + 3600 * 1000)) as (m & cmds & H & ->); [|by exists cmds].
  eexists _, _. split; [unfold rdb_before; do 4 plain_step; reflexivity|reflexivity].
Qed.

Lemma rdb_after_holds aof :
  w_clock (ws 9%nat) 0%nat < rdb_deadline ws ->
  exists m cmds, abstract_statements (qa_config port dir aof fsync) ws 5 (rdb_keys (rdb_deadline ws)) rdb_after =
    Some ([u "post-crash restart restored str/list/hash/ttlkey"], m, cmds).
Proof.
  intros Hd. unfold rdb_deadline, rdb_keys in *. pose proof (Htime 5). pose proof (Htime 6). pose proof (Htime 7). pose proof (Htime 8).
  eexists _, _. unfold rdb_after. do 5 plain_step. reflexivity.
Qed.

(** The log and the keyspace of [section_aof]. *)
Definition aof_commands : list (list bytes) := [[b "SET"; b "a"; b "1"]; [b "LPUSH"; b "L"; b "x"]; [b "HSET"; b "H"; b "f"; b "v"]].

Definition aof_keys : keymap :=
  <[b "H" := fresh (VDict [(b "f", b "v")]) None]> (<[b "L" := fresh (VDeque [b "x"]) None]> (<[b "a" := fresh (VBytes (b "1")) None]> ∅)).

Lemma aof_before_holds aof : abstract_statements (qa_config port dir aof fsync) ws 0 ∅ aof_before = Some ([], aof_keys, aof_commands).
Proof.
  assert (exists m cmds, abstract_statements (qa_config port dir aof fsync) ws 0 ∅ aof_before = Some ([], m, cmds) /\ m = aof_keys /\ cmds = aof_commands)
    as (m & cmds & -> & -> & ->); [|done].
  eexists _, _. split; [unfold aof_before; do 4 plain_step; reflexivity|]. split; reflexivity.
Qed.

Lemma aof_after_holds aof :
  exists m cmds, abstract_statements (qa_config port dir aof fsync) ws 4 aof_keys aof_after =
    Some ([u "AOF replay restored a/L/H after restart (RDB removed)"], m, cmds).
Proof. eexists _, _. unfold aof_after, aof_keys. do 4 plain_step. reflexivity. Qed.

Lemma aof_commands_succeed : succeed_all ∅ aof_commands aof_keys.
Proof.
  repeat eapply sa_cons; [..|apply sa_nil]; (split; [vm_compute; reflexivity|]); (split; [vm_compute; exact I|]); eexists; (split; [reflexivity|vm_compute; exact I]).
Qed.

End Persistence.

(** ** Visits *)

(** A server that was started: ready, with no connection yet. *)
Definition fresh_start (cfg : Config) (x : Clocked) : Prop :=
  server_ready cfg x /\ client_count (srv x) = 0 /\ (aof_enabled cfg = true -> log_ready (aof (srv x))).

Lemma fresh_ready cfg n k s :
  steady s -> config s = cfg -> conns_ok s -> client_count s = 0 -> (aof_enabled cfg = true -> log_ready (aof s)) -> fresh_start cfg (mkClocked n k s ∅ []).
Proof. intros. split; [|by split]. split_and!; try done. intros c Hc. by apply elem_of_nil in Hc. Qed.

Lemma fresh_fresh port dir aof fsync l :
  let cfg := qa_config port dir aof fsync in
  exists x, launch cfg l 0 0 [] None = Some x /\ fresh_start cfg x /\ handled x = 0%nat /\ (forall t, live t (store (srv x)) = ∅) /\
    (aof = true -> file (Commands.aof (srv x)) = []).
Proof.
  intros cfg. eexists. unfold launch. rewrite start_fresh. split; [reflexivity|]. cbn [handled srv].
  assert (conns_ok (started_server cfg (l_rid l))) as Hok by apply start_conns, new_conns.
  split; [|destruct aof; split_and!; done].
  apply fresh_ready; [|by destruct aof|done|by destruct aof|destruct aof; [|done]; by split].
  destruct aof; (split; try done; [apply new_store_ok|]); [right; by split|by left].
Qed.

Section Visits.
Context (cfg : Config) (ws : nat -> World) (net : Network).
Hypothesis Hworlds : forall n, good_world (ws n).
Hypothesis Htime : forall n, w_clock (ws n) 0%nat <= w_clock (ws (S n)) 0%nat.
Hypothesis Hnet : network_ok cfg net.
Hypothesis Hlimits : limits_ok (client_parser cfg).
Hypothesis Hdepth : 0 < cfg_max_array_depth cfg.
Let SV : Service Clocked := server_service ws net.
#[local] Existing Instance SV.

Lemma visit_data refusals stmts x ev m' cmds :
  fresh_start cfg x -> 0 < max_clients cfg -> (length refusals < 50)%nat ->
  abstract_statements cfg ws (handled x) (live (w_clock (ws (handled x)) 0%nat) (store (srv x))) stmts = Some (ev, m', cmds) ->
  let n' := (handled x + commands_in stmts)%nat in
  exists conn x1 x', qa_connect refusals 50 None x = (Ok (idle_stream conn), x1) /\
    (forall evidence stmts', run_statements (stmts ++ stmts') evidence (idle_stream conn) x1 =
                             run_statements stmts' (evidence ++ ev) (idle_stream conn) x') /\
    handled x' = n' /\ server_ready cfg x' /\ waiting cfg conn x' /\ live (w_clock (ws n') 0%nat) (store (srv x')) = m' /\
    (log_ready (aof (srv x)) -> file (aof (srv x')) = file (aof (srv x)) ++ wire cmds).
Proof.
  intros (Hr & Hc & _) Hm Hk Ha. destruct (connect_server cfg ws net refusals x Hr) as (conn & x1 & Hcon & Hr1 & Hin & Hst & Hl & Hn); [lia|done|].
  rewrite <- Hst, <- Hn in Ha. cbv zeta. rewrite <- Hn.
  destruct (run_data cfg ws net Hworlds Htime Hnet Hlimits Hdepth conn stmts x1 ev m' cmds Hr1 Hin Ha) as (x2 & H1 & H2 & H3 & H4 & H5 & H6).
  exists conn, x1, x2. split_and!; try done. intros Hready. rewrite Hl in H6. by apply H6.
Qed.

(** A visit without SAVE. *)
Lemma visit_server_data l n k contents rdb x stmts look evidence ev m' cmds :
  launch cfg l n k contents rdb = Some x -> fresh_start cfg x -> 0 < max_clients cfg -> (length (l_refusals l) < 50)%nat ->
  abstract_statements cfg ws (handled x) (live (w_clock (ws (handled x)) 0%nat) (store (srv x))) stmts = Some (ev, m', cmds) ->
  exists conn x', handled x' = (handled x + commands_in stmts)%nat /\ (log_ready (aof (srv x)) -> file (aof (srv x')) = file (aof (srv x)) ++ wire cmds) /\
    visit_server cfg ws net l n k contents rdb stmts look evidence =
      (let '(r, y) := leave look (Returns (Ok (evidence ++ ev)), (idle_stream conn, x')) in (r, Some y)).
Proof.
  intros Hl Hf Hm Hk Ha. destruct (visit_data (l_refusals l) stmts x ev m' cmds Hf Hm Hk Ha) as (conn & x1 & x' & Hcon & Hrun & Hn & _ & _ & _ & Hlog).
  exists conn, x'. split; [done|]. split; [done|]. unfold visit_server. rewrite Hl. unfold visit, SV in *. rewrite Hcon. specialize (Hrun evidence []). rewrite app_nil_r in Hrun.
  rewrite Hrun. reflexivity.
Qed.

(** SAVE. *)
Lemma save_steady w conn s data :
  steady s -> w_rdb w = None -> dump_rdb_entries (snapshot (w_clock w 0%nat) (store s)).1 = Ok data ->
  exists s', handle_message w conn (command_obj [b "SAVE"]) s = ([b "+OK" ++ CRLF], Continue, s') /\ steady s' /\ rdb_file s' = Some data.
Proof.
  intros Hs Hw Hd. destruct (handle_save w conn (b "SAVE") s data (sd_open _ Hs) eq_refl Hw Hd) as (s' & Hh & Hf & _ & _ & Hst & Ha & Hc).
  exists s'. split; [done|]. split; [|done].
  destruct (snapshot_live (w_clock w 0%nat) (w_clock w 0%nat) (store s) (sd_ok _ Hs) (Z.le_refl _)) as [_ Hok].
  pose proof (snapshot_substore (w_clock w 0%nat) (store s)) as [_ Hlim]. destruct Hs as [_ Hun Hlog Hm Hp].
  split; rewrite ?Hst, ?Ha, ?Hc; try done. unfold unlimited. by rewrite Hlim.
Qed.

End Visits.

(** ** Restarts *)

Lemma clock_mono (ws : nat -> World) :
  (forall i, w_clock (ws i) 0%nat <= w_clock (ws (S i)) 0%nat) -> forall i j, (i <= j)%nat -> w_clock (ws i) 0%nat <= w_clock (ws j) 0%nat.
Proof. intros H i j Hij. induction Hij as [|j _ IH]; [lia|]. specialize (H j). lia. Qed.

Lemma saved_keys now st d :
  store_ok st -> live now st = rdb_keys d -> - 2 ^ 63 <= d < 2 ^ 63 ->
  exists data, dump_rdb_entries (snapshot now st).1 = Ok data /\ zlen data = 128.
Proof.
  intros Hok Hl Hd. destruct (dump_live now st Hok) as (data & H1 & H2); rewrite ?Hl in *.
  - vm_compute. reflexivity.
  - unfold rdb_keys. apply map_Forall_insert_2.
    + apply andb_true_iff; split; [apply andb_true_iff; split; [reflexivity|]|reflexivity]. cbn [snd expire_at_ms fresh]. lia.
    + do 3 (apply map_Forall_insert_2; [reflexivity|]). apply map_Forall_empty.
  - exists data. split; [done|]. rewrite H2. vm_compute. reflexivity.
Qed.

(** A restart on the snapshot: [section_rdb_crash] goes on where it was. *)
Lemma relaunch_snapshot port dir fsync l n k contents now st data d :
  let cfg := qa_config port dir false fsync in
  store_ok st -> live now st = rdb_keys d -> 0 <= now <= l_now l -> l_now l < d -> dump_rdb_entries (snapshot now st).1 = Ok data -> zlen data = 128 ->
  exists x, launch cfg l n k contents (Some data) = Some x /\ fresh_start cfg x /\ handled x = n /\ (forall t, t < d -> live t (store (srv x)) = rdb_keys d).
Proof.
  intros cfg Hok Hl Hnow Hd Hdump Hz.
  destruct (restart_on_snapshot cfg (l_rid l) contents (l_replay l) now (l_now l) st data) as (s & Hs & Hok2 & Hm & Hmem & Hc & He & Hf & Hcc); try done; [by rewrite Hz|].
  unfold launch. pose proof (start_conns (l_replay l) (l_now l) None _ (new_conns cfg (l_rid l) contents (Some data))) as Hco. rewrite Hs in *. cbn [snd] in Hco.
  eexists. split; [reflexivity|]. split; [|split; [done|]].
  - apply fresh_ready; try done. split; [done|by unfold unlimited; rewrite Hmem|by left|by rewrite Hc|by rewrite Hc].
  - intros t Ht. cbn [srv]. unfold live. rewrite Hm, <- (prune_live now (l_now l)), Hl by lia.
    assert (forall t', t' < d -> prune t' (rdb_keys d) = rdb_keys d) as Hp by (intros t' Ht'; unfold rdb_keys; alive).
    rewrite Hp by done. by apply Hp.
Qed.

Lemma relaunch_log port dir fsync l n k :
  let cfg := qa_config port dir true fsync in
  (forall i, clock_forward (l_replay l i)) ->
  exists x, launch cfg l n k (wire aof_commands) None = Some x /\ fresh_start cfg x /\ handled x = n /\ (forall t, live t (store (srv x)) = aof_keys).
Proof.
  intros cfg Hclk.
  destruct (restart_on_log cfg (l_rid l) aof_commands aof_keys (l_replay l) (l_now l)) as (s & Hs & Hk & Hok & _ & Hun & Hc & Hlr & Hcc); try done.
  { apply (bool_decide_unpack _). vm_compute. exact I. }
  { apply aof_commands_succeed. }
  unfold launch. pose proof (start_conns (l_replay l) (l_now l) None _ (new_conns cfg (l_rid l) (wire aof_commands) None)) as Hco. rewrite Hs in *. cbn [snd] in Hco.
  eexists. split; [reflexivity|]. split; [|split; [done|]].
  - apply fresh_ready; try done. split; [done|done|by right|by rewrite Hc|by rewrite Hc].
  - intros t. cbn [srv]. rewrite live_timeless, Hk; [done|]. rewrite Hk. apply (bool_decide_unpack _). vm_compute. exact I.
Qed.

(** The state of a server that was just started, as the scripts see it. *)
Lemma at_later x cfg ws n m stmts r :
  handled x = n -> live (w_clock (ws n) 0%nat) (store (srv x)) = m ->
  abstract_statements cfg ws (handled x) (live (w_clock (ws (handled x)) 0%nat) (store (srv x))) stmts = r <-> abstract_statements cfg ws n m stmts = r.
Proof. by intros <- <-. Qed.

Lemma at_start x cfg ws n m stmts r :
  handled x = n -> (forall t, live t (store (srv x)) = m) ->
  abstract_statements cfg ws (handled x) (live (w_clock (ws (handled x)) 0%nat) (store (srv x))) stmts = r <-> abstract_statements cfg ws n m stmts = r.
Proof. intros Hn Hl. by apply at_later. Qed.

(** ** Properties *)

(** The commands section of the end-to-end script passes: on a server that is
    started in a fresh directory as the script does it, after fewer than fifty
    refused attempts to connect, with a clock that does not go back and pauses that
    last as long as they should, the commands reaching the server within its
    timeouts and the replies cut into any reads, every assertion holds and the
    section returns its seven lines of evidence. *)
Theorem qa_commands_pass absolute port dir cfg ws net l :
  config_from_args absolute (qa_args port dir false everysec) = inr cfg ->
  (forall i, good_world (ws i)) -> (forall i, w_clock (ws i) 0%nat <= w_clock (ws (S i)) 0%nat) ->
  network_ok cfg net -> (length (l_refusals l) < 50)%nat -> slept ws 0 commands_script ->
  exists x y, launch cfg l 0 0 [] None = Some x /\
    @section_commands _ (server_service ws net) (l_refusals l) x = (Returns (Ok commands_evidence), y).
Proof.
  intros ->%qa_config_args Hw Ht Hnet Hk Hslept. set (cfg := qa_config _ _ _ _) in *.
  destruct (fresh_fresh port (absolute dir) false everysec l) as (x & Hl & Hf & Hn & He & _). fold cfg in Hl, Hf.
  destruct (commands_hold port (absolute dir) false everysec ws 0 Hslept) as (m & cmds & Ha). fold cfg in Ha.
  destruct (qa_limits port (absolute dir) false everysec) as [Hlim Hd].
  rewrite <- (at_start x _ _ _ _ _ _ Hn He) in Ha.
  destruct (visit_data cfg ws net Hw Ht Hnet Hlim Hd (l_refusals l) commands_script x commands_evidence m cmds Hf eq_refl Hk Ha) as (conn & x1 & x' & Hcon & Hrun & _).
  specialize (Hrun [] []). rewrite app_nil_r in Hrun. eexists _, _. split; [exact Hl|]. unfold section_commands. rewrite Hcon, Hrun. reflexivity.
Qed.

(** The first server of [section_rdb_crash]: four keys and SAVE. *)
Lemma rdb_first_visit port dir ws net l :
  let cfg := qa_config port dir false everysec in
  (forall i, good_world (ws i)) -> (forall i, w_clock (ws i) 0%nat <= w_clock (ws (S i)) 0%nat) ->
  network_ok cfg net -> (length (l_refusals l) < 50)%nat ->
  0 <= w_clock (ws 0%nat) 0%nat -> w_clock (ws 4%nat) 0%nat < rdb_deadline ws < 2 ^ 63 -> w_rdb (ws 4%nat) = None ->
  exists st data x, store_ok st /\ live (w_clock (ws 4%nat) 0%nat) st = rdb_keys (rdb_deadline ws) /\
    dump_rdb_entries (snapshot (w_clock (ws 4%nat) 0%nat) st).1 = Ok data /\ zlen data = 128 /\
    handled x = 5%nat /\ rdb_file (srv x) = Some data /\
    visit_server cfg ws net l 0 0 [] None (rdb_before ++ [save_statement]) look_rdb [] = (Returns (Ok [u "SAVE ok; RDB size=128"]), Some x).
Proof.
  intros cfg Hw Ht Hnet Hk H0 Hd Hrdb. pose proof (clock_mono ws Ht) as Hle.
  destruct (qa_limits port dir false everysec) as [Hlim Hdep]. fold cfg in Hlim, Hdep.
  destruct (fresh_fresh port dir false everysec l) as (x & Hl & Hf & Hn & He & _). fold cfg in Hl, Hf.
  destruct (rdb_before_holds port dir everysec ws false) as (cmds & Ha); [lia|].
  fold cfg in Ha. set (d := rdb_deadline ws) in *.
  rewrite <- (at_start x _ _ _ _ _ _ Hn He) in Ha.
  destruct (visit_data cfg ws net Hw Ht Hnet Hlim Hdep (l_refusals l) rdb_before x [] (rdb_keys d) cmds Hf eq_refl Hk Ha)
    as (conn & x1 & x' & Hcon & Hrun & Hn' & Hr & Hwt & Hv & _).
  rewrite Hn in Hn', Hv. cbn [commands_in rdb_before Nat.add] in Hn', Hv.
  destruct (settle_settled cfg net x') as [S1 _ S3 _ _ _ _ _ _]. destruct (S1 Hr) as (Hsd & _). pose proof (sd_ok _ Hsd) as Hok. rewrite S3 in Hok.
  destruct (saved_keys _ _ _ Hok Hv) as (data & Hdump & Hz); [specialize (Hle 0%nat 4%nat); lia|].
  destruct (save_steady (ws (handled x')) conn (srv (settle net x')) data Hsd) as (s2 & Hh & Hs2 & Hfile); [by rewrite Hn'|by rewrite S3, Hn'|].
  destruct (exchange_handled cfg ws net Hnet Hlim Hdep (words "SAVE") conn x' s2 (PSimple (u "OK")) (b "+OK" ++ CRLF)) as (x2 & Hx & Hs & Hn2); try done.
  exists (store (srv x')), data, (client_left conn x2). cbn [handled client_left srv]. rewrite Hs, Hn2, Hn'. split_and!; try done.
  unfold visit_server. rewrite Hl. unfold visit. rewrite Hcon, Hrun. unfold save_statement. cbn [run_statements]. rewrite Hx.
  change (equals (PStr (u "OK")) (parsed (PSimple (u "OK")))) with (Ok tt). cbv iota. unfold leave, look_rdb. rewrite Hs, Hfile.
  destruct data as [|c data]; [done|]. cbn [app]. by rewrite Hz.
Qed.

(** C18 The snapshot section of the end-to-end script passes: a server without a
    log takes a string, a list, a hash and a key with a deadline, saves and is
    killed; another one that is started in its directory within the hour answers
    with all four; the section returns its evidence, the size of the snapshot
    included.  The clock does not go back, also between the two servers; SAVE can write
    its file; fewer than fifty attempts to connect are refused; and every command
    reaches its server within the timeouts. *)
Theorem qa_rdb_crash_pass absolute port dir cfg ws net pid l1 l2 :
  config_from_args absolute (qa_args port dir false everysec) = inr cfg ->
  (forall i, good_world (ws i)) -> (forall i, w_clock (ws i) 0%nat <= w_clock (ws (S i)) 0%nat) ->
  network_ok cfg net -> (length (l_refusals l1) < 50)%nat -> (length (l_refusals l2) < 50)%nat ->
  0 <= w_clock (ws 0%nat) 0%nat -> w_clock (ws 9%nat) 0%nat < rdb_deadline ws < 2 ^ 63 ->
  w_clock (ws 4%nat) 0%nat <= l_now l2 <= w_clock (ws 5%nat) 0%nat -> w_rdb (ws 4%nat) = None ->
  section_rdb_crash cfg ws net pid l1 l2 =
    Returns (Ok [u "SAVE ok; RDB size=128"; u "force-killed PID " ++ str_of_int pid ++ u " (taskkill /F)";
                 u "post-crash restart restored str/list/hash/ttlkey"]).
Proof.
  intros ->%qa_config_args Hw Ht Hnet Hk1 Hk2 H0 Hd Hnow Hrdb. set (cfg := qa_config _ _ _ _) in *. pose proof (clock_mono ws Ht) as Hle.
  destruct (qa_limits port (absolute dir) false everysec) as [Hlim Hdep]. fold cfg in Hlim, Hdep.
  destruct (rdb_first_visit port (absolute dir) ws net l1 Hw Ht Hnet Hk1 H0 ltac:(specialize (Hle 4%nat 9%nat); lia) Hrdb)
    as (st & data & x & Hok & Hv & Hdump & Hz & Hn & Hfile & Hfirst). fold cfg in Hfirst. set (d := rdb_deadline ws) in *.
  unfold section_rdb_crash. rewrite Hfirst, Hfile, Hn.
  destruct (relaunch_snapshot port (absolute dir) everysec l2 5 (called x) (file (aof (srv x))) (w_clock (ws 4%nat) 0%nat) st data d) as (x3 & Hl3 & Hf3 & Hn3 & Hv3); try done.
  { specialize (Hle 0%nat 4%nat). lia. }
  { specialize (Hle 5%nat 9%nat). lia. }
  fold cfg in Hl3, Hf3. destruct (rdb_after_holds port (absolute dir) everysec ws Ht false) as (m & cmds2 & Ha2); [lia|]. fold cfg d in Ha2.
  rewrite <- (at_later x3 _ _ _ _ _ _ Hn3 (Hv3 (w_clock (ws 5%nat) 0%nat) ltac:(specialize (Hle 5%nat 9%nat); lia))) in Ha2.
  destruct (visit_server_data cfg ws net Hw Ht Hnet Hlim Hdep l2 5 (called x) (file (aof (srv x))) (Some data) x3 rdb_after (fun ev _ => Ok ev)
    ([u "SAVE ok; RDB size=128"] ++ [u "force-killed PID " ++ str_of_int pid ++ u " (taskkill /F)"]) [u "post-crash restart restored str/list/hash/ttlkey"] m cmds2 Hl3 Hf3 eq_refl Hk2 Ha2)
    as (conn2 & x4 & _ & _ & ->). reflexivity.
Qed.

(** The log section of the end-to-end script passes: with the log and the
    policy [always] three writes are in the log file and the read is not; after
    the kill another server that is started on that file answers with all of it.
    The conditions are those of the sections above. *)
Theorem qa_aof_pass absolute port dir cfg ws net l1 l2 :
  config_from_args absolute (qa_args port dir true always) = inr cfg ->
  (forall i, good_world (ws i)) -> (forall i, w_clock (ws i) 0%nat <= w_clock (ws (S i)) 0%nat) ->
  network_ok cfg net -> (length (l_refusals l1) < 50)%nat -> (length (l_refusals l2) < 50)%nat ->
  (forall i, clock_forward (l_replay l2 i)) ->
  section_aof cfg ws net l1 l2 =
    Returns (Ok [u "AOF size=91; contains SET; no GET"; u "AOF replay restored a/L/H after restart (RDB removed)"]).
Proof.
  intros ->%qa_config_args Hw Ht Hnet Hk1 Hk2 Hre. set (cfg := qa_config _ _ _ _) in *.
  destruct (qa_limits port (absolute dir) true always) as [Hlim Hdep]. fold cfg in Hlim, Hdep.
  destruct (fresh_fresh port (absolute dir) true always l1) as (x & Hl & Hf & Hn & He & Hnil). fold cfg in Hl, Hf.
  pose proof (aof_before_holds port (absolute dir) always ws true) as Ha. fold cfg in Ha. rewrite <- (at_start x _ _ _ _ _ _ Hn He) in Ha.
  destruct (visit_server_data cfg ws net Hw Ht Hnet Hlim Hdep l1 0 0 [] None x aof_before look_aof [] [] aof_keys aof_commands Hl Hf eq_refl Hk1 Ha) as (conn & x1 & Hn1 & Hlog & Hv).
  specialize (Hlog (proj2 (proj2 Hf) eq_refl)). rewrite (Hnil eq_refl) in Hlog. cbn [app] in Hlog. rewrite Hn in Hn1. cbn [commands_in aof_before Nat.add] in Hn1.
  unfold section_aof. rewrite Hv. unfold leave, look_aof. rewrite Hlog.
  change ((0 <? zlen (wire aof_commands)) && is_in (b "SET") (wire aof_commands) && negb (is_in (b "GET") (wire aof_commands))) with true. cbv iota.
  change (close (idle_stream conn) x1) with (client_left conn x1). cbn [client_left handled called srv].
  destruct (relaunch_log port (absolute dir) always l2 4 (S (called x1)) Hre) as (x3 & Hl3 & Hf3 & Hn3 & Hv3). fold cfg in Hl3, Hf3. rewrite Hlog, Hn1.
  destruct (aof_after_holds port (absolute dir) always ws true) as (m & cmds2 & Ha2). fold cfg in Ha2. rewrite <- (at_later x3 _ _ _ _ _ _ Hn3 (Hv3 _)) in Ha2.
  destruct (visit_server_data cfg ws net Hw Ht Hnet Hlim Hdep l2 4 (S (called x1)) (wire aof_commands) None x3 aof_after (fun ev _ => Ok ev)
    [u "AOF size=91; contains SET; no GET"] [u "AOF replay restored a/L/H after restart (RDB removed)"] m cmds2 Hl3 Hf3 eq_refl Hk2 Ha2)
    as (conn2 & x4 & _ & _ & Hv2).
  transitivity (visit_server cfg ws net l2 4 (S (called x1)) (wire aof_commands) None aof_after (fun ev _ => Ok ev) [u "AOF size=91; contains SET; no GET"]).1; [reflexivity|].
  by rewrite Hv2.
Qed.

(** Two seconds per command; the reply arrives in two pieces; the server listens
    at the third attempt. *)
Definition ex_qa (n : nat) : World := world_at (2000 * Z.of_nat n).
Definition ex_launch (now : Z) : Launch := mkLaunch (u "abc") (fun _ => world_at now) now [u "refused"; u "refused"].

Lemma ex_qa_mono i : w_clock (ex_qa i) 0%nat <= w_clock (ex_qa (S i)) 0%nat.
Proof. cbn [w_clock ex_qa world_at]. lia. Defined.

Lemma qa_commands_pass_witness :
  exists x y, launch (qa_config 7000 (u "/tmp/cmd") false everysec) (ex_launch 0) 0 0 [] None = Some x /\
    @section_commands _ (server_service ex_qa ex_net) [u "refused"; u "refused"] x = (Returns (Ok commands_evidence), y).
Proof.
  apply (qa_commands_pass (fun d => b "/tmp/" ++ d) 7000 (u "cmd") (qa_config 7000 (u "/tmp/cmd") false everysec) ex_qa ex_net (ex_launch 0)).
  - reflexivity.
  - intros i. apply world_at_good.
  - apply ex_qa_mono.
  - apply ex_net_ok; reflexivity.
  - vm_compute. lia.
  - cbn [slept commands_script pred w_clock ex_qa world_at]. split; [intros _; lia|]. split; [intros _; lia|exact I].
Defined.

Lemma qa_rdb_crash_pass_witness :
  section_rdb_crash (qa_config 7000 (u "/tmp/rdb") false everysec) ex_qa ex_net 4242 (ex_launch 0) (ex_launch 9000) =
    Returns (Ok [u "SAVE ok; RDB size=128"; u "force-killed PID 4242 (taskkill /F)"; u "post-crash restart restored str/list/hash/ttlkey"]).
Proof.
  apply (qa_rdb_crash_pass (fun d => b "/tmp/" ++ d) 7000 (u "rdb") (qa_config 7000 (u "/tmp/rdb") false everysec) ex_qa ex_net 4242 (ex_launch 0) (ex_launch 9000)).
  - reflexivity.
  - intros i. apply world_at_good.
  - apply ex_qa_mono.
  - apply ex_net_ok; reflexivity.
  - vm_compute. lia.
  - vm_compute. lia.
  - apply Z.leb_le. reflexivity.
  - split; apply Z.ltb_lt; reflexivity.
  - split; apply Z.leb_le; reflexivity.
  - reflexivity.
Defined.

Lemma qa_aof_pass_witness :
  section_aof (qa_config 7000 (u "/tmp/aof") true always) ex_qa ex_net (ex_launch 0) (ex_launch 7000) =
    Returns (Ok [u "AOF size=91; contains SET; no GET"; u "AOF replay restored a/L/H after restart (RDB removed)"]).
Proof.
  apply (qa_aof_pass (fun d => b "/tmp/" ++ d) 7000 (u "aof") (qa_config 7000 (u "/tmp/aof") true always) ex_qa ex_net (ex_launch 0) (ex_launch 7000)).
  - reflexivity.
  - intros i. apply world_at_good.
  - apply ex_qa_mono.
  - apply ex_net_ok; reflexivity.
  - vm_compute. lia.
  - vm_compute. lia.
  - intros i j. apply Z.le_refl.
Defined.
