(* ===== verification/System.v ===== *)
(** * Master and replicas together

    The server with its clients, its log, its background tasks and its replica
    links as one transition system, and what it guarantees to the replicas:
    the commands on a link lead from the snapshot of the link to the present
    keyspace of the master.  Together with the replica client this gives
    convergence end to end. *)
From stdpp Require Import relations.
From S2P Require Import Prelude PyText PyFloat Encoder Parser Dict Store StoreSpec Eviction Crc32 Rdb AofFile AofLog Config Master Commands Server Recovery Replica.
Local Open Scope Z_scope.

(** ** Steps of the system *)

(** What can happen to a running master, in any order: a client command, the
    PSYNC of a replica, progress on the replica links, connections that come
    and go, and the background tasks. *)
Inductive system_step (mbl : Z) (s : RedisServer) : RedisServer -> Prop :=
| sy_command w conn a r s' :
    good_command mbl (w, conn, a) -> upper_name a <> b "PSYNC" -> execute w (client_ctx conn a) s = (Ok r, s') ->
    system_step mbl s s'
| sy_psync w conn : dict_get (replicas (master_ s)) conn = None -> system_step mbl s (start_full_resync w s conn)
| sy_link m' : link_step (master_ s) m' -> system_step mbl s (set_master s m')
| sy_accept : system_step mbl s (accept s).2
| sy_disconnect_begin conn : system_step mbl s (disconnect_begin conn s)
| sy_disconnect_end conn : system_step mbl s (disconnect_end conn s)
| sy_bgsave now : system_step mbl s (bgsave_take_snapshot now s)
| sy_bgsave_thread call io : system_step mbl s (bgsave_thread call io s)
| sy_rewrite io now current_ms : system_step mbl s (aof_rewrite_worker io now current_ms s)
| sy_expire rnd now : system_step mbl s (active_expire_tick rnd now s)
| sy_fsync : system_step mbl s (set_aof s (fsync_tick None (aof s))).

Lemma fsync_tick_ready l : log_ready l -> log_ready (fsync_tick None l) /\ file (fsync_tick None l) = file l.
Proof.
  intros [He Ho Hh Hq Hp Hi Hc]. unfold fsync_tick, fsync_sync. destruct (negb (fsync_task l)); [by split|].
  destruct (negb (fh l) || negb (dirty l)); simpl; by split.
Qed.

(** ** The background tasks change nothing a client can see *)

Lemma expire_sample_plain now st sample : no_deadlines st -> (expire_sample now st sample).2 = st.
Proof.
  intros H. induction sample as [|k ks IH]; simpl; [done|]. destruct (dict_get (entries st) k) as [e|] eqn:E; [|done].
  unfold no_deadlines in H. rewrite Forall_forall in H. apply dict_get_elem in E. specialize (H _ E). simpl in H. by rewrite H.
Qed.

Lemma active_expire_plain rnd now st n : no_deadlines st -> (active_expire_cycle rnd now st n).2 = st.
Proof. intros H. unfold active_expire_cycle. case_match; [done|]. by apply expire_sample_plain. Qed.

Lemma snapshot_plain now st : plain st -> snapshot now st = (entries st, st).
Proof. intros [Hok Hnd]. apply snapshot_timeless; [done|by apply no_deadlines_keyspace]. Qed.

Lemma replace_file_ready io data l : log_ready l -> log_ready (replace_file_sync io data l).2.
Proof. intros [He Ho Hh Hq Hp Hi Hc]. destruct io; simpl; try (by split); rewrite Ho; by split. Qed.

Lemma rewrite_ready io now es l : log_ready l -> log_ready (rewrite io now es l).2.
Proof.
  intros H. unfold rewrite. case_match; [done|]. destruct (build_rewrite_payload now es) as [data|]; [|done].
  pose proof (replace_file_ready io data l H). by destruct (replace_file_sync io data l) as [[] l'].
Qed.

(** A step that leaves the keyspace and the links alone. *)
Definition calm (s s' : RedisServer) : Prop :=
  (serving s -> serving s') /\ store s' = store s /\ master_ s' = master_ s.

Lemma bgsave_thread_calm call io s : calm s (bgsave_thread call io s).
Proof. unfold bgsave_thread. repeat case_match; (split; [|done]); intros []; by split. Qed.

Lemma calm_steps mbl s s' :
  serving s -> system_step mbl s s' ->
  calm s s' \/ (exists m', link_step (master_ s) m' /\ serving s' /\ store s' = store s /\ master_ s' = m') \/
  (exists w conn, dict_get (replicas (master_ s)) conn = None /\ s' = start_full_resync w s conn) \/
  (exists w conn a r, good_command mbl (w, conn, a) /\ upper_name a <> b "PSYNC" /\ execute w (client_ctx conn a) s = (Ok r, s')).
Proof.
  intros Hs [w conn a r s1 H1 H2 H3|w conn Hc|m' Hm| |conn|conn|now|call io|io now cur|rnd now|].
  - right. right. right. by exists w, conn, a, r.
  - right. right. left. by exists w, conn.
  - right. left. exists m'. destruct Hs. split_and!; first [done|by split].
  - left. unfold accept. case_if; (split; [|done]); intros []; by split.
  - right. left. exists (unregister (master_ s) conn). destruct Hs. split_and!; first [done|apply ls_unregister|by split].
  - left. split; [|done]. intros []; by split.
  - left. unfold bgsave_take_snapshot. destruct (bgsave_task s); try (by split).
    rewrite snapshot_plain by apply Hs. split; [|done]. intros []; by split.
  - left. apply bgsave_thread_calm.
  - left. unfold aof_rewrite_worker. case_match; [|by split]. rewrite snapshot_plain by apply Hs.
    pose proof (rewrite_ready io cur (entries (store s)) (aof s)) as Hr. destruct (rewrite io cur _ _) as [x l]. simpl in Hr.
    split; [|done]. intros []. split; try done. by apply Hr.
  - left. unfold active_expire_tick. rewrite active_expire_plain by apply Hs. destruct s. split; [|done]. by intros [].
  - left. split; [|done]. intros []. split; try done. by apply fsync_tick_ready.
Qed.

(** ** The invariant *)

(** [cmds] are the commands propagated so far.  Every snapshot was taken of a
    store without deadlines, and the commands propagated since it was taken
    lead from it to the present keyspace [ks], as long as its link is alive. *)
Record links_inv (mbl : Z) (cmds : list (list bytes)) (starts : list origin) (m : MasterReplication) (ks : gmap bytes KeyEntry) : Prop := {
  sy_master : master_inv (map encode_command cmds) starts m;
  sy_loggable : Forall (loggable mbl) cmds;
  sy_origin : forall id o, starts !! id = Some o -> exists st, plain st /\ o.2 = entries st;
  sy_alive : forall id o l, starts !! id = Some o -> links m !! id = Some l -> alive l = true ->
               succeed_all (dict_map o.2) (drop o.1 cmds) ks
}.

Record system_inv (mbl : Z) (cmds : list (list bytes)) (starts : list origin) (s : RedisServer) : Prop := {
  sy_serving : serving s;
  sy_keys : keys_fit mbl (keyspace (store s));
  sy_links : links_inv mbl cmds starts (master_ s) (keyspace (store s))
}.

Lemma succeed_all_snoc m l m1 a m2 : succeed_all m l m1 -> succeeds m1 a m2 -> succeed_all m (l ++ [a]) m2.
Proof. intros H Hs. eapply succeed_all_trans; [exact H|]. econstructor; [exact Hs|constructor]. Qed.

Lemma calm_inv mbl cmds starts s s' : system_inv mbl cmds starts s -> calm s s' -> system_inv mbl cmds starts s'.
Proof. intros [] (Hs & Est & Em). split; rewrite ?Em, ?Est; auto. Qed.

Lemma link_step_links mbl cmds starts m m' ks : links_inv mbl cmds starts m ks -> link_step m m' -> links_inv mbl cmds starts m' ks.
Proof.
  intros [] Hl. split; try done.
  - by eapply link_step_inv.
  - intros id o l' Ho Hl' Ha. destruct (link_step_no_revival _ _ Hl id l' Hl' Ha) as (l & Hi & Hal). eauto.
Qed.

Lemma psync_links mbl cmds starts m st conn :
  links_inv mbl cmds starts m (keyspace st) -> plain st -> dict_get (replicas m) conn = None ->
  links_inv mbl cmds (starts ++ [(length cmds, entries st)]) (full_resync_begin m conn (entries st)) (keyspace st).
Proof.
  intros [Hm Hlog Ho Ha] Hp Hc. split; try done.
  - rewrite <- (length_map encode_command cmds). by apply begin_inv.
  - intros id o [H|[_ H]]%lookup_app_Some; [by eapply Ho|]. apply list_lookup_singleton_Some in H as [_ <-]. by exists st.
  - intros id o l Hst Hl Hal. pose proof (mi_starts _ _ _ Hm) as Hlen. simpl in Hl.
    apply lookup_app_Some in Hst as [Hst|[Hge Hst]].
    + rewrite lookup_app_l in Hl by (rewrite <- Hlen; by eapply lookup_lt_Some). eauto.
    + apply list_lookup_singleton_Some in Hst as [_ <-]. simpl. rewrite drop_ge by lia. constructor.
Qed.

(** One propagated command. *)
Lemma propagate_links mbl cmds starts m ks fails a ks' :
  links_inv mbl cmds starts m ks -> loggable mbl a -> succeeds ks a ks' ->
  exists cmds', links_inv mbl cmds' starts (propagate fails a m) ks'.
Proof.
  intros [Hm Hlog Ho Ha] Hla Hsu. set (m' := propagate fails a m).
  assert (forall id o l', starts !! id = Some o -> links m' !! id = Some l' -> alive l' = true ->
    replicas m <> [] /\ (o.1 <= length cmds)%nat /\ succeed_all (dict_map o.2) (drop o.1 cmds) ks) as Hold.
  { intros id o l' Hst Hl' Hal. destruct (propagate_no_revival _ _ _ id l' Hl' Hal) as (l & Hl & Hall).
    destruct (mi_link _ _ _ Hm _ _ _ Hst Hl) as [Hlt _ Hre _ _ _]. rewrite length_map in Hlt.
    destruct (Hre Hall) as (_ & _ & Hreg). split; [|eauto]. intros E. by rewrite E in Hreg. }
  pose proof (propagate_inv _ _ _ fails a Hm) as Hm'. fold m' in Hm'. destruct (replicas m) as [|x rs] eqn:Er.
  - exists cmds. rewrite app_nil_r in Hm'. split; try done. intros id o l Hst Hl Hal. by destruct (Hold id o l Hst Hl Hal).
  - exists (cmds ++ [a]). split; [by rewrite map_app| |done|].
    + apply Forall_app. split; [done|]. by constructor.
    + intros id o l Hst Hl Hal. destruct (Hold id o l Hst Hl Hal) as (_ & Hle & Hsa).
      rewrite drop_app_le by done. by eapply succeed_all_snoc.
Qed.

Lemma propagate_all_links mbl w new ks ks' :
  succeed_all ks new ks' -> Forall (loggable mbl) new -> forall cmds starts m, links_inv mbl cmds starts m ks ->
  exists cmds', links_inv mbl cmds' starts (propagate_all w new m) ks'.
Proof.
  induction 1 as [|ks a ks1 new ks2 Hsu Hsa IH]; intros HF cmds starts m0 Hi; [by exists cmds|].
  apply Forall_cons in HF as [Hla HF]. destruct (propagate_links _ _ _ _ _ (w_replica_fails w) a ks1 Hi Hla Hsu) as [cmds1 H1].
  by apply (IH HF cmds1).
Qed.

Lemma system_command_inv mbl cmds starts s w conn a r s' :
  system_inv mbl cmds starts s -> good_command mbl (w, conn, a) -> upper_name a <> b "PSYNC" ->
  execute w (client_ctx conn a) s = (Ok r, s') -> exists cmds', system_inv mbl cmds' starts s'.
Proof.
  intros [Hs Hk Hl] Hg Hps Hx.
  destruct (execute_session w conn a s r s' mbl Hs Hg Hk Hx) as (Hs' & _ & [(new & Hnew & _ & Hsa & Hk' & Em)|(? & _)]); [|done].
  destruct (propagate_all_links mbl w new _ _ Hsa Hnew _ _ _ Hl) as [cmds' Hl']. exists cmds'. split; [done|done|by rewrite Em].
Qed.

Lemma system_reachable cfg rid mbl s :
  aof_enabled cfg = true -> is_replica cfg = false -> requirepass cfg = None ->
  rtc (system_step mbl) (started_server cfg rid) s -> exists cmds starts, system_inv mbl cmds starts s.
Proof.
  intros He Hr Hp Hrun. destruct (started_serving cfg rid He Hr Hp) as (Hs0 & _ & _ & Hk0).
  assert (exists cmds starts, system_inv mbl cmds starts (started_server cfg rid)) as H0.
  { exists [], []. split; [done|rewrite Hk0; apply map_Forall_empty|]. split; try done.
    unfold started_server, start, load_persistence. simpl. rewrite andb_false_r. simpl.
    unfold open_. simpl. rewrite He. simpl.
    split; simpl; try done; try (by constructor); intros r start Hin; by apply elem_of_nil in Hin. }
  clear Hs0 Hk0. induction Hrun as [s|s s1 s2 Hst _ IH]; [done|]. apply IH. destruct H0 as (cmds & starts & Hi). pose proof Hi as [Hs Hk Hl].
  destruct (calm_steps mbl s s1 Hs Hst) as [Hc|[(m' & Hls & Hs1 & Est & Em)|[(w & conn & Hc & ->)|(w & conn & a & r & Hg & Hps & Hx)]]].
  - exists cmds, starts. by eapply calm_inv.
  - exists cmds, starts. subst m'. split; rewrite ?Est; try done. by eapply link_step_links.
  - exists cmds. eexists. unfold start_full_resync. rewrite snapshot_plain by apply Hs. split; simpl; [destruct Hs; by split|done|].
    apply psync_links; [done|apply Hs|done].
  - destruct (system_command_inv mbl cmds starts s w conn a r s1 Hi Hg Hps Hx) as [cmds' Hi']. by exists cmds', starts.
Qed.

(** What was sent on a live link: a snapshot, and the commands that lead from it
    to the present keyspace. *)
Lemma live_link cfg rid mbl s id l :
  aof_enabled cfg = true -> is_replica cfg = false -> requirepass cfg = None ->
  rtc (system_step mbl) (started_server cfg rid) s -> links (master_ s) !! id = Some l -> alive l = true -> state l = live_ ->
  exists st off cmds h, out l = h :: map encode_command cmds /\ plain st /\ snapshot_of (master_ s) off (entries st) h /\
    Forall (loggable mbl) cmds /\ succeed_all (keyspace st) cmds (keyspace (store s)).
Proof.
  intros He Hr Hp Hrun Hl Ha Hlive. destruct (system_reachable cfg rid _ s He Hr Hp Hrun) as (cmds & starts & [Hs _ [Hmi Hlog Hor Hal]]).
  destruct (start_of _ _ _ _ _ Hmi Hl) as [[n es] Hst]. specialize (Hal id (n, es) l Hst Hl Ha).
  destruct (Hor id (n, es) Hst) as (st & Hpl & Ees). simpl in *. subst es.
  destruct (mi_link _ _ _ Hmi _ _ _ Hst Hl) as [_ _ Hstream Hback _ Hhead].
  destruct (Hstream Ha) as (Hs1 & _). destruct (Hback Hlive) as [Hbl Hout]. unfold stream_of in Hs1. simpl in Hs1.
  rewrite Hbl, app_nil_r, skipn_map in Hs1. destruct (out l) as [|h t] eqn:Eo; [done|]. simpl in *. subst t.
  eexists st, _, (drop n cmds), h. split; [done|]. split; [done|]. split; [by apply Hhead|]. split; [by apply Forall_drop|done].
Qed.

(** ** Properties *)

(** C4 Replication converges, end to end.  Let a master with a log and without a
    password run from its start on a fresh directory while its disk works:
    any client commands that set no deadline and that the log can hold
    (evicting keys when there is a memory limit), resyncs, flushes, drains,
    failing and disappearing replicas, saves, rewrites and expiry rounds, in any
    order.
    Take any replica link that is alive and live, and a replica without a memory
    limit whose connection delivers what the master wrote to that link, cut into
    reads in any way, but with no read that holds both the end of the snapshot and
    the start of the commands (see [replica_loses_commands]); the snapshot is
    within the limits of the replica and 32,000,000 bytes, each command within
    31,000,000.  When the replica has read it all, its keyspace is exactly the
    present keyspace of the master, whatever keys without deadlines it held before
    and although its own log may fail at any time. *)
Theorem replicas_converge cfg rid s id l c srv repr now ws acs ps scs :
  aof_enabled cfg = true -> is_replica cfg = false -> requirepass cfg = None ->
  rtc (system_step (rc_max_bulk_len c)) (started_server cfg rid) s ->
  links (master_ s) !! id = Some l -> alive l = true -> state l = live_ ->
  follower srv -> (forall i, clock_forward (ws i)) -> 0 <= rc_max_bulk_len c < 10 ^ int_max_str_digits ->
  (forall h, head (out l) = Some h -> arrives h ps /\ zlen h <= Z.min 32000000 (Z.min (rc_max_bulk_len c) (rc_snapshot_max_bytes c))) ->
  arrives (concat (tail (out l))) scs -> Forall (fun x => zlen x <= 65536) scs -> Forall (fun x => zlen x <= 31000000) (tail (out l)) ->
  Forall2 arrives (answers c) acs ->
  exists s', session repr now ws c (concat acs ++ ps ++ scs) srv = (Err (ConnectionError (u "master closed connection")), s') /\
    keyspace (store (server s')) = keyspace (store s).
Proof.
  intros He Hr Hp Hrun Hl Ha Hlive Hfo Hclk Hmbl Hh Hsc Hsz Hcm HF.
  destruct (live_link cfg rid (rc_max_bulk_len c) s id l He Hr Hp Hrun Hl Ha Hlive) as (st & off & cmds & h & Ho & Hpl & Hpay & Hlog & Hsa).
  rewrite Ho in *. cbn [head tail] in *. destruct (Hh h eq_refl) as [Hps Hz].
  destruct (session_converges repr now 0 ws c (master_ s) off st h cmds (keyspace (store s)) srv acs ps scs) as (s' & Hx & _ & _ & Hk & _); try done.
  - by rewrite snapshot_plain.
  - apply Forall_and. split; [done|]. by apply (Forall_map encode_command) in Hcm.
  - by exists s'.
Qed.

(** A replica joins between two writes. *)
Definition ex_y0 : RedisServer := Eval vm_compute in started_server default_config (u "abc").
Definition ex_y1 : RedisServer := Eval vm_compute in (execute ex_world (client_ctx 1 [b "SET"; b "k"; b "v"]) ex_y0).2.
Definition ex_y2 : RedisServer := Eval vm_compute in start_full_resync ex_world ex_y1 7.
Definition ex_y3 : RedisServer := Eval vm_compute in (execute ex_world (client_ctx 1 [b "LPUSH"; b "l"; b "x"]) ex_y2).2.
Definition ex_y4 : RedisServer :=
  Eval vm_compute in set_master ex_y3 (full_resync_send (master_ ex_y3) [] (default (mkResync 0 0 Flushing) (head (resyncs (master_ ex_y3)))) []).
Definition ex_y5 : RedisServer := Eval vm_compute in set_master ex_y4 (full_resync_flush (master_ ex_y4) [] (mkResync 7 0 Flushing) [] None).
Definition ex_y6 : RedisServer := Eval vm_compute in set_master ex_y5 (full_resync_flush (master_ ex_y5) [] (mkResync 7 0 Flushing) [] None).
Definition ex_y7 : RedisServer := Eval vm_compute in (execute ex_world (client_ctx 2 [b "DEL"; b "k"]) ex_y6).2.

Lemma ex_command conn a s s' :
  loggable 16777216 a -> timeless_cmd a -> upper_name a <> b "PSYNC" ->
  is_ok (execute ex_world (client_ctx conn a) s).1 = true -> (execute ex_world (client_ctx conn a) s).2 = s' -> system_step 16777216 s s'.
Proof.
  intros Hl Ht Hp Hok <-. destruct (execute ex_world (client_ctx conn a) s) as [[r|e] s'] eqn:E; [|done].
  apply (sy_command 16777216 s ex_world conn a r); [|done|done]. split; [done|]. split; [done|]. split; [done|]. by intros i.
Qed.

Lemma ex_system : rtc (system_step 16777216) (started_server default_config (u "abc")) ex_y7.
Proof.
  assert (started_server default_config (u "abc") = ex_y0) as -> by (vm_compute; reflexivity).
  apply (rtc_l _ _ ex_y1).
  { apply (ex_command 1 [b "SET"; b "k"; b "v"]); [by split|done|done|vm_compute; reflexivity|vm_compute; reflexivity]. }
  apply (rtc_l _ _ ex_y2).
  { assert (start_full_resync ex_world ex_y1 7 = ex_y2) as <- by (vm_compute; reflexivity). apply sy_psync. reflexivity. }
  apply (rtc_l _ _ ex_y3).
  { apply (ex_command 1 [b "LPUSH"; b "l"; b "x"]); [by split|done|done|vm_compute; reflexivity|vm_compute; reflexivity]. }
  apply (rtc_l _ _ ex_y4).
  { set (r := default (mkResync 0 0 Flushing) (head (resyncs (master_ ex_y3)))).
    assert (set_master ex_y3 (full_resync_send (master_ ex_y3) [] r []) = ex_y4) as <- by (vm_compute; reflexivity).
    apply sy_link, ls_send. reflexivity. }
  apply (rtc_l _ _ ex_y5).
  { assert (set_master ex_y4 (full_resync_flush (master_ ex_y4) [] (mkResync 7 0 Flushing) [] None) = ex_y5) as <- by (vm_compute; reflexivity).
    apply sy_link, ls_flush. reflexivity. }
  apply (rtc_l _ _ ex_y6).
  { assert (set_master ex_y5 (full_resync_flush (master_ ex_y5) [] (mkResync 7 0 Flushing) [] None) = ex_y6) as <- by (vm_compute; reflexivity).
    apply sy_link, ls_flush. reflexivity. }
  apply rtc_once. apply (ex_command 2 [b "DEL"; b "k"]); [by split|done|done|vm_compute; reflexivity|vm_compute; reflexivity].
Qed.

Definition ex_y_link : ReplicaLink := Eval vm_compute in default (mkLink [] 0 0 false syncing [] 0 false []) (links (master_ ex_y7) !! 0%nat).
Definition ex_y_snapshot : bytes := Eval vm_compute in default [] (head (out ex_y_link)).

Lemma replicas_converge_witness :
  exists s', session (fun _ => []) 0 (fun _ => ex_world) ex_client
      (concat ex_answers ++ [take 25 ex_y_snapshot; drop 25 ex_y_snapshot] ++ [concat (tail (out ex_y_link))]) ex_replica =
      (Err (ConnectionError (u "master closed connection")), s') /\ keyspace (store (server s')) = keyspace (store ex_y7).
Proof.
  apply (replicas_converge default_config (u "abc") ex_y7 0 ex_y_link ex_client ex_replica (fun _ => []) 0 (fun _ => ex_world)
    ex_answers [take 25 ex_y_snapshot; drop 25 ex_y_snapshot] [concat (tail (out ex_y_link))]).
  - reflexivity.
  - reflexivity.
  - reflexivity.
  - exact ex_system.
  - reflexivity.
  - reflexivity.
  - reflexivity.
  - exact ex_follower.
  - intros i j. reflexivity.
  - split; [apply Z.leb_le|apply Z.ltb_lt]; vm_compute; reflexivity.
  - intros h Hh. assert (h = ex_y_snapshot) as -> by (injection Hh as <-; reflexivity). split.
    + split; [repeat apply Forall_cons_2; try apply Forall_nil_2; discriminate|reflexivity].
    + apply Z.leb_le. vm_compute. reflexivity.
  - split; [repeat apply Forall_cons_2; try apply Forall_nil_2; discriminate|reflexivity].
  - repeat apply Forall_cons_2; try apply Forall_nil_2. apply Z.leb_le. vm_compute. reflexivity.
  - repeat apply Forall_cons_2; try apply Forall_nil_2; apply Z.leb_le; vm_compute; reflexivity.
  - exact ex_answers_arrive.
Defined.
