(* ===== verification/Follower.v ===== *)
(** * A replica that serves clients

    While it follows its master a replica answers its own clients: between two
    reads of the command stream any of their commands may run.  What they see is
    the keyspace of the master as of the commands received so far, and they
    cannot change it. *)
From stdpp Require Import relations.
From S2P Require Import Prelude PyText PyFloat Encoder Parser Dict Store StoreSpec Eviction Crc32 Rdb AofFile AofLog Config Master Commands Server Client Recovery Memory Replica Requests ClientView System.
Local Open Scope Z_scope.

(** ** Events *)




(** ** What the clients should see *)







(** ** Commands of clients *)









(** ** Runs *)







(** ** Properties *)



