(* ===== verification/Durability.v ===== *)
(** * Durability of the whole server

    The rewritten log recreates the keyspace, and a server that is restarted
    on its log at any time, whatever its clients, replicas and background tasks
    did, holds the keyspace it had. *)
From stdpp Require Import relations.
From S2P Require Import Prelude PyText PyFloat Encoder Parser Dict Store StoreSpec Eviction Crc32 Rdb AofFile AofLog Config Master Commands Server Recovery Replica System.
Local Open Scope Z_scope.

(** ** Values that a log can recreate *)

(** The log has no command for an empty list or hash. *)
Definition nonempty_value (e : KeyEntry) : Prop :=
  match value e with VBytes _ => True | VDeque l => l <> [] | VDict d => d <> [] end.

Lemma pair_up_flatten d : pair_up (flatten_items d) = d.
Proof. unfold flatten_items. induction d as [|[f v] d IH]; simpl in *; [done|]. by rewrite IH. Qed.

Lemma zlen_flatten (d : dict bytes bytes) : zlen (flatten_items d) = 2 * zlen d.
Proof. unfold flatten_items. induction d as [|[f v] d IH]; [done|]. simpl in *. rewrite !zlen_cons, IH. lia. Qed.

(** The command that the rewrite makes of an entry. *)
Definition recreate (ke : bytes * KeyEntry) : list bytes :=
  match value ke.2 with
  | VBytes v => [b "SET"; ke.1; v]
  | VDeque l => b "LPUSH" :: ke.1 :: rev l
  | VDict d => b "HSET" :: ke.1 :: flatten_items d
  end.

Lemma rewrite_entry_plain cur ke :
  entry_ok ke.2 -> expire_at_ms ke.2 = None -> nonempty_value ke.2 -> rewrite_entry cur ke = Ok [recreate ke].
Proof.
  destruct ke as [k [t v x]]. unfold entry_ok, nonempty_value, rewrite_entry, recreate. simpl. intros Hok -> Hne.
  destruct t, v as [v|l|d]; try done; simpl.
  - destruct (rev l) as [|y r] eqn:E; [|done]. apply (f_equal (@rev _)) in E. rewrite rev_involutive in E. by subst l.
  - destruct d as [|[f y] d]; [done|]. done.
Qed.

Lemma encodes_int n : 0 <= n < 10 ^ 4 -> encodes (PInt n).
Proof.
  intros Hn. unfold encodes. simpl. unfold encode_integer, format_d.
  assert (Z.abs n < 10 ^ int_max_str_digits) as Hlt.
  { apply (Z.lt_le_trans _ (10 ^ 4)); [lia|]. apply Z.pow_le_mono_r; [lia|]. by vm_compute. }
  repeat case_match; simplify_eq; try done; lia.
Qed.

(** Running it where the key is free puts the entry there. *)
Lemma recreate_succeeds mbl m ke :
  entry_ok ke.2 -> expire_at_ms ke.2 = None -> nonempty_value ke.2 -> loggable mbl (recreate ke) -> m !! ke.1 = None ->
  succeeds m (recreate ke) (<[ke.1 := ke.2]> m).
Proof.
  destruct ke as [k [t v x]]. unfold entry_ok, nonempty_value, recreate, loggable, command_fits. simpl. intros Hok -> Hne [_ Hlog] Hm.
  apply andb_true_iff in Hlog as [Hlen _]. apply Z.leb_le in Hlen. unfold succeeds, spec_cmd, timeless_cmd.
  destruct t, v as [v|l|d]; try done.
  - split; [done|]. split; [done|]. eexists. split; [reflexivity|done].
  - split; [done|]. destruct (rev l) as [|y r] eqn:E.
    { apply (f_equal (@rev _)) in E. rewrite rev_involutive in E. by subst l. }
    split; [done|]. exists (PInt (zlen (y :: r))). simpl. rewrite Hm. split.
    + f_equal. rewrite <- (rev_involutive l), E. done.
    + apply encodes_int. rewrite !zlen_cons in *. pose proof (zlen_nonneg r). simpl in Hlen. lia.
  - assert (write_op (b "HSET" :: k :: flatten_items d) = Ok (Hset k d)) as Hop.
    { unfold write_op. change (bytes_upper (b "HSET")) with (b "HSET").
      repeat match goal with |- context [beqb (b ?x) (b ?y)] =>
        let v := eval vm_compute in (beqb (b x) (b y)) in change (beqb (b x) (b y)) with v end; cbv iota.
      rewrite !zlen_cons, zlen_flatten. destruct d as [|z d]; [done|]. rewrite zlen_cons. pose proof (zlen_nonneg d).
      replace (1 + (1 + 2 * (1 + zlen d)) <? 4) with false by lia.
      replace ((1 + (1 + 2 * (1 + zlen d))) mod 2 =? 0) with true; [|symmetry; apply Z.eqb_eq; replace (1 + (1 + 2 * (1 + zlen d))) with ((2 + zlen d) * 2) by lia; apply Z.mod_mul; lia].
      cbn [orb negb]. by rewrite pair_up_flatten. }
    rewrite Hop. split; [done|]. split; [done|]. exists (PInt (zlen d)). simpl. rewrite Hm, dict_of_items_id by done. split; [done|].
    apply encodes_int. rewrite !zlen_cons, zlen_flatten in Hlen. pose proof (zlen_nonneg d). simpl in Hlen. lia.
Qed.

(** Recreating a whole keyspace from nothing. *)
Lemma recreate_all mbl es m :
  dict_ok es -> Forall (fun ke => entry_ok ke.2 /\ expire_at_ms ke.2 = None /\ nonempty_value ke.2 /\ loggable mbl (recreate ke)) es ->
  (forall k, k ∈ dict_keys es -> m !! k = None) -> succeed_all m (map recreate es) (dict_map es ∪ m).
Proof.
  revert m. induction es as [|[k e] es IH]; intros m Hd HF Hm.
  - unfold dict_map. simpl. rewrite map_empty_union. constructor.
  - apply Forall_cons in HF as [(H1 & H2 & H3 & H4) HF]. apply NoDup_cons in Hd as [Hk Hd]. cbn [map].
    eapply sa_cons; [apply (recreate_succeeds mbl); try done; apply Hm; left|].
    assert (dict_map ((k, e) :: es) ∪ m = dict_map es ∪ <[k:=e]> m) as ->.
    { unfold dict_map. simpl. rewrite <- insert_union_l, insert_union_r; [done|].
      apply not_elem_of_list_to_map_1. done. }
    apply IH; [done|done|]. intros k' Hk'. rewrite lookup_insert_ne; [|intros ->; done]. apply Hm. by right.
Qed.

(** ** No command makes an empty list or hash *)

Definition op_nonempty (op : StoreOp) : Prop :=
  match op with Lpush _ els => els <> [] | Hset _ items => items <> [] | _ => True end.

Lemma write_op_nonempty a op : write_op a = Ok op -> op_nonempty op.
Proof.
  unfold write_op. destruct a as [|name args]; [done|]. intros H.
  repeat (case_match; simplify_eq; try done); try (by apply rbind_ok in H as (? & _ & [= <-])).
  rename select (list bytes) into pairs. match goal with H : (_ <? 4) || _ = false |- _ => apply orb_false_iff in H as [H _] end.
  rewrite !zlen_cons in *. destruct pairs as [|x [|y pairs]]; simpl in *; done.
Qed.

Lemma dict_set_nonempty (d : dict bytes bytes) k v : dict_set d k v <> [].
Proof. destruct d as [|[k' v'] d]; simpl; [done|]. by case_match. Qed.

Lemma dict_of_items_nonempty (d : dict bytes bytes) items : items <> [] \/ d <> [] -> dict_of_items d items <> [].
Proof.
  revert d. induction items as [|[k v] items IH]; intros d [H|H]; try done; simpl; apply IH; right; apply dict_set_nonempty.
Qed.

Definition full_values (m : gmap bytes KeyEntry) : Prop := map_Forall (fun _ e => nonempty_value e) m.

Lemma spec_delete_full clk ks m : full_values m -> full_values (spec_delete clk m ks).2.
Proof.
  revert clk m. induction ks as [|k ks IH]; intros clk m H; simpl; [done|].
  specialize (IH (fun i => clk (S i)) (delete k m) (map_Forall_delete _ _ _ H)).
  destruct (spec_delete _ (delete k m) ks) as [n m']. simpl in *. by case_match.
Qed.

Lemma spec_op_full op m : timeless_op op -> op_nonempty op -> full_values m -> full_values (spec_op (fun _ => 0) m op).2.
Proof.
  intros Ht Hne Hf. destruct op; simpl in *; try done.
  - pose proof (spec_delete_full (fun _ => 0) keys m Hf). by destruct (spec_delete _ m keys).
  - destruct (m !! key) as [e|]; [|done]. simpl. replace (seconds <=? 0) with true by lia. by apply map_Forall_delete.
  - destruct ex_seconds; [done|]. by apply map_Forall_insert_2.
  - destruct (m !! key) as [e|] eqn:E; simpl.
    + pose proof (Hf _ _ E) as He. unfold nonempty_value in He. destruct (value e) as [v|l|d]; try done. simpl. apply map_Forall_insert_2; [|done].
      unfold nonempty_value. simpl. intros H%app_nil. by destruct H.
    + apply map_Forall_insert_2; [|done]. unfold nonempty_value. simpl. intros H. apply (f_equal (@rev _)) in H.
      by rewrite rev_involutive in H.
  - destruct (m !! key) as [e|] eqn:E; simpl; [|done]. destruct (value e) as [v|l|d]; try done.
    destruct (rev l) as [|x [|y r]]; simpl; try (by apply map_Forall_delete). apply map_Forall_insert_2; [|done].
    unfold nonempty_value. simpl. intros H%app_nil. by destruct H.
  - destruct (m !! key) as [e|] eqn:E; simpl.
    + destruct (value e) as [v|l|d]; try done. simpl. apply map_Forall_insert_2; [|done]. unfold nonempty_value. simpl.
      apply dict_of_items_nonempty. by left.
    + apply map_Forall_insert_2; [|done]. unfold nonempty_value. simpl. apply dict_of_items_nonempty. by left.
Qed.

Lemma succeeds_full m a m' : full_values m -> succeeds m a m' -> full_values m'.
Proof.
  intros Hf (_ & Ht & res & Hs & _). unfold spec_cmd, timeless_cmd in *. destruct (write_op a) as [op|] eqn:E; [|done].
  pose proof (spec_op_full op m Ht (write_op_nonempty _ _ E) Hf) as H. destruct (spec_op _ m op) as [r m1]. simpl in H.
  by injection Hs as _ <-.
Qed.

Lemma succeed_all_full m l m' : succeed_all m l m' -> full_values m -> full_values m'.
Proof. induction 1; intros; [done|]. eauto using succeeds_full. Qed.

(** ** The log of a running server *)

(** The log holds commands that lead from nothing to the present keyspace. *)
Definition logged_inv (mbl : Z) (s : RedisServer) : Prop :=
  keys_fit mbl (keyspace (store s)) /\
  exists logged, Forall (loggable mbl) logged /\ file (aof s) = wire logged /\ succeed_all ∅ logged (keyspace (store s)).

(** The rewritten log can be read back: no key, value or number of elements
    exceeds the limits of the reader. *)
Definition recordable (mbl : Z) (s : RedisServer) : Prop :=
  aof_rewrite_task s = true -> Forall (fun ke => loggable mbl (recreate ke)) (entries (store s)).

Lemma rewrite_payload_plain cur es :
  Forall (fun ke => entry_ok ke.2 /\ expire_at_ms ke.2 = None /\ nonempty_value ke.2) es ->
  build_rewrite_payload cur es = Ok (wire (map recreate es)).
Proof.
  intros HF. unfold build_rewrite_payload, rewrite_commands.
  assert (rmapM (rewrite_entry cur) es = Ok (map (fun ke => [recreate ke]) es)) as ->.
  { induction HF as [|ke es (H1 & H2 & H3) _ IH]; [done|]. cbn [rmapM map]. by rewrite rewrite_entry_plain, IH. }
  simpl. do 2 f_equal. induction es; simpl; [done|]. f_equal. apply IHes. by apply Forall_cons in HF as [_ ?].
Qed.

(** The file after a rewrite, whichever of its system calls fails. *)
Lemma rewrite_file io cur es l data :
  enabled l = true -> fh l = true -> build_rewrite_payload cur es = Ok data ->
  file (rewrite io cur es l).2 = file l \/ file (rewrite io cur es l).2 = data.
Proof. intros He Hf Hp. unfold rewrite. rewrite He, Hp. simpl. destruct io; simpl; rewrite ?Hf; auto. Qed.

Lemma plain_entries st :
  plain st -> full_values (keyspace st) -> Forall (fun ke => entry_ok ke.2 /\ expire_at_ms ke.2 = None /\ nonempty_value ke.2) (entries st).
Proof.
  intros [Hok Hnd] Hf. apply Forall_forall. intros [k e] Hin. unfold no_deadlines in Hnd. rewrite Forall_forall in Hnd.
  pose proof (Hnd _ Hin) as Hx. apply (dict_elem_get _ _ _ (ok_entries _ Hok)) in Hin.
  split; [by eapply ok_types|]. split; [done|]. rewrite dict_get_map in Hin. apply (Hf _ _ Hin).
Qed.

Lemma rewrite_logged mbl io now cur s :
  serving s -> recordable mbl s -> logged_inv mbl s -> logged_inv mbl (aof_rewrite_worker io now cur s).
Proof.
  intros [Hp Hr _ _] Hrec [Hk (logged & Hl & Hf & Hs)]. unfold aof_rewrite_worker. destruct (aof_rewrite_task s) eqn:Et; [|split; [done|]; by exists logged].
  assert (full_values (keyspace (store s))) as Hfull by (eapply succeed_all_full; [exact Hs|]; by apply map_Forall_empty).
  pose proof (plain_entries _ Hp Hfull) as HE. rewrite snapshot_plain by done.
  pose proof (rewrite_file io cur _ _ _ (lr_enabled _ Hr) (lr_open _ Hr) (rewrite_payload_plain cur _ HE)) as Hfile.
  destruct (rewrite io cur _ _) as [x l]. simpl in Hfile. unfold logged_inv. simpl. split; [done|]. destruct Hfile as [-> | ->]; [by exists logged|].
  exists (map recreate (entries (store s))). specialize (Hrec Et). split; [by apply Forall_map|]. split; [done|].
  assert (succeed_all ∅ (map recreate (entries (store s))) (dict_map (entries (store s)) ∪ ∅)) as H.
  { apply (recreate_all mbl); [apply Hp| |intros; apply lookup_empty].
    apply Forall_forall. intros ke Hin. rewrite Forall_forall in HE, Hrec. destruct (HE _ Hin) as (? & ? & ?). auto. }
  by rewrite map_union_empty in H.
Qed.

(** Every step keeps it. *)
Lemma logged_same mbl s s' :
  file (aof s') = file (aof s) -> keyspace (store s') = keyspace (store s) -> logged_inv mbl s -> logged_inv mbl s'.
Proof. intros Hf Hk. unfold logged_inv. by rewrite Hf, Hk. Qed.

Lemma logged_step mbl s s' :
  serving s -> recordable mbl s -> system_step mbl s s' -> logged_inv mbl s -> logged_inv mbl s'.
Proof.
  intros Hs Hrec Hst Hi. pose proof (sv_plain _ Hs) as Hp.
  destruct Hst as [w conn a r s1 H1 _ H3|w conn Hc|m' Hm| |conn|conn|now|call io|io now cur|rnd now|].
  - destruct (execute_session w conn a s r s1 mbl Hs H1 (proj1 Hi) H3) as (_ & _ & [(new & Hn & Hf & Hsa & Hk & _)|(_ & Hf & Hk)]); [|by apply (logged_same mbl s)].
    destruct Hi as [_ (logged & Hl & Hfl & Hsl)]. split; [done|]. exists (logged ++ new). split; [by apply Forall_app|].
    split; [by rewrite Hf, Hfl, wire_app|]. by eapply succeed_all_trans.
  - unfold start_full_resync. rewrite snapshot_plain by done. by apply (logged_same mbl s).
  - by apply (logged_same mbl s).
  - unfold accept. case_if; by apply (logged_same mbl s).
  - by apply (logged_same mbl s).
  - by apply (logged_same mbl s).
  - unfold bgsave_take_snapshot. destruct (bgsave_task s); try done. rewrite snapshot_plain by done. by apply (logged_same mbl s).
  - unfold bgsave_thread. repeat case_match; by apply (logged_same mbl s).
  - by apply rewrite_logged.
  - unfold active_expire_tick. rewrite active_expire_plain by apply Hp. by destruct s.
  - apply (logged_same mbl s); try done. simpl. by destruct (fsync_tick_ready (aof s) (sv_ready _ Hs)).
Qed.

Lemma step_serving mbl s s' : serving s -> keys_fit mbl (keyspace (store s)) -> system_step mbl s s' -> serving s'.
Proof.
  intros Hs Hk Hst. destruct (calm_steps mbl s s' Hs Hst) as [(H & _)|[(m' & _ & H & _)|[(w & conn & _ & ->)|(w & conn & a & r & Hg & _ & Hx)]]].
  - by apply H.
  - done.
  - unfold start_full_resync. rewrite snapshot_plain by apply Hs. destruct Hs. by split.
  - by destruct (execute_session w conn a s r s' mbl Hs Hg Hk Hx).
Qed.

(** A run whose rewrites can be read back. *)
Definition durable_step (mbl : Z) (s s' : RedisServer) : Prop := system_step mbl s s' /\ recordable mbl s.

Lemma durable_run mbl s s' : serving s -> logged_inv mbl s -> rtc (durable_step mbl) s s' -> serving s' /\ logged_inv mbl s'.
Proof.
  intros Hs Hi H. induction H as [|x y z [Hst Hrec] _ IH]; [done|]. apply IH; [by eapply step_serving; [| |exact Hst]; [|apply Hi]|by eapply logged_step].
Qed.

Lemma durable_reachable cfg rid s :
  aof_enabled cfg = true -> is_replica cfg = false -> requirepass cfg = None ->
  rtc (durable_step (proto_max_bulk_len cfg)) (started_server cfg rid) s -> serving s /\ logged_inv (proto_max_bulk_len cfg) s.
Proof.
  intros He Hr Hp Hrun. destruct (started_serving cfg rid He Hr Hp) as (Hs0 & _ & Hf0 & Hk0).
  eapply durable_run; [exact Hs0| |exact Hrun]. split; [rewrite Hk0; apply map_Forall_empty|]. exists []. rewrite Hf0, Hk0. split; [done|]. split; [done|constructor].
Qed.

(** ** Properties *)


(** A list and a hash, a rewrite in the background, and a deletion. *)
Definition ex_run (a : list bytes) (s : RedisServer) : RedisServer := (execute ex_world (client_ctx 1 a) s).2.
Definition ex_d0 : RedisServer := Eval vm_compute in started_server default_config (u "abc").

Lemma ex_durable a s s' :
  loggable 16777216 a -> timeless_cmd a -> upper_name a <> b "PSYNC" ->
  is_ok (execute ex_world (client_ctx 1 a) s).1 = true -> ex_run a s = s' -> aof_rewrite_task s = false -> durable_step 16777216 s s'.
Proof. intros. split; [by apply (ex_command 1 a)|]. intros E. congruence. Qed.



(** ** A rewrite that cannot be read back *)

Lemma zlen_encode_command a : zlen a <= zlen (encode_command a).
Proof.
  unfold encode_command. rewrite zlen_app. pose proof (zlen_nonneg (array_header (zlen a))).
  enough (zlen a <= zlen (concat (map (fun arg => encode_bulk_string (Some arg)) a))) by lia.
  clear. induction a as [|x a IH]; cbn [map concat]; [done|]. rewrite zlen_app, zlen_cons.
  enough (1 <= zlen (encode_bulk_string (Some x))) by lia. unfold zlen. simpl. lia.
Qed.

(** The reader stops at a command with too many arguments. *)
Lemma drain_long_command p a rest :
  limits_ok p -> 0 < max_array_depth p -> max_array_len p < zlen a < 10 ^ int_max_str_digits ->
  exists m, drain (with_buf p (encode_command a ++ rest)) = (Err (ProtocolError m), with_buf p (encode_command a ++ rest)).
Proof.
  intros Hlim Hd [Hlt Hmax]. set (q := with_buf p _).
  assert (buf q = [] ++ "*"%byte :: str_of_int (zlen a) ++ CRLF ++ (concat (map (fun arg => encode_bulk_string (Some arg)) a) ++ rest)) as Hb.
  { unfold q, encode_command, array_header. simpl. by rewrite <- !app_assoc. }
  exists (u "array length " ++ str_of_int (zlen a) ++ u " exceeds limit"). apply drain_err.
  change (depth_fuel q) with (depth_fuel p). unfold depth_fuel.
  destruct (Z.to_nat (max_array_depth p)) as [|f] eqn:Ef; [lia|]. rewrite try_parse_array by (by rewrite Hb).
  unfold parse_array. change (max_array_depth q) with (max_array_depth p). replace (max_array_depth p <=? 0) with false by lia.
  rewrite (header_line q [] _ _ _ 0 Hb eq_refl) by auto with redis. rewrite (proj2 (Nat.eqb_neq _ _)) by lia.
  pose proof (zlen_nonneg a). rewrite int_of_str_of_int by lia. change (max_array_len q) with (max_array_len p).
  replace (zlen a =? -1) with false by lia. replace (zlen a <? -1) with false by lia. by replace (max_array_len p <? zlen a) with true by lia.
Qed.

Lemma read_long_command mbl maxf cmds a cmds' :
  0 <= mbl < 10 ^ int_max_str_digits -> Forall (loggable mbl) cmds -> 1024 < zlen a ->
  exists m, read_commands mbl maxf (Some (wire (cmds ++ a :: cmds'))) = Err (AofError m).
Proof.
  intros Hmbl Hl Ha. set (data := wire _).
  assert (zlen a <= zlen data) as Hza.
  { unfold data. rewrite wire_app, zlen_app. unfold wire at 2. cbn [map concat]. rewrite zlen_app.
    pose proof (zlen_encode_command a). pose proof (zlen_nonneg (wire cmds)). pose proof (zlen_nonneg (concat (map encode_command cmds'))). lia. }
  destruct data as [|x l] eqn:E; [rewrite zlen_nil in Hza; lia|]. unfold read_commands. case_match; [eauto|].
  destruct (Z.le_gt_cases (zlen (x :: l)) 32000000) as [Hle|Hgt].
  - rewrite feed_drain by (cbn [default_parser new_parser buf max_buffer_bytes]; rewrite zlen_nil; lia).
    cbn [default_parser new_parser buf app]. fold (new_parser mbl 32000000 1024 64). fold (default_parser mbl). rewrite <- E.
    pose proof (default_limits mbl (proj2 Hmbl)) as Hlim.
    assert (zlen a < 10 ^ int_max_str_digits).
    { apply (Z.lt_trans _ (10 ^ 9)); [lia|]. apply Z.pow_lt_mono_r; [lia|by vm_compute|]. vm_compute. reflexivity. }
    destruct (drain_long_command (default_parser mbl) a (wire cmds') Hlim) as [m Hm]; [done|split; [done|done]|].
    rewrite (drain_encodings (with_buf (default_parser mbl) data) (map command_obj cmds) (map encode_command cmds) (encode_command a ++ wire cmds')).
    + rewrite with_buf_twice, Hm. simpl. eauto.
    + done.
    + apply encodings_with_buf, command_encodings; [done|]. eapply Forall_impl; [exact Hl|]. by intros c [_ ?].
    + unfold data, wire. rewrite map_app, concat_app. done.
  - rewrite feed_over by (cbn [default_parser new_parser buf max_buffer_bytes]; rewrite zlen_nil; lia). simpl. eauto.
Qed.

(** C35 A rewrite can make the log unreadable.  In any reachable state of a
    master, when a rewrite is due and the keyspace holds a list of more than
    1022 elements (the entries before it being within the limits), a rewrite
    that succeeds replaces the log by one that no server can start on: the
    list becomes one LPUSH with more arguments than the reader of the log
    accepts. *)
Theorem rewrite_breaks_restart cfg rid rid' s now cur es1 k l es2 ws now' :
  aof_enabled cfg = true -> is_replica cfg = false -> requirepass cfg = None ->
  0 <= proto_max_bulk_len cfg < 10 ^ int_max_str_digits ->
  rtc (durable_step (proto_max_bulk_len cfg)) (started_server cfg rid) s -> aof_rewrite_task s = true ->
  entries (store s) = es1 ++ (k, mkEntry LIST (VDeque l) None) :: es2 -> 1022 < zlen l ->
  Forall (fun ke => loggable (proto_max_bulk_len cfg) (recreate ke)) es1 ->
  exists m, (start ws now' None (new_server cfg rid' (file (aof (aof_rewrite_worker RewriteOk now cur s))) None)).1 = Err (AofError m).
Proof.
  intros He Hr Hp Hmbl Hrun Ht Hes Hlen Hlog.
  destruct (durable_reachable cfg rid s He Hr Hp Hrun) as [[Hpl Hrd _ _] [_ (logged & _ & _ & Hsa)]].
  assert (full_values (keyspace (store s))) as Hfull by (eapply succeed_all_full; [exact Hsa|]; by apply map_Forall_empty).
  unfold aof_rewrite_worker. rewrite Ht, snapshot_plain by done. unfold rewrite.
  rewrite (lr_enabled _ Hrd), (rewrite_payload_plain cur _ (plain_entries _ Hpl Hfull)). simpl. rewrite Hes, map_app. cbn [map].
  assert (1024 < zlen (recreate (k, mkEntry LIST (VDeque l) None))) as Hlong.
  { unfold recreate. simpl. rewrite !zlen_cons. unfold zlen in *. rewrite length_rev. lia. }
  destruct (read_long_command (proto_max_bulk_len cfg) (persistence_max_load_bytes cfg) (map recreate es1) _ (map recreate es2) Hmbl
    (proj2 (Forall_map _ _ _) Hlog) Hlong) as [m Hread].
  exists m. unfold start, load_persistence. cbn [new_server config aof new_log file]. rewrite He, bool_decide_true.
  - unfold replay_aof. rewrite Hread. done.
  - intros E. rewrite E in Hread. done.
Qed.

(** A list grown by two commands to 1200 elements. *)
Definition ex_push : list bytes := b "LPUSH" :: b "l" :: repeat (b "x") 600.
Definition ex_g1 : RedisServer := Eval vm_compute in ex_run ex_push ex_d0.
Definition ex_g2 : RedisServer := Eval vm_compute in ex_run ex_push ex_g1.
Definition ex_g3 : RedisServer := Eval vm_compute in ex_run [b "BGREWRITEAOF"] ex_g2.

Lemma rewrite_breaks_restart_witness :
  exists m, (start (fun _ => ex_world) 0 None (new_server default_config (u "xyz") (file (aof (aof_rewrite_worker RewriteOk 0 0 ex_g3))) None)).1 = Err (AofError m).
Proof.
  apply (rewrite_breaks_restart default_config (u "abc") (u "xyz") ex_g3 0 0 [] (b "l") (repeat (b "x") 1200) [] (fun _ => ex_world) 0).
  - reflexivity.
  - reflexivity.
  - reflexivity.
  - split; [apply Z.leb_le|apply Z.ltb_lt]; vm_compute; reflexivity.
  - assert (started_server default_config (u "abc") = ex_d0) as -> by (vm_compute; reflexivity).
    apply (rtc_l _ _ ex_g1); [apply (ex_durable ex_push); [split; [discriminate|vm_compute; reflexivity]|exact I|discriminate|vm_compute; reflexivity..]|].
    apply (rtc_l _ _ ex_g2); [apply (ex_durable ex_push); [split; [discriminate|vm_compute; reflexivity]|exact I|discriminate|vm_compute; reflexivity..]|].
    apply rtc_once. apply (ex_durable [b "BGREWRITEAOF"]); [by split|exact I|discriminate|vm_compute; reflexivity..].
  - reflexivity.
  - vm_compute. reflexivity.
  - apply Z.ltb_lt. vm_compute. reflexivity.
  - apply Forall_nil_2.
Defined.
