(* ===== verification/Shutdown.v ===== *)
(** * Shutdown ([server.py], [stop])

    Stopping a server: the background save is cancelled, a rewrite is waited
    for, the connections are closed, and the log is flushed and closed.  Clients
    that are connected go on while [stop] waits. *)
From stdpp Require Import relations.
From S2P Require Import Prelude PyText PyFloat Encoder Parser Dict Store StoreSpec Eviction Crc32 Rdb AofFile AofLog Config Master Commands Server Client Recovery Replica System Durability.
Local Open Scope Z_scope.

(** ** The steps of [stop] *)

(** Where [stop] waits, so that other tasks of the server run: for the replica
    client and the cancelled save, for the rewrite, for the tasks and the
    server, and for the end of each connection. *)
Inductive await_point := AtBgsave | AtRewrite | AtServer | AtClose (conn : Z).

(** What the outside world decides during [stop]: the system calls that the
    thread of a background save still makes, the outcome of a rewrite and its
    clocks, the outcome of the last fsync, and what the other tasks do to the
    server at each wait. *)
Record StopWorld := mkStop {
  st_bgsave_thread : list (thread_call * option str);
  st_rewrite : rewrite_outcome;
  st_now : Z;
  st_current_ms : Z;
  st_fsync : option str;
  st_live : await_point -> RedisServer -> RedisServer
}.

(** Cancelling the background save.  A save that has not begun to write its
    file ends there; the thread of one that has finishes its work;
    [last_save_time] stays. *)
Definition cancel_bgsave (thread : list (thread_call * option str)) (s : RedisServer) : RedisServer :=
  match bgsave_task s with
  | BgsaveNone => s
  | BgsaveScheduled | BgsaveSnapshot _ => set_saved s (rdb_file s) (last_save_time s) BgsaveNone
  | BgsaveWriting _ =>
      let s' := foldl (fun s c => bgsave_thread c.1 c.2 s) s thread in
      set_saved s' (rdb_file s') (last_save_time s) BgsaveNone
  end.

(** [writer.close()] on every connection and the end of its [handle_client],
    in turn; one that has ended meanwhile is not closed again. *)
Definition close_connection (live : await_point -> RedisServer -> RedisServer) (s : RedisServer) (conn : Z) : RedisServer :=
  let s1 := live (AtClose conn) s in
  if existsb (Z.eqb conn) (writers s1) then disconnect conn s1 else s1.

Definition close_connections (live : await_point -> RedisServer -> RedisServer) (s : RedisServer) : RedisServer :=
  foldl (close_connection live) s (writers s).

(** [aof.close()] when no append is under way: the writer takes the sentinel
    and ends. *)
Definition close_log (io : option str) (l : AOFLog) : AOFLog := close_finish io (writer_take (close_begin l)).

(** [stop] up to [self._server.close()] and its [wait_closed()]. *)
Definition stop_saving (w : StopWorld) (s : RedisServer) : RedisServer :=
  let s1 := cancel_bgsave (st_bgsave_thread w) (st_live w AtBgsave s) in
  aof_rewrite_worker (st_rewrite w) (st_now w) (st_current_ms w) (st_live w AtRewrite s1).

(** The rest of it. *)
Definition stop_closing (w : StopWorld) (s : RedisServer) : RedisServer :=
  let s3 := close_connections (st_live w) (st_live w AtServer s) in
  set_aof s3 (close_log (st_fsync w) (aof s3)).

Definition stop (w : StopWorld) (s : RedisServer) : RedisServer := stop_closing w (stop_saving w s).

(** ** What they leave *)

Lemma cancel_bgsave_keeps thread s :
  let s' := cancel_bgsave thread s in
  store s' = store s /\ aof s' = aof s /\ writers s' = writers s /\ aof_rewrite_task s' = aof_rewrite_task s /\ (serving s -> serving s').
Proof.
  unfold cancel_bgsave. destruct (bgsave_task s); try (split_and!; [done..|]; intros []; by split).
  assert (forall s0, store s0 = store s /\ aof s0 = aof s /\ writers s0 = writers s /\ aof_rewrite_task s0 = aof_rewrite_task s /\ (serving s -> serving s0) ->
    let s' := foldl (fun s c => bgsave_thread c.1 c.2 s) s0 thread in
    store s' = store s /\ aof s' = aof s /\ writers s' = writers s /\ aof_rewrite_task s' = aof_rewrite_task s /\ (serving s -> serving s')) as H.
  { clear w. induction thread as [|[call io] thread IH]; intros s0 H0; [done|]. apply IH. destruct H0 as (H1 & H2 & H3 & H4 & H5). simpl.
    destruct (bgsave_thread_calm call io s0) as [Hs _]. split_and!; [| | | |by auto]; unfold bgsave_thread; by repeat case_match. }
  destruct (H s ltac:(done)) as (H1 & H2 & H3 & H4 & H5). split_and!; [done..|]. intros []%H5. by split.
Qed.

(** What the other tasks may do while [stop] waits: anything that the server
    does, with commands that can be logged and rewrites that can be read back;
    but nobody listens any more. *)
Definition late (mbl : Z) (s s' : RedisServer) : Prop := rtc (durable_step mbl) s s' /\ forall x, x ∈ writers s' -> x ∈ writers s.

Fixpoint late_closing (mbl : Z) (live : await_point -> RedisServer -> RedisServer) (l : list Z) (s : RedisServer) : Prop :=
  match l with
  | [] => True
  | conn :: l' => late mbl s (live (AtClose conn) s) /\ late_closing mbl live l' (close_connection live s conn)
  end.

Definition late_activity (mbl : Z) (w : StopWorld) (s : RedisServer) : Prop :=
  let s1 := st_live w AtBgsave s in
  let s2 := cancel_bgsave (st_bgsave_thread w) s1 in
  let s3 := st_live w AtRewrite s2 in
  let s4 := stop_saving w s in
  let s5 := st_live w AtServer s4 in
  late mbl s s1 /\ late mbl s2 s3 /\ recordable mbl s3 /\ late mbl s4 s5 /\ late_closing mbl (st_live w) (writers s5) s5.

(** The connections that are not in [l] have been closed. *)
Lemma close_connection_writers live s conn l :
  (forall x, x ∈ writers (live (AtClose conn) s) -> x ∈ writers s) -> (forall x, x ∈ writers s -> x ∈ conn :: l) ->
  forall x, x ∈ writers (close_connection live s conn) -> x ∈ l.
Proof.
  intros Hw Hl x. unfold close_connection. set (s1 := live (AtClose conn) s) in *.
  destruct (existsb (Z.eqb conn) (writers s1)) eqn:E; simpl.
  - intros [Hne Hx]%list_elem_of_filter. apply Hw, Hl, elem_of_cons in Hx as [?|?]; done.
  - intros Hx. pose proof (Hl x (Hw x Hx)) as [->|?]%elem_of_cons; [|done].
    exfalso. apply not_true_iff_false in E. apply E, existsb_exists. exists conn. by rewrite Z.eqb_refl, <- list_elem_of_In.
Qed.

Lemma writers_within_nil s : (forall x, x ∈ writers s -> x ∈ []) -> writers s = [].
Proof. intros H. destruct (writers s) as [|x ws]; [done|]. destruct (not_elem_of_nil x). apply H. by left. Qed.

Lemma close_connection_step mbl live s conn l :
  late mbl s (live (AtClose conn) s) -> serving s -> logged_inv mbl s -> (forall x, x ∈ writers s -> x ∈ conn :: l) ->
  let s' := close_connection live s conn in serving s' /\ logged_inv mbl s' /\ forall x, x ∈ writers s' -> x ∈ l.
Proof.
  intros [Hrun Hw] Hs Hi Hl. destruct (durable_run mbl s _ Hs Hi Hrun) as [Hs1 Hi1].
  pose proof (close_connection_writers live s conn l Hw Hl) as Hx. unfold close_connection in *.
  set (s1 := live (AtClose conn) s) in *. destruct (existsb (Z.eqb conn) (writers s1)) eqn:E; [|done].
  split; [destruct Hs1; by split|]. split; [by apply (logged_same mbl s1)|done].
Qed.

Lemma close_all mbl live l s :
  late_closing mbl live l s -> serving s -> logged_inv mbl s -> (forall x, x ∈ writers s -> x ∈ l) ->
  let s' := foldl (close_connection live) s l in serving s' /\ logged_inv mbl s' /\ writers s' = [].
Proof.
  revert s. induction l as [|conn l IH]; intros s Hlate Hs Hi Hl.
  - simpl. split; [done|]. split; [done|]. by apply writers_within_nil.
  - destruct Hlate as [H1 H2]. destruct (close_connection_step mbl live s conn l H1 Hs Hi Hl) as (G1 & G2 & G3). simpl. by apply IH.
Qed.

Lemma close_log_ready l :
  log_ready l -> let l' := close_log None l in
  fh l' = false /\ file l' = file l /\ synced l' = length (file l) /\ writer_task l' = WriterNone /\ fsync_task l' = false /\ calls l' = calls l.
Proof.
  intros [He Ho Hh Hq [Hk Hp] Hi Hc]. destruct l as [pol en qm h f sy d q wk ps wt ft cl fl cs]; simpl in *. subst.
  unfold close_log, close_begin. simpl. unfold AofLog.put. simpl. rewrite full_nil. unfold writer_take, wake. simpl.
  unfold close_finish. simpl. unfold fsync_sync. simpl. destruct d; simpl; auto 10.
Qed.

(** Everything before the connections are closed. *)
Lemma stop_saving_durable mbl w s :
  late_activity mbl w s -> serving s -> logged_inv mbl s ->
  let s4 := stop_saving w s in serving s4 /\ logged_inv mbl s4 /\ forall x, x ∈ writers s4 -> x ∈ writers s.
Proof.
  intros ([Hr1 Hw1] & [Hr2 Hw2] & Hrec & _) Hs Hi. unfold stop_saving.
  destruct (durable_run mbl s _ Hs Hi Hr1) as [Hs1 Hi1]. set (s1 := st_live w AtBgsave s) in *.
  destruct (cancel_bgsave_keeps (st_bgsave_thread w) s1) as (Est & Ea & Ew & _ & Hs2). specialize (Hs2 Hs1).
  set (s2 := cancel_bgsave (st_bgsave_thread w) s1) in *.
  assert (logged_inv mbl s2) as Hi2 by (unfold logged_inv; by rewrite Est, Ea).
  destruct (durable_run mbl s2 _ Hs2 Hi2 Hr2) as [Hs3 Hi3]. set (s3 := st_live w AtRewrite s2) in *.
  split; [eapply step_serving; [exact Hs3|apply Hi3|apply sy_rewrite]|]. split; [by apply rewrite_logged|].
  intros x Hx. apply Hw1. rewrite <- Ew. apply Hw2. revert Hx. unfold aof_rewrite_worker.
  case_match; [|done]. destruct (snapshot _ _), (rewrite _ _ _ _). done.
Qed.

(** No connection is left, whatever the other tasks do, as long as nobody
    connects. *)
Lemma close_all_writers live l s :
  (forall a s x, x ∈ writers (live a s) -> x ∈ writers s) -> (forall x, x ∈ writers s -> x ∈ l) -> writers (foldl (close_connection live) s l) = [].
Proof.
  intros Hw. revert s. induction l as [|conn l IH]; intros s Hl; simpl; [by apply writers_within_nil|].
  apply IH. apply close_connection_writers; [intros x; apply Hw|done].
Qed.

Lemma stop_writers w s :
  (forall a s x, x ∈ writers (st_live w a s) -> x ∈ writers s) -> writers (stop w s) = [].
Proof. intros Hw. unfold stop, stop_closing. cbn [set_aof writers]. by apply close_all_writers. Qed.

(** ** What is left on disk *)

(** Stopping a master in any reachable state, the final fsync succeeding:
    every connection is closed, the tasks of the log have ended, its file is
    complete on disk and is a log that recreates the keyspace. *)
Lemma stop_reachable cfg rid w s :
  aof_enabled cfg = true -> is_replica cfg = false -> requirepass cfg = None ->
  rtc (durable_step (proto_max_bulk_len cfg)) (started_server cfg rid) s -> late_activity (proto_max_bulk_len cfg) w s -> st_fsync w = None ->
  let s' := stop w s in
  writers s' = [] /\ fh (aof s') = false /\ writer_task (aof s') = WriterNone /\ synced (aof s') = length (file (aof s')) /\
  exists logged, Forall (loggable (proto_max_bulk_len cfg)) logged /\ file (aof s') = wire logged /\ succeed_all ∅ logged (keyspace (store s')).
Proof.
  intros He Hr Hp Hrun Hlate Hf. destruct (durable_reachable cfg rid s He Hr Hp Hrun) as [Hs Hi].
  destruct (stop_saving_durable _ w s Hlate Hs Hi) as (Hs4 & Hi4 & _).
  destruct Hlate as (_ & _ & _ & [Hr5 _] & Hcl). unfold stop, stop_closing. cbv zeta.
  destruct (durable_run _ _ _ Hs4 Hi4 Hr5) as [Hs5 Hi5].
  destruct (close_all _ _ _ _ Hcl Hs5 Hi5 ltac:(done)) as (Hs6 & Hi6 & Hw). fold (close_connections (st_live w) (st_live w AtServer (stop_saving w s))) in *.
  set (s6 := close_connections _ _) in *. cbn [set_aof writers aof store]. rewrite Hf.
  destruct (close_log_ready (aof s6) (sv_ready _ Hs6)) as (H1 & H2 & H3 & H4 & _). rewrite H2.
  destruct Hi6 as [_ (logged & Hl & Hfl & Hsa)]. split_and!; try done. by exists logged.
Qed.
