(* ===== verification/Deadlines.v ===== *)
(** * Deadlines in the log and in the command stream

    SET with EX, and EXPIRE, are logged and propagated as the client sent them:
    with a number of seconds.  A restarted server and a replica count them from
    the time at which they execute the command, and the expiry of a key is not
    logged or propagated at all. *)
From S2P Require Import Prelude PyText PyFloat Encoder Parser Dict Store StoreSpec Eviction Crc32 Rdb AofFile AofLog Config Master Commands Server Client Recovery Memory Replica Requests ClientView.
Local Open Scope Z_scope.

(** A key with a deadline in [n] seconds, and a list under the same key. *)
Definition set_ex (k v : bytes) (n : Z) : list bytes := [b "SET"; k; v; b "EX"; str_of_int n].
Definition push (k x : bytes) : list bytes := [b "LPUSH"; k; x].

Lemma set_ex_result clk m k v n :
  0 < n < 10 ^ int_max_str_digits ->
  write_result clk m (set_ex k v n) = (Ok (PSimple (u "OK")), <[k := fresh (VBytes v) (Some (clk 0%nat + n * 1000))]> m).
Proof.
  intros Hn. unfold write_result, write_op, set_ex. change (bytes_upper (b "SET")) with (b "SET"). change (beqb (b "SET") (b "SET")) with true. cbv iota.
  unfold set_options. change (bytes_upper (b "EX")) with (b "EX"). change (beqb (b "EX") (b "EX")) with true. cbv iota.
  rewrite int_of_str_of_int by lia. replace (n <=? 0) with false by lia. cbn [rbind spec_op]. by replace (n <=? 0) with false by lia.
Qed.

(** Pushing to a free key, and to a key that holds a string. *)
Lemma push_result_free clk m k x : m !! k = None -> write_result clk m (push k x) = (Ok (PInt 1), <[k := fresh (VDeque [x]) None]> m).
Proof. intros Hm. change (write_result clk m (push k x)) with (let '(r, m') := spec_op clk m (Lpush k [x]) in (reply_obj r, m')). cbn [spec_op]. by rewrite Hm. Qed.

Lemma push_result_string clk m k x v t : m !! k = Some (fresh (VBytes v) t) -> write_result clk m (push k x) = (Err wrongtype, m).
Proof. intros Hm. change (write_result clk m (push k x)) with (let '(r, m') := spec_op clk m (Lpush k [x]) in (reply_obj r, m')). cbn [spec_op]. by rewrite Hm. Qed.

(** When the key with the deadline [d] is seen. *)
Lemma deadline_seen t t' st k v d m :
  live t st = <[k := fresh (VBytes v) (Some d)]> m -> t <= t' ->
  live t' st !! k = if d <=? t' then None else Some (fresh (VBytes v) (Some d)).
Proof.
  intros Hl Ht. rewrite <- (prune_live t t' st Ht), Hl. unfold prune. destruct (d <=? t') eqn:E.
  - apply map_lookup_filter_None. right. intros e. rewrite lookup_insert_eq. intros [= <-]. cbn. lia.
  - apply map_lookup_filter_Some. rewrite lookup_insert_eq. split; [done|]. cbn. lia.
Qed.

(** ** Executing the two commands *)

(** On the master the second command comes after the deadline. *)
Lemma master_run w1 w2 conn k v n x s :
  steady s -> good_world w1 -> good_world w2 -> 0 < n < 10 ^ int_max_str_digits ->
  w_clock w1 0%nat + n * 1000 <= w_clock w2 0%nat ->
  exists s1 s2, execute w1 (client_ctx conn (set_ex k v n)) s = (Ok (Some (b "+OK" ++ CRLF)), s1) /\
    execute w2 (client_ctx conn (push k x)) s1 = (Ok (Some (b ":1" ++ CRLF)), s2) /\
    live (w_clock w2 0%nat) (store s2) !! k = Some (fresh (VDeque [x]) None) /\
    (log_ready (aof s) -> file (aof s2) = file (aof s) ++ wire [set_ex k v n; push k x]).
Proof.
  intros Hs Hg1 Hg2 Hn Ht.
  destruct (execute_client_write w1 conn (set_ex k v n) s (b "+OK" ++ CRLF) Hs Hg1 eq_refl) as (s1 & Hx1 & Hs1 & Hl1 & Hf1); [by rewrite set_ex_result|].
  rewrite set_ex_result in Hl1, Hf1 by done. cbn [fst snd] in Hl1, Hf1.
  pose proof (deadline_seen _ (w_clock w2 0%nat) _ _ _ _ _ Hl1 ltac:(lia)) as Hk. replace (_ <=? _) with true in Hk by lia.
  pose proof (push_result_free (w_clock w2) _ _ x Hk) as Hp.
  destruct (execute_client_write w2 conn (push k x) s1 (b ":1" ++ CRLF) Hs1 Hg2 eq_refl) as (s2 & Hx2 & Hs2 & Hl2 & Hf2); [by rewrite Hp|].
  rewrite Hp in Hl2, Hf2. cbn [fst snd] in Hl2, Hf2. exists s1, s2. split; [done|]. split; [done|]. split; [by rewrite Hl2, lookup_insert_eq|].
  intros Hr. destruct (Hf1 Hr eq_refl) as [Hr1 E1]. destruct (Hf2 Hr1 eq_refl) as [_ E2]. rewrite E2, E1, <- app_assoc. unfold wire. cbn [map concat].
  by rewrite app_nil_r.
Qed.

(** Elsewhere, in the log or in the stream, it comes before. *)
Lemma execute_elsewhere w c s :
  is_replica_client c = true -> is_write (upper_name (argv c)) = true -> store_ok (store s) -> unlimited (store s) ->
  w_snapshot w <= w_clock w 0%nat -> clock_forward w -> log_answers (aof s) ->
  (forall res, (write_result (w_clock w) (live (w_clock w 0%nat) (store s)) (argv c)).1 = Ok res -> exists enc, encode_value res = Ok enc) ->
  exists o s', execute w c s = (Ok o, s') /\ store_ok (store s') /\ unlimited (store s') /\ log_answers (aof s') /\
    live (w_clock w 0%nat) (store s') = (write_result (w_clock w) (live (w_clock w 0%nat) (store s)) (argv c)).2 /\
    (is_loading c = true -> aof s' = aof s).
Proof.
  intros Hc Hw Hok Hun Hsn Hclk Hl Henc.
  destruct (execute_write_at w c s Hw Hok Hun Hsn Hclk (or_intror Hc) (or_intror Hc) (or_intror Hc)) as (st' & H1 & H2 & H3 & Hx).
  cbv zeta in *. rewrite Hx. destruct (write_result _ _ _) as [[res|e] m']; cbn [fst snd] in *; [|by eexists _, _].
  destruct (Henc res eq_refl) as [enc He]. unfold finish_command. rewrite Hc, Hw, !andb_false_r. cbn [andb]. destruct (is_loading c); cbn [negb].
  - rewrite He. by eexists _, _.
  - unfold log_command. destruct (append_log_answers (w_append w 0) (argv c) (aof (set_store s st')) Hl) as (r & l' & -> & Hl' & [->|[m ->]]).
    + rewrite He. eexists _, _. split; [reflexivity|]. by split_and!.
    + eexists _, _. split; [reflexivity|]. by split_and!.
Qed.

Lemma run_elsewhere w1 w2 c1 c2 k v n x s :
  argv c1 = set_ex k v n -> argv c2 = push k x -> is_replica_client c1 = true -> is_replica_client c2 = true ->
  store_ok (store s) -> unlimited (store s) -> log_answers (aof s) ->
  w_snapshot w1 <= w_clock w1 0%nat -> clock_forward w1 -> w_snapshot w2 <= w_clock w2 0%nat -> clock_forward w2 ->
  0 < n < 10 ^ int_max_str_digits -> w_clock w1 0%nat <= w_clock w2 0%nat < w_clock w1 0%nat + n * 1000 ->
  exists o1 o2 s1 s2, execute w1 c1 s = (Ok o1, s1) /\ execute w2 c2 s1 = (Ok o2, s2) /\
    live (w_clock w2 0%nat) (store s2) !! k = Some (fresh (VBytes v) (Some (w_clock w1 0%nat + n * 1000))) /\
    (is_loading c1 = true -> is_loading c2 = true -> aof s2 = aof s).
Proof.
  intros E1 E2 Hc1 Hc2 Hok Hun Hl Hsn1 Hck1 Hsn2 Hck2 Hn Ht.
  destruct (execute_elsewhere w1 c1 s Hc1) as (o1 & s1 & Hx1 & Hok1 & Hun1 & Hl1 & Hv1 & Ha1); rewrite ?E1, ?set_ex_result; try done.
  { intros res [= <-]. by eexists. }
  rewrite E1, set_ex_result in Hv1 by done. cbn [snd] in Hv1.
  pose proof (deadline_seen _ (w_clock w2 0%nat) _ _ _ _ _ Hv1 ltac:(lia)) as Hk. replace (_ <=? _) with false in Hk by lia.
  pose proof (push_result_string (w_clock w2) _ _ x _ _ Hk) as Hp.
  destruct (execute_elsewhere w2 c2 s1 Hc2) as (o2 & s2 & Hx2 & _ & _ & _ & Hv2 & Ha2); rewrite ?E2, ?Hp; try done.
  rewrite E2, Hp in Hv2. exists o1, o2, s1, s2. split; [done|]. split; [done|]. rewrite Hv2. split; [done|]. intros L1 L2. by rewrite (Ha2 L2), (Ha1 L1).
Qed.

Lemma started_steady cfg rid :
  aof_enabled cfg = true -> is_replica cfg = false -> requirepass cfg = None -> cfg_maxmemory_bytes cfg <= 0 -> steady (started_server cfg rid).
Proof.
  intros He Hr Hp Hm. destruct (started_serving cfg rid He Hr Hp) as ([[H1 H2] H3 H4 H5] & _). split; [done| |by right|done|done].
  unfold started_server, start, load_persistence. simpl. rewrite andb_false_r. unfold open_. simpl. by rewrite He.
Qed.

(** ** Properties *)

(** C37 A restart loses an acknowledged write.  A client sets a key with a
    deadline of [n] seconds; after the deadline it pushes an element to a list
    under the same key, which is acknowledged.  The server is restarted on its
    log, which holds both commands and takes less than [n] seconds to replay: the
    restart succeeds, but the key holds the old string again, with a new deadline,
    and the list is gone, since the push was refused during the replay. *)
Theorem replay_loses_write cfg rid rid' w1 w2 conn k v n x ws now :
  aof_enabled cfg = true -> is_replica cfg = false -> requirepass cfg = None -> cfg_maxmemory_bytes cfg <= 0 ->
  0 <= proto_max_bulk_len cfg < 10 ^ int_max_str_digits -> Forall (loggable (proto_max_bulk_len cfg)) [set_ex k v n; push k x] ->
  zlen (wire [set_ex k v n; push k x]) <= Z.min 32000000 (persistence_max_load_bytes cfg) ->
  good_world w1 -> good_world w2 -> (forall i, good_world (ws i)) -> 0 < n < 10 ^ int_max_str_digits ->
  w_clock w1 0%nat + n * 1000 <= w_clock w2 0%nat ->
  w_clock (ws 0%nat) 0%nat <= w_clock (ws 1%nat) 0%nat < w_clock (ws 0%nat) 0%nat + n * 1000 ->
  exists s1 s2 s3, execute w1 (client_ctx conn (set_ex k v n)) (started_server cfg rid) = (Ok (Some (b "+OK" ++ CRLF)), s1) /\
    execute w2 (client_ctx conn (push k x)) s1 = (Ok (Some (b ":1" ++ CRLF)), s2) /\
    live (w_clock w2 0%nat) (store s2) !! k = Some (fresh (VDeque [x]) None) /\
    start ws now None (new_server cfg rid' (file (aof s2)) None) = (Ok tt, s3) /\
    live (w_clock (ws 1%nat) 0%nat) (store s3) !! k = Some (fresh (VBytes v) (Some (w_clock (ws 0%nat) 0%nat + n * 1000))).
Proof.
  intros He Hr Hp Hm Hmbl Hlog Hz Hg1 Hg2 Hg Hn Ht1 Ht2. destruct (started_serving cfg rid He Hr Hp) as ([_ Hrd _ _] & _ & Hf0 & _).
  destruct (master_run w1 w2 conn k v n x _ (started_steady cfg rid He Hr Hp Hm) Hg1 Hg2 Hn Ht1) as (s1 & s2 & Hx1 & Hx2 & Hk & Hf).
  specialize (Hf Hrd). rewrite Hf0 in Hf. cbn [app] in Hf. set (n0 := new_server cfg rid' (wire [set_ex k v n; push k x]) None).
  destruct (run_elsewhere (ws 0%nat) (ws 1%nat) (replay_ctx (set_ex k v n)) (replay_ctx (push k x)) k v n x n0)
    as (o1 & o2 & s3 & s4 & Hr1 & Hr2 & Hv & Ha); try done; try apply Hg; [apply new_plain|by right; left|].
  pose proof (load_log cfg rid' [set_ex k v n; push k x] ws now He ltac:(done) Hmbl Hlog Hz) as Hload. fold n0 in Hload.
  cbn [apply_all replay_command] in Hload. rewrite Hr1 in Hload. cbn [rmap replay_command] in Hload.
  unfold replay_command in Hload. rewrite Hr2 in Hload. cbn [rmap] in Hload.
  exists s1, s2. eexists. split; [done|]. split; [done|]. split; [done|]. rewrite Hf. fold n0. unfold start. rewrite Hload, (Ha eq_refl eq_refl).
  unfold open_. cbn [n0 new_server aof]. cbn [new_log enabled]. rewrite He. split; [reflexivity|exact Hv].
Qed.

(** A deadline of ten seconds; the push comes after twenty, the restart after a
    minute. *)
Lemma replay_loses_write_witness :
  exists s1 s2 s3, execute (world_at 0) (client_ctx 1 (set_ex (b "k") (b "old") 10)) (started_server default_config (u "abc")) = (Ok (Some (b "+OK" ++ CRLF)), s1) /\
    execute (world_at 20000) (client_ctx 1 (push (b "k") (b "new"))) s1 = (Ok (Some (b ":1" ++ CRLF)), s2) /\
    live 20000 (store s2) !! b "k" = Some (fresh (VDeque [b "new"]) None) /\
    start (fun i => world_at (60000 + Z.of_nat i)) 60000 None (new_server default_config (u "def") (file (aof s2)) None) = (Ok tt, s3) /\
    live 60001 (store s3) !! b "k" = Some (fresh (VBytes (b "old")) (Some 70000)).
Proof.
  apply (replay_loses_write default_config (u "abc") (u "def") (world_at 0) (world_at 20000) 1 (b "k") (b "old") 10 (b "new")
           (fun i => world_at (60000 + Z.of_nat i)) 60000).
  - reflexivity.
  - reflexivity.
  - reflexivity.
  - apply Z.leb_le; reflexivity.
  - split; [apply Z.leb_le|apply Z.ltb_lt]; vm_compute; reflexivity.
  - apply (bool_decide_unpack _). vm_compute. exact I.
  - apply Z.leb_le; vm_compute; reflexivity.
  - apply world_at_good.
  - apply world_at_good.
  - intros i. apply world_at_good.
  - split; [apply Z.ltb_lt|apply Z.ltb_lt]; vm_compute; reflexivity.
  - apply Z.leb_le; reflexivity.
  - split; [apply Z.leb_le|apply Z.ltb_lt]; reflexivity.
Defined.

(** C40 A replica diverges for good.  The master executes the same two commands,
    the push after the deadline; the replica executes them as they arrive, and
    between them less than [n] seconds pass on its side, because the first was
    delayed.  The master holds the list, the replica the string. *)
Theorem expiry_not_replicated w1 w2 w1' w2' conn k v n x s r :
  steady s -> store_ok (store r) -> unlimited (store r) -> log_answers (aof r) ->
  good_world w1 -> good_world w2 -> good_world w1' -> good_world w2' -> 0 < n < 10 ^ int_max_str_digits ->
  w_clock w1 0%nat + n * 1000 <= w_clock w2 0%nat ->
  w_clock w1' 0%nat <= w_clock w2' 0%nat < w_clock w1' 0%nat + n * 1000 ->
  exists o1 o2 s1 s2 r1 r2, execute w1 (client_ctx conn (set_ex k v n)) s = (Ok o1, s1) /\ execute w2 (client_ctx conn (push k x)) s1 = (Ok o2, s2) /\
    apply_replicated_command w1' (set_ex k v n) r = (Ok tt, r1) /\ apply_replicated_command w2' (push k x) r1 = (Ok tt, r2) /\
    live (w_clock w2 0%nat) (store s2) !! k = Some (fresh (VDeque [x]) None) /\
    live (w_clock w2' 0%nat) (store r2) !! k = Some (fresh (VBytes v) (Some (w_clock w1' 0%nat + n * 1000))).
Proof.
  intros Hs Hok Hun Hl Hg1 Hg2 Hg1' Hg2' Hn Ht Ht'. destruct (master_run w1 w2 conn k v n x s Hs Hg1 Hg2 Hn Ht) as (s1 & s2 & Hx1 & Hx2 & Hk & _).
  destruct (run_elsewhere w1' w2' (replicated_ctx (set_ex k v n)) (replicated_ctx (push k x)) k v n x r)
    as (o1 & o2 & r1 & r2 & Hr1 & Hr2 & Hv & _); try done; try apply Hg1'; try apply Hg2'.
  unfold apply_replicated_command. eexists _, _, s1, s2, r1, r2. rewrite Hx1, Hx2, Hr1, Hr2. by split_and!.
Qed.

(** The first command reaches the replica fifteen seconds late. *)
Lemma expiry_not_replicated_witness :
  exists o1 o2 s1 s2 r1 r2, execute (world_at 0) (client_ctx 1 (set_ex (b "k") (b "old") 10)) (started_server default_config (u "abc")) = (Ok o1, s1) /\
    execute (world_at 20000) (client_ctx 1 (push (b "k") (b "new"))) s1 = (Ok o2, s2) /\
    apply_replicated_command (world_at 15000) (set_ex (b "k") (b "old") 10) ex_replica = (Ok tt, r1) /\
    apply_replicated_command (world_at 20001) (push (b "k") (b "new")) r1 = (Ok tt, r2) /\
    live 20000 (store s2) !! b "k" = Some (fresh (VDeque [b "new"]) None) /\
    live 20001 (store r2) !! b "k" = Some (fresh (VBytes (b "old")) (Some 25000)).
Proof.
  apply (expiry_not_replicated (world_at 0) (world_at 20000) (world_at 15000) (world_at 20001) 1 (b "k") (b "old") 10 (b "new")
           (started_server default_config (u "abc")) ex_replica).
  - apply started_steady; reflexivity.
  - apply new_store_ok.
  - apply Z.leb_le; reflexivity.
  - right. right. right. split; try reflexivity; split; reflexivity.
  - apply world_at_good.
  - apply world_at_good.
  - apply world_at_good.
  - apply world_at_good.
  - split; [apply Z.ltb_lt|apply Z.ltb_lt]; vm_compute; reflexivity.
  - apply Z.leb_le; reflexivity.
  - split; [apply Z.leb_le|apply Z.ltb_lt]; reflexivity.
Defined.
