(* ===== verification/Lifecycle.v ===== *)
(** * The life of the process ([server.py], [cli.py])

    [start] and [stop] with everything around the keyspace and the log: the
    checks, the listening socket, the replica client and the background tasks;
    [serve_forever]; and the [_run] of the command line, which waits for a
    signal and shuts the server down. *)
From stdpp Require Import relations.
From S2P Require Import Prelude PyText PyFloat Encoder Parser Dict Store StoreSpec Eviction Crc32 Rdb AofFile AofLog Config Security Master Commands Server Client Recovery Replica System Durability Shutdown.
Local Open Scope Z_scope.

(** ** State *)

(** [ReplicaClient] as an object with a task. *)
Record ReplicaHandle := mkHandle {
  rh_client : ReplicaClient;
  rh_link_up : bool;
  rh_task : bool;
  rh_stop : bool
}.

(** [ReplicaClient.start] *)
Definition replica_start (h : ReplicaHandle) : ReplicaHandle := mkHandle (rh_client h) (rh_link_up h) true false.

(** [ReplicaClient.stop] *)
Definition replica_stop (h : ReplicaHandle) : ReplicaHandle := mkHandle (rh_client h) false false true.

(** The tasks of [_bg_tasks]. *)
Inductive BgTask := ReplicaTask | ActiveExpireTask | PeriodicSaveTask.

(** [RedisServer] with the fields that its life cycle uses: [redis] holds the
    others.  [server_open] says that [_server] is not [None], [listening] that its
    sockets are open. *)
Record Process := mkProcess {
  redis : RedisServer;
  started : bool;
  started_at : pyfloat;
  server_open : bool;
  listening : bool;
  replica_ : option ReplicaHandle;
  bg_tasks : list BgTask
}.

Definition new_process (s : RedisServer) : Process := mkProcess s false (float_of_Z 0) false false None [].

Definition set_redis (p : Process) (s : RedisServer) : Process :=
  mkProcess s (started p) (started_at p) (server_open p) (listening p) (replica_ p) (bg_tasks p).

(** [self._server.close()] *)
Definition close_server (p : Process) : Process :=
  mkProcess (redis p) (started p) (started_at p) (server_open p) (if server_open p then false else listening p) (replica_ p) (bg_tasks p).

Definition replica_link_status (p : Process) : str :=
  match replica_ p with Some h => if rh_link_up h then u "up" else u "down" | None => u "down" end.

(** [uptime_seconds] at the time [now]. *)
Definition uptime_seconds (now : pyfloat) (p : Process) : result Z :=
  if negb (started p) then Ok 0 else rmap (Z.max 0) (int_of_float (float_sub now (started_at p))).

(** ** [start] *)

(** What [asyncio.start_server] does: it listens, it raises, or it is
    cancelled while it waits. *)
Inductive listen_outcome := Listens | ListenFails (e : exn) | ListenCancelled.

(** What the outside world decides during [start]. *)
Record StartWorld := mkStart {
  sw_time : pyfloat;
  sw_mkdir : option str;
  sw_replay : nat -> World;
  sw_now : Z;
  sw_open : option str;
  sw_listen : listen_outcome
}.

(** How a coroutine ends: with a value, with an exception, or cancelled. *)
Inductive ending := Ended | Raised_ (e : exn) | Cancelled.

Definition periodic_tasks (c : Config) : list BgTask :=
  ActiveExpireTask :: (if 0 <? rdb_save_seconds c then [PeriodicSaveTask] else []).

Section Start.

(** The two parameters of the network check (see [Security]). *)
Context (unicode_strip_lower : str -> str) (mapped_loopback : bool).

(** From the listening socket to [self._started = True]. *)
Definition start_tasks (p : Process) : ending * Process :=
  let c := config (redis p) in
  if is_replica c then
    if negb (empty_str (replicaof_host c)) && bool_decide (replicaof_host c <> None) &&
       negb (default 0 (replicaof_port c) =? 0) then
      let h := replica_start (mkHandle (replica_client c) false false false) in
      (Ended, mkProcess (redis p) true (started_at p) true true (Some h) (bg_tasks p ++ ReplicaTask :: periodic_tasks c))
    else (Raised_ AssertionError, mkProcess (redis p) (started p) (started_at p) true true (replica_ p) (bg_tasks p))
  else (Ended, mkProcess (redis p) true (started_at p) true true (replica_ p) (bg_tasks p ++ periodic_tasks c)).

Definition start_process (w : StartWorld) (p : Process) : ending * Process :=
  if started p then (Ended, p)
  else match validate_network_security unicode_strip_lower mapped_loopback (config (redis p)) with
  | Err e => (Raised_ e, p)
  | Ok _ =>
      let p1 := mkProcess (redis p) (started p) (sw_time w) (server_open p) (listening p) (replica_ p) (bg_tasks p) in
      match sw_mkdir w with
      | Some m => (Raised_ (OSError m), p1)
      | None =>
          match Server.start (sw_replay w) (sw_now w) (sw_open w) (redis p1) with
          | (Err e, s) => (Raised_ e, set_redis p1 s)
          | (Ok _, s) =>
              match sw_listen w with
              | ListenFails e => (Raised_ e, set_redis p1 s)
              | ListenCancelled => (Cancelled, set_redis p1 s)
              | Listens => start_tasks (set_redis p1 s)
              end
          end
      end
  end.

(** ** [serve_forever] and [stop] *)

(** [asyncio.Server.wait_closed] after [close]: until Python 3.11 it returns at
    once, from Python 3.12 on it waits for the end of every connection that the
    server has accepted (one whose transport is already being closed ends by
    itself). *)
Inductive python := Python311 | Python312.

Definition wait_closed_returns (py : python) (s : RedisServer) : bool :=
  match py with Python311 => true | Python312 => bool_decide (writers s = []) end.

(** [stop] up to [self._server.close()]. *)
Definition stop_tasks (w : StopWorld) (p : Process) : Process :=
  mkProcess (stop_saving w (redis p)) (started p) (started_at p) (server_open p) (listening p) None [].

(** The rest of it. *)
Definition stop_connections (w : StopWorld) (p : Process) : Process :=
  mkProcess (stop_closing w (redis p)) false (started_at p) false (listening p) (replica_ p) (bg_tasks p).

Definition stop_process (py : python) (w : StopWorld) (p : Process) : awaited unit * Process :=
  let p1 := close_server (stop_tasks w p) in
  if server_open p1 && negb (wait_closed_returns py (redis p1)) then (Waits, p1)
  else (Returns tt, stop_connections w p1).

(** ** [_run] *)

(** [await serve_task] in the [finally], after [serve_task.cancel()]: a task
    that has ended with an exception raises it again; one that is serving
    leaves [async with self._server], which closes the server and waits. *)
Definition await_serve_task (py : python) (t : ending) (p : Process) : awaited (option exn) * Process :=
  match t with
  | Raised_ e => (Returns (Some e), p)
  | Cancelled => (Returns None, p)
  | Ended => (if wait_closed_returns py (redis p) then Returns None else Waits, close_server p)
  end.

(** How the process ends. *)
Inductive exit := Exit (code : Z) | Crash (e : exn).

(** The [finally] of [_run] and what [main] makes of it; [body] is the
    exception that the [try] left pending, if any. *)
Definition run_finally (py : python) (w : StopWorld) (body : option exn) (t : ending) (p : Process) : awaited exit * Process :=
  match await_serve_task py t p with
  | (Waits, p1) => (Waits, p1)
  | (Returns (Some e), p1) => (Returns (Crash e), p1)
  | (Returns None, p1) =>
      match stop_process py w p1 with
      | (Waits, p2) => (Waits, p2)
      | (Returns _, p2) => (Returns (match body with Some e => Crash e | None => Exit 0 end), p2)
      end
  end.

(** [serve_forever] up to the signal (or to the cancellation by Ctrl+C, which
    [main] also turns into the status 0): [live] is what clients and background
    tasks do to the server meanwhile.  It ends by itself only when [start]
    raises. *)
Definition serve_forever (sw : StartWorld) (live : RedisServer -> RedisServer) (p : Process) : ending * Process :=
  match start_process sw p with
  | (Ended, p1) => (Ended, set_redis p1 (live (redis p1)))
  | r => r
  end.

(** [_run] on a server object. *)
Definition run_server (py : python) (sw : StartWorld) (live : RedisServer -> RedisServer) (w : StopWorld) (p : Process) :
    awaited exit * Process :=
  let '(t, p1) := serve_forever sw live p in
  run_finally py w (match t with Raised_ e => Some e | _ => None end) t p1.

(** [main]: [parser.error] ends the process with status 2. *)
Definition main (py : python) (absolute : str -> str) (a : Args) (rid : str) (aof_contents : bytes) (rdb : option bytes)
    (sw : StartWorld) (live : RedisServer -> RedisServer) (w : StopWorld) : awaited exit :=
  match config_from_args absolute a with
  | inl _ => Returns (Exit 2)
  | inr c => (run_server py sw live w (new_process (new_server c rid aof_contents rdb))).1
  end.

End Start.

(** ** Starting *)

(** The configuration that the command line makes passes the assertion. *)
Lemma start_tasks_ends p : config_ok (config (redis p)) -> (start_tasks p).1 = Ended.
Proof.
  intros Hc. pose proof (cok_replica _ Hc) as Hr. unfold start_tasks. destruct (is_replica (config (redis p))); [|done].
  destruct Hr as (h & q & -> & Hh & -> & Hq). simpl. destruct h; [done|]. by replace (q =? 0) with false by lia.
Qed.

(** ** Stopping *)


Section Runs.
Context (usl : str -> str) (ml : bool) (py : python) (cfg : Config) (rid : str) (sw : StartWorld) (live : RedisServer -> RedisServer) (w : StopWorld).
Hypothesis Hsec : validate_network_security usl ml cfg = Ok tt.
Hypothesis Hdir : sw_mkdir sw = None.
Hypothesis Hopen : sw_open sw = None.

Let p0 : Process := new_process (new_server cfg rid [] None).

Lemma start_process_fresh :
  start_process usl ml sw p0 =
    let p1 := set_redis (mkProcess (redis p0) false (sw_time sw) false false None []) (started_server cfg rid) in
    match sw_listen sw with
    | ListenFails e => (Raised_ e, p1)
    | ListenCancelled => (Cancelled, p1)
    | Listens => start_tasks p1
    end.
Proof. unfold start_process, p0. simpl. by rewrite Hsec, Hdir, Hopen, start_fresh. Qed.



End Runs.

(** ** Properties *)



(** A start that fails is not cleaned up: when the listening socket cannot
    be created, [_run] raises the exception a second time in its [finally],
    and [stop] is not called; the log stays open, with its tasks running. *)
Theorem failed_start_not_stopped usl ml py cfg rid sw live w e :
  validate_network_security usl ml cfg = Ok tt -> sw_mkdir sw = None -> sw_open sw = None -> sw_listen sw = ListenFails e ->
  aof_enabled cfg = true ->
  exists p, run_server usl ml py sw live w (new_process (new_server cfg rid [] None)) = (Returns (Crash e), p) /\
    fh (aof (redis p)) = true /\ writer_task (aof (redis p)) = WriterIdle /\
    fsync_task (aof (redis p)) = bool_decide (aof_fsync cfg = everysec).
Proof.
  intros Hsec Hdir Hopen Hl He. unfold run_server, serve_forever. rewrite start_process_fresh, Hl by done. cbn. eexists. split; [reflexivity|].
  unfold started_server, Server.start, load_persistence. simpl. rewrite andb_false_r. unfold open_. simpl. rewrite He. simpl.
  unfold start_background_fsync. simpl. rewrite ?He. done.
Qed.

(** The default configuration; loopback address, log enabled. *)
Definition ex_start (l : listen_outcome) : StartWorld := mkStart (float_of_Z 0) None (fun _ => ex_world) 0 None l.
Definition ex_stop : StopWorld := mkStop [] RewriteOk 0 0 None (fun _ s => s).






Lemma failed_start_not_stopped_witness :
  exists p, run_server id false Python311 (ex_start (ListenFails (OSError (u "address already in use")))) id ex_stop
    (new_process (new_server default_config (u "abc") [] None)) = (Returns (Crash (OSError (u "address already in use"))), p) /\ fh (aof (redis p)) = true.
Proof.
  destruct (failed_start_not_stopped id false Python311 default_config (u "abc") (ex_start (ListenFails (OSError (u "address already in use")))) id ex_stop
    (OSError (u "address already in use"))) as (p & H & H1 & _).
  1-5: reflexivity.
  exists p. split; [exact H|exact H1].
Defined.
